(** * kmz-gfx: the license-key service, embedded and checked

    The service is an Express application over a PostgreSQL store.  The
    embedding has three layers:

    - [Pg]: the store.  Tables are lists of rows in insertion order, every SQL
      statement of the code is a constructor of [stmt], and [sql] gives it its
      meaning together with the schema's constraints (primary keys from
      sequences, UNIQUE, REFERENCES, VARCHAR lengths, INTEGER range) and
      the typing of the parameters of the admin's UPDATE.
    - [Js]: the handlers' control flow.  An async handler is a tree of
      [Await] nodes, one per [await pool.query(...)]; try/catch is [try_catch].
      A handler can be run alone ([run], with store faults chosen by the
      environment) or interleaved with others at its await points
      ([interleave]).
    - the route handlers themselves, transcribed from index.js (the second
      program of src/server.js) and, for the issuance, activation and
      verification routes, from the earlier variant kept in the repository.

    The first server.js (the first program of src/server.js, over the tables
    of src/schema.sql) binds a key to a single device and runs every statement
    on the pool: it is embedded on its own, in state-passing style ([Direct],
    [Legacy]), as is the cleanup of the earlier variant, whose tables have no
    cascade ([EarlierCleanup]).

    Times are milliseconds since the epoch, as JavaScript's Date has them. *)

From Stdlib Require Import ZArith List String Ascii Bool Lia.
From Stdlib Require Import Permutation Sorted.
Import ListNotations.

Local Open Scope string_scope.
Local Open Scope Z_scope.

(* ================================================================== *)
(** * The store *)
(* ================================================================== *)

Module Pg.

(** ** Rows of the three relations (CREATE TABLE in [initDatabase]) *)

Record KeyRow : Type := mkKey {
  id : Z;                    (* SERIAL PRIMARY KEY *)
  key_string : string;       (* VARCHAR(255) UNIQUE NOT NULL *)
  duration_hours : Z;        (* INTEGER NOT NULL *)
  max_devices : Z;           (* INTEGER DEFAULT 1 *)
  used_devices : Z;          (* INTEGER DEFAULT 0 *)
  created_at : Z;            (* TIMESTAMP DEFAULT CURRENT_TIMESTAMP *)
  expires_at : Z;            (* TIMESTAMP *)
  status : string            (* VARCHAR(20) DEFAULT 'active' *)
}.

Record ActivationRow : Type := mkActivation {
  act_id : Z;                (* SERIAL PRIMARY KEY *)
  act_key_id : Z;            (* INTEGER NOT NULL REFERENCES keys(id) ON DELETE CASCADE *)
  act_device_id : string;    (* VARCHAR(255) NOT NULL, UNIQUE (key_id, device_id) *)
  act_ip_address : string;   (* VARCHAR(100) *)
  act_created_at : Z
}.

Record LogRow : Type := mkLog {
  log_id : Z;                (* SERIAL PRIMARY KEY *)
  log_key_id : Z;            (* INTEGER REFERENCES keys(id) ON DELETE CASCADE *)
  log_action : string;       (* VARCHAR(100) *)
  log_ip_address : string;   (* VARCHAR(100) *)
  log_user_agent : option string;  (* TEXT, NULL when the header is absent *)
  log_created_at : Z
}.

Record Tables : Type := mkTables {
  keys : list KeyRow;
  key_activations : list ActivationRow;
  key_logs : list LogRow;
  keys_id_seq : Z;
  key_activations_id_seq : Z;
  key_logs_id_seq : Z
}.

(** The state [initDatabase] leaves behind: it drops and recreates the three
    tables, so the sequences restart at 1. *)
Definition empty_tables : Tables := mkTables [] [] [] 1 1 1.

(** ** Errors raised by the store

    [err.code] is the SQLSTATE of a PostgreSQL error; an error of the driver
    (lost connection, timeout) carries no SQLSTATE. *)

Inductive pg_error : Type :=
| unique_violation             (* 23505 *)
| foreign_key_violation        (* 23503 *)
| string_data_right_truncation (* 22001 *)
| numeric_value_out_of_range   (* 22003 *)
| ambiguous_parameter          (* 42P08 *)
| connection_failure.

Definition err_code (e : pg_error) : string :=
  match e with
  | unique_violation => "23505"
  | foreign_key_violation => "23503"
  | string_data_right_truncation => "22001"
  | numeric_value_out_of_range => "22003"
  | ambiguous_parameter => "42P08"
  | connection_failure => ""
  end.

(** ** Column checks *)

(** The length of a string: its characters, for the ASCII text the service
    deals in (JavaScript counts UTF-16 units, PostgreSQL characters). *)
Definition strlen (s : string) : Z := Z.of_nat (String.length s).

Definition fits_varchar (n : Z) (s : string) : bool := strlen s <=? n.

Definition fits_integer (z : Z) : bool :=
  (-2147483648 <=? z) && (z <=? 2147483647).

(** ** Row selection *)

Definition key_has_string (s : string) (k : KeyRow) : bool :=
  String.eqb (key_string k) s.

Definition key_has_id (i : Z) (k : KeyRow) : bool := id k =? i.

Definition act_of_key (i : Z) (a : ActivationRow) : bool := act_key_id a =? i.

Definition act_of_device (i : Z) (d : string) (a : ActivationRow) : bool :=
  (act_key_id a =? i) && String.eqb (act_device_id a) d.

Definition log_of_key (i : Z) (l : LogRow) : bool := log_key_id l =? i.

Definition key_exists (t : Tables) (i : Z) : bool :=
  existsb (key_has_id i) (keys t).

(** SELECT COUNT( * ) FROM key_activations WHERE key_id = $1 *)
Definition count_activations (t : Tables) (i : Z) : Z :=
  Z.of_nat (List.length (filter (act_of_key i) (key_activations t))).

(** The fields an UPDATE of the admin route may assign.  The route puts the
    SET clause together from the fields of the request:
    [duration_hours = $n, expires_at = CURRENT_TIMESTAMP + INTERVAL '1 hour' * $n]
    for [duration_hours], [status = $n] and [max_devices = $n]. *)
Record KeyPatch : Type := mkPatch {
  set_duration_hours : option Z;
  set_status : option string;
  set_max_devices : option Z
}.

(** One hour, as [60 * 60 * 1000] in the code and [INTERVAL '1 hour'] in its
    SQL. *)
Definition hour : Z := 60 * 60 * 1000.

(** What the assignments of a patch make of a row. *)
Definition apply_patch (now : Z) (p : KeyPatch) (k : KeyRow) : KeyRow :=
  let k1 :=
    match set_duration_hours p with
    | Some d => mkKey (id k) (key_string k) d (max_devices k) (used_devices k)
                      (created_at k) (now + hour * d) (status k)
    | None => k
    end in
  let k2 :=
    match set_status p with
    | Some s => mkKey (id k1) (key_string k1) (duration_hours k1) (max_devices k1)
                      (used_devices k1) (created_at k1) (expires_at k1) s
    | None => k1
    end in
  match set_max_devices p with
  | Some m => mkKey (id k2) (key_string k2) (duration_hours k2) m
                    (used_devices k2) (created_at k2) (expires_at k2) (status k2)
  | None => k2
  end.

Definition set_key_status (s : string) (k : KeyRow) : KeyRow :=
  mkKey (id k) (key_string k) (duration_hours k) (max_devices k)
        (used_devices k) (created_at k) (expires_at k) s.

Definition incr_used_devices (k : KeyRow) : KeyRow :=
  mkKey (id k) (key_string k) (duration_hours k) (max_devices k)
        (used_devices k + 1) (created_at k) (expires_at k) (status k).

Definition with_keys (t : Tables) (ks : list KeyRow) : Tables :=
  mkTables ks (key_activations t) (key_logs t)
           (keys_id_seq t) (key_activations_id_seq t) (key_logs_id_seq t).

(** Update the rows selected by [sel] with [f]. *)
Definition update_where {A} (sel : A -> bool) (f : A -> A) (l : list A) : list A :=
  map (fun x => if sel x then f x else x) l.

(** Delete the key rows selected by [sel]; ON DELETE CASCADE removes the
    activations and log entries that reference them. *)
Definition delete_keys_where (sel : KeyRow -> bool) (t : Tables) : Tables :=
  let gone := map id (filter sel (keys t)) in
  let dead i := existsb (Z.eqb i) gone in
  mkTables (filter (fun k => negb (sel k)) (keys t))
           (filter (fun a => negb (dead (act_key_id a))) (key_activations t))
           (filter (fun l => negb (dead (log_key_id l))) (key_logs t))
           (keys_id_seq t) (key_activations_id_seq t) (key_logs_id_seq t).

(** Rows ordered by a timestamp, latest first (ORDER BY created_at DESC);
    rows with equal timestamps keep their table order. *)
Fixpoint insert_desc {A} (ts : A -> Z) (x : A) (l : list A) : list A :=
  match l with
  | [] => [x]
  | y :: l' => if ts y <? ts x then x :: y :: l' else y :: insert_desc ts x l'
  end.

Definition order_desc {A} (ts : A -> Z) (l : list A) : list A :=
  fold_left (fun acc x => insert_desc ts x acc) l [].

(** ** The SQL statements of the code

    [stmt A] is a statement whose result the code reads as an [A]: the rows
    of a SELECT or of a RETURNING clause, a count, or nothing.  Statements
    that mention CURRENT_TIMESTAMP, or fill a column from it, carry the time
    at which they run. *)

Inductive stmt : Type -> Type :=
(* SELECT * FROM keys WHERE key_string = $1 *)
| select_key_by_string (s : string) : stmt (list KeyRow)
(* SELECT * FROM key_activations WHERE key_id = $1 AND device_id = $2 *)
| select_activation (i : Z) (d : string) : stmt (list ActivationRow)
(* SELECT COUNT( * ) FROM key_activations WHERE key_id = $1 *)
| select_count_activations (i : Z) : stmt Z
(* SELECT k.*, (ka.device_id IS NOT NULL) AS device_activated FROM keys k
   LEFT JOIN key_activations ka ON k.id = ka.key_id AND ka.device_id = $2
   WHERE k.key_string = $1 *)
| select_key_with_device (s d : string) : stmt (list (KeyRow * bool))
(* SELECT k.* FROM keys k ORDER BY k.created_at DESC *)
| select_keys : stmt (list KeyRow)
(* SELECT * FROM key_logs WHERE key_id = $1 ORDER BY created_at DESC *)
| select_logs (i : Z) : stmt (list LogRow)
(* SELECT 1 *)
| select_1 : stmt unit
(* UPDATE keys SET status = 'expired' WHERE id = $1 *)
| update_status_expired (i : Z) : stmt unit
(* UPDATE keys SET status = 'expired'
   WHERE expires_at < CURRENT_TIMESTAMP AND status = 'active' RETURNING id *)
| update_expire_active (now : Z) : stmt (list Z)
(* UPDATE keys SET used_devices = used_devices + 1 WHERE id = $1 *)
| update_used_devices (i : Z) : stmt unit
(* UPDATE keys SET <assignments> WHERE id = $n RETURNING * *)
| update_key (now : Z) (p : KeyPatch) (i : Z) : stmt (list KeyRow)
(* INSERT INTO keys (key_string, duration_hours, max_devices, expires_at, status)
   VALUES ($1, $2, $3, $4, $5) RETURNING * *)
| insert_key (now : Z) (s : string) (dur maxd exp : Z) (st : string)
    : stmt (list KeyRow)
(* INSERT INTO key_activations (key_id, device_id, ip_address) VALUES ($1, $2, $3) *)
| insert_activation (now : Z) (i : Z) (d ip : string) : stmt unit
(* INSERT INTO key_logs (key_id, action, ip_address, user_agent)
   VALUES ($1, $2, $3, $4) *)
| insert_log (now : Z) (i : Z) (action ip : string) (ua : option string)
    : stmt unit
(* DELETE FROM key_logs WHERE key_id = $1 *)
| delete_logs (i : Z) : stmt unit
(* DELETE FROM key_activations WHERE key_id = $1 *)
| delete_activations (i : Z) : stmt unit
(* DELETE FROM keys WHERE id = $1 RETURNING * *)
| delete_key (i : Z) : stmt (list KeyRow)
(* DELETE FROM keys WHERE expires_at < CURRENT_TIMESTAMP RETURNING * *)
| delete_expired_keys (now : Z) : stmt (list KeyRow).

Definition expired_at (now : Z) (k : KeyRow) : bool := expires_at k <? now.

Definition active_and_expired (now : Z) (k : KeyRow) : bool :=
  expired_at now k && String.eqb (status k) "active".

Definition join_device (t : Tables) (d : string) (k : KeyRow)
  : list (KeyRow * bool) :=
  match filter (act_of_device (id k) d) (key_activations t) with
  | [] => [(k, false)]
  | matches => map (fun _ => (k, true)) matches
  end.

(** The assignments for [duration_hours] use one parameter twice: as the
    value of an INTEGER column, and as the factor of an interval, which is a
    double precision.  PostgreSQL deduces both types for it and refuses to
    prepare the statement (42P08), whatever the value sent. *)
Definition well_typed (p : KeyPatch) : bool :=
  match set_duration_hours p with
  | Some _ => false
  | None => true
  end.

(** The meaning of a statement: the new tables and the result, or the error
    raised, in which case the tables are as before.

    [sql] is exact for ids within INTEGER, as every id drawn from
    [keys_id_seq] is: for a number beyond INTEGER in the URL of an admin
    route the store refuses the parameter (22003) and the route answers
    500.  And it is exact up to the numbering after a refused INSERT, which
    leaves its sequence where it was here, where PostgreSQL keeps the value
    drawn: the ids that follow are one higher there, the rows otherwise the
    same. *)
Definition sql {A} (q : stmt A) (t : Tables) : pg_error + Tables * A :=
  match q in stmt A return pg_error + Tables * A with
  | select_key_by_string s =>
      inr (t, filter (key_has_string s) (keys t))
  | select_activation i d =>
      inr (t, filter (act_of_device i d) (key_activations t))
  | select_count_activations i =>
      inr (t, count_activations t i)
  | select_key_with_device s d =>
      inr (t, flat_map (join_device t d) (filter (key_has_string s) (keys t)))
  | select_keys =>
      inr (t, order_desc created_at (keys t))
  | select_logs i =>
      inr (t, order_desc log_created_at (filter (log_of_key i) (key_logs t)))
  | select_1 =>
      inr (t, tt)
  | update_status_expired i =>
      inr (with_keys t (update_where (key_has_id i) (set_key_status "expired") (keys t)),
           tt)
  | update_expire_active now =>
      inr (with_keys t (update_where (active_and_expired now)
                                     (set_key_status "expired") (keys t)),
           map id (filter (active_and_expired now) (keys t)))
  | update_used_devices i =>
      inr (with_keys t (update_where (key_has_id i) incr_used_devices (keys t)), tt)
  | update_key now p i =>
      if negb (well_typed p) then inl ambiguous_parameter
      else if negb (match set_status p with Some s => fits_varchar 20 s | None => true end)
      then inl string_data_right_truncation
      else if negb (match set_max_devices p with Some m => fits_integer m | None => true end)
      then inl numeric_value_out_of_range
      else inr (with_keys t (update_where (key_has_id i) (apply_patch now p) (keys t)),
                map (apply_patch now p) (filter (key_has_id i) (keys t)))
  | insert_key now s dur maxd exp st =>
      if negb (fits_varchar 255 s) then inl string_data_right_truncation
      else if negb (fits_integer dur && fits_integer maxd)
      then inl numeric_value_out_of_range
      else if negb (fits_varchar 20 st) then inl string_data_right_truncation
      else if existsb (key_has_string s) (keys t) then inl unique_violation
      else
        let row := mkKey (keys_id_seq t) s dur maxd 0 now exp st in
        inr (mkTables (keys t ++ [row]) (key_activations t) (key_logs t)
                      (keys_id_seq t + 1) (key_activations_id_seq t)
                      (key_logs_id_seq t),
             [row])
  | insert_activation now i d ip =>
      if negb (fits_varchar 255 d && fits_varchar 100 ip)
      then inl string_data_right_truncation
      else if existsb (act_of_device i d) (key_activations t)
      then inl unique_violation
      else if negb (key_exists t i) then inl foreign_key_violation
      else
        let row := mkActivation (key_activations_id_seq t) i d ip now in
        inr (mkTables (keys t) (key_activations t ++ [row]) (key_logs t)
                      (keys_id_seq t) (key_activations_id_seq t + 1)
                      (key_logs_id_seq t),
             tt)
  | insert_log now i action ip ua =>
      if negb (fits_varchar 100 action && fits_varchar 100 ip)
      then inl string_data_right_truncation
      else if negb (key_exists t i) then inl foreign_key_violation
      else
        let row := mkLog (key_logs_id_seq t) i action ip ua now in
        inr (mkTables (keys t) (key_activations t) (key_logs t ++ [row])
                      (keys_id_seq t) (key_activations_id_seq t)
                      (key_logs_id_seq t + 1),
             tt)
  | delete_logs i =>
      inr (mkTables (keys t) (key_activations t)
                    (filter (fun l => negb (log_of_key i l)) (key_logs t))
                    (keys_id_seq t) (key_activations_id_seq t) (key_logs_id_seq t),
           tt)
  | delete_activations i =>
      inr (mkTables (keys t)
                    (filter (fun a => negb (act_of_key i a)) (key_activations t))
                    (key_logs t)
                    (keys_id_seq t) (key_activations_id_seq t) (key_logs_id_seq t),
           tt)
  | delete_key i =>
      inr (delete_keys_where (key_has_id i) t, filter (key_has_id i) (keys t))
  | delete_expired_keys now =>
      inr (delete_keys_where (expired_at now) t, filter (expired_at now) (keys t))
  end.

(** ** Connections and transactions

    [pool.query] runs a statement on its own, committed at once.  A client
    checked out with [pool.connect] can open a transaction: between BEGIN and
    COMMIT its statements work on a private copy of the tables, which COMMIT
    installs and ROLLBACK discards. *)

Record DB : Type := mkDB {
  committed : Tables;
  open_tx : option Tables
}.

Inductive query : Type -> Type :=
| pool_query {A} (q : stmt A) : query A
| pool_connect : query unit
| client_query {A} (q : stmt A) : query A
| client_begin : query unit
| client_commit : query unit
| client_rollback : query unit.

Definition exec {A} (q : query A) (db : DB) : DB * (pg_error + A) :=
  match q in query A return DB * (pg_error + A) with
  | pool_query s =>
      match sql s (committed db) with
      | inl e => (db, inl e)
      | inr (t, a) => (mkDB t (open_tx db), inr a)
      end
  | pool_connect => (db, inr tt)
  | client_query s =>
      match open_tx db with
      | Some w =>
          match sql s w with
          | inl e => (db, inl e)
          | inr (w', a) => (mkDB (committed db) (Some w'), inr a)
          end
      | None =>
          match sql s (committed db) with
          | inl e => (db, inl e)
          | inr (t, a) => (mkDB t None, inr a)
          end
      end
  | client_begin => (mkDB (committed db) (Some (committed db)), inr tt)
  | client_commit =>
      match open_tx db with
      | Some w => (mkDB w None, inr tt)
      | None => (db, inr tt)
      end
  | client_rollback => (mkDB (committed db) None, inr tt)
  end.

(** A fault is an error the environment makes a query fail with, whatever the
    tables hold (the store is unreachable, the connection drops).  The query
    then has no effect; a connection that fails while rolling back is closed
    by the server, which discards its transaction. *)
Definition fail {A} (e : pg_error) (q : query A) (db : DB) : DB * (pg_error + A) :=
  match q with
  | client_rollback => (mkDB (committed db) None, inl e)
  | _ => (db, inl e)
  end.

Definition step {A} (fault : option pg_error) (q : query A) (db : DB)
  : DB * (pg_error + A) :=
  match fault with
  | Some e => fail e q db
  | None => exec q db
  end.

Definition fresh_db : DB := mkDB empty_tables None.

End Pg.

(* ================================================================== *)
(** * Handlers as trees of awaits *)
(* ================================================================== *)

Module Js.
Import Pg.

(** A computation that ends with a value ([Ret]), ends with a thrown store
    error ([Throw]), or waits for a query and goes on with its outcome. *)
Inductive Prog (R : Type) : Type :=
| Ret (r : R)
| Throw (e : pg_error)
| Await {A : Type} (q : query A) (k : pg_error + A -> Prog R).

Arguments Ret {R} r.
Arguments Throw {R} e.
Arguments Await {R A} q k.

(** [await q]: the promise of [q] resolves to its result or rejects. *)
Definition await {A} (q : query A) : Prog A :=
  Await q (fun r => match r with inl e => Throw e | inr a => Ret a end).

Fixpoint bind {A B} (m : Prog A) (f : A -> Prog B) : Prog B :=
  match m with
  | Ret a => f a
  | Throw e => Throw e
  | Await q k => Await q (fun r => bind (k r) f)
  end.

(** try { m } catch (err) { h err } *)
Fixpoint try_catch {A} (m : Prog A) (h : pg_error -> Prog A) : Prog A :=
  match m with
  | Ret a => Ret a
  | Throw e => h e
  | Await q k => Await q (fun r => try_catch (k r) h)
  end.

Declare Scope js_scope.
Delimit Scope js_scope with js.
Notation "x <- m ;; k" := (bind m (fun x => k))
  (at level 61, m at next level, right associativity) : js_scope.
Notation "m ;; k" := (bind m (fun _ => k))
  (at level 61, right associativity) : js_scope.
Notation "'try' m 'catch' e => h" := (try_catch m (fun e => h))
  (at level 62, m at level 200, e name, h at level 200) : js_scope.

(** ** Running one handler to its end

    [faults] gives, for each query in the order the handler issues them, the
    fault the environment injects, if any; past the end of the list there is
    none. *)
Fixpoint run {R} (p : Prog R) (faults : list (option pg_error)) (db : DB)
  : DB * (pg_error + R) :=
  match p with
  | Ret r => (db, inr r)
  | Throw e => (db, inl e)
  | Await q k =>
      let (db', r) := step (hd None faults) q db in
      run (k r) (tl faults) db'
  end.

(** ** Interleaving handlers

    Node runs one handler until its next await, so handlers in flight
    interleave at their queries.  A transaction block is isolated from the
    other connections: from BEGIN to COMMIT or ROLLBACK it is advanced as one
    step. *)
Fixpoint advance {R} (p : Prog R) (db : DB) : Prog R * DB :=
  match p with
  | Await q k =>
      let (db', r) := exec q db in
      match open_tx db' with
      | Some _ => advance (k r) db'
      | None => (k r, db')
      end
  | _ => (p, db)
  end.

Fixpoint replace_nth {A} (n : nat) (x : A) (l : list A) : list A :=
  match l, n with
  | [], _ => []
  | _ :: l', O => x :: l'
  | y :: l', S n' => y :: replace_nth n' x l'
  end.

(** [schedule] names, turn by turn, the handler that is resumed. *)
Fixpoint interleave {R} (schedule : list nat) (hs : list (Prog R)) (db : DB)
  : list (Prog R) * DB :=
  match schedule with
  | [] => (hs, db)
  | i :: rest =>
      match nth_error hs i with
      | Some p =>
          let (p', db') := advance p db in
          interleave rest (replace_nth i p' hs) db'
      | None => interleave rest hs db
      end
  end.

Definition response_of {R} (p : Prog R) : option R :=
  match p with
  | Ret r => Some r
  | _ => None
  end.

(** ** JSON values and HTTP responses *)

#[local] Unset Elimination Schemes.
Inductive json : Type :=
| JBool (b : bool)
| JNum (n : Z)
| JStr (s : string)
| JDate (t : Z)
| JArr (items : list json)
| JObj (fields : list (string * json)).
#[local] Set Elimination Schemes.

Record Response : Type := mkResponse {
  http_status : Z;
  body : json
}.

(** res.json(j) and res.status(c).json(j) *)
Definition res_json (j : json) : Response := mkResponse 200 j.
Definition res_status_json (c : Z) (j : json) : Response := mkResponse c j.

Definition key_json (k : KeyRow) : json :=
  JObj [("id", JNum (id k)); ("key_string", JStr (key_string k));
        ("duration_hours", JNum (duration_hours k));
        ("max_devices", JNum (max_devices k));
        ("used_devices", JNum (used_devices k));
        ("created_at", JDate (created_at k));
        ("expires_at", JDate (expires_at k));
        ("status", JStr (status k))].

Definition log_json (l : LogRow) : json :=
  JObj [("id", JNum (log_id l)); ("key_id", JNum (log_key_id l));
        ("action", JStr (log_action l));
        ("ip_address", JStr (log_ip_address l));
        ("user_agent", match log_user_agent l with
                       | Some u => JStr u
                       | None => JStr ""
                       end);
        ("created_at", JDate (log_created_at l))].

(** ** The parts of a request the handlers read *)

Record Req : Type := mkReq {
  ip : string;                    (* req.ip *)
  user_agent : option string      (* req.get('User-Agent') *)
}.

(** A body field that is present and not the empty string ([!x] is false). *)
Definition truthy (x : option string) : option string :=
  match x with
  | Some "" => None
  | _ => x
  end.

(** x || dflt *)
Definition or_else (x : option string) (dflt : string) : string :=
  match truthy x with
  | Some s => s
  | None => dflt
  end.

(** ** String.prototype.trim and toUpperCase, on ASCII text *)

Definition is_space (c : ascii) : bool :=
  let n := nat_of_ascii c in
  (Nat.eqb n 32 || (Nat.leb 9 n && Nat.leb n 13))%bool.

Fixpoint trim_start (s : string) : string :=
  match s with
  | String c s' => if is_space c then trim_start s' else s
  | EmptyString => EmptyString
  end.

Fixpoint trim_end (s : string) : string :=
  match s with
  | String c s' =>
      match trim_end s' with
      | EmptyString => if is_space c then EmptyString else String c EmptyString
      | r => String c r
      end
  | EmptyString => EmptyString
  end.

Definition trim (s : string) : string := trim_end (trim_start s).

Definition upper_char (c : ascii) : ascii :=
  let n := nat_of_ascii c in
  if (Nat.leb 97 n && Nat.leb n 122)%bool then ascii_of_nat (n - 32) else c.

Fixpoint toUpperCase (s : string) : string :=
  match s with
  | String c s' => String (upper_char c) (toUpperCase s')
  | EmptyString => EmptyString
  end.

End Js.

(* ================================================================== *)
(** * index.js: the routes and the janitor *)
(* ================================================================== *)

Module Index.
Import Pg Js.
Local Open Scope js_scope.

(** The error bodies of index.js: [{ success: false, error: msg }]. *)
Definition failure (msg : string) : json :=
  JObj [("success", JBool false); ("error", JStr msg)].

(** ** cleanupExpiredKeys: the janitor, hourly and at startup *)
Definition cleanupExpiredKeys (now : Z) : Prog unit :=
  try
    (result <- await (pool_query (update_expire_active now)) ;;
     Ret tt)
  catch err => Ret tt.

(** ** generateKey: 25 symbols in groups of five

    [rand j] is the value of [Math.floor(Math.random() * chars.length)] at
    the [j]-th turn of the loop. *)
Definition chars : string := "ABCDEFGHIJKLMNOPQRSTUVWXYZ0123456789".

Definition charAt (s : string) (n : nat) : string :=
  match String.get n s with
  | Some c => String c EmptyString
  | None => EmptyString
  end.

Fixpoint generateKey_loop (rand : nat -> nat) (turns i : nat) (key : string)
  : string :=
  match turns with
  | O => key
  | S turns' =>
      let key1 :=
        if (Nat.ltb 0 i && Nat.eqb (Nat.modulo i 5) 0)%bool
        then String.append key "-" else key in
      generateKey_loop rand turns' (S i)
                       (String.append key1 (charAt chars (rand i)))
  end.

Definition generateKey (rand : nat -> nat) : string :=
  generateKey_loop rand 25 0 EmptyString.

(** ** logKeyActivity: a failed insert is reported on the console only *)
Definition logKeyActivity (keyId : Z) (action : string) (req : Req) (now : Z)
  : Prog unit :=
  try
    (await (pool_query
              (insert_log now keyId action (ip req)
                          (Some (or_else (user_agent req) "unknown")))))
  catch err => Ret tt.

(** ** POST /generateKey (after [authenticateAdmin])

    [keygen i] is the string the [i]-th call of [generateKey()] returns. *)
Record GenerateBody : Type := mkGenerateBody {
  g_duration_hours : option Z;
  g_max_devices : option Z;
  g_status : option string
}.

Definition default {A} (x : option A) (d : A) : A :=
  match x with
  | Some a => a
  | None => d
  end.

(** The turns [i], [i+1], ... of [for (let i = 0; i < 5; i++)], [left] of
    them remaining; [inr] is the response a turn returns, [inl tt] falls out
    of the loop. *)
Fixpoint generate_attempts (keygen : nat -> string) (now : Z)
    (duration_hours max_devices : Z) (status : string) (left i : nat)
  : Prog (unit + Response) :=
  match left with
  | O => Ret (inl tt)
  | S left' =>
      let keyString := keygen i in
      r <- (try
              (let expiresAt := now + duration_hours * 60 * 60 * 1000 in
               result <- await (pool_query
                                  (insert_key now keyString duration_hours
                                              max_devices expiresAt status)) ;;
               match result with
               | row :: _ =>
                   Ret (Some (res_json
                     (JObj [("success", JBool true);
                            ("key", JStr (Pg.key_string row));
                            ("expires_at", JDate (Pg.expires_at row));
                            ("duration_hours", JNum (Pg.duration_hours row));
                            ("max_devices", JNum (Pg.max_devices row))])))
               | [] => Throw connection_failure  (* rows[0] undefined: a
                                                    TypeError, without code *)
               end)
            catch err =>
              if String.eqb (err_code err) "23505"
              then Ret None            (* collision, try again *)
              else Throw err) ;;
      match r with
      | Some response => Ret (inr response)
      | None => generate_attempts keygen now duration_hours max_devices status
                                  left' (S i)
      end
  end.

Definition post_generateKey (body : GenerateBody) (keygen : nat -> string)
    (now : Z) : Prog Response :=
  try
    (let duration_hours := default (g_duration_hours body) 720 in
     let max_devices := default (g_max_devices body) 10 in
     let status := default (g_status body) "active" in
     if (duration_hours =? 0) || (duration_hours <=? 0) then
       Ret (res_status_json 400 (failure "Valid duration_hours is required"))
     else
       r <- generate_attempts keygen now duration_hours max_devices status 5 0 ;;
       match r with
       | inr response => Ret response
       | inl _ =>
           Ret (res_status_json 500 (failure "Failed to generate unique key"))
       end)
  catch err =>
    Ret (res_status_json 500 (failure "Internal server error")).

(** ** POST /activateKey *)
Definition post_activateKey (req : Req) (key device_id : option string)
    (now : Z) : Prog Response :=
  try
    (match truthy key, truthy device_id with
     | Some key, Some device_id =>
       if (strlen device_id <? 5) || (strlen device_id >? 255) then
         Ret (res_status_json 400 (failure "Invalid device_id format"))
       else
         keyResult <- await (pool_query
                               (select_key_by_string (toUpperCase (trim key)))) ;;
         match keyResult with
         | [] => Ret (res_status_json 404 (failure "Key not found"))
         | keyData :: _ =>
           let isExpired := now >? expires_at keyData in
           if isExpired then
             await (pool_query (update_status_expired (id keyData))) ;;
             logKeyActivity (id keyData) "activation_expired" req now ;;
             Ret (res_status_json 400 (failure "Key has expired"))
           else if negb (String.eqb (status keyData) "active") then
             Ret (res_status_json 400 (failure "Key is not active"))
           else
             existingActivation <-
               await (pool_query (select_activation (id keyData) device_id)) ;;
             if (0 <? Z.of_nat (List.length existingActivation)) then
               logKeyActivity (id keyData) "reactivated" req now ;;
               Ret (res_json
                 (JObj [("success", JBool true);
                        ("expires_at", JDate (expires_at keyData));
                        ("duration_hours", JNum (duration_hours keyData));
                        ("message", JStr "Device already activated")]))
             else
               currentDevices <-
                 await (pool_query (select_count_activations (id keyData))) ;;
               if currentDevices >=? max_devices keyData then
                 Ret (res_status_json 400
                        (failure "Key has reached maximum device limit"))
               else
                 (* Insert activation and increment used_devices in a
                    transaction *)
                 await pool_connect ;;
                 (try
                    (await client_begin ;;
                     await (client_query
                              (insert_activation now (id keyData) device_id
                                                 (ip req))) ;;
                     await (client_query (update_used_devices (id keyData))) ;;
                     await client_commit)
                  catch txErr =>
                    (await client_rollback ;;
                     Throw txErr)) ;;
                 logKeyActivity (id keyData) "activated" req now ;;
                 Ret (res_json
                   (JObj [("success", JBool true);
                          ("expires_at", JDate (expires_at keyData));
                          ("duration_hours", JNum (duration_hours keyData));
                          ("devices_used", JNum (currentDevices + 1));
                          ("max_devices", JNum (max_devices keyData))]))
         end
     | _, _ =>
       Ret (res_status_json 400 (failure "Key and device_id are required"))
     end)
  catch err =>
    if String.eqb (err_code err) "23505" then
      Ret (res_status_json 409
             (failure "Device already activated with this key"))
    else
      Ret (res_status_json 500 (failure "Internal server error")).

(** ** POST /verifyKey *)
Definition verify_body (valid : bool) (keyData : KeyRow) (status : string)
    (devices_used : Z) (message : string) : json :=
  JObj [("valid", JBool valid);
        ("expires_at", JDate (expires_at keyData));
        ("status", JStr status);
        ("devices_used", JNum devices_used);
        ("max_devices", JNum (max_devices keyData));
        ("message", JStr message)].

Definition post_verifyKey (req : Req) (key device_id : option string)
    (now : Z) : Prog Response :=
  try
    (match truthy key, truthy device_id with
     | Some key, Some device_id =>
       keyResult <- await (pool_query
                             (select_key_with_device (toUpperCase (trim key))
                                                     device_id)) ;;
       match keyResult with
       | [] => Ret (res_json (JObj [("valid", JBool false);
                                    ("error", JStr "Key not found")]))
       | (keyData, device_activated) :: _ =>
         let isExpired := now >? expires_at keyData in
         if isExpired then
           await (pool_query (update_status_expired (id keyData))) ;;
           logKeyActivity (id keyData) "auto_expired" req now ;;
           deviceCount <-
             await (pool_query (select_count_activations (id keyData))) ;;
           Ret (res_json (verify_body false keyData "expired" deviceCount
                                      "Key has expired"))
         else
           let isValid :=
             String.eqb (status keyData) "active"
             && Bool.eqb device_activated true && negb isExpired in
           logKeyActivity (id keyData)
             (if isValid then "verified" else "verification_failed") req now ;;
           deviceCount <-
             await (pool_query (select_count_activations (id keyData))) ;;
           Ret (res_json (verify_body isValid keyData (Pg.status keyData)
                                      deviceCount
                                      (if isValid then "Key is valid"
                                       else "Key is invalid")))
       end
     | _, _ =>
       Ret (res_status_json 400 (failure "Key and device_id are required"))
     end)
  catch err =>
    Ret (res_status_json 500
           (JObj [("success", JBool false); ("valid", JBool false);
                  ("error", JStr "Internal server error")])).

(** ** GET /admin/keys *)
Definition get_admin_keys : Prog Response :=
  try
    (result <- await (pool_query select_keys) ;;
     Ret (res_json (JArr (map key_json result))))
  catch err =>
    Ret (res_status_json 500 (failure "Internal server error")).

(** ** PUT /admin/keys/:id

    The assignments pushed on [updates] are the fields of the patch that are
    not undefined. *)
Definition patch_is_empty (p : KeyPatch) : bool :=
  match set_duration_hours p, set_status p, set_max_devices p with
  | None, None, None => true
  | _, _, _ => false
  end.

Definition put_admin_keys (key_id : Z) (body : KeyPatch) (now : Z)
  : Prog Response :=
  try
    (if patch_is_empty body then
       Ret (res_status_json 400 (JObj [("error", JStr "No fields to update")]))
     else
       result <- await (pool_query (update_key now body key_id)) ;;
       match result with
       | [] => Ret (res_status_json 404 (JObj [("error", JStr "Key not found")]))
       | row :: _ =>
           Ret (res_json (JObj [("success", JBool true); ("key", key_json row)]))
       end)
  catch err =>
    Ret (res_status_json 500 (failure "Internal server error")).

(** ** DELETE /admin/keys/:id (transaction) *)
Definition delete_admin_keys (key_id : Z) : Prog Response :=
  try
    (await pool_connect ;;
     (try
       (await client_begin ;;
        await (client_query (delete_logs key_id)) ;;
        await (client_query (delete_activations key_id)) ;;
        result <- await (client_query (delete_key key_id)) ;;
        await client_commit ;;
        match result with
        | [] => Ret (res_status_json 404 (JObj [("error", JStr "Key not found")]))
        | _ :: _ =>
            Ret (res_json (JObj [("success", JBool true);
                                 ("message", JStr "Key deleted successfully")]))
        end)
     catch txErr =>
       (await client_rollback ;;
        Throw txErr)))
  catch err =>
    Ret (res_status_json 500 (failure "Internal server error")).

(** ** GET /admin/keys/:id/logs *)
Definition get_admin_keys_logs (key_id : Z) : Prog Response :=
  try
    (result <- await (pool_query (select_logs key_id)) ;;
     Ret (res_json (JArr (map log_json result))))
  catch err =>
    Ret (res_status_json 500 (failure "Internal server error")).

(** ** POST /admin/cleanup *)
Definition post_admin_cleanup (now : Z) : Prog Response :=
  try
    (result <- await (pool_query (delete_expired_keys now)) ;;
     Ret (res_json (JObj [("success", JBool true);
                          ("deleted_count", JNum (Z.of_nat (List.length result)));
                          ("deleted_keys", JArr (map key_json result))])))
  catch err =>
    Ret (res_status_json 500 (failure "Internal server error")).

(** ** GET /health (the 503 body also carries the message of the error,
    which is not modelled) *)
Definition get_health (now : Z) : Prog Response :=
  try
    (await (pool_query select_1) ;;
     Ret (res_json (JObj [("status", JStr "healthy");
                          ("database", JStr "connected");
                          ("timestamp", JDate now)])))
  catch err =>
    Ret (res_status_json 503 (JObj [("status", JStr "unhealthy");
                                    ("database", JStr "disconnected")])).

(** ** The operations of the service

    One request to a route, or one run of the janitor. *)
Inductive op : Type :=
| Generate (body : GenerateBody) (keygen : nat -> string) (now : Z)
| Activate (req : Req) (key device_id : option string) (now : Z)
| Verify (req : Req) (key device_id : option string) (now : Z)
| ListKeys
| UpdateKey (key_id : Z) (body : KeyPatch) (now : Z)
| DeleteKey (key_id : Z)
| KeyLogs (key_id : Z)
| Cleanup (now : Z)
| Health (now : Z)
| Janitor (now : Z).

Definition handler (o : op) : Prog (option Response) :=
  match o with
  | Generate body keygen now => r <- post_generateKey body keygen now ;; Ret (Some r)
  | Activate req key device_id now =>
      r <- post_activateKey req key device_id now ;; Ret (Some r)
  | Verify req key device_id now =>
      r <- post_verifyKey req key device_id now ;; Ret (Some r)
  | ListKeys => r <- get_admin_keys ;; Ret (Some r)
  | UpdateKey key_id body now => r <- put_admin_keys key_id body now ;; Ret (Some r)
  | DeleteKey key_id => r <- delete_admin_keys key_id ;; Ret (Some r)
  | KeyLogs key_id => r <- get_admin_keys_logs key_id ;; Ret (Some r)
  | Cleanup now => r <- post_admin_cleanup now ;; Ret (Some r)
  | Health now => r <- get_health now ;; Ret (Some r)
  | Janitor now => cleanupExpiredKeys now ;; Ret None
  end.

(** The store after an operation has run to its end under [faults]. *)
Definition after (o : op) (faults : list (option pg_error)) (db : DB) : DB :=
  fst (run (handler o) faults db).

(** The store after a sequence of operations, each run to its end before the
    next starts; [faults] gives each its fault schedule (none when the list
    is shorter). *)
Fixpoint after_all (ops : list op) (faults : list (list (option pg_error)))
    (db : DB) : DB :=
  match ops with
  | [] => db
  | o :: ops' => after_all ops' (tl faults) (after o (hd [] faults) db)
  end.

End Index.

(* ================================================================== *)
(** * The earlier variant of the activation and verification routes *)
(* ================================================================== *)

Module Earlier.
Import Pg Js.
Local Open Scope js_scope.

Definition failure (msg : string) : json := JObj [("error", JStr msg)].

Definition logKeyActivity (keyId : Z) (action : string) (req : Req) (now : Z)
  : Prog unit :=
  try
    (await (pool_query (insert_log now keyId action (ip req) (user_agent req))))
  catch err => Ret tt.

(** POST /activateKey: the status check comes first, the insert is a single
    statement on the pool. *)
Definition post_activateKey (req : Req) (key device_id : option string)
    (now : Z) : Prog Response :=
  try
    (match truthy key, truthy device_id with
     | Some key, Some device_id =>
       if (strlen device_id <? 5) || (strlen device_id >? 255) then
         Ret (res_status_json 400 (failure "Invalid device_id format"))
       else
         keyResult <- await (pool_query
                               (select_key_by_string (toUpperCase (trim key)))) ;;
         match keyResult with
         | [] => Ret (res_status_json 404 (failure "Key not found"))
         | keyData :: _ =>
           if negb (String.eqb (status keyData) "active") then
             Ret (res_status_json 400 (failure "Key is not active"))
           else if now >? expires_at keyData then
             Ret (res_status_json 400 (failure "Key has expired"))
           else
             existingActivation <-
               await (pool_query (select_activation (id keyData) device_id)) ;;
             if (0 <? Z.of_nat (List.length existingActivation)) then
               logKeyActivity (id keyData) "reactivated" req now ;;
               Ret (res_json
                 (JObj [("success", JBool true);
                        ("expires_at", JDate (expires_at keyData));
                        ("duration_hours", JNum (duration_hours keyData));
                        ("message", JStr "Device already activated")]))
             else
               currentDevices <-
                 await (pool_query (select_count_activations (id keyData))) ;;
               if currentDevices >=? max_devices keyData then
                 Ret (res_status_json 400
                        (failure "Key has reached maximum device limit"))
               else
                 await (pool_query
                          (insert_activation now (id keyData) device_id
                                             (ip req))) ;;
                 logKeyActivity (id keyData) "activated" req now ;;
                 Ret (res_json
                   (JObj [("success", JBool true);
                          ("expires_at", JDate (expires_at keyData));
                          ("duration_hours", JNum (duration_hours keyData));
                          ("devices_used", JNum (currentDevices + 1));
                          ("max_devices", JNum (max_devices keyData))]))
         end
     | _, _ =>
       Ret (res_status_json 400 (failure "Key and device_id are required"))
     end)
  catch err =>
    if String.eqb (err_code err) "23505" then
      Ret (res_status_json 409
             (failure "Device already activated with this key"))
    else
      Ret (res_status_json 500 (failure "Internal server error")).

(** POST /generateKey: one draw of the generator and one INSERT; a string
    that is taken is reported to the caller. *)
Definition post_generateKey (body : Index.GenerateBody) (keyString : string)
    (now : Z) : Prog Response :=
  try
    (let duration_hours := Index.default (Index.g_duration_hours body) 720 in
     let max_devices := Index.default (Index.g_max_devices body) 10 in
     let status := Index.default (Index.g_status body) "active" in
     if (duration_hours =? 0) || (duration_hours <=? 0) then
       Ret (res_status_json 400 (failure "Valid duration_hours is required"))
     else
       let expiresAt := now + duration_hours * 60 * 60 * 1000 in
       result <- await (pool_query
                          (insert_key now keyString duration_hours max_devices
                                      expiresAt status)) ;;
       match result with
       | row :: _ =>
           Ret (res_json
             (JObj [("success", JBool true);
                    ("key", JStr (Pg.key_string row));
                    ("expires_at", JDate (Pg.expires_at row));
                    ("duration_hours", JNum (Pg.duration_hours row));
                    ("max_devices", JNum (Pg.max_devices row))]))
       | [] => Throw connection_failure
       end)
  catch err =>
    if String.eqb (err_code err) "23505" then
      Ret (res_status_json 409
             (failure "Key already exists, please try again"))
    else
      Ret (res_status_json 500 (failure "Internal server error")).

(** POST /verifyKey: the expiry is one of the three conditions of validity,
    and nothing is written to the key. *)
Definition post_verifyKey (req : Req) (key device_id : option string)
    (now : Z) : Prog Response :=
  try
    (match truthy key, truthy device_id with
     | Some key, Some device_id =>
       keyResult <- await (pool_query
                             (select_key_with_device (toUpperCase (trim key))
                                                     device_id)) ;;
       match keyResult with
       | [] => Ret (res_json (JObj [("valid", JBool false);
                                    ("error", JStr "Key not found")]))
       | (keyData, device_activated) :: _ =>
         let isValid :=
           String.eqb (status keyData) "active"
           && Bool.eqb device_activated true
           && (now <? expires_at keyData) in
         (if isValid then logKeyActivity (id keyData) "verified" req now
          else logKeyActivity (id keyData) "verification_failed" req now) ;;
         deviceCount <-
           await (pool_query (select_count_activations (id keyData))) ;;
         Ret (res_json (Index.verify_body isValid keyData (Pg.status keyData)
                                          deviceCount
                                          (if isValid then "Key is valid"
                                           else "Key is invalid")))
       end
     | _, _ =>
       Ret (res_status_json 400 (failure "Key and device_id are required"))
     end)
  catch err =>
    Ret (res_status_json 500
           (JObj [("valid", JBool false);
                  ("error", JStr "Internal server error")])).

End Earlier.

(* ================================================================== *)
(** * What the claims speak of *)
(* ================================================================== *)

Module Props.
Import Pg Js.

(** ** The outcomes of POST /activateKey, under the names of the design *)

Definition KeyExpired : Response :=
  res_status_json 400 (Index.failure "Key has expired").

Definition KeyNotActive : Response :=
  res_status_json 400 (Index.failure "Key is not active").

Definition DeviceLimitReached : Response :=
  res_status_json 400 (Index.failure "Key has reached maximum device limit").

Definition DuplicateActivation : Response :=
  res_status_json 409 (Index.failure "Device already activated with this key").

Definition Unavailable : Response :=
  res_status_json 500 (Index.failure "Internal server error").

(** The idempotent success of a device that is already activated. *)
Definition AlreadyActivated (keyData : KeyRow) : Response :=
  res_json (JObj [("success", JBool true);
                  ("expires_at", JDate (expires_at keyData));
                  ("duration_hours", JNum (duration_hours keyData));
                  ("message", JStr "Device already activated")]).

(** The success of a first activation, [devices_used] counting it. *)
Definition Activated (keyData : KeyRow) (devices_used : Z) : Response :=
  res_json (JObj [("success", JBool true);
                  ("expires_at", JDate (expires_at keyData));
                  ("duration_hours", JNum (duration_hours keyData));
                  ("devices_used", JNum devices_used);
                  ("max_devices", JNum (max_devices keyData))]).

(** The outcomes of POST /generateKey. *)
Definition GenerationExhausted : Response :=
  res_status_json 500 (Index.failure "Failed to generate unique key").

Definition Issued (row : KeyRow) : Response :=
  res_json (JObj [("success", JBool true);
                  ("key", JStr (key_string row));
                  ("expires_at", JDate (expires_at row));
                  ("duration_hours", JNum (duration_hours row));
                  ("max_devices", JNum (max_devices row))]).

(** ** Reading the store *)

(** [keyResult.rows[0]] of the lookup by key string, after
    [key.trim().toUpperCase()]. *)
Definition lookup_key (t : Tables) (key : string) : option KeyRow :=
  hd_error (filter (key_has_string (toUpperCase (trim key))) (keys t)).

(** An Activation row binds the device to the key. *)
Definition activated (t : Tables) (key_id : Z) (device_id : string) : bool :=
  existsb (act_of_device key_id device_id) (key_activations t).

(** The value of the [valid] field of a response body, if it has one. *)
Fixpoint field (name : string) (fields : list (string * json)) : option json :=
  match fields with
  | [] => None
  | (n, v) :: rest => if String.eqb n name then Some v else field name rest
  end.

Definition says_valid (r : pg_error + Response) : bool :=
  match r with
  | inr (mkResponse _ (JObj fields)) =>
      match field "valid" fields with
      | Some (JBool b) => b
      | _ => false
      end
  | _ => false
  end.

(** ** Invariants of the tables *)

Definition unique_ids (t : Tables) : Prop := NoDup (map id (keys t)).

(** For every key, the counter is at most the number of its activation rows,
    which is at most its device limit. *)
Definition within_limit (t : Tables) : Prop :=
  forall k, In k (keys t) ->
    used_devices k <= count_activations t (id k) /\
    count_activations t (id k) <= max_devices k.

(** For every key, the counter is the number of its activation rows. *)
Definition counter_exact (t : Tables) : Prop :=
  forall k, In k (keys t) -> used_devices k = count_activations t (id k).

(** Every activation row refers to a key of the table (REFERENCES keys(id)). *)
Definition references_ok (t : Tables) : Prop :=
  forall a, In a (key_activations t) -> key_exists t (act_key_id a) = true.

(** The sequence is ahead of every id it has handed out. *)
Definition ids_below_seq (t : Tables) : Prop :=
  forall k, In k (keys t) -> id k < keys_id_seq t.

Record consistent (t : Tables) : Prop := mkConsistent {
  cons_unique : unique_ids t;
  cons_seq : ids_below_seq t;
  cons_refs : references_ok t;
  cons_counter : counter_exact t
}.

(** ** Triples over handlers

    [triple P p Q E]: from a store that satisfies [P], under every fault
    schedule, [p] ends in a store that satisfies [Q r] when it returns [r]
    and [E e] when it throws [e]. *)
Definition triple {R} (P : DB -> Prop) (p : Prog R)
    (Q : R -> DB -> Prop) (E : pg_error -> DB -> Prop) : Prop :=
  forall faults db, P db ->
    match run p faults db with
    | (db', inr r) => Q r db'
    | (db', inl e) => E e db'
    end.

(** [p] keeps [I], however it ends. *)
Definition keeps {R} (I : DB -> Prop) (p : Prog R) : Prop :=
  triple I p (fun _ => I) (fun _ => I).

(** A handler resumed [n] times in a row. *)
Fixpoint advance_n {R} (n : nat) (p : Prog R) (db : DB) : Prog R * DB :=
  match n with
  | O => (p, db)
  | S n' => let (p', db') := advance p db in advance_n n' p' db'
  end.

(** The tables after [logKeyActivity]: with the entry, or as they were when
    the insert fails. *)
Definition log_entry (t : Tables) (keyId : Z) (action : string) (req : Req)
    (now : Z) : LogRow :=
  mkLog (key_logs_id_seq t) keyId action (ip req)
        (Some (or_else (user_agent req) "unknown")) now.

Definition log_written (t : Tables) (keyId : Z) (action : string) (req : Req)
    (now : Z) : Tables :=
  match sql (insert_log now keyId action (ip req)
                        (Some (or_else (user_agent req) "unknown"))) t with
  | inr (t', _) => t'
  | inl _ => t
  end.

(** The tables after [UPDATE keys SET status = 'expired' WHERE id = $1]. *)
Definition marked_expired (t : Tables) (keyId : Z) : Tables :=
  with_keys t (update_where (key_has_id keyId) (set_key_status "expired") (keys t)).

(** The tables after [UPDATE keys SET used_devices = used_devices + 1
    WHERE id = $1]. *)
Definition counted (t : Tables) (keyId : Z) : Tables :=
  with_keys t (update_where (key_has_id keyId) incr_used_devices (keys t)).

(** The tables after the transaction of a first activation. *)
Definition activation_committed (t : Tables) (now i : Z) (d ip : string)
  : Tables :=
  mkTables (update_where (key_has_id i) incr_used_devices (keys t))
           (key_activations t
            ++ [mkActivation (key_activations_id_seq t) i d ip now])
           (key_logs t) (keys_id_seq t) (key_activations_id_seq t + 1)
           (key_logs_id_seq t).

(** The two invariants the device limit rests on. *)
Definition limit_respected (t : Tables) : Prop :=
  unique_ids t /\ within_limit t.

(** The values of a patch fit the columns they are assigned to. *)
Definition patch_fits (p : KeyPatch) : bool :=
  match set_duration_hours p with Some d => fits_integer d | None => true end
  && match set_status p with Some s => fits_varchar 20 s | None => true end
  && match set_max_devices p with Some m => fits_integer m | None => true end.

(** ** Issuing keys *)

(** The key string is already in the table. *)
Definition taken (t : Tables) (s : string) : bool :=
  existsb (key_has_string s) (keys t).

(** The fields of the request, with their defaults. *)
Definition body_duration (body : Index.GenerateBody) : Z :=
  Index.default (Index.g_duration_hours body) 720.

Definition body_max_devices (body : Index.GenerateBody) : Z :=
  Index.default (Index.g_max_devices body) 10.

Definition body_status (body : Index.GenerateBody) : string :=
  Index.default (Index.g_status body) "active".

(** The request passes the check on [duration_hours] and its values fit
    their columns. *)
Definition body_fits (body : Index.GenerateBody) : bool :=
  (0 <? body_duration body) && fits_integer (body_duration body)
  && fits_integer (body_max_devices body)
  && fits_varchar 20 (body_status body).

(** The row the INSERT of the route creates. *)
Definition issued_row (t : Tables) (body : Index.GenerateBody) (s : string)
    (now : Z) : KeyRow :=
  mkKey (keys_id_seq t) s (body_duration body) (body_max_devices body) 0 now
        (now + body_duration body * 60 * 60 * 1000) (body_status body).

Definition with_issued (t : Tables) (row : KeyRow) : Tables :=
  mkTables (keys t ++ [row]) (key_activations t) (key_logs t)
           (keys_id_seq t + 1) (key_activations_id_seq t) (key_logs_id_seq t).

(** The tables after the transaction of DELETE /admin/keys/:id: the log
    entries and the activations of the key are deleted, then the key. *)
Definition key_deleted (t : Tables) (i : Z) : Tables :=
  delete_keys_where (key_has_id i)
    (mkTables (keys t)
              (filter (fun a => negb (act_of_key i a)) (key_activations t))
              (filter (fun l => negb (log_of_key i l)) (key_logs t))
              (keys_id_seq t) (key_activations_id_seq t) (key_logs_id_seq t)).

(** ** The two outcomes of an Activate call, relative to the tables [t0]
    it started from *)

(** Neither an activation row nor a counter has changed. *)
Definition nothing_counted (t0 t : Tables) : Prop :=
  key_activations t = key_activations t0 /\
  map id (keys t) = map id (keys t0) /\
  map used_devices (keys t) = map used_devices (keys t0).

(** One activation row was added and the counter of its key incremented. *)
Definition one_counted (t0 t : Tables) : Prop :=
  exists a,
    key_activations t = (key_activations t0 ++ [a])%list /\
    map used_devices (keys t)
    = map used_devices
        (update_where (key_has_id (act_key_id a)) incr_used_devices (keys t0)).

(** Every activation row of [t0] is still there, or its key is gone. *)
Definition removed_with_key (t0 t : Tables) : Prop :=
  forall a, In a (key_activations t0) ->
    In a (key_activations t) \/ key_exists t (act_key_id a) = false.

(** A sequence of Activate calls as operations. *)
Record Call : Type := mkCall {
  call_req : Req;
  call_key : option string;
  call_device_id : option string;
  call_now : Z
}.

Definition activate_op (c : Call) : Index.op :=
  Index.Activate (call_req c) (call_key c) (call_device_id c) (call_now c).

End Props.

(* ================================================================== *)
(** * A small deployment, used for the concrete runs *)
(* ================================================================== *)

Module Example.
Import Pg Js Props.

Definition req : Req := mkReq "10.0.0.7" (Some "curl/8.4").

(** A random source that keeps making the same draws, and the key string it
    yields at every call of the generator. *)
Definition stuck_rand (i j : nat) : nat := j.

Definition stuck_keygen (i : nat) : string := Index.generateKey (stuck_rand i).

Definition the_key : string := Eval vm_compute in stuck_keygen 0.

Definition activate (device : string) (now : Z) : Index.op :=
  Index.Activate req (Some the_key) (Some device) now.

Definition call (device : string) (now : Z) : Call :=
  mkCall req (Some the_key) (Some device) now.

(** At time 1000 the admin issues a key for one hour and two devices. *)
Definition issued : DB :=
  Eval vm_compute in
    Index.after (Index.Generate (Index.mkGenerateBody (Some 1) (Some 2) None)
                                stuck_keygen 1000) [] fresh_db.

(** Then one device activates, *)
Definition one_device : DB :=
  Eval vm_compute in Index.after (activate "device-A" 2000) [] issued.

(** and a second one. *)
Definition two_devices : DB :=
  Eval vm_compute in Index.after (activate "device-B" 3000) [] one_device.

(** The admin disables the key; its hour then runs out. *)
Definition disabled : DB :=
  Eval vm_compute in
    Index.after (Index.UpdateKey 1 (mkPatch None (Some "inactive") None) 4000)
                [] one_device.

Definition after_expiry : Z := 1000 + hour + 1.

(** Two requests in flight for the same key. *)
Definition in_flight (device1 device2 : string) : list (Prog Response) :=
  [Index.post_activateKey req (Some the_key) (Some device1) 5000;
   Index.post_activateKey req (Some the_key) (Some device2) 5000].

(** Both run up to their [pool.connect()] before either inserts: the first
    four awaits of each, then the rest of the first, then of the second. *)
Definition racing : list nat :=
  [0; 0; 0; 0; 1; 1; 1; 1; 0; 0; 1; 1]%nat.

End Example.

(* ================================================================== *)
(** * Further notions: key strings, frames, handlers in flight *)
(* ================================================================== *)

Module Further.
Import Pg Js Props.

(** ** The shape of a key string *)

(** A symbol of the alphabet of [generateKey]. *)
Definition is_symbol (c : ascii) : bool :=
  existsb (Ascii.eqb c) (list_ascii_of_string Index.chars).

(** The characters of [s] from position [i] on: a dash at every sixth
    position, symbols elsewhere, and the string ends at position 29. *)
Fixpoint grouped_from (i : nat) (s : string) : bool :=
  match s with
  | EmptyString => Nat.eqb i 29
  | String c s' =>
      (if Nat.eqb (Nat.modulo i 6) 5 then Ascii.eqb c "-" else is_symbol c)
      && grouped_from (S i) s'
  end.

Definition key_format (s : string) : bool := grouped_from 0 s.

(** key.trim().toUpperCase() *)
Definition normalize (s : string) : string := toUpperCase (trim s).

(** A string that does not begin with a blank. *)
Definition starts_clean (s : string) : bool :=
  match s with
  | String c _ => negb (is_space c)
  | EmptyString => true
  end.

(** ** What a route leaves alone *)

(** The columns of a key that no route assigns after the INSERT. *)
Definition origin (k : KeyRow) : Z * string * Z :=
  (id k, key_string k, created_at k).

(** The columns an update of [duration_hours] assigns. *)
Definition lifetime (k : KeyRow) : Z * Z := (duration_hours k, expires_at k).

(** The columns only the admin's update assigns. *)
Definition settings (k : KeyRow) : Z * string * Z * (Z * Z) * Z :=
  (origin k, lifetime k, max_devices k).

(** [l] is [l0] with rows added at its end. *)
Definition extends {A} (l0 l : list A) : Prop :=
  exists more, l = (l0 ++ more)%list.

(** Nothing was removed from, or reordered in, any of the three tables. *)
Definition grown (t0 t : Tables) : Prop :=
  extends (map id (keys t0)) (map id (keys t)) /\
  extends (key_activations t0) (key_activations t) /\
  extends (key_logs t0) (key_logs t).

(** The operations other than the two that delete keys. *)
Definition deletes_nothing (o : Index.op) : bool :=
  match o with
  | Index.DeleteKey _ | Index.Cleanup _ => false
  | _ => true
  end.

(** The answers of PUT /admin/keys/:id. *)
Definition NoFields : Response :=
  res_status_json 400 (JObj [("error", JStr "No fields to update")]).

Definition Updated (row : KeyRow) : Response :=
  res_json (JObj [("success", JBool true); ("key", key_json row)]).

(** The answers to a request that names no usable key or device. *)
Definition FieldsRequired : Response :=
  res_status_json 400 (Index.failure "Key and device_id are required").

Definition BadDevice : Response :=
  res_status_json 400 (Index.failure "Invalid device_id format").

Definition KeyNotFound : Response :=
  res_status_json 404 (Index.failure "Key not found").

Definition NoSuchKey : Response :=
  res_json (JObj [("valid", JBool false); ("error", JStr "Key not found")]).

(** ** The earlier variant *)

(** The tables after the variant's [logKeyActivity], which passes the
    User-Agent header as it is. *)
Definition earlier_log_written (t : Tables) (keyId : Z) (action : string)
    (req : Req) (now : Z) : Tables :=
  match sql (insert_log now keyId action (ip req) (user_agent req)) t with
  | inr (t', _) => t'
  | inl _ => t
  end.

(** The answers of the variant's POST /generateKey. *)
Definition KeyStringConflict : Response :=
  res_status_json 409 (Earlier.failure "Key already exists, please try again").

(** No key has more activation rows than its device limit. *)
Definition rows_within_limit (t : Tables) : Prop :=
  forall k, In k (keys t) -> count_activations t (id k) <= max_devices k.

(** ** Listings *)

(** [a] comes before [b] in a listing by [ts], latest first. *)
Definition not_before {A} (ts : A -> Z) (a b : A) : Prop := ts b <= ts a.

(** [rows] lists [table], latest first. *)
Definition lists_latest_first {A} (ts : A -> Z) (table rows : list A) : Prop :=
  Permutation table rows /\ StronglySorted (not_before ts) rows.

(** ** Deleting keys *)

(** Every log entry refers to a key of the table (REFERENCES keys(id)). *)
Definition log_references_ok (t : Tables) : Prop :=
  forall l, In l (key_logs t) -> key_exists t (log_key_id l) = true.

(** The tables restricted to the key rows [ks]: the activations and the log
    entries of other keys are left out. *)
Definition restricted_to (t : Tables) (ks : list KeyRow) : Tables :=
  mkTables ks
           (filter (fun a => existsb (key_has_id (act_key_id a)) ks)
                   (key_activations t))
           (filter (fun l => existsb (key_has_id (log_key_id l)) ks)
                   (key_logs t))
           (keys_id_seq t) (key_activations_id_seq t) (key_logs_id_seq t).

(** The tables without the rows of key [i], in any of the three. *)
Definition without_key (t : Tables) (i : Z) : Tables :=
  mkTables (filter (fun k => negb (key_has_id i k)) (keys t))
           (filter (fun a => negb (act_of_key i a)) (key_activations t))
           (filter (fun l => negb (log_of_key i l)) (key_logs t))
           (keys_id_seq t) (key_activations_id_seq t) (key_logs_id_seq t).

(** The answers of DELETE /admin/keys/:id and of POST /admin/cleanup. *)
Definition Deleted : Response :=
  res_json (JObj [("success", JBool true);
                  ("message", JStr "Key deleted successfully")]).

(** The 404 of the admin routes that address a key by its id. *)
Definition NotFound : Response :=
  res_status_json 404 (JObj [("error", JStr "Key not found")]).

Definition Cleaned (gone : list KeyRow) : Response :=
  res_json (JObj [("success", JBool true);
                  ("deleted_count", JNum (Z.of_nat (List.length gone)));
                  ("deleted_keys", JArr (map key_json gone))]).

(** The two UNIQUE constraints of the schema: no two keys share a string, no
    two activation rows bind the same device to the same key. *)
Definition binding (a : ActivationRow) : Z * string :=
  (act_key_id a, act_device_id a).

Definition unique_rows (t : Tables) : Prop :=
  NoDup (map key_string (keys t)) /\
  NoDup (map binding (key_activations t)).

(** No transaction is open. *)
Definition closed (db : DB) : Prop := open_tx db = None.

(** ** Handlers in flight *)

(** [steady L p]: whenever [p] is resumed on tables that satisfy [L], with
    no transaction open, it leaves tables that satisfy [L], with no
    transaction open, and what remains of it is steady again. *)
Inductive steady {R} (L : Tables -> Prop) : Prog R -> Prop :=
| steady_ret (r : R) : steady L (Ret r)
| steady_throw (e : pg_error) : steady L (Throw e)
| steady_await {A} (q : query A) (k : pg_error + A -> Prog R) :
    (forall db,
       L (committed db) -> open_tx db = None ->
       L (committed (snd (advance (Await q k) db)))) ->
    (forall db,
       L (committed db) -> open_tx db = None ->
       open_tx (snd (advance (Await q k) db)) = None) ->
    (forall db,
       L (committed db) -> open_tx db = None ->
       steady L (fst (advance (Await q k) db))) ->
    steady L (Await q k).

(** [closes L p t w]: [p], resumed inside a transaction over the committed
    tables [t] whose private copy is [w], closes the transaction before it
    yields, on tables that satisfy [L], and is steady from there. *)
Definition closes {R} (L : Tables -> Prop) (p : Prog R) (t w : Tables) : Prop :=
  L (committed (snd (advance p (mkDB t (Some w))))) /\
  open_tx (snd (advance p (mkDB t (Some w)))) = None /\
  steady L (fst (advance p (mkDB t (Some w)))).

End Further.

(* ================================================================== *)
(** * Handlers in state-passing style

    The first server.js and the cleanup of the earlier variant run every
    statement on the pool, one after the other: a handler is a function of
    the fault schedule and the tables. *)
(* ================================================================== *)

Module Direct.
Import Pg.

Section Handlers.

Variable S : Type.

(** The faults left, the tables, and the value returned or the error
    thrown. *)
Definition M (A : Type) : Type :=
  list (option pg_error) -> S -> list (option pg_error) * S * (pg_error + A).

Definition ret {A} (a : A) : M A := fun faults s => (faults, s, inr a).

Definition throw {A} (e : pg_error) : M A := fun faults s => (faults, s, inl e).

Definition bind {A B} (m : M A) (k : A -> M B) : M B :=
  fun faults s =>
    match m faults s with
    | (faults', s', inr a) => k a faults' s'
    | (faults', s', inl e) => (faults', s', inl e)
    end.

(** try { m } catch (err) { h err } *)
Definition try_catch {A} (m : M A) (h : pg_error -> M A) : M A :=
  fun faults s =>
    match m faults s with
    | (faults', s', inl e) => h e faults' s'
    | r => r
    end.

(** await pool.query(...): the fault the environment injects, or the
    statement on the tables. *)
Definition query {A} (statement : S -> pg_error + S * A) : M A :=
  fun faults s =>
    match hd None faults with
    | Some e => (tl faults, s, inl e)
    | None =>
        match statement s with
        | inl e => (tl faults, s, inl e)
        | inr (s', a) => (tl faults, s', inr a)
        end
    end.

(** The tables a handler leaves and what it answers. *)
Definition run {A} (m : M A) (faults : list (option pg_error)) (s : S)
  : S * (pg_error + A) :=
  let '(_, s', r) := m faults s in (s', r).

End Handlers.

Arguments ret {S A} a.
Arguments throw {S A} e.
Arguments bind {S A B} m k.
Arguments try_catch {S A} m h.
Arguments query {S A} statement.
Arguments run {S A} m faults s.

Declare Scope direct_scope.
Delimit Scope direct_scope with direct.
Notation "x <- m ;; k" := (bind m (fun x => k))
  (at level 61, m at next level, right associativity) : direct_scope.
Notation "m ;; k" := (bind m (fun _ => k))
  (at level 61, right associativity) : direct_scope.
Notation "'try' m 'catch' e => h" := (try_catch m (fun e => h))
  (at level 62, m at level 200, e name, h at level 200) : direct_scope.

End Direct.

(* ================================================================== *)
(** * The first server.js: one device per key

    Its tables are those of schema.sql: a key row carries the device that
    owns it, and the log refers to the keys without a cascade. *)
(* ================================================================== *)

Module Legacy.
Import Pg Js Direct.
Local Open Scope direct_scope.

Record KeyRow : Type := mkKey {
  id : Z;                          (* SERIAL PRIMARY KEY *)
  key_string : string;             (* VARCHAR(255) UNIQUE NOT NULL *)
  duration_hours : Z;              (* INTEGER NOT NULL *)
  created_at : Z;                  (* TIMESTAMP DEFAULT CURRENT_TIMESTAMP *)
  expires_at : Z;                  (* TIMESTAMP *)
  status : string;                 (* VARCHAR(20) DEFAULT 'active' *)
  used : bool;                     (* BOOLEAN DEFAULT false *)
  owner_device_id : option string; (* TEXT *)
  ip_address : option string;      (* TEXT *)
  last_verified : option Z         (* TIMESTAMP *)
}.

Record LogRow : Type := mkLog {
  log_id : Z;                      (* SERIAL PRIMARY KEY *)
  log_key_id : Z;                  (* INTEGER REFERENCES keys(id) *)
  log_action : string;             (* VARCHAR(50) NOT NULL *)
  log_ip_address : string;         (* TEXT *)
  log_user_agent : option string;  (* TEXT *)
  log_created_at : Z
}.

Record Tables : Type := mkTables {
  keys : list KeyRow;
  key_logs : list LogRow;
  keys_id_seq : Z;
  key_logs_id_seq : Z
}.

Definition key_has_string (s : string) (k : KeyRow) : bool :=
  String.eqb (key_string k) s.

Definition key_has_id (i : Z) (k : KeyRow) : bool := id k =? i.

Definition expired_at (now : Z) (k : KeyRow) : bool := expires_at k <? now.

(** Some log entry refers to the key. *)
Definition logged (t : Tables) (k : KeyRow) : bool :=
  existsb (fun l => log_key_id l =? id k) (key_logs t).

Definition with_keys (t : Tables) (ks : list KeyRow) : Tables :=
  mkTables ks (key_logs t) (keys_id_seq t) (key_logs_id_seq t).

(** ** The statements *)

(** SELECT * FROM keys WHERE key_string = $1 *)
Definition select_key (s : string) (t : Tables)
  : pg_error + Tables * list KeyRow :=
  inr (t, filter (key_has_string s) (keys t)).

Definition own (d ip : string) (k : KeyRow) : KeyRow :=
  mkKey (id k) (key_string k) (duration_hours k) (created_at k) (expires_at k)
        (status k) true (Some d) (Some ip) (last_verified k).

(** UPDATE keys SET used = true, owner_device_id = $1, ip_address = $2
    WHERE id = $3 *)
Definition update_owner (d ip : string) (i : Z) (t : Tables)
  : pg_error + Tables * unit :=
  inr (with_keys t (update_where (key_has_id i) (own d ip) (keys t)), tt).

Definition seen (now : Z) (k : KeyRow) : KeyRow :=
  mkKey (id k) (key_string k) (duration_hours k) (created_at k) (expires_at k)
        (status k) (used k) (owner_device_id k) (ip_address k) (Some now).

(** UPDATE keys SET last_verified = CURRENT_TIMESTAMP WHERE id = $1 *)
Definition update_last_verified (now : Z) (i : Z) (t : Tables)
  : pg_error + Tables * unit :=
  inr (with_keys t (update_where (key_has_id i) (seen now) (keys t)), tt).

(** INSERT INTO key_logs (key_id, action, ip_address, user_agent)
    VALUES ($1, $2, $3, $4) *)
Definition insert_log (now i : Z) (action ip : string) (ua : option string)
    (t : Tables) : pg_error + Tables * unit :=
  if negb (fits_varchar 50 action) then inl string_data_right_truncation
  else if negb (existsb (key_has_id i) (keys t)) then inl foreign_key_violation
  else inr (mkTables (keys t)
                     (key_logs t ++ [mkLog (key_logs_id_seq t) i action ip ua now])
                     (keys_id_seq t) (key_logs_id_seq t + 1),
            tt).

(** INSERT INTO keys (key_string, duration_hours, expires_at, status)
    VALUES ($1, $2, $3, $4) RETURNING key_string, expires_at, duration_hours *)
Definition insert_key (now : Z) (s : string) (dur exp : Z) (st : string)
    (t : Tables) : pg_error + Tables * list KeyRow :=
  if negb (fits_varchar 255 s) then inl string_data_right_truncation
  else if negb (fits_integer dur) then inl numeric_value_out_of_range
  else if negb (fits_varchar 20 st) then inl string_data_right_truncation
  else if existsb (key_has_string s) (keys t) then inl unique_violation
  else
    let row := mkKey (keys_id_seq t) s dur now exp st false None None None in
    inr (mkTables (keys t ++ [row]) (key_logs t) (keys_id_seq t + 1)
                  (key_logs_id_seq t),
         [row]).

(** DELETE FROM key_logs WHERE key_id = $1 *)
Definition delete_logs (i : Z) (t : Tables) : pg_error + Tables * unit :=
  inr (mkTables (keys t)
                (filter (fun l => negb (log_key_id l =? i)) (key_logs t))
                (keys_id_seq t) (key_logs_id_seq t),
       tt).

(** DELETE FROM keys WHERE ... RETURNING *: a key that a log entry refers to
    cannot be deleted, and the statement then deletes nothing. *)
Definition delete_keys_where (sel : KeyRow -> bool) (t : Tables)
  : pg_error + Tables * list KeyRow :=
  if existsb (logged t) (filter sel (keys t)) then inl foreign_key_violation
  else inr (with_keys t (filter (fun k => negb (sel k)) (keys t)),
            filter sel (keys t)).

(** ** The handlers *)

Definition failure (msg : string) : json := JObj [("error", JStr msg)].

Definition logKeyActivity (keyId : Z) (action : string) (req : Req) (now : Z)
  : M Tables unit :=
  try (query (insert_log now keyId action (ip req) (user_agent req)))
  catch err => ret tt.

(** POST /generateKey; [keyString] is what [generateKey()] returns. *)
Definition post_generateKey (duration_hours : option Z) (status : option string)
    (keyString : string) (now : Z) : M Tables Response :=
  try
    (let duration_hours := Index.default duration_hours 720 in
     let status := Index.default status "active" in
     let expiresAt := now + duration_hours * 60 * 60 * 1000 in
     result <- query (insert_key now keyString duration_hours expiresAt status) ;;
     match result with
     | row :: _ =>
         ret (res_json (JObj [("success", JBool true);
                              ("key", JStr (key_string row));
                              ("expires_at", JDate (expires_at row));
                              ("duration_hours", JNum (Legacy.duration_hours row))]))
     | [] => throw connection_failure
     end)
  catch err => ret (res_status_json 500 (failure "Internal server error")).

Definition owned_by (k : KeyRow) (device_id : string) : bool :=
  match owner_device_id k with
  | Some d => String.eqb d device_id
  | None => false
  end.

Definition Granted (keyData : KeyRow) : Response :=
  res_json (JObj [("success", JBool true);
                  ("expires_at", JDate (expires_at keyData));
                  ("duration_hours", JNum (duration_hours keyData))]).

(** POST /activateKey, from the rows of its lookup on *)
Definition activate_found (req : Req) (device_id : string) (now : Z)
    (keyResult : list KeyRow) : M Tables Response :=
  match keyResult with
  | [] => ret (res_status_json 404 (failure "Key not found"))
  | keyData :: _ =>
    if negb (String.eqb (status keyData) "active") then
      ret (res_status_json 400 (failure "Key is not active"))
    else if now >? expires_at keyData then
      ret (res_status_json 400 (failure "Key has expired"))
    else if used keyData && negb (owned_by keyData device_id) then
      ret (res_status_json 400 (failure "Key already used by another device"))
    else
      (if negb (used keyData) then
         query (update_owner device_id (ip req) (id keyData)) ;;
         logKeyActivity (id keyData) "activated" req now
       else
         logKeyActivity (id keyData) "verified_activation" req now) ;;
      ret (Granted keyData)
  end.

(** POST /activateKey *)
Definition post_activateKey (req : Req) (key device_id : option string)
    (now : Z) : M Tables Response :=
  try
    (match truthy key, truthy device_id with
     | Some key, Some device_id =>
       keyResult <- query (select_key key) ;;
       activate_found req device_id now keyResult
     | _, _ =>
       ret (res_status_json 400 (failure "Key and device_id are required"))
     end)
  catch err => ret (res_status_json 500 (failure "Internal server error")).

(** The handler resumed after its lookup, with the rows it has read: what
    is left of its try block.  Between the two, other requests run. *)
Definition resumed (req : Req) (device_id : string) (now : Z)
    (keyResult : list KeyRow) : M Tables Response :=
  try (activate_found req device_id now keyResult)
  catch err => ret (res_status_json 500 (failure "Internal server error")).

(** Activate calls run one after the other, each to its end and under its
    own fault schedule. *)
Fixpoint activations (calls : list Props.Call)
    (faults : list (list (option pg_error))) (t : Tables) : Tables :=
  match calls with
  | [] => t
  | c :: rest =>
      activations rest (tl faults)
        (fst (run (post_activateKey (Props.call_req c) (Props.call_key c)
                                    (Props.call_device_id c) (Props.call_now c))
                  (hd [] faults) t))
  end.

Definition Verdict (valid : bool) (keyData : KeyRow) : Response :=
  res_json (JObj [("valid", JBool valid);
                  ("expires_at", JDate (expires_at keyData));
                  ("status", JStr (status keyData))]).

(** POST /verifyKey *)
Definition post_verifyKey (req : Req) (key device_id : option string)
    (now : Z) : M Tables Response :=
  try
    (match truthy key, truthy device_id with
     | Some key, Some device_id =>
       keyResult <- query (select_key key) ;;
       match keyResult with
       | [] => ret (res_json (JObj [("valid", JBool false);
                                    ("error", JStr "Key not found")]))
       | keyData :: _ =>
         query (update_last_verified now (id keyData)) ;;
         let isValid :=
           String.eqb (status keyData) "active"
           && Bool.eqb (used keyData) true
           && owned_by keyData device_id
           && (now <? expires_at keyData) in
         (if isValid then logKeyActivity (id keyData) "verified" req now
          else logKeyActivity (id keyData) "verification_failed" req now) ;;
         ret (Verdict isValid keyData)
       end
     | _, _ =>
       ret (res_status_json 400 (failure "Key and device_id are required"))
     end)
  catch err =>
    ret (res_status_json 500
           (JObj [("valid", JBool false);
                  ("error", JStr "Internal server error")])).

(** POST /admin/deleteKey: two statements on the pool, no transaction. *)
Definition post_admin_deleteKey (key_id : Z) : M Tables Response :=
  try
    (query (delete_logs key_id) ;;
     result <- query (delete_keys_where (key_has_id key_id)) ;;
     match result with
     | [] => ret (res_status_json 404 (failure "Key not found"))
     | _ :: _ => ret (res_json (JObj [("success", JBool true)]))
     end)
  catch err => ret (res_status_json 500 (failure "Internal server error")).

Definition key_json (k : KeyRow) : json :=
  JObj [("id", JNum (id k)); ("key_string", JStr (key_string k));
        ("duration_hours", JNum (duration_hours k));
        ("created_at", JDate (created_at k));
        ("expires_at", JDate (expires_at k));
        ("status", JStr (status k));
        ("used", JBool (used k));
        (* a NULL column is shown as the empty string *)
        ("owner_device_id", match owner_device_id k with
                            | Some d => JStr d
                            | None => JStr ""
                            end);
        ("ip_address", match ip_address k with
                       | Some a => JStr a
                       | None => JStr ""
                       end);
        ("last_verified", match last_verified k with
                          | Some v => JDate v
                          | None => JStr ""
                          end)].

(** POST /admin/cleanup *)
Definition post_admin_cleanup (now : Z) : M Tables Response :=
  try
    (result <- query (delete_keys_where (expired_at now)) ;;
     ret (res_json (JObj [("success", JBool true);
                          ("deleted_count", JNum (Z.of_nat (List.length result)));
                          ("deleted_keys", JArr (map key_json result))])))
  catch err => ret (res_status_json 500 (failure "Internal server error")).

End Legacy.

(** A key of the first server.js that device-A owns, with the log entry of
    its activation. *)
Module LegacyExample.

Definition owned_key : Legacy.KeyRow :=
  Legacy.mkKey 1 "KEY1" 1 1000 3601000 "active" true (Some "device-A")
               (Some "10.0.0.7") None.

Definition owned : Legacy.Tables :=
  Legacy.mkTables [owned_key]
                  [Legacy.mkLog 1 1 "activated" "10.0.0.7" (Some "curl/8.4") 2000]
                  2 2.

(** The same key as it was issued, before any device took it. *)
Definition issued_key : Legacy.KeyRow :=
  Legacy.mkKey 1 "KEY1" 1 1000 3601000 "active" false None None None.

Definition issued : Legacy.Tables := Legacy.mkTables [issued_key] [] 2 1.

End LegacyExample.

(* ================================================================== *)
(** * The earlier variant: cleanup without a cascade

    Its tables refer to the keys by [REFERENCES keys(id)] alone, so a key
    that an activation or a log entry refers to cannot be deleted. *)
(* ================================================================== *)

Module EarlierCleanup.
Import Pg Js Direct.
Local Open Scope direct_scope.

(** Some activation or log entry refers to the key. *)
Definition referenced (t : Tables) (k : KeyRow) : bool :=
  existsb (act_of_key (id k)) (key_activations t)
  || existsb (log_of_key (id k)) (key_logs t).

(** DELETE FROM keys WHERE expires_at < CURRENT_TIMESTAMP RETURNING * *)
Definition delete_expired_keys (now : Z) (t : Tables)
  : pg_error + Tables * list KeyRow :=
  if existsb (referenced t) (filter (expired_at now) (keys t))
  then inl foreign_key_violation
  else inr (with_keys t (filter (fun k => negb (expired_at now k)) (keys t)),
            filter (expired_at now) (keys t)).

(** POST /admin/cleanup *)
Definition post_admin_cleanup (now : Z) : M Tables Response :=
  try
    (result <- query (delete_expired_keys now) ;;
     ret (res_json (JObj [("success", JBool true);
                          ("deleted_count", JNum (Z.of_nat (List.length result)));
                          ("deleted_keys", JArr (map key_json result))])))
  catch err =>
    ret (res_status_json 500 (Earlier.failure "Internal server error")).

End EarlierCleanup.

(* ================================================================== *)
(** * Rules for triples *)
(* ================================================================== *)

Import Pg Js Props.
Local Open Scope js_scope.

Section TripleRules.

Context {R : Type}.

Lemma triple_ret (P : DB -> Prop) (r : R) Q E :
  (forall db, P db -> Q r db) -> triple P (Ret r) Q E.
Proof. intros H faults db HP. simpl. auto. Qed.

Lemma triple_throw (P : DB -> Prop) (e : pg_error) (Q : R -> DB -> Prop) E :
  (forall db, P db -> E e db) -> triple P (Throw e) Q E.
Proof. intros H faults db HP. simpl. auto. Qed.

Lemma triple_weaken (P P' : DB -> Prop) (p : Prog R) (Q Q' : R -> DB -> Prop)
    (E E' : pg_error -> DB -> Prop) :
  triple P' p Q' E' ->
  (forall db, P db -> P' db) ->
  (forall r db, Q' r db -> Q r db) ->
  (forall e db, E' e db -> E e db) ->
  triple P p Q E.
Proof.
  intros H HP HQ HE faults db Hdb.
  specialize (H faults db (HP db Hdb)).
  destruct (run p faults db) as [db' [e | r]]; auto.
Qed.

(** A triple of [Await q k] gives one of [k r] from the stores a step of [q]
    can leave. *)
Lemma triple_await_inv {A} (P : DB -> Prop) (q : query A) k
    (Q : R -> DB -> Prop) E (r : pg_error + A) :
  triple P (Await q k) Q E ->
  triple (fun db' => exists f db, P db /\ step f q db = (db', r)) (k r) Q E.
Proof.
  intros H faults db' (f & db & HP & Hstep).
  specialize (H (f :: faults) db HP). simpl in H.
  rewrite Hstep in H. exact H.
Qed.

Lemma triple_await_intro {A} (P : DB -> Prop) (q : query A) k
    (Q : R -> DB -> Prop) E :
  (forall r,
     triple (fun db' => exists f db, P db /\ step f q db = (db', r)) (k r) Q E) ->
  triple P (Await q k) Q E.
Proof.
  intros H faults db HP. simpl.
  destruct (step (hd None faults) q db) as [db' r] eqn:Hstep.
  apply (H r (tl faults) db'). eauto.
Qed.

End TripleRules.

Lemma triple_bind {A B} (m : Prog A) (f : A -> Prog B) :
  forall (P : DB -> Prop) (Q : A -> DB -> Prop) (Q' : B -> DB -> Prop) E,
    triple P m Q E ->
    (forall a, triple (Q a) (f a) Q' E) ->
    triple P (bind m f) Q' E.
Proof.
  induction m as [a | e | X q k IH]; intros P Q Q' E Hm Hf.
  - intros faults db HP. simpl.
    apply (Hf a faults db). exact (Hm faults db HP).
  - intros faults db HP. simpl. exact (Hm faults db HP).
  - simpl. apply triple_await_intro. intros r.
    eapply IH; [ | exact Hf ].
    apply triple_await_inv. exact Hm.
Qed.

Lemma triple_catch {A} (m : Prog A) (h : pg_error -> Prog A) :
  forall (P : DB -> Prop) (Q : A -> DB -> Prop) (E E' : pg_error -> DB -> Prop),
    triple P m Q E' ->
    (forall e, triple (E' e) (h e) Q E) ->
    triple P (try_catch m h) Q E.
Proof.
  induction m as [a | e | X q k IH]; intros P Q E E' Hm Hh.
  - intros faults db HP. simpl. exact (Hm faults db HP).
  - intros faults db HP. simpl.
    apply (Hh e faults db). exact (Hm faults db HP).
  - simpl. apply triple_await_intro. intros r.
    eapply IH; [ | exact Hh ].
    apply triple_await_inv. exact Hm.
Qed.

(** [await q]: what a step of [q] does, with or without a fault. *)
Lemma triple_await {A} (P : DB -> Prop) (q : query A)
    (Q : A -> DB -> Prop) (E : pg_error -> DB -> Prop) :
  (forall f db, P db ->
     match step f q db with
     | (db', inr a) => Q a db'
     | (db', inl e) => E e db'
     end) ->
  triple P (await q) Q E.
Proof.
  intros H faults db HP. unfold await. simpl.
  specialize (H (hd None faults) db HP).
  destruct (step (hd None faults) q db) as [db' [e | a]]; simpl; exact H.
Qed.

(** A statement on the pool: its result on the committed tables, or an error
    that leaves them as they were. *)
Lemma triple_pool_query {A} (P : DB -> Prop) (s : stmt A)
    (Q : A -> DB -> Prop) (E : pg_error -> DB -> Prop) :
  (forall db e, P db -> E e db) ->
  (forall db t a, P db -> sql s (committed db) = inr (t, a) ->
     Q a (mkDB t (open_tx db))) ->
  triple P (await (pool_query s)) Q E.
Proof.
  intros HE HQ. apply triple_await. intros [e | ] db HP; simpl.
  - auto.
  - destruct (sql s (committed db)) as [e | [t a]] eqn:Hs; auto.
Qed.

(* ================================================================== *)
(** * Facts about rows and tables *)
(* ================================================================== *)

Lemma filter_nil_existsb {A} (f : A -> bool) (l : list A) :
  filter f l = [] <-> existsb f l = false.
Proof.
  induction l as [| x l IH]; simpl; [tauto |].
  destruct (f x); simpl; [split; discriminate | exact IH].
Qed.

Lemma filter_length_pos {A} (f : A -> bool) (l : list A) :
  (0 <? Z.of_nat (List.length (filter f l))) = existsb f l.
Proof.
  induction l as [| x l IH]; simpl; [reflexivity |].
  destruct (f x); simpl; [| exact IH].
  apply Z.ltb_lt. lia.
Qed.

Lemma existsb_update_where_id (i : Z) (sel : KeyRow -> bool) (f : KeyRow -> KeyRow)
    (l : list KeyRow) :
  (forall k, id (f k) = id k) ->
  existsb (key_has_id i) (update_where sel f l) = existsb (key_has_id i) l.
Proof.
  intros Hf. unfold update_where. induction l as [| x l IH]; simpl; [reflexivity |].
  rewrite IH. f_equal. unfold key_has_id. destruct (sel x); [rewrite Hf |]; reflexivity.
Qed.

Lemma map_id_update_where (sel : KeyRow -> bool) (f : KeyRow -> KeyRow)
    (l : list KeyRow) :
  (forall k, id (f k) = id k) ->
  map id (update_where sel f l) = map id l.
Proof.
  intros Hf. unfold update_where. rewrite map_map. apply map_ext.
  intros k. destruct (sel k); [apply Hf | reflexivity].
Qed.

Lemma lookup_key_In (t : Tables) (key : string) (k : KeyRow) :
  lookup_key t key = Some k ->
  In k (keys t) /\ key_string k = toUpperCase (trim key).
Proof.
  unfold lookup_key. intros H.
  destruct (filter _ (keys t)) as [| k' rest] eqn:Hf; [discriminate |].
  injection H as ->.
  assert (Hin : In k (filter (key_has_string (toUpperCase (trim key))) (keys t)))
    by (rewrite Hf; left; reflexivity).
  apply filter_In in Hin. destruct Hin as [Hin Hs]. split; [exact Hin |].
  apply String.eqb_eq. exact Hs.
Qed.

Lemma In_key_exists (t : Tables) (k : KeyRow) :
  In k (keys t) -> key_exists t (id k) = true.
Proof.
  intros H. unfold key_exists. apply existsb_exists.
  exists k. split; [exact H | apply Z.eqb_refl].
Qed.

Lemma lookup_key_rows (t : Tables) (key : string) (k : KeyRow) :
  lookup_key t key = Some k ->
  exists rest,
    filter (key_has_string (toUpperCase (trim key))) (keys t) = k :: rest.
Proof.
  unfold lookup_key. destruct (filter _ (keys t)) as [| k' rest]; [discriminate |].
  intros H. injection H as ->. eauto.
Qed.

Lemma filter_update_where_string (s : string) (sel : KeyRow -> bool)
    (f : KeyRow -> KeyRow) (l : list KeyRow) :
  (forall k, key_string (f k) = key_string k) ->
  filter (key_has_string s) (update_where sel f l)
  = update_where sel f (filter (key_has_string s) l).
Proof.
  intros Hf. unfold update_where. induction l as [| x l IH]; simpl; [reflexivity |].
  assert (Hx : key_has_string s (if sel x then f x else x) = key_has_string s x).
  { unfold key_has_string. destruct (sel x); [rewrite Hf |]; reflexivity. }
  rewrite Hx. destruct (key_has_string s x); simpl; rewrite IH; reflexivity.
Qed.

Lemma device_id_accepted (d : string) :
  5 <= strlen d <= 255 -> (strlen d <? 5) || (strlen d >? 255) = false.
Proof.
  intros H. rewrite Z.gtb_ltb. apply orb_false_iff.
  split; apply Z.ltb_ge; lia.
Qed.

Lemma fits_varchar_le (n : Z) (s : string) :
  strlen s <= n -> fits_varchar n s = true.
Proof. intros H. apply Z.leb_le. exact H. Qed.

(* ================================================================== *)
(** * Runs without faults *)
(* ================================================================== *)

Lemma run_bind {A B} (m : Prog A) (f : A -> Prog B) (db : DB) :
  run (bind m f) [] db =
  match run m [] db with
  | (db', inr a) => run (f a) [] db'
  | (db', inl e) => (db', inl e)
  end.
Proof.
  revert db. induction m as [a | e | X q k IH]; intros db; simpl; try reflexivity.
  destruct (exec q db) as [db' r]. apply IH.
Qed.

Lemma run_try_catch {A} (m : Prog A) (h : pg_error -> Prog A) (db : DB) :
  run (try_catch m h) [] db =
  match run m [] db with
  | (db', inr a) => (db', inr a)
  | (db', inl e) => run (h e) [] db'
  end.
Proof.
  revert db. induction m as [a | e | X q k IH]; intros db; simpl; try reflexivity.
  destruct (exec q db) as [db' r]. apply IH.
Qed.

Lemma run_await {A} (q : query A) (db : DB) :
  run (await q) [] db = exec q db.
Proof.
  unfold await. simpl. destruct (exec q db) as [db' [e | a]]; reflexivity.
Qed.

Lemma run_logKeyActivity (keyId : Z) (action : string) (req : Req) (now : Z)
    (db : DB) :
  run (Index.logKeyActivity keyId action req now) [] db
  = (mkDB (log_written (committed db) keyId action req now) (open_tx db), inr tt).
Proof.
  unfold Index.logKeyActivity. rewrite run_try_catch, run_await.
  unfold log_written. cbn [exec].
  destruct (sql (insert_log now keyId action (ip req)
                            (Some (or_else (user_agent req) "unknown")))
                (committed db)) as [e | [t []]];
    [destruct db |]; reflexivity.
Qed.

(** The entry is written when the key is in the table and the address and the
    action fit their columns. *)
Lemma log_written_rows (t : Tables) (keyId : Z) (action : string) (req : Req)
    (now : Z) :
  key_exists t keyId = true ->
  strlen action <= 100 -> strlen (ip req) <= 100 ->
  log_written t keyId action req now
  = mkTables (keys t) (key_activations t)
             (key_logs t ++ [log_entry t keyId action req now])
             (keys_id_seq t) (key_activations_id_seq t) (key_logs_id_seq t + 1).
Proof.
  intros Hk Ha Hip. unfold log_written. simpl.
  rewrite (fits_varchar_le _ _ Ha), (fits_varchar_le _ _ Hip), Hk. reflexivity.
Qed.

(** Logging touches neither keys nor activations. *)
Lemma log_written_frame (t : Tables) (keyId : Z) (action : string) (req : Req)
    (now : Z) :
  keys (log_written t keyId action req now) = keys t /\
  key_activations (log_written t keyId action req now) = key_activations t /\
  keys_id_seq (log_written t keyId action req now) = keys_id_seq t.
Proof.
  unfold log_written. simpl.
  destruct (negb _); simpl; [auto |].
  destruct (negb _); simpl; auto.
Qed.

(* ================================================================== *)
(** * POST /activateKey: expiry, status, and the device already known *)
(* ================================================================== *)

Lemma gtb_true (a b : Z) : b < a -> (a >? b) = true.
Proof. intros H. rewrite Z.gtb_ltb. apply Z.ltb_lt. exact H. Qed.

Lemma gtb_false (a b : Z) : a <= b -> (a >? b) = false.
Proof. intros H. rewrite Z.gtb_ltb. apply Z.ltb_ge. exact H. Qed.

(** The run of the handler on a key that is past its expiry. *)
Lemma activate_expired_run (db : DB) (req : Req) (key device_id : option string)
    (k d : string) (now : Z) (keyData : KeyRow) :
  truthy key = Some k -> truthy device_id = Some d ->
  5 <= strlen d <= 255 ->
  lookup_key (committed db) k = Some keyData ->
  expires_at keyData < now ->
  run (Index.post_activateKey req key device_id now) [] db
  = (mkDB (log_written (marked_expired (committed db) (id keyData))
                       (id keyData) "activation_expired" req now)
          (open_tx db),
     inr KeyExpired).
Proof.
  intros Hk Hd Hlen Hlook Hexp.
  destruct (lookup_key_rows _ _ _ Hlook) as [rest Hrows].
  unfold Index.post_activateKey. rewrite Hk, Hd, (device_id_accepted _ Hlen).
  rewrite run_try_catch, run_bind, run_await. cbn [exec sql].
  rewrite Hrows, (gtb_true _ _ Hexp).
  rewrite run_bind, run_await. cbn [exec sql].
  rewrite run_bind, run_logKeyActivity. reflexivity.
Qed.

(** C3.  In Activate the expiry check comes before the status check: a key
    that is found and whose [expires_at] is in the past makes the call fail
    with KeyExpired, whatever its stored status, and never with
    KeyNotActive; the key is marked expired, and [activation_expired] is
    logged (the entry is in the table when the caller's address fits its
    column). *)
Theorem activate_expiry_wins (db : DB) (req : Req)
    (key device_id : option string) (k d : string) (now : Z)
    (keyData : KeyRow) :
  truthy key = Some k -> truthy device_id = Some d ->
  5 <= strlen d <= 255 ->
  lookup_key (committed db) k = Some keyData ->
  expires_at keyData < now ->
  let result := run (Index.post_activateKey req key device_id now) [] db in
  snd result = inr KeyExpired /\
  snd result <> inr KeyNotActive /\
  lookup_key (committed (fst result)) k
    = Some (set_key_status "expired" keyData) /\
  key_activations (committed (fst result)) = key_activations (committed db) /\
  (strlen (ip req) <= 100 ->
   key_logs (committed (fst result))
   = (key_logs (committed db)
      ++ [log_entry (committed db) (id keyData) "activation_expired" req now])%list).
Proof.
  intros Hk Hd Hlen Hlook Hexp result. subst result.
  rewrite (activate_expired_run db req key device_id k d now keyData) by assumption.
  cbn [fst snd committed].
  destruct (log_written_frame (marked_expired (committed db) (id keyData))
              (id keyData) "activation_expired" req now) as (Hkeys & Hacts & _).
  repeat split.
  - discriminate.
  - unfold lookup_key. rewrite Hkeys. unfold marked_expired. cbn [keys with_keys].
    rewrite filter_update_where_string by reflexivity.
    destruct (lookup_key_rows _ _ _ Hlook) as [rest ->].
    cbn. unfold key_has_id. rewrite Z.eqb_refl. reflexivity.
  - rewrite Hacts. reflexivity.
  - intros Hip. rewrite log_written_rows.
    + reflexivity.
    + unfold key_exists, marked_expired. cbn [keys with_keys].
      rewrite existsb_update_where_id by reflexivity.
      apply In_key_exists. apply (lookup_key_In _ _ _ Hlook).
    + cbn. lia.
    + exact Hip.
Qed.

Lemma sql_select_key_by_string (s : string) (t : Tables) :
  sql (select_key_by_string s) t = inr (t, filter (key_has_string s) (keys t)).
Proof. reflexivity. Qed.

Lemma sql_select_activation (i : Z) (d : string) (t : Tables) :
  sql (select_activation i d) t
  = inr (t, filter (act_of_device i d) (key_activations t)).
Proof. reflexivity. Qed.

Lemma sql_select_count_activations (i : Z) (t : Tables) :
  sql (select_count_activations i) t = inr (t, count_activations t i).
Proof. reflexivity. Qed.

Lemma sql_update_status_expired (i : Z) (t : Tables) :
  sql (update_status_expired i) t = inr (marked_expired t i, tt).
Proof. reflexivity. Qed.

Lemma sql_update_used_devices (i : Z) (t : Tables) :
  sql (update_used_devices i) t = inr (counted t i, tt).
Proof. reflexivity. Qed.

(** The run of the handler, case by case, when no query is made to fail. *)
Lemma activate_run (db : DB) (req : Req) (key device_id : option string)
    (now : Z) :
  run (Index.post_activateKey req key device_id now) [] db
  = match truthy key, truthy device_id with
    | Some k, Some d =>
        if (strlen d <? 5) || (strlen d >? 255) then
          (db, inr (res_status_json 400 (Index.failure "Invalid device_id format")))
        else
          match lookup_key (committed db) k with
          | None => (db, inr (res_status_json 404 (Index.failure "Key not found")))
          | Some keyData =>
              let t := committed db in
              let i := id keyData in
              if now >? expires_at keyData then
                (mkDB (log_written (marked_expired t i) i "activation_expired" req now)
                      (open_tx db),
                 inr KeyExpired)
              else if negb (String.eqb (status keyData) "active") then
                (db, inr KeyNotActive)
              else if activated t i d then
                (mkDB (log_written t i "reactivated" req now) (open_tx db),
                 inr (AlreadyActivated keyData))
              else if count_activations t i >=? max_devices keyData then
                (db, inr DeviceLimitReached)
              else
                match sql (insert_activation now i d (ip req)) t with
                | inr (w, _) =>
                    (mkDB (log_written (counted w i) i "activated" req now) None,
                     inr (Activated keyData (count_activations t i + 1)))
                | inl e =>
                    (mkDB t None,
                     inr (if String.eqb (err_code e) "23505"
                          then DuplicateActivation else Unavailable))
                end
          end
    | _, _ =>
        (db, inr (res_status_json 400
                    (Index.failure "Key and device_id are required")))
    end.
Proof.
  destruct db as [t tx]. cbn [committed open_tx].
  unfold Index.post_activateKey.
  destruct (truthy key) as [k |]; [| reflexivity].
  destruct (truthy device_id) as [d |]; [| reflexivity].
  destruct ((strlen d <? 5) || (strlen d >? 255)); [reflexivity |].
  rewrite run_try_catch, run_bind, run_await. cbn [exec committed open_tx].
  rewrite sql_select_key_by_string. unfold lookup_key.
  destruct (filter (key_has_string (toUpperCase (trim k))) (keys t))
    as [| keyData rest]; [reflexivity |].
  cbn [hd_error]. cbv zeta.
  destruct (now >? expires_at keyData).
  { rewrite run_bind, run_await. cbn [exec committed open_tx].
    rewrite sql_update_status_expired.
    rewrite run_bind, run_logKeyActivity. reflexivity. }
  destruct (negb (String.eqb (status keyData) "active")); [reflexivity |].
  rewrite run_bind, run_await. cbn [exec committed open_tx].
  rewrite sql_select_activation, filter_length_pos.
  fold (activated t (id keyData) d).
  destruct (activated t (id keyData) d) eqn:Hact.
  { rewrite run_bind, run_logKeyActivity. reflexivity. }
  rewrite run_bind, run_await. cbn [exec committed open_tx].
  rewrite sql_select_count_activations.
  destruct (count_activations t (id keyData) >=? max_devices keyData);
    [reflexivity |].
  rewrite run_bind, run_await. cbn [exec].
  rewrite run_bind, run_try_catch.
  rewrite run_bind, run_await. cbn [exec committed open_tx].
  rewrite run_bind, run_await. cbn [exec open_tx committed].
  destruct (sql (insert_activation now (id keyData) d (ip req)) t)
    as [e | [w []]].
  - rewrite run_bind, run_await. cbn [exec committed].
    cbn [run]. destruct (String.eqb (err_code e) "23505"); reflexivity.
  - rewrite run_bind, run_await. cbn [exec open_tx committed].
    rewrite sql_update_used_devices.
    rewrite run_await. cbn [exec open_tx committed].
    rewrite run_bind, run_logKeyActivity. reflexivity.
Qed.

(** C2.  Activate is idempotent per (key, device): when the device already
    holds an Activation of a key that is active and not past its expiry, a
    further Activate call for the pair answers the success "Device already
    activated", leaves the activation rows and every key row (so
    [used_devices] too) as they were, and logs [reactivated] (the entry is in
    the table when the caller's address fits its column). *)
Theorem activate_idempotent (db : DB) (req : Req)
    (key device_id : option string) (k d : string) (now : Z)
    (keyData : KeyRow) :
  truthy key = Some k -> truthy device_id = Some d ->
  5 <= strlen d <= 255 ->
  lookup_key (committed db) k = Some keyData ->
  now <= expires_at keyData ->
  status keyData = "active" ->
  activated (committed db) (id keyData) d = true ->
  let result := run (Index.post_activateKey req key device_id now) [] db in
  snd result = inr (AlreadyActivated keyData) /\
  http_status (AlreadyActivated keyData) = 200 /\
  key_activations (committed (fst result)) = key_activations (committed db) /\
  count_activations (committed (fst result)) (id keyData)
    = count_activations (committed db) (id keyData) /\
  keys (committed (fst result)) = keys (committed db) /\
  (strlen (ip req) <= 100 ->
   key_logs (committed (fst result))
   = (key_logs (committed db)
      ++ [log_entry (committed db) (id keyData) "reactivated" req now])%list).
Proof.
  intros Hk Hd Hlen Hlook Hexp Hst Hact result. subst result.
  rewrite activate_run, Hk, Hd, (device_id_accepted _ Hlen), Hlook.
  cbv zeta. rewrite (gtb_false _ _ Hexp), Hst, String.eqb_refl, Hact.
  cbn [negb fst snd committed].
  destruct (log_written_frame (committed db) (id keyData) "reactivated" req now)
    as (Hkeys & Hacts & _).
  repeat split.
  - exact Hacts.
  - unfold count_activations. rewrite Hacts. reflexivity.
  - exact Hkeys.
  - intros Hip. rewrite log_written_rows.
    + reflexivity.
    + apply In_key_exists. apply (lookup_key_In _ _ _ Hlook).
    + cbn. lia.
    + exact Hip.
Qed.

(* ================================================================== *)
(** * The tables under the writes of the activation route *)
(* ================================================================== *)

Lemma In_update_where {A} (sel : A -> bool) (f : A -> A) (l : list A) (y : A) :
  In y (update_where sel f l) <->
  exists x, In x l /\ y = (if sel x then f x else x).
Proof.
  unfold update_where. rewrite in_map_iff.
  split; intros (x & H1 & H2); exists x; [split; [exact H2 | symmetry; exact H1]
                                        | split; [symmetry; exact H2 | exact H1]].
Qed.

Lemma unique_ids_eq (t : Tables) (k1 k2 : KeyRow) :
  unique_ids t -> In k1 (keys t) -> In k2 (keys t) -> id k1 = id k2 -> k1 = k2.
Proof.
  unfold unique_ids. induction (keys t) as [| x l IH]; simpl; [tauto |].
  intros Hnd H1 H2 Hid. inversion Hnd as [| ? ? Hx Hl]; subst.
  destruct H1 as [-> | H1], H2 as [-> | H2]; auto.
  - exfalso. apply Hx. rewrite Hid. apply in_map. exact H2.
  - exfalso. apply Hx. rewrite <- Hid. apply in_map. exact H1.
Qed.

(** What a successful insert of an activation row leaves. *)
Lemma insert_activation_inv (now i : Z) (d ip : string) (t w : Tables) (u : unit) :
  sql (insert_activation now i d ip) t = inr (w, u) ->
  w = mkTables (keys t)
               (key_activations t
                ++ [mkActivation (key_activations_id_seq t) i d ip now])
               (key_logs t) (keys_id_seq t) (key_activations_id_seq t + 1)
               (key_logs_id_seq t)
  /\ activated t i d = false /\ key_exists t i = true.
Proof.
  cbn [sql]. fold (activated t i d).
  destruct (negb (fits_varchar 255 d && fits_varchar 100 ip)); [discriminate |].
  destruct (activated t i d); [discriminate |].
  destruct (key_exists t i); simpl; [| discriminate].
  intros H. injection H as <-. auto.
Qed.

Lemma count_activations_app (t : Tables) (a : ActivationRow) acts' (j : Z) :
  acts' = (key_activations t ++ [a])%list ->
  Z.of_nat (List.length (filter (act_of_key j) acts'))
  = count_activations t j + (if act_key_id a =? j then 1 else 0).
Proof.
  intros ->. unfold count_activations. rewrite filter_app, length_app.
  cbn [filter]. unfold act_of_key at 2.
  destruct (act_key_id a =? j); simpl; lia.
Qed.

Lemma counted_after_insert (now i : Z) (d ip : string) (t w : Tables) (u : unit) :
  sql (insert_activation now i d ip) t = inr (w, u) ->
  counted w i = activation_committed t now i d ip.
Proof.
  intros H. apply insert_activation_inv in H. destruct H as (-> & _ & _).
  reflexivity.
Qed.

Lemma count_activation_committed (t : Tables) (now i : Z) (d ip : string) (j : Z) :
  count_activations (activation_committed t now i d ip) j
  = count_activations t j + (if i =? j then 1 else 0).
Proof.
  unfold count_activations at 1. cbn [key_activations activation_committed].
  erewrite count_activations_app by reflexivity. reflexivity.
Qed.

(** ** The device limit *)

Lemma limit_marked_expired (t : Tables) (i : Z) :
  limit_respected t -> limit_respected (marked_expired t i).
Proof.
  intros [Hu Hl]. split.
  - unfold unique_ids, marked_expired. cbn [keys with_keys].
    rewrite map_id_update_where by reflexivity. exact Hu.
  - intros k' Hk'. cbn [keys marked_expired with_keys] in Hk'.
    apply In_update_where in Hk'. destruct Hk' as (k & Hk & ->).
    specialize (Hl k Hk).
    replace (count_activations (marked_expired t i)) with (count_activations t)
      by reflexivity.
    destruct (key_has_id i k); exact Hl.
Qed.

Lemma limit_log_written (t : Tables) (i : Z) (action : string) (req : Req)
    (now : Z) :
  limit_respected t -> limit_respected (log_written t i action req now).
Proof.
  destruct (log_written_frame t i action req now) as (Hk & Ha & _).
  intros [Hu Hl]. split.
  - unfold unique_ids. rewrite Hk. exact Hu.
  - intros k Hin. rewrite Hk in Hin. unfold count_activations. rewrite Ha.
    exact (Hl k Hin).
Qed.

Lemma limit_activation_committed (t : Tables) (keyData : KeyRow) (now : Z)
    (d ip : string) :
  limit_respected t ->
  In keyData (keys t) ->
  count_activations t (id keyData) < max_devices keyData ->
  limit_respected (activation_committed t now (id keyData) d ip).
Proof.
  intros [Hu Hl] Hin Hlt. split.
  - unfold unique_ids. cbn [keys activation_committed].
    rewrite map_id_update_where by reflexivity. exact Hu.
  - intros k' Hk'. cbn [keys activation_committed] in Hk'.
    apply In_update_where in Hk'. destruct Hk' as (k & Hk & ->).
    specialize (Hl k Hk).
    unfold key_has_id. destruct (Z.eqb_spec (id k) (id keyData)) as [Heq | Hne].
    + assert (k = keyData) by (apply (unique_ids_eq t); assumption). subst k.
      cbn [id used_devices max_devices incr_used_devices].
      rewrite count_activation_committed, Z.eqb_refl. lia.
    + rewrite count_activation_committed.
      destruct (Z.eqb_spec (id keyData) (id k)); [congruence | lia].
Qed.

(* ================================================================== *)
(** * Triples of the queries the handlers make *)
(* ================================================================== *)

(** A SELECT: the store is as before, the result is read off its tables. *)
Lemma triple_read {A} (P : DB -> Prop) (s : stmt A) (v : Tables -> A) :
  (forall t, sql s t = inr (t, v t)) ->
  triple P (await (pool_query s))
         (fun a db => P db /\ a = v (committed db)) (fun _ => P).
Proof.
  intros Hs. apply triple_pool_query.
  - auto.
  - intros [t tx] t' a HP H. cbn [committed open_tx] in *.
    rewrite Hs in H. injection H as <- <-. auto.
Qed.

(** A write of the pool that cannot fail on its own. *)
Lemma triple_write {A} (P : Tables -> Prop) (s : stmt A) (w : Tables -> Tables)
    (v : Tables -> A) :
  (forall t, sql s t = inr (w t, v t)) ->
  triple (fun db => P (committed db)) (await (pool_query s))
         (fun a db => exists t, P t /\ committed db = w t /\ a = v t)
         (fun _ db => P (committed db)).
Proof.
  intros Hs. apply triple_pool_query.
  - auto.
  - intros db t' a HP H. rewrite Hs in H. injection H as <- <-.
    exists (committed db). auto.
Qed.

Lemma triple_logKeyActivity (P : Tables -> Prop) (keyId : Z) (action : string)
    (req : Req) (now : Z) (E : pg_error -> DB -> Prop) :
  (forall t, P t -> P (log_written t keyId action req now)) ->
  triple (fun db => P (committed db))
         (Index.logKeyActivity keyId action req now)
         (fun _ db => P (committed db)) E.
Proof.
  intros HP. unfold Index.logKeyActivity.
  apply triple_catch with (E' := fun _ db => P (committed db)).
  - apply triple_pool_query.
    + auto.
    + intros db t a Hdb Hs. cbn [committed].
      specialize (HP _ Hdb). unfold log_written in HP. rewrite Hs in HP. exact HP.
  - intros e. apply triple_ret. auto.
Qed.

Lemma triple_pool_connect (P : DB -> Prop) :
  triple P (await pool_connect) (fun _ => P) (fun _ => P).
Proof.
  apply triple_await. intros [e |] db HP; simpl; exact HP.
Qed.

(** ROLLBACK and rethrow: the committed tables are as before. *)
Lemma triple_rollback_throw {R} (P : Tables -> Prop) (txErr : pg_error)
    (Q : R -> DB -> Prop) :
  triple (fun db => P (committed db))
         (await client_rollback ;; Throw txErr)
         Q (fun _ db => P (committed db)).
Proof.
  eapply triple_bind with (Q := fun _ db => P (committed db)).
  - apply triple_await. intros [e |] db HP; simpl; exact HP.
  - intros ?. apply triple_throw. auto.
Qed.

(** BEGIN: the transaction starts from the committed tables. *)
Lemma triple_begin (P : Tables -> Prop) :
  triple (fun db => P (committed db)) (await client_begin)
         (fun _ db => P (committed db) /\
                      exists w, open_tx db = Some w /\ committed db = w)
         (fun _ db => P (committed db)).
Proof.
  apply triple_await. intros [e |] db HP; simpl; eauto.
Qed.

(** A statement inside the transaction works on its private copy. *)
Lemma triple_client_query {A} (P : Tables -> Prop) (s : stmt A)
    (W : Tables -> Tables -> Prop) (W' : Tables -> Tables -> Prop) :
  (forall t w w' a, P t -> W t w -> sql s w = inr (w', a) -> W' t w') ->
  triple (fun db => P (committed db) /\
                    exists w, open_tx db = Some w /\ W (committed db) w)
         (await (client_query s))
         (fun _ db => P (committed db) /\
                      exists w, open_tx db = Some w /\ W' (committed db) w)
         (fun _ db => P (committed db)).
Proof.
  intros H. apply triple_await.
  intros [e |] db (HP & w & Htx & HW); simpl; [exact HP |].
  rewrite Htx. destruct (sql s w) as [e | [w' a]] eqn:Hs; simpl; [exact HP |].
  split; [exact HP |]. exists w'. split; [reflexivity |].
  eapply H; eassumption.
Qed.

(** COMMIT installs the private copy. *)
Lemma triple_commit (P : Tables -> Prop) (W : Tables -> Tables -> Prop)
    (Q : Tables -> Prop) :
  (forall t w, P t -> W t w -> Q w) ->
  triple (fun db => P (committed db) /\
                    exists w, open_tx db = Some w /\ W (committed db) w)
         (await client_commit)
         (fun _ db => Q (committed db))
         (fun _ db => P (committed db)).
Proof.
  intros H. apply triple_await.
  intros [e |] db (HP & w & Htx & HW); simpl; [exact HP |].
  rewrite Htx. simpl. eapply H; eassumption.
Qed.

(** The transaction of a first activation: it returns with both writes
    committed, or throws with the committed tables as they were. *)
Lemma triple_activation_tx (P Q : Tables -> Prop) (now i : Z) (d ip : string) :
  (forall t w u, P t -> sql (insert_activation now i d ip) t = inr (w, u) ->
     Q (activation_committed t now i d ip)) ->
  triple (fun db => P (committed db))
         (try (await client_begin ;;
               await (client_query (insert_activation now i d ip)) ;;
               await (client_query (update_used_devices i)) ;;
               await client_commit)
          catch txErr => (await client_rollback ;; Throw txErr))
         (fun _ db => Q (committed db))
         (fun _ db => P (committed db)).
Proof.
  intros H.
  apply triple_catch with (E' := fun _ db => P (committed db));
    [| intros e; apply triple_rollback_throw].
  eapply triple_bind; [apply triple_begin |]. intros ?.
  eapply triple_bind.
  { apply triple_client_query
      with (W := fun t w => t = w)
           (W' := fun t w' => exists u, sql (insert_activation now i d ip) t
                                        = inr (w', u)).
    intros t w w' r HP Heq Hs. subst w. eauto. }
  intros ?. eapply triple_bind.
  { apply triple_client_query
      with (W := fun t w' => exists u, sql (insert_activation now i d ip) t
                                       = inr (w', u))
           (W' := fun t w'' => exists w' u,
                    sql (insert_activation now i d ip) t = inr (w', u)
                    /\ w'' = counted w' i).
    intros t w w' r HP [u Hu] Hs. rewrite sql_update_used_devices in Hs.
    injection Hs as <- _. eauto. }
  intros ?.
  apply triple_commit
    with (W := fun t w'' => exists w' u,
                 sql (insert_activation now i d ip) t = inr (w', u)
                 /\ w'' = counted w' i).
  intros t w HP (w' & u & Hins & ->).
  rewrite (counted_after_insert _ _ _ _ _ _ _ Hins). eapply H; eassumption.
Qed.

Section ActivateTriple.

(** [L] holds of the tables up to the transaction and is kept by the two
    writes that may come before it; the transaction takes [L] to [M], which
    the log entry that follows keeps. *)
Variables L M : Tables -> Prop.
Hypothesis L_marked : forall t i, L t -> L (marked_expired t i).
Hypothesis L_log : forall t i action req now,
  L t -> L (log_written t i action req now).
Hypothesis M_log : forall t i action req now,
  M t -> M (log_written t i action req now).
Hypothesis L_activation : forall t keyData now d ip,
  L t -> In keyData (keys t) ->
  count_activations t (id keyData) < max_devices keyData ->
  key_exists t (id keyData) = true ->
  M (activation_committed t now (id keyData) d ip).

Let LM (db : DB) : Prop := L (committed db) \/ M (committed db).

Lemma activate_triple (req : Req) (key device_id : option string) (now : Z) :
  triple (fun db => L (committed db))
         (Index.post_activateKey req key device_id now)
         (fun _ => LM) (fun _ => LM).
Proof.
  assert (Hret : forall (P : DB -> Prop) r,
             (forall db, P db -> L (committed db)) ->
             triple P (Ret r) (fun _ : Response => LM) (fun _ => LM)).
  { intros P r HP. apply triple_ret. intros db H. left. auto. }
  unfold Index.post_activateKey.
  apply triple_catch with (E' := fun _ => LM).
  2: { intros e. destruct (String.eqb _ _); apply triple_ret; auto. }
  destruct (truthy key) as [k |]; [| apply Hret; auto].
  destruct (truthy device_id) as [d |]; [| apply Hret; auto].
  destruct (_ || _); [apply Hret; auto |].
  eapply triple_bind with
    (Q := fun rows db => L (committed db) /\
            rows = filter (key_has_string (toUpperCase (trim k)))
                          (keys (committed db))).
  { eapply triple_weaken.
    - apply triple_read. apply sql_select_key_by_string.
    - intros db H. exact H.
    - auto.
    - intros e db H. left. exact H. }
  intros [| keyData rest]; [apply Hret; tauto |].
  destruct (now >? expires_at keyData).
  { eapply triple_bind with (Q := fun _ db => L (committed db)).
    - eapply triple_weaken.
      + apply (triple_write L). apply sql_update_status_expired.
      + tauto.
      + intros x db (t & Ht & -> & _). apply L_marked, Ht.
      + intros e db H. left. exact H.
    - intros ?. eapply triple_bind.
      + apply triple_logKeyActivity. intros t. apply L_log.
      + intros ?. apply Hret. auto. }
  destruct (negb _); [apply Hret; tauto |].
  eapply triple_bind with
    (Q := fun _ db => L (committed db) /\ In keyData (keys (committed db))).
  { eapply triple_weaken.
    - apply triple_read. apply sql_select_activation.
    - intros db H. exact H.
    - intros acts db [[HL Hrows] _]. split; [exact HL |].
      assert (Hin : In keyData (keyData :: rest)) by (left; reflexivity).
      rewrite Hrows in Hin. apply filter_In in Hin. tauto.
    - intros e db [HL _]. left. exact HL. }
  intros existingActivation. destruct (0 <? _).
  { eapply triple_bind with (Q := fun _ db => L (committed db)).
    - eapply triple_weaken.
      + apply (triple_logKeyActivity L). intros t. apply L_log.
      + tauto.
      + auto.
      + intros e db H. exact H.
    - intros ?. apply Hret. auto. }
  eapply triple_bind with
    (Q := fun c db => L (committed db) /\ In keyData (keys (committed db)) /\
                      c = count_activations (committed db) (id keyData)).
  { eapply triple_weaken.
    - apply triple_read. apply sql_select_count_activations.
    - intros db H. exact H.
    - intros c db [[HL Hin] Hc]. auto.
    - intros e db [HL _]. left. exact HL. }
  intros currentDevices.
  destruct (currentDevices >=? max_devices keyData) eqn:Hlim;
    [apply Hret; tauto |].
  assert (Hlt : currentDevices < max_devices keyData)
    by (rewrite Z.geb_leb in Hlim; apply Z.leb_gt in Hlim; exact Hlim).
  eapply triple_bind with
    (Q := fun _ db => L (committed db) /\ In keyData (keys (committed db)) /\
                      currentDevices = count_activations (committed db) (id keyData)).
  { eapply triple_weaken.
    - apply triple_pool_connect.
    - intros db H. exact H.
    - auto.
    - intros e db [HL _]. left. exact HL. }
  intros ?.
  eapply triple_bind with (Q := fun _ db => M (committed db)).
  { eapply triple_weaken.
    - apply triple_activation_tx
        with (P := fun t => L t /\ In keyData (keys t) /\
                            currentDevices = count_activations t (id keyData))
             (Q := M).
      intros t w u (HL & Hin & Hc) Hins.
      apply L_activation; auto; [lia |].
      apply In_key_exists. exact Hin.
    - intros db H. exact H.
    - auto.
    - intros e db [HL _]. left. exact HL. }
  intros ?. eapply triple_bind with (Q := fun _ db => M (committed db)).
  - eapply triple_weaken.
    + apply (triple_logKeyActivity M). intros t. apply M_log.
    + auto.
    + auto.
    + intros e db H. exact H.
  - intros ?. apply triple_ret. intros db H. right. exact H.
Qed.

End ActivateTriple.

Section ActivateKeeps.

(** A property of the tables that the three writes of the route keep. *)
Variable L : Tables -> Prop.
Hypothesis L_marked : forall t i, L t -> L (marked_expired t i).
Hypothesis L_log : forall t i action req now,
  L t -> L (log_written t i action req now).
Hypothesis L_activation : forall t keyData now d ip,
  L t -> In keyData (keys t) ->
  count_activations t (id keyData) < max_devices keyData ->
  key_exists t (id keyData) = true ->
  L (activation_committed t now (id keyData) d ip).

Lemma activate_keeps (req : Req) (key device_id : option string) (now : Z) :
  keeps (fun db => L (committed db))
        (Index.post_activateKey req key device_id now).
Proof.
  eapply triple_weaken.
  - apply (activate_triple L L L_marked L_log L_log L_activation).
  - auto.
  - intros r db [H | H]; exact H.
  - intros e db [H | H]; exact H.
Qed.

End ActivateKeeps.

(* ================================================================== *)
(** * The device limit *)
(* ================================================================== *)

Lemma keeps_handler_activate (L : Tables -> Prop) (c : Call) :
  keeps (fun db => L (committed db))
        (Index.post_activateKey (call_req c) (call_key c) (call_device_id c)
                                (call_now c)) ->
  forall faults db, L (committed db) ->
    L (committed (Index.after (activate_op c) faults db)).
Proof.
  intros Hk faults db HL. unfold Index.after, activate_op, Index.handler.
  assert (Ht : keeps (fun db => L (committed db))
                 (r <- Index.post_activateKey (call_req c) (call_key c)
                        (call_device_id c) (call_now c) ;; Ret (Some r))).
  { eapply triple_bind; [exact Hk |]. intros r. apply triple_ret. auto. }
  specialize (Ht faults db HL).
  destruct (run _ faults db) as [db' [e | r]]; exact Ht.
Qed.

Lemma limit_respected_after_calls (calls : list Call) :
  forall faults db,
    limit_respected (committed db) ->
    limit_respected (committed (Index.after_all (map activate_op calls) faults db)).
Proof.
  induction calls as [| c calls IH]; intros faults db H; simpl; [exact H |].
  apply IH. apply (keeps_handler_activate limit_respected); [| exact H].
  apply activate_keeps.
  - apply limit_marked_expired.
  - apply limit_log_written.
  - intros t keyData now d ip HL Hin Hlt _.
    apply limit_activation_committed; assumption.
Qed.

Lemma activate_limit_run (db : DB) (req : Req) (key device_id : option string)
    (k d : string) (now : Z) (keyData : KeyRow) :
  truthy key = Some k -> truthy device_id = Some d ->
  5 <= strlen d <= 255 ->
  lookup_key (committed db) k = Some keyData ->
  now <= expires_at keyData ->
  status keyData = "active" ->
  activated (committed db) (id keyData) d = false ->
  max_devices keyData <= count_activations (committed db) (id keyData) ->
  run (Index.post_activateKey req key device_id now) [] db
  = (db, inr DeviceLimitReached).
Proof.
  intros Hk Hd Hlen Hlook Hexp Hst Hact Hmax.
  rewrite activate_run, Hk, Hd, (device_id_accepted _ Hlen), Hlook.
  cbv zeta. rewrite (gtb_false _ _ Hexp), Hst, String.eqb_refl, Hact.
  cbn [negb].
  replace (count_activations (committed db) (id keyData) >=? max_devices keyData)
    with true by (symmetry; rewrite Z.geb_leb; apply Z.leb_le; exact Hmax).
  reflexivity.
Qed.

(** X30.  The device limit, for calls run one after the other.  An Activate
    call for a device that is not yet activated, on a key that is active and
    not past its expiry, fails with DeviceLimitReached and leaves the store
    untouched when the key already has [max_devices] activation rows or
    more.  And no sequence of Activate calls, each run to its end before the
    next begins, whatever faults the store suffers meanwhile, takes the
    tables out of the states in which, for every key, [used_devices] is at
    most the number of its activation rows and that number at most
    [max_devices]. *)
Theorem device_limit_never_exceeded :
  (forall (db : DB) (req : Req) (key device_id : option string) (k d : string)
          (now : Z) (keyData : KeyRow),
     truthy key = Some k -> truthy device_id = Some d ->
     5 <= strlen d <= 255 ->
     lookup_key (committed db) k = Some keyData ->
     now <= expires_at keyData ->
     status keyData = "active" ->
     activated (committed db) (id keyData) d = false ->
     max_devices keyData <= count_activations (committed db) (id keyData) ->
     run (Index.post_activateKey req key device_id now) [] db
     = (db, inr DeviceLimitReached))
  /\
  (forall (db : DB) (calls : list Call) (faults : list (list (option pg_error))),
     limit_respected (committed db) ->
     let db' := Index.after_all (map activate_op calls) faults db in
     limit_respected (committed db') /\
     forall k, In k (keys (committed db')) ->
       used_devices k <= max_devices k /\
       count_activations (committed db') (id k) <= max_devices k).
Proof.
  split.
  - intros. eapply activate_limit_run; eassumption.
  - intros db calls faults H db'.
    assert (H' : limit_respected (committed db'))
      by (apply limit_respected_after_calls; exact H).
    split; [exact H' |].
    intros k Hk. destruct H' as [_ Hl]. specialize (Hl k Hk). lia.
Qed.

Lemma device_limit_never_exceeded_witness :
  run (Index.post_activateKey Example.req (Some Example.the_key)
                              (Some "device-C") 4000)
      [] Example.two_devices
  = (Example.two_devices, inr DeviceLimitReached)
  /\
  limit_respected
    (committed
       (Index.after_all
          (map activate_op [Example.call "device-A" 2000;
                            Example.call "device-B" 3000;
                            Example.call "device-C" 4000])
          [] Example.issued)).
Proof.
  destruct device_limit_never_exceeded as [Hcall Hcalls]. split.
  - apply (Hcall Example.two_devices Example.req (Some Example.the_key)
                 (Some "device-C") Example.the_key "device-C" 4000
                 (mkKey 1 Example.the_key 1 2 2 1000 3601000 "active"));
      try reflexivity; vm_compute; intuition discriminate.
  - apply (Hcalls Example.issued). split.
    + unfold unique_ids. simpl. constructor; [simpl; tauto | constructor].
    + intros k [<- | []]. vm_compute. intuition discriminate.
Defined.

(** The limit rests on the calls running one after the other.  The check
    and the insert are separate awaits, and only the insert and the
    increment are inside the transaction: two requests for different
    devices that both pass the check before either inserts are both
    accepted.  Here a key for two devices, one of them used, ends with three
    activation rows. *)
Lemma overlapping_calls_pass_the_check :
  let r := interleave Example.racing
                      (Example.in_flight "device-B" "device-C")
                      Example.one_device in
  map response_of (fst r)
  = [Some (Activated (mkKey 1 Example.the_key 1 2 1 1000 3601000 "active") 2);
     Some (Activated (mkKey 1 Example.the_key 1 2 1 1000 3601000 "active") 2)]
  /\ count_activations (committed (snd r)) 1 = 3
  /\ map max_devices (keys (committed (snd r))) = [2]
  /\ map used_devices (keys (committed (snd r))) = [3].
Proof. vm_compute. repeat split. Qed.

(* ================================================================== *)
(** * The same device raced in from two requests *)
(* ================================================================== *)

Ltac resume :=
  cbn [advance_n await bind try_catch advance exec committed open_tx
       fst snd negb].

(** The amended C4.  A handler that has passed its checks and reached its
    transaction, while another request has meanwhile activated the same
    device for the key: its insert fails with a uniqueness violation, and
    the call answers HTTP 409, [success: false], "Device already activated
    with this key".  The transaction is rolled back and the store is left as
    the other request made it: no row added, no counter incremented, nothing
    logged. *)
Theorem duplicate_activation_is_a_conflict (db db' : DB) (req : Req)
    (key device_id : option string) (k d : string) (now : Z)
    (keyData : KeyRow) :
  truthy key = Some k -> truthy device_id = Some d ->
  5 <= strlen d <= 255 ->
  lookup_key (committed db) k = Some keyData ->
  now <= expires_at keyData ->
  status keyData = "active" ->
  activated (committed db) (id keyData) d = false ->
  count_activations (committed db) (id keyData) < max_devices keyData ->
  open_tx db = None ->
  activated (committed db') (id keyData) d = true ->
  open_tx db' = None ->
  strlen (ip req) <= 100 ->
  let at_transaction :=
    advance_n 4 (Index.post_activateKey req key device_id now) db in
  snd at_transaction = db /\
  sql (insert_activation now (id keyData) d (ip req)) (committed db')
    = inl unique_violation /\
  advance (fst at_transaction) db' = (Ret DuplicateActivation, db') /\
  DuplicateActivation
  = mkResponse 409 (JObj [("success", JBool false);
                          ("error", JStr "Device already activated with this key")]).
Proof.
  intros Hk Hd Hlen Hlook Hexp Hst Hact Hcnt Htx Hact' Htx' Hip.
  destruct db as [t tx]. cbn [committed open_tx] in *. subst tx.
  destruct db' as [t' tx']. cbn [committed open_tx] in *. subst tx'.
  destruct (lookup_key_rows _ _ _ Hlook) as [rest Hrows].
  assert (Hins : sql (insert_activation now (id keyData) d (ip req)) t'
                 = inl unique_violation).
  { cbn [sql]. rewrite (fits_varchar_le 255 d) by lia.
    rewrite (fits_varchar_le 100 _ Hip). cbn [andb negb].
    fold (activated t' (id keyData) d). rewrite Hact'. reflexivity. }
  unfold Index.post_activateKey. rewrite Hk, Hd, (device_id_accepted _ Hlen).
  resume. rewrite sql_select_key_by_string, Hrows.
  resume. rewrite (gtb_false _ _ Hexp), Hst, String.eqb_refl.
  resume. rewrite sql_select_activation.
  resume. rewrite filter_length_pos. fold (activated t (id keyData) d).
  rewrite Hact.
  resume. rewrite sql_select_count_activations.
  resume.
  replace (count_activations t (id keyData) >=? max_devices keyData) with false
    by (symmetry; rewrite Z.geb_leb; apply Z.leb_gt; lia).
  resume. split; [reflexivity |]. split; [exact Hins |].
  rewrite Hins. resume. repeat split.
Qed.

Lemma duplicate_activation_is_a_conflict_witness :
  let at_transaction :=
    advance_n 4 (Index.post_activateKey Example.req (Some Example.the_key)
                                        (Some "device-B") 2500)
              Example.one_device in
  snd at_transaction = Example.one_device /\
  advance (fst at_transaction) Example.two_devices
  = (Ret DuplicateActivation, Example.two_devices).
Proof.
  destruct (duplicate_activation_is_a_conflict
              Example.one_device Example.two_devices Example.req
              (Some Example.the_key) (Some "device-B")
              Example.the_key "device-B" 2500
              (mkKey 1 Example.the_key 1 2 1 1000 3601000 "active"))
    as (H1 & _ & H2 & _);
    lazymatch goal with
    | H : snd _ = _ |- _ => split; assumption
    | _ => first [reflexivity | vm_compute; intuition discriminate]
    end.
Defined.

(** C4 as stated fails.  Two requests activate the same new device at once;
    both pass the existence check, the first inserts, the second's insert
    fails with a uniqueness violation.  The second call is answered with
    HTTP 409 and [success: false], not with the idempotent success. *)
Lemma same_device_race_is_refused :
  let first_done :=
    interleave [0; 0; 0; 0; 1; 1; 1; 1; 0; 0]%nat
               (Example.in_flight "device-C" "device-C") Example.one_device in
  let race :=
    interleave Example.racing
               (Example.in_flight "device-C" "device-C") Example.one_device in
  sql (insert_activation 5000 1 "device-C" (ip Example.req))
      (committed (snd first_done)) = inl unique_violation /\
  map response_of (fst race)
  = [Some (Activated (mkKey 1 Example.the_key 1 2 1 1000 3601000 "active") 2);
     Some DuplicateActivation] /\
  http_status DuplicateActivation <> 200 /\
  DuplicateActivation
  <> AlreadyActivated (mkKey 1 Example.the_key 1 2 1 1000 3601000 "active").
Proof. vm_compute. repeat split; discriminate. Qed.

(* ================================================================== *)
(** * The count and the transaction, with requests in flight *)
(* ================================================================== *)

(** C1.  The device limit does not hold for requests in flight together.
    The handler counts the activations of the key with one query and inserts
    its row in a later transaction, which does not count again.  A handler
    that found room for its device and has reached its transaction, while
    other requests have meanwhile filled the key up to [max_devices] (or
    beyond): its insert and its increment are committed all the same and the
    call answers success, with [devices_used] one more than it had counted.
    The key is left with more activation rows than [max_devices]. *)
Theorem limit_check_is_outside_the_transaction (db db' : DB) (req : Req)
    (key device_id : option string) (k d : string) (now : Z)
    (keyData keyNow : KeyRow) :
  truthy key = Some k -> truthy device_id = Some d ->
  5 <= strlen d <= 255 ->
  lookup_key (committed db) k = Some keyData ->
  now <= expires_at keyData ->
  status keyData = "active" ->
  activated (committed db) (id keyData) d = false ->
  count_activations (committed db) (id keyData) < max_devices keyData ->
  open_tx db = None ->
  In keyNow (keys (committed db')) -> id keyNow = id keyData ->
  activated (committed db') (id keyData) d = false ->
  max_devices keyNow <= count_activations (committed db') (id keyData) ->
  open_tx db' = None ->
  strlen (ip req) <= 100 ->
  let at_transaction :=
    advance_n 4 (Index.post_activateKey req key device_id now) db in
  let written := advance (fst at_transaction) db' in
  let answered := advance (fst written) (snd written) in
  snd at_transaction = db /\
  snd written
  = mkDB (activation_committed (committed db') now (id keyData) d (ip req)) None /\
  fst answered
  = Ret (Activated keyData (count_activations (committed db) (id keyData) + 1)) /\
  count_activations (committed (snd answered)) (id keyData)
  = count_activations (committed db') (id keyData) + 1 /\
  exists k', In k' (keys (committed (snd answered))) /\
             id k' = id keyData /\
             max_devices k' = max_devices keyNow /\
             max_devices k' < count_activations (committed (snd answered)) (id k').
Proof.
  intros Hk Hd Hlen Hlook Hexp Hst Hact Hcnt Htx Hin' Hid' Hact' Hfull Htx' Hip.
  destruct db as [t tx]. cbn [committed open_tx] in *. subst tx.
  destruct db' as [t' tx']. cbn [committed open_tx] in *. subst tx'.
  destruct (lookup_key_rows _ _ _ Hlook) as [rest Hrows].
  assert (Hex' : key_exists t' (id keyData) = true).
  { unfold key_exists. apply existsb_exists. exists keyNow.
    split; [exact Hin' |]. unfold key_has_id. apply Z.eqb_eq. exact Hid'. }
  assert (Hins : sql (insert_activation now (id keyData) d (ip req)) t'
                 = inr (mkTables (keys t')
                          (key_activations t'
                           ++ [mkActivation (key_activations_id_seq t')
                                 (id keyData) d (ip req) now])
                          (key_logs t') (keys_id_seq t')
                          (key_activations_id_seq t' + 1) (key_logs_id_seq t'),
                        tt)).
  { cbn [sql]. rewrite (fits_varchar_le 255 d) by lia.
    rewrite (fits_varchar_le 100 _ Hip). cbn [andb negb].
    fold (activated t' (id keyData) d). rewrite Hact', Hex'. reflexivity. }
  unfold Index.post_activateKey. rewrite Hk, Hd, (device_id_accepted _ Hlen).
  resume. rewrite sql_select_key_by_string, Hrows.
  resume. rewrite (gtb_false _ _ Hexp), Hst, String.eqb_refl.
  resume. rewrite sql_select_activation.
  resume. rewrite filter_length_pos. fold (activated t (id keyData) d).
  rewrite Hact.
  resume. rewrite sql_select_count_activations.
  resume.
  replace (count_activations t (id keyData) >=? max_devices keyData) with false
    by (symmetry; rewrite Z.geb_leb; apply Z.leb_gt; lia).
  resume. rewrite Hins. resume. cbn [sql]. resume.
  change (with_keys _ _)
    with (activation_committed t' now (id keyData) d (ip req)).
  split; [reflexivity |]. split; [reflexivity |].
  set (w := activation_committed t' now (id keyData) d (ip req)).
  assert (Hcount : count_activations w (id keyData)
                   = count_activations t' (id keyData) + 1).
  { unfold w. rewrite count_activation_committed, Z.eqb_refl. reflexivity. }
  assert (Hrow : In (incr_used_devices keyNow) (keys w)).
  { unfold w. cbn [keys activation_committed]. apply In_update_where.
    exists keyNow. split; [exact Hin' |]. unfold key_has_id.
    rewrite Hid', Z.eqb_refl. reflexivity. }
  unfold Index.logKeyActivity. resume.
  destruct (log_written_frame w (id keyData) "activated" req now)
    as (Hkeys & Hacts & _).
  unfold log_written in Hkeys, Hacts.
  destruct (sql (insert_log now (id keyData) "activated" (ip req)
                            (Some (or_else (user_agent req) "unknown"))) w)
    as [e | [logged u]]; resume;
    (split; [reflexivity |]);
    unfold count_activations in *; rewrite ?Hacts, ?Hkeys;
    (split; [exact Hcount |]);
    exists (incr_used_devices keyNow);
    (split; [exact Hrow |]); cbn [id max_devices incr_used_devices];
    (split; [exact Hid' |]); (split; [reflexivity |]);
    rewrite Hid'; lia.
Qed.

(** The key of the example takes two devices and has two.  A request for a
    third device that counted while it had one is committed as the third
    row, and answered with [devices_used: 2]. *)
Lemma limit_check_is_outside_the_transaction_witness :
  let at_transaction :=
    advance_n 4 (Index.post_activateKey Example.req (Some Example.the_key)
                                        (Some "device-C") 2500)
              Example.one_device in
  let written := advance (fst at_transaction) Example.two_devices in
  let answered := advance (fst written) (snd written) in
  map max_devices (keys (committed (snd answered))) = [2] /\
  count_activations (committed (snd answered)) 1 = 3 /\
  fst answered
  = Ret (Activated (mkKey 1 Example.the_key 1 2 1 1000 3601000 "active") 2).
Proof.
  destruct (limit_check_is_outside_the_transaction
              Example.one_device Example.two_devices Example.req
              (Some Example.the_key) (Some "device-C")
              Example.the_key "device-C" 2500
              (mkKey 1 Example.the_key 1 2 1 1000 3601000 "active")
              (mkKey 1 Example.the_key 1 2 2 1000 3601000 "active"))
    as (_ & _ & H1 & H2 & _);
    lazymatch goal with
    | H : fst _ = _ |- _ => split; [reflexivity | split; [exact H2 | exact H1]]
    | _ => first [reflexivity | vm_compute; intuition discriminate]
    end.
Defined.

(* ================================================================== *)
(** * Concrete runs of the activation route *)
(* ================================================================== *)

Ltac by_computation :=
  first [reflexivity | vm_compute; intuition discriminate].

(** The disabled key of the example, once its hour is over: the call fails
    with KeyExpired and the stored status becomes [expired]. *)
Lemma activate_expiry_wins_witness :
  let result :=
    run (Index.post_activateKey Example.req (Some Example.the_key)
                                (Some "device-B") Example.after_expiry)
        [] Example.disabled in
  snd result = inr KeyExpired /\
  map status (keys (committed (fst result))) = ["expired"].
Proof.
  destruct (activate_expiry_wins
              Example.disabled Example.req (Some Example.the_key)
              (Some "device-B") Example.the_key "device-B"
              Example.after_expiry
              (mkKey 1 Example.the_key 1 2 1 1000 3601000 "inactive"))
    as (H & _);
    lazymatch goal with
    | H : snd _ = _ |- _ => split; [exact H | reflexivity]
    | _ => by_computation
    end.
Defined.

Lemma activate_idempotent_witness :
  let result :=
    run (Index.post_activateKey Example.req (Some Example.the_key)
                                (Some "device-A") 2500)
        [] Example.one_device in
  snd result
  = inr (AlreadyActivated (mkKey 1 Example.the_key 1 2 1 1000 3601000 "active"))
  /\ key_activations (committed (fst result))
     = key_activations (committed Example.one_device)
  /\ keys (committed (fst result)) = keys (committed Example.one_device).
Proof.
  destruct (activate_idempotent
              Example.one_device Example.req (Some Example.the_key)
              (Some "device-A") Example.the_key "device-A" 2500
              (mkKey 1 Example.the_key 1 2 1 1000 3601000 "active"))
    as (H1 & _ & H2 & _ & H3 & _);
    lazymatch goal with
    | H : snd _ = _ |- _ => repeat split; assumption
    | _ => by_computation
    end.
Defined.

(* ================================================================== *)
(** * POST /verifyKey *)
(* ================================================================== *)

Lemma sql_select_key_with_device (s d : string) (t : Tables) :
  sql (select_key_with_device s d) t
  = inr (t, flat_map (join_device t d) (filter (key_has_string s) (keys t))).
Proof. reflexivity. Qed.

(** The first row of the join is the first key, with whether the device has
    an activation row for it. *)
Lemma join_first_row (t : Tables) (d : string) (rows : list KeyRow) :
  hd_error (flat_map (join_device t d) rows)
  = option_map (fun k => (k, activated t (id k) d)) (hd_error rows).
Proof.
  destruct rows as [| k rest]; [reflexivity |].
  cbn [flat_map hd_error option_map]. unfold join_device, activated.
  destruct (filter (act_of_device (id k) d) (key_activations t)) as [| a m] eqn:Hf.
  - apply filter_nil_existsb in Hf. rewrite Hf. reflexivity.
  - assert (Hex : existsb (act_of_device (id k) d) (key_activations t) = true).
    { destruct (existsb _ _) eqn:He; [reflexivity |].
      apply filter_nil_existsb in He. congruence. }
    rewrite Hex. reflexivity.
Qed.

(** The run of the handler, case by case, when no query is made to fail. *)
Lemma verify_run (db : DB) (req : Req) (key device_id : option string)
    (now : Z) :
  run (Index.post_verifyKey req key device_id now) [] db
  = match truthy key, truthy device_id with
    | Some k, Some d =>
        match lookup_key (committed db) k with
        | None =>
            (db, inr (res_json (JObj [("valid", JBool false);
                                      ("error", JStr "Key not found")])))
        | Some keyData =>
            let t := committed db in
            let i := id keyData in
            if now >? expires_at keyData then
              let t' := log_written (marked_expired t i) i "auto_expired" req now in
              (mkDB t' (open_tx db),
               inr (res_json (Index.verify_body false keyData "expired"
                                (count_activations t' i) "Key has expired")))
            else
              let isValid :=
                String.eqb (status keyData) "active" && activated t i d in
              let t' := log_written t i (if isValid then "verified"
                                         else "verification_failed") req now in
              (mkDB t' (open_tx db),
               inr (res_json (Index.verify_body isValid keyData (status keyData)
                                (count_activations t' i)
                                (if isValid then "Key is valid"
                                 else "Key is invalid"))))
        end
    | _, _ =>
        (db, inr (res_status_json 400
                    (Index.failure "Key and device_id are required")))
    end.
Proof.
  destruct db as [t tx]. cbn [committed open_tx].
  unfold Index.post_verifyKey.
  destruct (truthy key) as [k |]; [| reflexivity].
  destruct (truthy device_id) as [d |]; [| reflexivity].
  rewrite run_try_catch, run_bind, run_await. cbn [exec committed open_tx].
  rewrite sql_select_key_with_device. unfold lookup_key.
  pose proof (join_first_row t d
                (filter (key_has_string (toUpperCase (trim k))) (keys t))) as Hj.
  destruct (flat_map _ _) as [| [keyData device_activated] more];
    destruct (filter (key_has_string (toUpperCase (trim k))) (keys t))
      as [| k0 rest]; cbn [hd_error option_map] in Hj; try discriminate;
    [reflexivity |].
  injection Hj as -> ->. cbn [hd_error]. cbv zeta.
  destruct (now >? expires_at k0).
  { rewrite run_bind, run_await. cbn [exec committed open_tx].
    rewrite sql_update_status_expired.
    rewrite run_bind, run_logKeyActivity. cbn [committed open_tx].
    rewrite run_bind, run_await. cbn [exec committed open_tx].
    rewrite sql_select_count_activations. reflexivity. }
  cbn [negb]. rewrite andb_true_r.
  replace (Bool.eqb (activated t (id k0) d) true) with (activated t (id k0) d)
    by (destruct (activated t (id k0) d); reflexivity).
  rewrite run_bind, run_logKeyActivity. cbn [committed open_tx].
  rewrite run_bind, run_await. cbn [exec committed open_tx].
  rewrite sql_select_count_activations. reflexivity.
Qed.

Section VerifyKeeps.

(** A property of the tables that the two writes of the route keep. *)
Variable L : Tables -> Prop.
Hypothesis L_marked : forall t i, L t -> L (marked_expired t i).
Hypothesis L_log : forall t i action req now,
  L t -> L (log_written t i action req now).

Lemma verify_keeps (req : Req) (key device_id : option string) (now : Z) :
  keeps (fun db => L (committed db))
        (Index.post_verifyKey req key device_id now).
Proof.
  unfold keeps, Index.post_verifyKey.
  apply triple_catch with (E' := fun _ db => L (committed db));
    [| intros e; apply triple_ret; auto].
  destruct (truthy key) as [k |]; [| apply triple_ret; auto].
  destruct (truthy device_id) as [d |]; [| apply triple_ret; auto].
  eapply triple_bind with (Q := fun _ db => L (committed db)).
  { eapply triple_weaken.
    - apply triple_read. apply sql_select_key_with_device.
    - intros db H. exact H.
    - intros x db [H _]. exact H.
    - auto. }
  intros [| [keyData device_activated] more]; [apply triple_ret; auto |].
  destruct (now >? expires_at keyData).
  - eapply triple_bind with (Q := fun _ db => L (committed db)).
    { eapply triple_weaken.
      - apply (triple_write L). apply sql_update_status_expired.
      - auto.
      - intros x db (t & Ht & -> & _). apply L_marked, Ht.
      - auto. }
    intros ?. eapply triple_bind.
    { apply triple_logKeyActivity. intros t. apply L_log. }
    intros ?. eapply triple_bind with (Q := fun _ db => L (committed db)).
    { eapply triple_weaken.
      - apply triple_read. apply sql_select_count_activations.
      - intros db H. exact H.
      - intros x db [H _]. exact H.
      - auto. }
    intros ?. apply triple_ret. auto.
  - eapply triple_bind.
    { apply triple_logKeyActivity. intros t. apply L_log. }
    intros ?. eapply triple_bind with (Q := fun _ db => L (committed db)).
    { eapply triple_weaken.
      - apply triple_read. apply sql_select_count_activations.
      - intros db H. exact H.
      - intros x db [H _]. exact H.
      - auto. }
    intros ?. apply triple_ret. auto.
Qed.

End VerifyKeeps.

(** C5.  Verify answers [valid: true] exactly when the key is found, its
    status is [active], an Activation row exists for this very device, and
    the key is not past [expires_at].  In particular a device that never
    activated gets [valid: false], whatever capacity the key has left.  And
    Verify never creates an Activation row: under every fault schedule the
    activation table is as it was. *)
Theorem verify_validity (db : DB) (req : Req) (key device_id : option string)
    (now : Z) :
  let result := run (Index.post_verifyKey req key device_id now) [] db in
  (says_valid (snd result) = true <->
   exists k d keyData,
     truthy key = Some k /\ truthy device_id = Some d /\
     lookup_key (committed db) k = Some keyData /\
     status keyData = "active" /\
     activated (committed db) (id keyData) d = true /\
     now <= expires_at keyData)
  /\
  (forall k d keyData,
     truthy key = Some k -> truthy device_id = Some d ->
     lookup_key (committed db) k = Some keyData ->
     activated (committed db) (id keyData) d = false ->
     says_valid (snd result) = false)
  /\
  (forall faults,
     key_activations
       (committed (fst (run (Index.post_verifyKey req key device_id now)
                            faults db)))
     = key_activations (committed db)).
Proof.
  intros result.
  assert (Hiff : says_valid (snd result) = true <->
                 exists k d keyData,
                   truthy key = Some k /\ truthy device_id = Some d /\
                   lookup_key (committed db) k = Some keyData /\
                   status keyData = "active" /\
                   activated (committed db) (id keyData) d = true /\
                   now <= expires_at keyData).
  { subst result. rewrite verify_run.
    destruct (truthy key) as [k |];
      [| split; [intros H; cbn in H; discriminate H
                | intros (? & ? & ? & ? & _); discriminate]].
    destruct (truthy device_id) as [d |];
      [| split; [intros H; cbn in H; discriminate H
                | intros (? & ? & ? & _ & ? & _); discriminate]].
    destruct (lookup_key (committed db) k) as [keyData |] eqn:Hlook;
      [| split; [intros H; cbn in H; discriminate H
                | intros (? & ? & ? & H1 & _ & H3 & _); congruence]].
    cbv zeta. destruct (Z.leb_spec now (expires_at keyData)) as [Hle | Hgt].
    - rewrite (gtb_false _ _ Hle). cbn [snd says_valid res_json Index.verify_body
                                         field String.eqb Ascii.eqb Bool.eqb].
      split.
      + intros H. apply andb_true_iff in H. destruct H as [Hs Ha].
        apply String.eqb_eq in Hs. exists k, d, keyData. auto 10.
      + intros (k' & d' & kd' & H1 & H2 & H3 & Hs & Ha & _).
        injection H1 as <-. injection H2 as <-.
        rewrite Hlook in H3. injection H3 as <-.
        rewrite Hs, Ha. reflexivity.
    - rewrite (gtb_true _ _ Hgt).
      split; [intros H; cbn in H; discriminate H |].
      intros (k' & d' & kd' & H1 & H2 & H3 & _ & _ & Hle).
      injection H1 as <-. rewrite Hlook in H3. injection H3 as <-. lia. }
  split; [exact Hiff |]. split.
  - intros k d keyData Hk Hd Hlook Hact.
    destruct (says_valid (snd result)); [| reflexivity].
    destruct (proj1 Hiff eq_refl) as (k' & d' & kd' & H1 & H2 & H3 & _ & Ha & _).
    rewrite Hk in H1. injection H1 as <-. rewrite Hd in H2. injection H2 as <-.
    rewrite Hlook in H3. injection H3 as <-. congruence.
  - intros faults.
    pose proof (verify_keeps
                  (fun t => key_activations t = key_activations (committed db)))
      as Hkeep.
    specialize (Hkeep (fun t i H => H)).
    assert (Hlog : forall t i action req0 now0,
               key_activations t = key_activations (committed db) ->
               key_activations (log_written t i action req0 now0)
               = key_activations (committed db)).
    { intros t i action req0 now0 H.
      destruct (log_written_frame t i action req0 now0) as (_ & -> & _). exact H. }
    specialize (Hkeep Hlog req key device_id now faults db eq_refl).
    destruct (run _ faults db) as [db' [e | r]]; exact Hkeep.
Qed.

Lemma verify_validity_witness :
  says_valid (snd (run (Index.post_verifyKey Example.req (Some Example.the_key)
                                             (Some "device-A") 2500)
                       [] Example.one_device)) = true
  /\
  says_valid (snd (run (Index.post_verifyKey Example.req (Some Example.the_key)
                                             (Some "device-Z") 2500)
                       [] Example.one_device)) = false.
Proof.
  split.
  - destruct (verify_validity Example.one_device Example.req
                (Some Example.the_key) (Some "device-A") 2500) as (Hiff & _).
    apply Hiff.
    exists Example.the_key, "device-A",
           (mkKey 1 Example.the_key 1 2 1 1000 3601000 "active").
    repeat split; by_computation.
  - destruct (verify_validity Example.one_device Example.req
                (Some Example.the_key) (Some "device-Z") 2500) as (_ & Hnever & _).
    apply (Hnever Example.the_key "device-Z"
                  (mkKey 1 Example.the_key 1 2 1 1000 3601000 "active"));
      reflexivity.
Defined.

(* ================================================================== *)
(** * The writes of the status column *)
(* ================================================================== *)

(** The janitor turns [active] into [expired] and touches no other status. *)
Lemma janitor_expires_active_only (t : Tables) (now : Z) (k' : KeyRow) :
  In k' (update_where (active_and_expired now) (set_key_status "expired") (keys t)) ->
  exists k, In k (keys t) /\
    (k' = k \/
     (status k = "active" /\ expires_at k < now /\
      k' = set_key_status "expired" k)).
Proof.
  intros H. apply In_update_where in H. destruct H as (k & Hk & ->).
  exists k. split; [exact Hk |].
  unfold active_and_expired, expired_at.
  destruct (expires_at k <? now) eqn:He; [| left; reflexivity].
  destruct (String.eqb_spec (status k) "active") as [Hs | Hs];
    [| left; reflexivity].
  right. apply Z.ltb_lt in He. auto.
Qed.

(** Each of the two expiry writes, done twice, is as done once. *)
Lemma marked_expired_idempotent (t : Tables) (i : Z) :
  marked_expired (marked_expired t i) i = marked_expired t i.
Proof.
  unfold marked_expired, with_keys. cbn [keys key_activations key_logs
    keys_id_seq key_activations_id_seq key_logs_id_seq]. f_equal.
  unfold update_where. rewrite map_map. apply map_ext. intros k.
  destruct (key_has_id i k) eqn:Hk; [| rewrite Hk; reflexivity].
  unfold key_has_id in *. cbn [id set_key_status]. rewrite Hk. reflexivity.
Qed.

Lemma janitor_idempotent (t : Tables) (now : Z) :
  update_where (active_and_expired now) (set_key_status "expired")
    (update_where (active_and_expired now) (set_key_status "expired") (keys t))
  = update_where (active_and_expired now) (set_key_status "expired") (keys t).
Proof.
  unfold update_where. rewrite map_map. apply map_ext. intros k.
  destruct (active_and_expired now k) eqn:Hk; [| rewrite Hk; reflexivity].
  unfold active_and_expired. cbn [status set_key_status].
  rewrite andb_false_r. reflexivity.
Qed.

(** C6, where the code departs from it.  The disabled key of the example,
    once its hour is over.  The janitor leaves its status [inactive], as its
    WHERE clause says; the lazy-expiry write of Activate, and that of
    Verify, has no such clause and turns [inactive] into [expired]. *)
Theorem lazy_expiry_overwrites_inactive :
  map status (keys (committed Example.disabled)) = ["inactive"] /\
  map status
    (keys (committed (Index.after (Index.Janitor Example.after_expiry) []
                                  Example.disabled)))
  = ["inactive"] /\
  map status
    (keys (committed (Index.after (Example.activate "device-B" Example.after_expiry)
                                  [] Example.disabled)))
  = ["expired"] /\
  map status
    (keys (committed
             (Index.after (Index.Verify Example.req (Some Example.the_key)
                                        (Some "device-A") Example.after_expiry)
                          [] Example.disabled)))
  = ["expired"].
Proof. vm_compute. repeat split. Qed.

(* ================================================================== *)
(** * PUT /admin/keys/:id *)
(* ================================================================== *)

Lemma sql_update_key (now : Z) (p : KeyPatch) (i : Z) (t : Tables) :
  set_duration_hours p = None ->
  patch_fits p = true ->
  sql (update_key now p i) t
  = inr (with_keys t (update_where (key_has_id i) (apply_patch now p) (keys t)),
         map (apply_patch now p) (filter (key_has_id i) (keys t))).
Proof.
  unfold patch_fits. intros Hd H.
  apply andb_true_iff in H. destruct H as [H H3].
  apply andb_true_iff in H. destruct H as [_ H2].
  cbn [sql]. unfold well_typed. rewrite Hd, H2, H3. reflexivity.
Qed.

(** The statement that assigns [duration_hours] is refused, whatever the
    tables and the values. *)
Lemma sql_update_key_duration (now : Z) (p : KeyPatch) (d i : Z) (t : Tables) :
  set_duration_hours p = Some d ->
  sql (update_key now p i) t = inl ambiguous_parameter.
Proof. intros Hd. cbn [sql]. unfold well_typed. rewrite Hd. reflexivity. Qed.

(** C8.  The update that supplies [duration_hours] does not take place.  The
    route writes [duration_hours = $1, expires_at = CURRENT_TIMESTAMP +
    INTERVAL '1 hour' * $1], with one parameter for the column and for the
    factor of the interval, and the store refuses the statement.  So for
    every key, every value and every other field of the request, under every
    fault schedule, the request is answered 500 and the store is left as it
    was: no key has its [expires_at] recomputed, neither from the time of
    the update nor from its creation time.  The key of the example, issued
    at 1000 for one hour, is asked two hours at time 4000 and still expires
    at 3601000. *)
Theorem update_with_duration_is_refused :
  (forall (db : DB) (key_id d : Z) (st : option string) (m : option Z)
          (now : Z) (faults : list (option pg_error)),
     let body := mkPatch (Some d) st m in
     sql (update_key now body key_id) (committed db) = inl ambiguous_parameter /\
     run (Index.put_admin_keys key_id body now) faults db
     = (db, inr Unavailable)) /\
  (let result :=
     run (Index.put_admin_keys 1 (mkPatch (Some 2) None None) 4000)
         [] Example.one_device in
   key_exists (committed Example.one_device) 1 = true /\
   snd result = inr Unavailable /\
   http_status Unavailable = 500 /\
   map expires_at (keys (committed (fst result))) = [3601000] /\
   3601000 <> 4000 + hour * 2).
Proof.
  split.
  - intros db key_id d st m now faults body. split; [reflexivity |].
    unfold Index.put_admin_keys, Index.patch_is_empty. subst body.
    cbn [set_duration_hours set_status set_max_devices try_catch bind await run].
    destruct (hd None faults) as [e |]; reflexivity.
  - vm_compute. repeat split; discriminate.
Qed.

(* ================================================================== *)
(** * POST /generateKey *)
(* ================================================================== *)

(** Runs under any fault schedule, when what follows makes no query. *)
Lemma run_bind_pure {A B} (m : Prog A) (f : A -> Prog B) (g : A -> B) :
  (forall a, f a = Ret (g a)) ->
  forall faults db,
    run (bind m f) faults db =
    match run m faults db with
    | (db', inr a) => (db', inr (g a))
    | (db', inl e) => (db', inl e)
    end.
Proof.
  intros Hf. induction m as [a | e | X q k IH]; intros faults db; simpl.
  - rewrite Hf. reflexivity.
  - reflexivity.
  - destruct (step (hd None faults) q db) as [db' r]. apply IH.
Qed.

Lemma run_try_catch_pure {A} (m : Prog A) (h : pg_error -> Prog A)
    (g : pg_error -> A) :
  (forall e, h e = Ret (g e)) ->
  forall faults db,
    run (try_catch m h) faults db =
    match run m faults db with
    | (db', inr a) => (db', inr a)
    | (db', inl e) => (db', inr (g e))
    end.
Proof.
  intros Hh. induction m as [a | e | X q k IH]; intros faults db; simpl.
  - reflexivity.
  - rewrite Hh. reflexivity.
  - destruct (step (hd None faults) q db) as [db' r]. apply IH.
Qed.

(** The generator never overflows the column: at most two symbols a turn. *)
Lemma generateKey_loop_length (rand : nat -> nat) (turns : nat) :
  forall i key,
    (String.length (Index.generateKey_loop rand turns i key)
     <= String.length key + 2 * turns)%nat.
Proof.
  assert (Happ : forall a b, String.length (String.append a b)
                             = (String.length a + String.length b)%nat).
  { induction a as [| c a IH]; intros b; simpl; [reflexivity |].
    rewrite IH. reflexivity. }
  assert (Hchar : forall n, (String.length (Index.charAt Index.chars n) <= 1)%nat).
  { intros n. unfold Index.charAt. destruct (String.get n Index.chars); simpl; lia. }
  induction turns as [| turns IH]; intros i key; cbn [Index.generateKey_loop];
    [lia |].
  eapply Nat.le_trans; [apply IH |].
  rewrite Happ. specialize (Hchar (rand i)).
  destruct (Nat.ltb 0 i && Nat.eqb (Nat.modulo i 5) 0)%bool;
    [rewrite Happ; change (String.length "-") with 1%nat |]; lia.
Qed.

Lemma generateKey_fits (rand : nat -> nat) :
  fits_varchar 255 (Index.generateKey rand) = true.
Proof.
  unfold fits_varchar, strlen, Index.generateKey. apply Z.leb_le.
  pose proof (generateKey_loop_length rand 25 0 EmptyString) as H.
  change (String.length EmptyString) with 0%nat in H.
  remember (String.length (Index.generateKey_loop rand 25 0 EmptyString)) as n.
  lia.
Qed.

Section Attempts.

Variable keygen : nat -> string.
Variable body : Index.GenerateBody.
Variable now : Z.
Hypothesis keygen_fits : forall i, fits_varchar 255 (keygen i) = true.
Hypothesis fits : body_fits body = true.

Let attempts :=
  Index.generate_attempts keygen now (body_duration body)
                          (body_max_devices body) (body_status body).

Lemma sql_insert_key (t : Tables) (i : nat) :
  sql (insert_key now (keygen i) (body_duration body) (body_max_devices body)
                  (now + body_duration body * 60 * 60 * 1000) (body_status body)) t
  = if taken t (keygen i) then inl unique_violation
    else inr (with_issued t (issued_row t body (keygen i) now),
              [issued_row t body (keygen i) now]).
Proof.
  unfold body_fits in fits.
  apply andb_true_iff in fits. destruct fits as [H H4].
  apply andb_true_iff in H. destruct H as [H H3].
  apply andb_true_iff in H. destruct H as [_ H2].
  cbn [sql]. rewrite keygen_fits, H2, H3, H4. cbn [negb andb].
  fold (taken t (keygen i)). destruct (taken t (keygen i)); reflexivity.
Qed.

(** One turn of the loop. *)
Lemma run_attempt (left i : nat) (faults : list (option pg_error)) (db : DB) :
  run (attempts (S left) i) faults db
  = match step (hd None faults)
               (pool_query
                  (insert_key now (keygen i) (body_duration body)
                              (body_max_devices body)
                              (now + body_duration body * 60 * 60 * 1000)
                              (body_status body))) db with
    | (db', inr (row :: _)) => (db', inr (inr (Issued row)))
    | (db', inr []) => (db', inl connection_failure)
    | (db', inl e) =>
        if String.eqb (err_code e) "23505"
        then run (attempts left (S i)) (tl faults) db'
        else (db', inl e)
    end.
Proof.
  unfold attempts.
  cbn [Index.generate_attempts bind try_catch await run].
  destruct (step (hd None faults) _ db) as [db' [e | [| row rest]]];
    cbn [bind try_catch run]; try reflexivity.
  destruct (String.eqb (err_code e) "23505"); reflexivity.
Qed.

Lemma attempts_all_taken (left : nat) :
  forall i db,
    (forall j, (i <= j < i + left)%nat -> taken (committed db) (keygen j) = true) ->
    run (attempts left i) [] db = (db, inr (inl tt)).
Proof.
  induction left as [| left IH]; intros i db H; [reflexivity |].
  rewrite run_attempt. cbn [hd tl step exec].
  rewrite sql_insert_key, H by lia. cbn [err_code String.eqb Ascii.eqb Bool.eqb].
  apply IH. intros j Hj. apply H. lia.
Qed.

Lemma attempts_first_free (n : nat) :
  forall left i db,
    (n < left)%nat ->
    (forall j, (i <= j < i + n)%nat -> taken (committed db) (keygen j) = true) ->
    taken (committed db) (keygen (i + n)) = false ->
    let row := issued_row (committed db) body (keygen (i + n)) now in
    run (attempts left i) [] db
    = (mkDB (with_issued (committed db) row) (open_tx db), inr (inr (Issued row))).
Proof.
  induction n as [| n IH]; intros left i db Hlt Htaken Hfree row;
    (destruct left as [| left]; [lia |]); rewrite run_attempt;
    cbn [hd tl step exec]; rewrite sql_insert_key.
  - subst row. rewrite Nat.add_0_r in *. rewrite Hfree. reflexivity.
  - rewrite Htaken by lia. cbn [err_code String.eqb Ascii.eqb Bool.eqb].
    subst row. replace (i + S n)%nat with (S i + n)%nat in * by lia.
    apply IH; [lia | | exact Hfree].
    intros j Hj. apply Htaken. lia.
Qed.

Lemma attempts_store_error (n : nat) (e : pg_error) :
  err_code e <> "23505" ->
  forall left i db,
    (n < left)%nat ->
    (forall j, (i <= j < i + n)%nat -> taken (committed db) (keygen j) = true) ->
    run (attempts left i) (repeat None n ++ [Some e]) db = (db, inl e).
Proof.
  intros He. induction n as [| n IH]; intros left i db Hlt Htaken;
    (destruct left as [| left]; [lia |]); rewrite run_attempt;
    cbn [repeat app hd tl step].
  - cbn [fail]. destruct (String.eqb_spec (err_code e) "23505"); [contradiction |].
    reflexivity.
  - cbn [exec]. rewrite sql_insert_key, Htaken by lia.
    cbn [err_code String.eqb Ascii.eqb Bool.eqb].
    apply IH; [lia |]. intros j Hj. apply Htaken. lia.
Qed.

(** The route around the loop. *)
Lemma run_post_generateKey (faults : list (option pg_error)) (db : DB) :
  run (Index.post_generateKey body keygen now) faults db
  = match run (attempts 5 0) faults db with
    | (db', inr (inr response)) => (db', inr response)
    | (db', inr (inl _)) => (db', inr GenerationExhausted)
    | (db', inl e) => (db', inr Unavailable)
    end.
Proof.
  unfold Index.post_generateKey. fold (body_duration body).
  fold (body_max_devices body). fold (body_status body). fold attempts.
  assert (Hpos : (body_duration body =? 0) || (body_duration body <=? 0) = false).
  { unfold body_fits in fits. apply andb_true_iff in fits. destruct fits as [H _].
    apply andb_true_iff in H. destruct H as [H _].
    apply andb_true_iff in H. destruct H as [H _]. apply Z.ltb_lt in H.
    apply orb_false_iff. split; [apply Z.eqb_neq | apply Z.leb_gt]; lia. }
  rewrite Hpos.
  rewrite (run_try_catch_pure _ _ (fun _ => Unavailable)) by reflexivity.
  rewrite (run_bind_pure _ _
             (fun r => match r with
                       | inr response => response
                       | inl _ => GenerationExhausted
                       end)) by (intros [u | r]; reflexivity).
  destruct (run (attempts 5 0) faults db) as [db' [e | [u | r]]]; reflexivity.
Qed.

End Attempts.

(** The amended C7.  Issuance draws a fresh key string after a uniqueness
    conflict, five attempts in all: the first string that is free is issued;
    after five conflicts the request fails with "Failed to generate unique
    key", reported as HTTP 500; and a store error that is not a uniqueness
    violation ends the request at once with HTTP 500 "Internal server
    error", the store untouched and no further string tried. *)
Theorem generate_retries_on_conflict (db : DB) (body : Index.GenerateBody)
    (rand : nat -> nat -> nat) (now : Z) :
  body_fits body = true ->
  let keygen := fun i => Index.generateKey (rand i) in
  let t := committed db in
  ((forall i, (i < 5)%nat -> taken t (keygen i) = true) ->
   run (Index.post_generateKey body keygen now) [] db
   = (db, inr GenerationExhausted)
   /\ http_status GenerationExhausted = 500)
  /\
  (forall n, (n < 5)%nat ->
     (forall i, (i < n)%nat -> taken t (keygen i) = true) ->
     taken t (keygen n) = false ->
     run (Index.post_generateKey body keygen now) [] db
     = (mkDB (with_issued t (issued_row t body (keygen n) now)) (open_tx db),
        inr (Issued (issued_row t body (keygen n) now))))
  /\
  (forall n e, (n < 5)%nat ->
     (forall i, (i < n)%nat -> taken t (keygen i) = true) ->
     err_code e <> "23505" ->
     run (Index.post_generateKey body keygen now) (repeat None n ++ [Some e]) db
     = (db, inr Unavailable)).
Proof.
  intros Hfits keygen t.
  assert (Hk : forall i, fits_varchar 255 (keygen i) = true)
    by (intros i; apply generateKey_fits).
  split; [| split].
  - intros Htaken. split; [| reflexivity].
    rewrite (run_post_generateKey keygen body now Hfits).
    rewrite (attempts_all_taken keygen body now Hk Hfits); [reflexivity |].
    intros j Hj. apply Htaken. lia.
  - intros n Hn Htaken Hfree.
    rewrite (run_post_generateKey keygen body now Hfits).
    rewrite (attempts_first_free keygen body now Hk Hfits n 5 0 db);
      [reflexivity | lia | intros j Hj; apply Htaken; lia | exact Hfree].
  - intros n e Hn Htaken He.
    rewrite (run_post_generateKey keygen body now Hfits).
    rewrite (attempts_store_error keygen body now Hk Hfits n e He 5 0 db);
      [reflexivity | lia | intros j Hj; apply Htaken; lia].
Qed.

Lemma generate_retries_on_conflict_witness :
  run (Index.post_generateKey (Index.mkGenerateBody (Some 1) (Some 2) None)
                              Example.stuck_keygen 9000)
      [] Example.issued
  = (Example.issued, inr GenerationExhausted)
  /\
  run (Index.post_generateKey (Index.mkGenerateBody (Some 1) (Some 2) None)
                              Example.stuck_keygen 9000)
      [None; None; Some connection_failure] Example.issued
  = (Example.issued, inr Unavailable).
Proof.
  destruct (generate_retries_on_conflict
              Example.issued (Index.mkGenerateBody (Some 1) (Some 2) None)
              Example.stuck_rand 9000) as (Hall & _ & Herr);
    [by_computation |].
  split.
  - apply Hall. intros i Hi. reflexivity.
  - apply (Herr 2%nat connection_failure).
    + lia.
    + intros i Hi. reflexivity.
    + discriminate.
Defined.

(** C7 as stated fails.  The only key of the store is the one the generator
    keeps producing: after five conflicts the request is answered with
    HTTP 500, not 409. *)
Lemma five_conflicts_answer_500 :
  run (Index.post_generateKey (Index.mkGenerateBody (Some 1) (Some 2) None)
                              Example.stuck_keygen 9000)
      [] Example.issued
  = (Example.issued,
     inr (res_status_json 500 (Index.failure "Failed to generate unique key")))
  /\
  http_status
    (res_status_json 500 (Index.failure "Failed to generate unique key")) <> 409.
Proof. split; [vm_compute; reflexivity | discriminate]. Qed.

(* ================================================================== *)
(** * The frame of POST /verifyKey *)
(* ================================================================== *)

Lemma triple_pure {R} (P : DB -> Prop) (phi : Prop) (p : Prog R) Q E :
  (forall db, P db -> phi) ->
  (phi -> triple P p Q E) ->
  triple P p Q E.
Proof. intros H1 H2 faults db HP. exact (H2 (H1 db HP) faults db HP). Qed.

(** [logKeyActivity] leaves the tables as they are or appends its entry. *)
Lemma log_written_cases (t : Tables) (keyId : Z) (action : string) (req : Req)
    (now : Z) :
  log_written t keyId action req now = t \/
  log_written t keyId action req now
  = mkTables (keys t) (key_activations t)
             (key_logs t ++ [log_entry t keyId action req now])
             (keys_id_seq t) (key_activations_id_seq t) (key_logs_id_seq t + 1).
Proof.
  unfold log_written. cbn [sql].
  destruct (negb _); [left; reflexivity |].
  destruct (negb _); [left; reflexivity | right; reflexivity].
Qed.

Lemma triple_logKeyActivity_to (P Q : Tables -> Prop) (keyId : Z)
    (action : string) (req : Req) (now : Z) (E : pg_error -> DB -> Prop) :
  (forall t, P t -> Q t) ->
  (forall t, P t -> Q (log_written t keyId action req now)) ->
  triple (fun db => P (committed db))
         (Index.logKeyActivity keyId action req now)
         (fun _ db => Q (committed db)) E.
Proof.
  intros HPQ HP. unfold Index.logKeyActivity.
  apply triple_catch with (E' := fun _ db => P (committed db)).
  - apply triple_pool_query.
    + auto.
    + intros db t a Hdb Hs. cbn [committed].
      specialize (HP _ Hdb). unfold log_written in HP. rewrite Hs in HP. exact HP.
  - intros e. apply triple_ret. auto.
Qed.

(** The store a Verify call leaves, for a key that is not past its expiry. *)
Lemma verify_unexpired_triple (t0 : Tables) (req : Req)
    (key device_id : option string) (k d : string) (now : Z) (keyData : KeyRow) :
  truthy key = Some k -> truthy device_id = Some d ->
  lookup_key t0 k = Some keyData ->
  now <= expires_at keyData ->
  let Q := fun db =>
    committed db = t0 \/
    exists action,
      (action = "verified" \/ action = "verification_failed") /\
      committed db = log_written t0 (id keyData) action req now in
  triple (fun db => committed db = t0)
         (Index.post_verifyKey req key device_id now)
         (fun _ => Q) (fun _ => Q).
Proof.
  intros Hk Hd Hlook Hexp Q. unfold Index.post_verifyKey. rewrite Hk, Hd.
  apply triple_catch with (E' := fun _ => Q);
    [| intros e; apply triple_ret; auto].
  eapply triple_bind with
    (Q := fun rows db => committed db = t0 /\
            hd_error rows = Some (keyData, activated t0 (id keyData) d)).
  { eapply triple_weaken.
    - apply triple_read. apply sql_select_key_with_device.
    - intros db H. exact H.
    - intros rows db [H ->]. split; [exact H |].
      rewrite join_first_row, H. unfold lookup_key in Hlook. rewrite Hlook.
      reflexivity.
    - intros e db H. left. exact H. }
  intros [| [keyData' device_activated] more].
  { apply triple_ret. intros db [_ H]. discriminate H. }
  apply triple_pure with (phi := keyData' = keyData).
  { intros db [_ H]. cbn [hd_error] in H. congruence. }
  intros ->.
  apply triple_weaken
    with (P' := fun db => committed db = t0) (Q' := fun _ => Q)
         (E' := fun _ => Q); auto; [| tauto].
  rewrite (gtb_false _ _ Hexp). cbv zeta.
  eapply triple_bind with (Q := fun _ => Q).
  { apply triple_logKeyActivity_to with (P := fun t => t = t0)
      (Q := fun t => t = t0 \/
              exists action,
                (action = "verified" \/ action = "verification_failed") /\
                t = log_written t0 (id keyData) action req now).
    - intros t ->. left. reflexivity.
    - intros t ->. right.
      destruct (_ && _ && _);
        [exists "verified" | exists "verification_failed"]; auto. }
  intros ?. eapply triple_bind with (Q := fun _ => Q).
  { eapply triple_weaken.
    - apply triple_read. apply sql_select_count_activations.
    - intros db H. exact H.
    - intros c db [H _]. exact H.
    - auto. }
  intros ?. apply triple_ret. auto.
Qed.

(** C9.  The frame of Verify.  For a key that is found and not past its
    expiry, whatever faults the store suffers, a Verify call leaves every key
    row and every activation row as it was, and the log either as it was or
    with the one entry of the call ([verified] or [verification_failed])
    appended.  A failure of that insert is swallowed: the response is the
    one of the run in which it succeeds, and the store is untouched. *)
Theorem verify_frame (db : DB) (req : Req) (key device_id : option string)
    (k d : string) (now : Z) (keyData : KeyRow)
    (faults : list (option pg_error)) :
  truthy key = Some k -> truthy device_id = Some d ->
  lookup_key (committed db) k = Some keyData ->
  now <= expires_at keyData ->
  let handler := Index.post_verifyKey req key device_id now in
  let t := committed db in
  let t' := committed (fst (run handler faults db)) in
  keys t' = keys t /\
  key_activations t' = key_activations t /\
  (key_logs t' = key_logs t \/
   exists action,
     (action = "verified" \/ action = "verification_failed") /\
     key_logs t' = (key_logs t ++ [log_entry t (id keyData) action req now])%list)
  /\
  (forall e,
     snd (run handler [None; Some e] db) = snd (run handler [] db) /\
     fst (run handler [None; Some e] db) = db).
Proof.
  intros Hk Hd Hlook Hexp handler t t'.
  assert (Hframe :
    t' = t \/
    exists action,
      (action = "verified" \/ action = "verification_failed") /\
      t' = log_written t (id keyData) action req now).
  { pose proof (verify_unexpired_triple t req key device_id k d now keyData
                  Hk Hd Hlook Hexp faults db eq_refl) as H.
    subst t' handler. destruct (run _ faults db) as [db' [e | r]]; exact H. }
  split; [| split; [| split]].
  - destruct Hframe as [-> | (action & _ & ->)]; [reflexivity |].
    apply log_written_frame.
  - destruct Hframe as [-> | (action & _ & ->)]; [reflexivity |].
    apply log_written_frame.
  - destruct Hframe as [-> | (action & Ha & ->)]; [left; reflexivity |].
    destruct (log_written_cases t (id keyData) action req now) as [-> | ->];
      [left; reflexivity | right].
    exists action. split; [exact Ha | reflexivity].
  - intros e. subst handler. rewrite verify_run, Hk, Hd, Hlook. cbv zeta.
    rewrite (gtb_false _ _ Hexp).
    destruct db as [t0 tx]. cbn [committed open_tx fst snd] in *. subst t.
    unfold Index.post_verifyKey. rewrite Hk, Hd.
    cbn [run bind try_catch await hd tl step exec fail committed open_tx].
    rewrite sql_select_key_with_device.
    pose proof (join_first_row t0 d
                  (filter (key_has_string (toUpperCase (trim k))) (keys t0))) as Hj.
    unfold lookup_key in Hlook. rewrite Hlook in Hj. cbn [option_map] in Hj.
    destruct (flat_map _ _) as [| [keyData' device_activated] more];
      [discriminate Hj |].
    cbn [hd_error] in Hj. injection Hj as -> ->.
    cbn [run bind try_catch await hd tl step exec fail committed open_tx].
    rewrite (gtb_false _ _ Hexp).
    cbn [run bind try_catch await hd tl step exec fail committed open_tx
         Index.logKeyActivity negb].
    rewrite sql_select_count_activations.
    cbn [run bind try_catch await hd tl step exec fail committed open_tx
         fst snd].
    rewrite andb_true_r.
    replace (Bool.eqb (activated t0 (id keyData) d) true)
      with (activated t0 (id keyData) d)
      by (destruct (activated t0 (id keyData) d); reflexivity).
    split; [| reflexivity].
    unfold count_activations.
    destruct (log_written_frame t0 (id keyData)
                (if String.eqb (status keyData) "active"
                    && activated t0 (id keyData) d
                 then "verified" else "verification_failed") req now)
      as (_ & -> & _).
    reflexivity.
Qed.

(** The first device of the example verifies while the log table rejects
    the entry: the answer and the store are those of an untroubled call. *)
Lemma verify_frame_witness :
  let handler := Index.post_verifyKey Example.req (Some Example.the_key)
                                      (Some "device-A") 2500 in
  keys (committed (fst (run handler [] Example.one_device)))
  = keys (committed Example.one_device) /\
  key_activations (committed (fst (run handler [] Example.one_device)))
  = key_activations (committed Example.one_device) /\
  snd (run handler [None; Some connection_failure] Example.one_device)
  = snd (run handler [] Example.one_device).
Proof.
  destruct (verify_frame Example.one_device Example.req (Some Example.the_key)
              (Some "device-A") Example.the_key "device-A" 2500
              (mkKey 1 Example.the_key 1 2 1 1000 3601000 "active") [])
    as (H1 & H2 & _ & H3);
    [by_computation | by_computation | by_computation | by_computation |].
  split; [exact H1 |]. split; [exact H2 |].
  exact (proj1 (H3 connection_failure)).
Defined.

(* ================================================================== *)
(** * The counter and the activation rows *)
(* ================================================================== *)

(** [consistent] looks at the keys, the activations and the key sequence. *)
Lemma consistent_ext (t t' : Tables) :
  keys t' = keys t -> key_activations t' = key_activations t ->
  keys_id_seq t' = keys_id_seq t ->
  consistent t -> consistent t'.
Proof.
  intros Hk Ha Hs [H1 H2 H3 H4]. split.
  - unfold unique_ids. rewrite Hk. exact H1.
  - intros k Hin. rewrite Hk in Hin. rewrite Hs. apply H2, Hin.
  - intros a Hin. rewrite Ha in Hin. unfold key_exists. rewrite Hk. apply H3, Hin.
  - intros k Hin. rewrite Hk in Hin. unfold count_activations. rewrite Ha.
    apply H4, Hin.
Qed.

Lemma consistent_log_written (t : Tables) (i : Z) (action : string) (req : Req)
    (now : Z) :
  consistent t -> consistent (log_written t i action req now).
Proof.
  destruct (log_written_frame t i action req now) as (Hk & Ha & Hs).
  apply consistent_ext; assumption.
Qed.

(** An update of key rows that keeps their id and their counter. *)
Lemma consistent_update_where (t : Tables) (sel : KeyRow -> bool)
    (f : KeyRow -> KeyRow) :
  (forall k, id (f k) = id k) ->
  (forall k, used_devices (f k) = used_devices k) ->
  consistent t -> consistent (with_keys t (update_where sel f (keys t))).
Proof.
  intros Hid Hused [H1 H2 H3 H4]. split.
  - unfold unique_ids. cbn [keys with_keys].
    rewrite map_id_update_where by exact Hid. exact H1.
  - intros k' Hk'. cbn [keys with_keys keys_id_seq] in *.
    apply In_update_where in Hk'. destruct Hk' as (k & Hk & ->).
    specialize (H2 k Hk). destruct (sel k); [rewrite Hid |]; exact H2.
  - intros a Ha. unfold key_exists. cbn [keys with_keys].
    rewrite existsb_update_where_id by exact Hid. apply H3, Ha.
  - intros k' Hk'. cbn [keys with_keys] in Hk'.
    apply In_update_where in Hk'. destruct Hk' as (k & Hk & ->).
    specialize (H4 k Hk).
    replace (count_activations (with_keys t (update_where sel f (keys t))))
      with (count_activations t) by reflexivity.
    destruct (sel k); [rewrite Hid, Hused |]; exact H4.
Qed.

Lemma consistent_marked_expired (t : Tables) (i : Z) :
  consistent t -> consistent (marked_expired t i).
Proof. apply consistent_update_where; reflexivity. Qed.

Lemma apply_patch_keeps (now : Z) (p : KeyPatch) (k : KeyRow) :
  id (apply_patch now p k) = id k /\
  used_devices (apply_patch now p k) = used_devices k.
Proof.
  unfold apply_patch.
  destruct (set_duration_hours p), (set_status p), (set_max_devices p);
    cbn; auto.
Qed.

Lemma filter_none {A} (f : A -> bool) (l : list A) :
  (forall x, In x l -> f x = false) -> filter f l = [].
Proof.
  intros H. apply filter_nil_existsb.
  destruct (existsb f l) eqn:He; [| reflexivity].
  apply existsb_exists in He. destruct He as (x & Hx & Hfx).
  rewrite (H x Hx) in Hfx. discriminate.
Qed.

Lemma key_exists_id (t : Tables) (i : Z) :
  key_exists t i = true -> exists k, In k (keys t) /\ id k = i.
Proof.
  unfold key_exists. intros H. apply existsb_exists in H.
  destruct H as (k & Hk & Hid). apply Z.eqb_eq in Hid. eauto.
Qed.

(** A new key row, numbered by the sequence, with its counter at zero. *)
Lemma consistent_with_issued (t : Tables) (row : KeyRow) :
  id row = keys_id_seq t -> used_devices row = 0 ->
  consistent t -> consistent (with_issued t row).
Proof.
  intros Hid Hused [H1 H2 H3 H4].
  assert (Hfresh : count_activations t (keys_id_seq t) = 0).
  { unfold count_activations. rewrite filter_none; [reflexivity |].
    intros a Ha. unfold act_of_key. apply Z.eqb_neq. intros Heq.
    destruct (key_exists_id t _ (H3 a Ha)) as (k & Hk & Hidk).
    specialize (H2 k Hk). lia. }
  split.
  - unfold unique_ids. cbn [keys with_issued]. rewrite map_app.
    cbn [map]. rewrite Hid.
    apply NoDup_app; [exact H1 | repeat constructor; simpl; tauto |].
    intros i Hi [<- | []]. apply in_map_iff in Hi.
    destruct Hi as (k & Hidk & Hk). specialize (H2 k Hk). lia.
  - intros k Hk. cbn [keys with_issued keys_id_seq] in *.
    apply in_app_iff in Hk. destruct Hk as [Hk | [<- | []]].
    + specialize (H2 k Hk). lia.
    + lia.
  - intros a Ha. cbn [key_activations with_issued] in Ha.
    unfold key_exists. cbn [keys with_issued]. rewrite existsb_app.
    apply orb_true_iff. left. apply H3, Ha.
  - intros k Hk. cbn [keys with_issued] in Hk.
    replace (count_activations (with_issued t row)) with (count_activations t)
      by reflexivity.
    apply in_app_iff in Hk. destruct Hk as [Hk | [<- | []]].
    + apply H4, Hk.
    + rewrite Hid, Hused, Hfresh. reflexivity.
Qed.

Lemma insert_key_inv (now : Z) (s : string) (dur maxd exp : Z) (st : string)
    (t t' : Tables) (rows : list KeyRow) :
  sql (insert_key now s dur maxd exp st) t = inr (t', rows) ->
  t' = with_issued t (mkKey (keys_id_seq t) s dur maxd 0 now exp st).
Proof.
  cbn [sql].
  repeat (match goal with
          | |- context [if ?b then _ else _] => destruct b
          end; try discriminate).
  intros H. injection H as <- _. reflexivity.
Qed.

Lemma update_key_inv (now : Z) (p : KeyPatch) (i : Z) (t t' : Tables)
    (rows : list KeyRow) :
  sql (update_key now p i) t = inr (t', rows) ->
  t' = with_keys t (update_where (key_has_id i) (apply_patch now p) (keys t)).
Proof.
  cbn [sql].
  repeat (match goal with
          | |- context [if ?b then _ else _] => destruct b
          end; try discriminate).
  intros H. injection H as <- _. reflexivity.
Qed.

(** The two writes of a first activation, together. *)
Lemma consistent_activation_committed (t : Tables) (now i : Z) (d ip : string) :
  key_exists t i = true ->
  consistent t -> consistent (activation_committed t now i d ip).
Proof.
  intros Hex [H1 H2 H3 H4]. split.
  - unfold unique_ids. cbn [keys activation_committed].
    rewrite map_id_update_where by reflexivity. exact H1.
  - intros k' Hk'. cbn [keys activation_committed keys_id_seq] in *.
    apply In_update_where in Hk'. destruct Hk' as (k & Hk & ->).
    specialize (H2 k Hk). destruct (key_has_id i k); exact H2.
  - intros a Ha. cbn [key_activations activation_committed] in Ha.
    unfold key_exists. cbn [keys activation_committed].
    rewrite existsb_update_where_id by reflexivity.
    apply in_app_iff in Ha. destruct Ha as [Ha | [<- | []]];
      [apply H3, Ha | exact Hex].
  - intros k' Hk'. cbn [keys activation_committed] in Hk'.
    apply In_update_where in Hk'. destruct Hk' as (k & Hk & ->).
    specialize (H4 k Hk). unfold key_has_id.
    destruct (Z.eqb_spec (id k) i) as [Heq | Hne].
    + cbn [id used_devices incr_used_devices].
      rewrite count_activation_committed, <- Heq, Z.eqb_refl. lia.
    + rewrite count_activation_committed.
      destruct (Z.eqb_spec i (id k)); [congruence | lia].
Qed.

(** ** Removing keys *)

(** Deleting key rows keeps the ids of the remaining ones distinct. *)
Lemma remaining_ids_distinct (sel : KeyRow -> bool) (ks : list KeyRow) :
  NoDup (map id ks) -> NoDup (map id (filter sel ks)).
Proof.
  intros Hks. induction ks as [| k ks IH]; [constructor |].
  cbn [map] in Hks. apply NoDup_cons_iff in Hks. destruct Hks as [Hk Hks].
  cbn [filter]. destruct (sel k); [| exact (IH Hks)].
  cbn [map]. apply NoDup_cons; [| exact (IH Hks)].
  intros Hin. apply Hk. apply in_map_iff in Hin.
  destruct Hin as (k' & Hid & Hin). apply filter_In in Hin.
  apply in_map_iff. exists k'. tauto.
Qed.

Lemma filter_filter_keep {A} (f g : A -> bool) (l : list A) :
  (forall x, In x l -> f x = true -> g x = true) ->
  filter f (filter g l) = filter f l.
Proof.
  induction l as [| x l IH]; simpl; intros H; [reflexivity |].
  assert (IH' : filter f (filter g l) = filter f l) by (apply IH; auto).
  destruct (f x) eqn:Hf.
  - rewrite (H x (or_introl eq_refl) Hf). simpl. rewrite Hf, IH'. reflexivity.
  - destruct (g x); simpl; [rewrite Hf |]; exact IH'.
Qed.

(** Keys are removed together with all their activations, and no other
    activation is. *)
Lemma consistent_remove (t t' : Tables) (dk : KeyRow -> bool)
    (da : ActivationRow -> bool) :
  keys t' = filter (fun k => negb (dk k)) (keys t) ->
  key_activations t' = filter (fun a => negb (da a)) (key_activations t) ->
  keys_id_seq t' = keys_id_seq t ->
  (forall k a, In k (keys t) -> In a (key_activations t) ->
     act_key_id a = id k -> dk k = false -> da a = false) ->
  (forall k a, In k (keys t) -> In a (key_activations t) ->
     act_key_id a = id k -> da a = false -> dk k = false) ->
  consistent t -> consistent t'.
Proof.
  intros Hk Ha Hs Hkeep Hgone [H1 H2 H3 H4]. split.
  - unfold unique_ids. rewrite Hk. apply remaining_ids_distinct. exact H1.
  - intros k Hin. rewrite Hk in Hin. apply filter_In in Hin.
    rewrite Hs. apply H2. tauto.
  - intros a Hin. rewrite Ha in Hin. apply filter_In in Hin.
    destruct Hin as [Hin Hda]. apply negb_true_iff in Hda.
    destruct (key_exists_id t _ (H3 a Hin)) as (k & Hkin & Hid).
    unfold key_exists. rewrite Hk. apply existsb_exists. exists k. split.
    + apply filter_In. split; [exact Hkin |]. apply negb_true_iff.
      apply (Hgone k a); auto.
    + unfold key_has_id. apply Z.eqb_eq. exact Hid.
  - intros k Hin. rewrite Hk in Hin. apply filter_In in Hin.
    destruct Hin as [Hin Hdk]. apply negb_true_iff in Hdk.
    rewrite (H4 k Hin). unfold count_activations. rewrite Ha.
    rewrite filter_filter_keep; [reflexivity |].
    intros a Hain Hof. unfold act_of_key in Hof. apply Z.eqb_eq in Hof.
    apply negb_true_iff. apply (Hkeep k a); auto.
Qed.

Lemma dead_iff (sel : KeyRow -> bool) (l : list KeyRow) (i : Z) :
  existsb (Z.eqb i) (map id (filter sel l)) = true <->
  exists k, In k l /\ sel k = true /\ id k = i.
Proof.
  rewrite existsb_exists. split.
  - intros (j & Hj & Hij). apply Z.eqb_eq in Hij. subst j.
    apply in_map_iff in Hj. destruct Hj as (k & Hid & Hk).
    apply filter_In in Hk. exists k. tauto.
  - intros (k & Hk & Hs & Hid). exists i. split; [| apply Z.eqb_refl].
    apply in_map_iff. exists k. split; [exact Hid |]. apply filter_In. tauto.
Qed.

(** DELETE FROM keys with its cascade. *)
Lemma consistent_delete_keys_where (sel : KeyRow -> bool) (t : Tables) :
  consistent t -> consistent (delete_keys_where sel t).
Proof.
  intros Hc.
  apply (consistent_remove t _ sel
           (fun a => existsb (Z.eqb (act_key_id a)) (map id (filter sel (keys t)))));
    try reflexivity; [| | exact Hc].
  - intros k a Hk Ha Hid Hsel.
    destruct (existsb _ _) eqn:He; [| reflexivity].
    apply dead_iff in He. destruct He as (k2 & Hk2 & Hs2 & Hid2).
    assert (k2 = k)
      by (apply (unique_ids_eq t); [apply Hc | | | congruence]; assumption).
    congruence.
  - intros k a Hk Ha Hid Hda.
    destruct (sel k) eqn:Hs; [| reflexivity].
    assert (He : existsb (Z.eqb (act_key_id a)) (map id (filter sel (keys t)))
                 = true) by (apply dead_iff; exists k; auto).
    congruence.
Qed.

Lemma filter_filter_or {A} (f g : A -> bool) (l : list A) :
  filter (fun x => negb (g x)) (filter (fun x => negb (f x)) l)
  = filter (fun x => negb (f x || g x)) l.
Proof.
  induction l as [| x l IH]; simpl; [reflexivity |].
  destruct (f x); simpl; [exact IH |].
  destruct (g x); simpl; rewrite IH; reflexivity.
Qed.

(** The transaction of the admin's delete. *)
Lemma consistent_key_deleted (t : Tables) (i : Z) :
  consistent t -> consistent (key_deleted t i).
Proof.
  intros Hc. unfold key_deleted.
  set (t2 := mkTables (keys t) _ _ _ _ _).
  apply (consistent_remove t _ (key_has_id i)
           (fun a => act_of_key i a
                     || existsb (Z.eqb (act_key_id a))
                          (map id (filter (key_has_id i) (keys t2)))));
    try reflexivity; [| | | exact Hc].
  - cbn [key_activations delete_keys_where]. subst t2. cbn [key_activations keys].
    apply filter_filter_or.
  - intros k a Hk Ha Hid Hsel. apply orb_false_iff. split.
    + unfold act_of_key, key_has_id in *. rewrite Hid. exact Hsel.
    + destruct (existsb _ _) eqn:He; [| reflexivity].
      apply dead_iff in He. destruct He as (k2 & _ & Hs2 & Hid2).
      unfold key_has_id in *. apply Z.eqb_eq in Hs2. apply Z.eqb_neq in Hsel.
      congruence.
  - intros k a Hk Ha Hid Hda. apply orb_false_iff in Hda. destruct Hda as [Hda _].
    unfold act_of_key, key_has_id in *. rewrite <- Hid. exact Hda.
Qed.

(* ================================================================== *)
(** * Every handler keeps the tables consistent *)
(* ================================================================== *)

Lemma keeps_ret {R} (I : DB -> Prop) (r : R) : keeps I (Ret r).
Proof. apply triple_ret. auto. Qed.

(** A statement on the pool that keeps [L] when it succeeds. *)
Lemma keeps_pool_query {A} (L : Tables -> Prop) (s : stmt A) :
  (forall t t' a, L t -> sql s t = inr (t', a) -> L t') ->
  keeps (fun db => L (committed db)) (await (pool_query s)).
Proof.
  intros H. apply triple_pool_query; [auto |].
  intros db t a HL Hs. cbn [committed]. eapply H; eassumption.
Qed.

(** try { r = await pool.query(s); ... } catch (err) { ... } *)
Lemma keeps_pool_handler {A R} (L : Tables -> Prop) (s : stmt A)
    (f : A -> Prog R) (h : pg_error -> Prog R) :
  (forall t t' a, L t -> sql s t = inr (t', a) -> L t') ->
  (forall a, keeps (fun db => L (committed db)) (f a)) ->
  (forall e, keeps (fun db => L (committed db)) (h e)) ->
  keeps (fun db => L (committed db))
        (try_catch (bind (await (pool_query s)) f) h).
Proof.
  intros Hs Hf Hh.
  eapply triple_catch; [| exact Hh].
  eapply triple_bind; [apply keeps_pool_query; exact Hs | exact Hf].
Qed.

Lemma keeps_read {A R} (L : Tables -> Prop) (s : stmt A) (v : Tables -> A)
    (f : A -> Prog R) (h : pg_error -> Prog R) :
  (forall t, sql s t = inr (t, v t)) ->
  (forall a, keeps (fun db => L (committed db)) (f a)) ->
  (forall e, keeps (fun db => L (committed db)) (h e)) ->
  keeps (fun db => L (committed db))
        (try_catch (bind (await (pool_query s)) f) h).
Proof.
  intros Hs. apply keeps_pool_handler.
  intros t t' a HL H. rewrite Hs in H. injection H as <- _. exact HL.
Qed.

Section HandlersKeep.

(** A property of the tables kept by every write the handlers make. *)
Variable L : Tables -> Prop.
Hypothesis L_marked : forall t i, L t -> L (marked_expired t i).
Hypothesis L_log : forall t i action req now,
  L t -> L (log_written t i action req now).
Hypothesis L_activation : forall t keyData now d ip,
  L t -> In keyData (keys t) ->
  count_activations t (id keyData) < max_devices keyData ->
  key_exists t (id keyData) = true ->
  L (activation_committed t now (id keyData) d ip).
Hypothesis L_issued : forall t row,
  L t -> id row = keys_id_seq t -> used_devices row = 0 ->
  L (with_issued t row).
Hypothesis L_update : forall t sel f,
  (forall k, id (f k) = id k) ->
  (forall k, used_devices (f k) = used_devices k) ->
  L t -> L (with_keys t (update_where sel f (keys t))).
Hypothesis L_deleted : forall t i, L t -> L (key_deleted t i).
Hypothesis L_cleanup : forall t sel, L t -> L (delete_keys_where sel t).

Let I (db : DB) : Prop := L (committed db).

Lemma janitor_keeps (now : Z) : keeps I (Index.cleanupExpiredKeys now).
Proof.
  unfold Index.cleanupExpiredKeys. apply keeps_pool_handler.
  - intros t t' a HL H. cbn [sql] in H. injection H as <- _.
    apply L_update; auto.
  - intros a. apply keeps_ret.
  - intros e. apply keeps_ret.
Qed.

Lemma attempts_keep (keygen : nat -> string) (now dur maxd : Z) (st : string)
    (left : nat) :
  forall i, keeps I (Index.generate_attempts keygen now dur maxd st left i).
Proof.
  induction left as [| left IH]; intros i; [apply keeps_ret |].
  cbn [Index.generate_attempts].
  eapply triple_bind with (Q := fun _ => I).
  - apply keeps_pool_handler.
    + intros t t' a HL H. apply insert_key_inv in H. subst t'.
      apply L_issued; auto.
    + intros [| row rest]; [apply triple_throw; auto | apply keeps_ret].
    + intros e. destruct (String.eqb _ _); [apply keeps_ret |].
      apply triple_throw. auto.
  - intros [response |]; [apply keeps_ret | apply IH].
Qed.

Lemma generate_keeps (body : Index.GenerateBody) (keygen : nat -> string)
    (now : Z) :
  keeps I (Index.post_generateKey body keygen now).
Proof.
  unfold Index.post_generateKey.
  eapply triple_catch with (E' := fun _ => I); [| intros e; apply keeps_ret].
  destruct (_ || _); [apply keeps_ret |].
  eapply triple_bind; [apply attempts_keep |].
  intros [u | response]; apply keeps_ret.
Qed.

Lemma list_keeps : keeps I Index.get_admin_keys.
Proof.
  unfold Index.get_admin_keys.
  apply keeps_read with (v := fun t => order_desc created_at (keys t));
    [reflexivity | |]; intros ?; apply keeps_ret.
Qed.

Lemma logs_keeps (key_id : Z) : keeps I (Index.get_admin_keys_logs key_id).
Proof.
  unfold Index.get_admin_keys_logs.
  apply keeps_read
    with (v := fun t => order_desc log_created_at
                          (filter (log_of_key key_id) (key_logs t)));
    [reflexivity | |]; intros ?; apply keeps_ret.
Qed.

Lemma health_keeps (now : Z) : keeps I (Index.get_health now).
Proof.
  unfold Index.get_health.
  apply keeps_read with (v := fun _ => tt);
    [reflexivity | |]; intros ?; apply keeps_ret.
Qed.

Lemma update_keeps (key_id : Z) (body : KeyPatch) (now : Z) :
  keeps I (Index.put_admin_keys key_id body now).
Proof.
  unfold Index.put_admin_keys.
  eapply triple_catch with (E' := fun _ => I); [| intros e; apply keeps_ret].
  destruct (Index.patch_is_empty body); [apply keeps_ret |].
  eapply triple_bind.
  - apply keeps_pool_query. intros t t' a HL H.
    apply update_key_inv in H. subst t'.
    apply L_update; [intros k; apply apply_patch_keeps .. | exact HL].
  - intros [| row rest]; apply keeps_ret.
Qed.

Lemma cleanup_keeps (now : Z) : keeps I (Index.post_admin_cleanup now).
Proof.
  unfold Index.post_admin_cleanup. apply keeps_pool_handler.
  - intros t t' a HL H. cbn [sql] in H. injection H as <- _.
    apply L_cleanup. exact HL.
  - intros a. apply keeps_ret.
  - intros e. apply keeps_ret.
Qed.

Lemma delete_keeps (key_id : Z) : keeps I (Index.delete_admin_keys key_id).
Proof.
  unfold Index.delete_admin_keys.
  eapply triple_catch with (E' := fun _ => I); [| intros e; apply keeps_ret].
  eapply triple_bind; [apply triple_pool_connect |]. intros ?.
  apply triple_catch with (E' := fun _ => I);
    [| intros e; apply (triple_rollback_throw L)].
  eapply triple_bind; [apply (triple_begin L) |]. intros ?.
  eapply triple_bind.
  { apply triple_client_query
      with (P := L) (W := fun t w => t = w)
           (W' := fun t w =>
              w = mkTables (keys t) (key_activations t)
                           (filter (fun l => negb (log_of_key key_id l)) (key_logs t))
                           (keys_id_seq t) (key_activations_id_seq t)
                           (key_logs_id_seq t)).
    intros t w w' r HL Heq H. subst w. cbn [sql] in H. injection H as <- _.
    reflexivity. }
  intros ?. eapply triple_bind.
  { apply triple_client_query
      with (P := L)
           (W := fun t w =>
              w = mkTables (keys t) (key_activations t)
                           (filter (fun l => negb (log_of_key key_id l)) (key_logs t))
                           (keys_id_seq t) (key_activations_id_seq t)
                           (key_logs_id_seq t))
           (W' := fun t w =>
              w = mkTables (keys t)
                           (filter (fun a => negb (act_of_key key_id a))
                                   (key_activations t))
                           (filter (fun l => negb (log_of_key key_id l)) (key_logs t))
                           (keys_id_seq t) (key_activations_id_seq t)
                           (key_logs_id_seq t)).
    intros t w w' r HL Heq H. subst w. cbn [sql] in H. injection H as <- _.
    reflexivity. }
  intros ?. eapply triple_bind.
  { apply triple_client_query
      with (P := L)
           (W := fun t w =>
              w = mkTables (keys t)
                           (filter (fun a => negb (act_of_key key_id a))
                                   (key_activations t))
                           (filter (fun l => negb (log_of_key key_id l)) (key_logs t))
                           (keys_id_seq t) (key_activations_id_seq t)
                           (key_logs_id_seq t))
           (W' := fun t w => w = key_deleted t key_id).
    intros t w w' r HL Heq H. subst w. cbn [sql] in H. injection H as <- _.
    reflexivity. }
  intros result. eapply triple_bind with (Q := fun _ => I).
  { apply triple_commit with (P := L) (W := fun t w => w = key_deleted t key_id).
    intros t w HL ->. apply L_deleted. exact HL. }
  intros ?. destruct result; apply triple_ret; auto.
Qed.

Lemma handler_keeps (o : Index.op) : keeps I (Index.handler o).
Proof.
  destruct o; cbn [Index.handler];
    (eapply triple_bind; [| intros ?; apply keeps_ret]).
  - apply generate_keeps.
  - apply activate_keeps; assumption.
  - apply verify_keeps; assumption.
  - apply list_keeps.
  - apply update_keeps.
  - apply delete_keeps.
  - apply logs_keeps.
  - apply cleanup_keeps.
  - apply health_keeps.
  - apply janitor_keeps.
Qed.

Lemma after_all_keeps (ops : list Index.op) :
  forall faults db, I db -> I (Index.after_all ops faults db).
Proof.
  induction ops as [| o ops IH]; intros faults db H; [exact H |].
  cbn [Index.after_all]. apply IH. unfold Index.after.
  pose proof (handler_keeps o (hd [] faults) db H) as Hk.
  destruct (run (Index.handler o) (hd [] faults) db) as [db' [e | r]]; exact Hk.
Qed.

End HandlersKeep.

(* ================================================================== *)
(** * The counter is the number of activation rows *)
(* ================================================================== *)

Lemma consistent_empty : consistent empty_tables.
Proof.
  split.
  - constructor.
  - intros k [].
  - intros a [].
  - intros k [].
Qed.

Lemma consistent_after_all (ops : list Index.op)
    (faults : list (list (option pg_error))) (db : DB) :
  consistent (committed db) ->
  consistent (committed (Index.after_all ops faults db)).
Proof.
  apply (after_all_keeps consistent).
  - apply consistent_marked_expired.
  - apply consistent_log_written.
  - intros t keyData now d ip Hc _ _ Hex.
    apply consistent_activation_committed; assumption.
  - intros t row Hc Hid Hu. apply consistent_with_issued; assumption.
  - intros t sel f Hid Hu Hc. apply consistent_update_where; assumption.
  - intros t i. apply consistent_key_deleted.
  - intros t sel. apply consistent_delete_keys_where.
Qed.

(** ** The insert and the increment, together or not at all *)

Lemma map_used_update_where (sel : KeyRow -> bool) (f : KeyRow -> KeyRow)
    (l : list KeyRow) :
  (forall k, used_devices (f k) = used_devices k) ->
  map used_devices (update_where sel f l) = map used_devices l.
Proof.
  intros Hf. unfold update_where. rewrite map_map. apply map_ext.
  intros k. destruct (sel k); [apply Hf | reflexivity].
Qed.

Lemma map_used_incr (i : Z) (l1 : list KeyRow) :
  forall l2,
    map id l1 = map id l2 ->
    map used_devices l1 = map used_devices l2 ->
    map used_devices (update_where (key_has_id i) incr_used_devices l1)
    = map used_devices (update_where (key_has_id i) incr_used_devices l2).
Proof.
  induction l1 as [| x l1 IH]; intros [| y l2] Hid Hu; try discriminate;
    [reflexivity |].
  cbn [map update_where] in *. injection Hid as Hxy Hid. injection Hu as Hux Hu.
  fold (update_where (key_has_id i) incr_used_devices l1).
  fold (update_where (key_has_id i) incr_used_devices l2).
  rewrite (IH l2 Hid Hu). unfold key_has_id. rewrite Hxy.
  destruct (id y =? i); cbn [used_devices incr_used_devices]; congruence.
Qed.

Lemma nothing_counted_log (t0 t : Tables) (i : Z) (action : string) (req : Req)
    (now : Z) :
  nothing_counted t0 t -> nothing_counted t0 (log_written t i action req now).
Proof.
  destruct (log_written_frame t i action req now) as (Hk & Ha & _).
  unfold nothing_counted. rewrite Hk, Ha. auto.
Qed.

Lemma one_counted_log (t0 t : Tables) (i : Z) (action : string) (req : Req)
    (now : Z) :
  one_counted t0 t -> one_counted t0 (log_written t i action req now).
Proof.
  destruct (log_written_frame t i action req now) as (Hk & Ha & _).
  unfold one_counted. rewrite Hk, Ha. auto.
Qed.

Lemma activate_all_or_nothing (db : DB) (req : Req)
    (key device_id : option string) (now : Z)
    (faults : list (option pg_error)) :
  let t' := committed (fst (run (Index.post_activateKey req key device_id now)
                                faults db)) in
  nothing_counted (committed db) t' \/ one_counted (committed db) t'.
Proof.
  intros t'.
  pose proof (activate_triple (nothing_counted (committed db))
                (one_counted (committed db))) as H.
  assert (H' : nothing_counted (committed db) t' \/ one_counted (committed db) t');
    [| exact H'].
  subst t'.
  assert (Hrun := fun H1 H2 H3 H4 =>
            H H1 H2 H3 H4 req key device_id now faults db
              (conj eq_refl (conj eq_refl eq_refl))).
  destruct (run _ faults db) as [db' [e | r]]; cbn [fst]; apply Hrun; clear Hrun H.
  all: try (intros t i (Ha & Hi & Hu); unfold nothing_counted, marked_expired;
            cbn [key_activations keys with_keys];
            rewrite map_id_update_where, map_used_update_where by reflexivity;
            auto).
  all: try (intros t i action req0 now0; first [apply nothing_counted_log
                                               | apply one_counted_log]).
  all: intros t keyData now0 d ip (Ha & Hi & Hu) _ _ _;
    exists (mkActivation (key_activations_id_seq t) (id keyData) d ip now0);
    cbn [key_activations keys activation_committed act_key_id];
    rewrite Ha; split; [reflexivity | apply map_used_incr; assumption].
Qed.

(** ** Activation rows go only with their key *)

Lemma after_keeps (L : Tables -> Prop) (p : Prog Response)
    (faults : list (option pg_error)) (db : DB) :
  keeps (fun db => L (committed db)) p ->
  L (committed db) ->
  L (committed (fst (run (r <- p ;; Ret (Some r)) faults db))).
Proof.
  intros Hp HL.
  assert (Hk : keeps (fun db => L (committed db)) (r <- p ;; Ret (Some r))).
  { eapply triple_bind; [exact Hp |]. intros r. apply keeps_ret. }
  specialize (Hk faults db HL).
  destruct (run _ faults db) as [db' [e | r]]; exact Hk.
Qed.

Lemma removed_with_key_refl (t : Tables) : removed_with_key t t.
Proof. intros a Ha. left. exact Ha. Qed.

(** Every write but the two deletes leaves the activation rows in place. *)
Lemma rows_stay_after (o : Index.op) (faults : list (option pg_error)) (db : DB) :
  match o with
  | Index.DeleteKey _ | Index.Cleanup _ => False
  | _ => True
  end ->
  incl (key_activations (committed db))
       (key_activations (committed (Index.after o faults db))).
Proof.
  set (L := fun t => incl (key_activations (committed db)) (key_activations t)).
  assert (L0 : L (committed db)) by apply incl_refl.
  assert (Hlog : forall t i action req now,
             L t -> L (log_written t i action req now)).
  { intros t i action req now H.
    destruct (log_written_frame t i action req now) as (_ & Ha & _).
    unfold L. rewrite Ha. exact H. }
  assert (Hupd : forall t sel f,
             (forall k, id (f k) = id k) ->
             (forall k, used_devices (f k) = used_devices k) ->
             L t -> L (with_keys t (update_where sel f (keys t))))
    by (intros t sel f _ _ H; exact H).
  assert (Hmark : forall t i, L t -> L (marked_expired t i))
    by (intros t i H; exact H).
  intros Hop. change (L (committed (Index.after o faults db))).
  destruct o as [body keygen now | req key dev now | req key dev now |
                 | kid body now | kid | kid | now | now | now];
    try contradiction.
  - refine (after_keeps L (Index.post_generateKey body keygen now) faults db _ L0).
    apply (generate_keeps L). intros t row H _ _. exact H.
  - refine (after_keeps L (Index.post_activateKey req key dev now) faults db _ L0).
    apply (activate_keeps L); [exact Hmark | exact Hlog |].
    intros t keyData now0 d ip H _ _ _. unfold L.
    cbn [key_activations activation_committed]. apply incl_appl. exact H.
  - refine (after_keeps L (Index.post_verifyKey req key dev now) faults db _ L0).
    apply (verify_keeps L); [exact Hmark | exact Hlog].
  - refine (after_keeps L Index.get_admin_keys faults db _ L0).
    apply (list_keeps L).
  - refine (after_keeps L (Index.put_admin_keys kid body now) faults db _ L0).
    apply (update_keeps L). exact Hupd.
  - refine (after_keeps L (Index.get_admin_keys_logs kid) faults db _ L0).
    apply (logs_keeps L).
  - refine (after_keeps L (Index.get_health now) faults db _ L0).
    apply (health_keeps L).
  - unfold Index.after. cbn [Index.handler].
    assert (Hk : keeps (fun db0 => L (committed db0))
                   (Index.cleanupExpiredKeys now ;; Ret (@None Response))).
    { eapply triple_bind; [apply (janitor_keeps L); exact Hupd |].
      intros ?. apply keeps_ret. }
    specialize (Hk faults db L0).
    destruct (run _ faults db) as [db' [e | r]]; exact Hk.
Qed.

Lemma removed_with_key_deleted (t0 t : Tables) (i : Z) :
  removed_with_key t0 t -> removed_with_key t0 (key_deleted t i).
Proof.
  intros H a Ha. unfold key_deleted.
  set (t2 := mkTables (keys t) _ _ _ _ _).
  assert (Hgone : forall j, key_exists t j = false ->
                            key_exists (delete_keys_where (key_has_id i) t2) j = false).
  { intros j Hj. unfold key_exists in *. cbn [keys delete_keys_where].
    subst t2. cbn [keys].
    destruct (existsb _ (filter _ _)) eqn:He; [| reflexivity].
    apply existsb_exists in He. destruct He as (k & Hk & Hid).
    apply filter_In in Hk. destruct Hk as [Hk _].
    assert (existsb (key_has_id j) (keys t) = true)
      by (apply existsb_exists; eauto).
    congruence. }
  destruct (H a Ha) as [Hin | Hno]; [| right; apply Hgone, Hno].
  destruct (Z.eqb_spec (act_key_id a) i) as [Heq | Hne].
  - right. unfold key_exists. cbn [keys delete_keys_where]. subst t2. cbn [keys].
    destruct (existsb _ (filter _ _)) eqn:He; [| reflexivity].
    apply existsb_exists in He. destruct He as (k & Hk & Hid).
    apply filter_In in Hk. destruct Hk as [_ Hk].
    unfold key_has_id in *. apply Z.eqb_eq in Hid.
    rewrite Hid, Heq, Z.eqb_refl in Hk. discriminate.
  - left. cbn [key_activations delete_keys_where]. subst t2.
    cbn [key_activations keys].
    apply filter_In. split.
    + apply filter_In. split; [exact Hin |].
      unfold act_of_key. apply negb_true_iff, Z.eqb_neq. exact Hne.
    + apply negb_true_iff.
      destruct (existsb _ _) eqn:He; [| reflexivity].
      apply dead_iff in He. destruct He as (k & _ & Hs & Hid).
      unfold key_has_id in Hs. apply Z.eqb_eq in Hs. congruence.
Qed.

Lemma removed_with_key_cleanup (t0 t : Tables) (sel : KeyRow -> bool) :
  unique_ids t -> removed_with_key t0 t ->
  removed_with_key t0 (delete_keys_where sel t).
Proof.
  intros Hu H a Ha.
  destruct (H a Ha) as [Hin | Hno].
  - destruct (existsb (Z.eqb (act_key_id a)) (map id (filter sel (keys t))))
      eqn:He.
    + right. apply dead_iff in He. destruct He as (k & Hk & Hs & Hid).
      unfold key_exists. cbn [keys delete_keys_where].
      destruct (existsb _ (filter _ _)) eqn:He'; [| reflexivity].
      apply existsb_exists in He'. destruct He' as (k2 & Hk2 & Hid2).
      apply filter_In in Hk2. destruct Hk2 as [Hk2 Hs2].
      unfold key_has_id in Hid2. apply Z.eqb_eq in Hid2.
      assert (k2 = k) by (apply (unique_ids_eq t); auto; congruence).
      subst k2. rewrite Hs in Hs2. discriminate.
    + left. cbn [key_activations delete_keys_where].
      apply filter_In. split; [exact Hin |]. rewrite He. reflexivity.
  - right. unfold key_exists in *. cbn [keys delete_keys_where].
    destruct (existsb _ (filter _ _)) eqn:He; [| reflexivity].
    apply existsb_exists in He. destruct He as (k & Hk & Hid).
    apply filter_In in Hk. destruct Hk as [Hk _].
    assert (existsb (key_has_id (act_key_id a)) (keys t) = true)
      by (apply existsb_exists; eauto).
    congruence.
Qed.

Lemma rows_removed_with_key (o : Index.op) (faults : list (option pg_error))
    (db : DB) :
  unique_ids (committed db) ->
  removed_with_key (committed db) (committed (Index.after o faults db)).
Proof.
  intros Hu.
  assert (Hstay : incl (key_activations (committed db))
                    (key_activations (committed (Index.after o faults db))) ->
                  removed_with_key (committed db)
                    (committed (Index.after o faults db)))
    by (intros Hi a Ha; left; apply Hi, Ha).
  destruct o as [body keygen now | req key dev now | req key dev now |
                 | kid body now | kid | kid | now | now | now];
    try (apply Hstay; apply rows_stay_after; exact I).
  - refine (after_keeps (removed_with_key (committed db))
                        (Index.delete_admin_keys kid) faults db _
                        (removed_with_key_refl _)).
    apply (delete_keeps (removed_with_key (committed db))).
    intros t i. apply removed_with_key_deleted.
  - refine (proj2 (after_keeps
             (fun t => unique_ids t /\ removed_with_key (committed db) t)
             (Index.post_admin_cleanup now) faults db _
             (conj Hu (removed_with_key_refl _)))).
    apply (cleanup_keeps
             (fun t => unique_ids t /\ removed_with_key (committed db) t)).
    intros t sel [H1 H2]. split.
    + unfold unique_ids. cbn [keys delete_keys_where].
      apply remaining_ids_distinct. exact H1.
    + apply removed_with_key_cleanup; assumption.
Qed.

(** C10.  From the empty tables [initDatabase] creates, after every sequence
    of completed operations (requests to any route, runs of the janitor),
    under every fault schedule, [used_devices] of every key is the number of
    its activation rows.  An Activate call either leaves activation rows and
    counters as they were or has added one row and incremented the counter
    of its key: the insert and the increment commit or roll back together.
    And an operation removes an activation row only together with its key. *)
Theorem used_devices_counts_activations :
  (forall (ops : list Index.op) (faults : list (list (option pg_error))),
     let t := committed (Index.after_all ops faults fresh_db) in
     consistent t /\
     forall k, In k (keys t) -> used_devices k = count_activations t (id k))
  /\
  (forall (db : DB) (req : Req) (key device_id : option string) (now : Z)
          (faults : list (option pg_error)),
     let t' := committed (fst (run (Index.post_activateKey req key device_id now)
                                   faults db)) in
     nothing_counted (committed db) t' \/ one_counted (committed db) t')
  /\
  (forall (ops : list Index.op) (faults : list (list (option pg_error)))
          (o : Index.op) (fs : list (option pg_error)),
     let db := Index.after_all ops faults fresh_db in
     removed_with_key (committed db) (committed (Index.after o fs db))).
Proof.
  assert (Hcons : forall ops faults,
             consistent (committed (Index.after_all ops faults fresh_db))).
  { intros ops faults. apply consistent_after_all. apply consistent_empty. }
  split; [| split].
  - intros ops faults t. split; [apply Hcons |].
    apply (cons_counter _ (Hcons ops faults)).
  - intros. apply activate_all_or_nothing.
  - intros ops faults o fs db. apply rows_removed_with_key.
    apply (cons_unique _ (Hcons ops faults)).
Qed.

(** The store, issued key and janitor sweeps included, keeps the counter
    exact through a day of the example. *)
Lemma used_devices_counts_activations_witness :
  let t := committed
             (Index.after_all
                [Index.Generate (Index.mkGenerateBody (Some 1) (Some 2) None)
                                Example.stuck_keygen 1000;
                 Example.activate "device-A" 2000;
                 Example.activate "device-B" 3000;
                 Example.activate "device-C" 3500;
                 Index.Janitor Example.after_expiry;
                 Index.Cleanup Example.after_expiry]
                [[]; [None; None; None; None; None; None; Some connection_failure]]
                fresh_db) in
  consistent t /\
  map used_devices (keys t) = map (fun k => count_activations t (id k)) (keys t).
Proof.
  destruct used_devices_counts_activations as (H & _ & _).
  intros t. split; [apply H |].
  apply map_ext_in. apply H.
Defined.

(* ================================================================== *)
(** * Scenarios of the design *)
(* ================================================================== *)

(** A key for two devices: A and B are activated, C is refused, and the
    count stays at two. *)
Lemma scenario_device_limit :
  snd (run (Index.post_activateKey Example.req (Some Example.the_key)
                                   (Some "device-A") 2000) [] Example.issued)
  = inr (Activated (mkKey 1 Example.the_key 1 2 0 1000 3601000 "active") 1)
  /\
  snd (run (Index.post_activateKey Example.req (Some Example.the_key)
                                   (Some "device-B") 3000) [] Example.one_device)
  = inr (Activated (mkKey 1 Example.the_key 1 2 1 1000 3601000 "active") 2)
  /\
  run (Index.post_activateKey Example.req (Some Example.the_key)
                              (Some "device-C") 3500) [] Example.two_devices
  = (Example.two_devices, inr DeviceLimitReached)
  /\
  count_activations (committed Example.two_devices) 1 = 2.
Proof. vm_compute. repeat split. Qed.

(** A key just issued: a device that has not activated is not valid; once
    activated it is, and one device is counted. *)
Lemma scenario_round_trip :
  says_valid (snd (run (Index.post_verifyKey Example.req (Some Example.the_key)
                                             (Some "device-A") 1500)
                       [] Example.issued)) = false
  /\
  snd (run (Index.post_verifyKey Example.req (Some Example.the_key)
                                 (Some "device-A") 2500)
           [] Example.one_device)
  = inr (res_json
           (Index.verify_body true
              (mkKey 1 Example.the_key 1 2 1 1000 3601000 "active")
              "active" 1 "Key is valid")).
Proof. vm_compute. split; reflexivity. Qed.

(** The key may be typed in lower case and with blanks around it. *)
Lemma scenario_key_is_normalized :
  snd (run (Index.post_activateKey Example.req
              (Some "  abcde-fghij-klmno-pqrst-uvwxy ")
              (Some "device-A") 2500) [] Example.one_device)
  = inr (AlreadyActivated (mkKey 1 Example.the_key 1 2 1 1000 3601000 "active")).
Proof. vm_compute. reflexivity. Qed.

(** X19.  Calling Activate twice: whenever a call has succeeded, a second
    call for the same key and device, made before the key expires, is the
    idempotent success and counts nothing. *)
Lemma activate_twice (db : DB) (req1 req2 : Req) (key device_id : option string)
    (now1 now2 : Z) (r1 : Response) :
  snd (run (Index.post_activateKey req1 key device_id now1) [] db) = inr r1 ->
  http_status r1 = 200 ->
  let db1 := fst (run (Index.post_activateKey req1 key device_id now1) [] db) in
  exists k keyData,
    truthy key = Some k /\
    lookup_key (committed db1) k = Some keyData /\
    (now2 <= expires_at keyData ->
     let result := run (Index.post_activateKey req2 key device_id now2) [] db1 in
     snd result = inr (AlreadyActivated keyData) /\
     key_activations (committed (fst result)) = key_activations (committed db1) /\
     keys (committed (fst result)) = keys (committed db1)).
Proof.
  intros Hr Hok db1. subst db1. revert Hr.
  rewrite activate_run.
  destruct (truthy key) as [k |] eqn:Hk;
    [| intros H; injection H as <-; discriminate Hok].
  destruct (truthy device_id) as [d |] eqn:Hd;
    [| intros H; injection H as <-; discriminate Hok].
  destruct ((strlen d <? 5) || (strlen d >? 255)) eqn:Hlen;
    [intros H; injection H as <-; discriminate Hok |].
  destruct (lookup_key (committed db) k) as [keyData |] eqn:Hlook;
    [| intros H; injection H as <-; discriminate Hok].
  cbv zeta.
  destruct (now1 >? expires_at keyData);
    [intros H; injection H as <-; discriminate Hok |].
  destruct (String.eqb_spec (status keyData) "active") as [Hst | Hst];
    cbn [negb]; [| intros H; injection H as <-; discriminate Hok].
  (* the two successful branches leave a store in which the device is
     activated for the key *)
  assert (Hsecond : forall t' keyData',
             lookup_key t' k = Some keyData' ->
             status keyData' = "active" ->
             activated t' (id keyData') d = true ->
             forall tx,
             now2 <= expires_at keyData' ->
             let result := run (Index.post_activateKey req2 key device_id now2)
                               [] (mkDB t' tx) in
             snd result = inr (AlreadyActivated keyData') /\
             key_activations (committed (fst result)) = key_activations t' /\
             keys (committed (fst result)) = keys t').
  { intros t' keyData' Hl' Hs' Ha' tx Hexp result. subst result.
    rewrite activate_run, Hk, Hd, Hlen. cbn [committed]. rewrite Hl'. cbv zeta.
    rewrite (gtb_false _ _ Hexp), Hs', String.eqb_refl, Ha'.
    cbn [negb fst snd committed].
    destruct (log_written_frame t' (id keyData') "reactivated" req2 now2)
      as (Hkeys & Hacts & _).
    auto. }
  destruct (activated (committed db) (id keyData) d) eqn:Hact.
  - intros _. cbn [fst committed]. exists k, keyData.
    destruct (log_written_frame (committed db) (id keyData) "reactivated"
                req1 now1) as (Hkeys & Hacts & _).
    split; [reflexivity |]. split.
    + unfold lookup_key. rewrite Hkeys. exact Hlook.
    + apply Hsecond.
      * unfold lookup_key. rewrite Hkeys. exact Hlook.
      * exact Hst.
      * unfold activated. rewrite Hacts. exact Hact.
  - destruct (count_activations (committed db) (id keyData) >=? max_devices keyData);
      [intros H; injection H as <-; discriminate Hok |].
    destruct (sql (insert_activation now1 (id keyData) d (ip req1)) (committed db))
      as [e | [w u]] eqn:Hins.
    { intros H. injection H as <-.
      destruct (String.eqb (err_code e) "23505"); discriminate Hok. }
    intros _. cbn [fst committed].
    rewrite (counted_after_insert _ _ _ _ _ _ _ Hins).
    set (t1 := activation_committed (committed db) now1 (id keyData) d (ip req1)).
    destruct (log_written_frame t1 (id keyData) "activated" req1 now1)
      as (Hkeys & Hacts & _).
    assert (Hl1 : lookup_key t1 k = Some (incr_used_devices keyData)).
    { unfold lookup_key, t1. cbn [keys activation_committed].
      rewrite filter_update_where_string by reflexivity.
      destruct (lookup_key_rows _ _ _ Hlook) as [rest ->].
      cbn. unfold key_has_id. rewrite Z.eqb_refl. reflexivity. }
    exists k, (incr_used_devices keyData).
    split; [reflexivity |]. split.
    + unfold lookup_key. rewrite Hkeys. exact Hl1.
    + apply Hsecond.
      * unfold lookup_key. rewrite Hkeys. exact Hl1.
      * exact Hst.
      * unfold activated. rewrite Hacts. unfold t1.
        cbn [key_activations activation_committed id incr_used_devices].
        rewrite existsb_app. apply orb_true_iff. right.
        cbn [existsb]. unfold act_of_device. cbn [act_key_id act_device_id].
        rewrite Z.eqb_refl, String.eqb_refl. reflexivity.
Qed.

(* ================================================================== *)
(** * The earlier variant of the activation route *)
(* ================================================================== *)

(** There the status check comes first and nothing is written on expiry:
    the disabled key of the example, past its expiry, is answered "Key is
    not active" and keeps its status. *)
Lemma earlier_status_check_comes_first :
  run (Earlier.post_activateKey Example.req (Some Example.the_key)
                                (Some "device-B") Example.after_expiry)
      [] Example.disabled
  = (Example.disabled,
     inr (res_status_json 400 (Earlier.failure "Key is not active"))).
Proof. vm_compute. reflexivity. Qed.

(** The limit check is the same, *)
Lemma earlier_device_limit :
  run (Earlier.post_activateKey Example.req (Some Example.the_key)
                                (Some "device-C") 3500)
      [] Example.two_devices
  = (Example.two_devices,
     inr (res_status_json 400
            (Earlier.failure "Key has reached maximum device limit"))).
Proof. vm_compute. reflexivity. Qed.

(** so is the answer to a uniqueness violation, *)
Lemma earlier_same_device_race_is_refused :
  map (fun p => option_map http_status (response_of p))
      (fst (interleave [0; 0; 0; 1; 1; 1; 0; 0; 1; 1]%nat
              [Earlier.post_activateKey Example.req (Some Example.the_key)
                                        (Some "device-C") 5000;
               Earlier.post_activateKey Example.req (Some Example.the_key)
                                        (Some "device-C") 5000]
              Example.one_device))
  = [Some 200; Some 409].
Proof. vm_compute. reflexivity. Qed.

(** but the insert stands alone: [used_devices] is not incremented. *)
Lemma earlier_counter_is_not_kept :
  let t := committed (fst (run (Earlier.post_activateKey
                                  Example.req (Some Example.the_key)
                                  (Some "device-A") 2000)
                               [] Example.issued)) in
  map used_devices (keys t) = [0] /\ count_activations t 1 = 1.
Proof. vm_compute. split; reflexivity. Qed.

(* ================================================================== *)
(** * Further properties of the routes *)
(* ================================================================== *)

Import Further.

(* ================================================================== *)
(** * The key strings of the generator *)
(* ================================================================== *)

Lemma charAt_symbol (n : nat) :
  (n < 36)%nat ->
  exists c, Index.charAt Index.chars n = String c EmptyString /\ is_symbol c = true.
Proof.
  intros H.
  do 36 (destruct n as [| n]; [eexists; split; reflexivity |]).
  lia.
Qed.

Ltac draw rand Hs j :=
  let c := fresh "c" in
  let E := fresh "E" in
  let S := fresh "S" in
  destruct (Hs j ltac:(lia)) as (c & E & S); rewrite E; clear E.

Lemma generateKey_grouped (rand : nat -> nat) :
  (forall j, (j < 25)%nat -> (rand j < 36)%nat) ->
  key_format (Index.generateKey rand) = true.
Proof.
  intros H.
  assert (Hs : forall j, (j < 25)%nat ->
             exists c, Index.charAt Index.chars (rand j) = String c EmptyString
                       /\ is_symbol c = true)
    by (intros j Hj; apply charAt_symbol; auto).
  cbv beta iota zeta delta [Index.generateKey Index.generateKey_loop Nat.ltb Nat.leb Nat.eqb Nat.modulo Nat.divmod andb fst snd Nat.sub].
  draw rand Hs 0%nat. draw rand Hs 1%nat. draw rand Hs 2%nat. draw rand Hs 3%nat.
  draw rand Hs 4%nat. draw rand Hs 5%nat. draw rand Hs 6%nat. draw rand Hs 7%nat.
  draw rand Hs 8%nat. draw rand Hs 9%nat. draw rand Hs 10%nat. draw rand Hs 11%nat.
  draw rand Hs 12%nat. draw rand Hs 13%nat. draw rand Hs 14%nat. draw rand Hs 15%nat.
  draw rand Hs 16%nat. draw rand Hs 17%nat. draw rand Hs 18%nat. draw rand Hs 19%nat.
  draw rand Hs 20%nat. draw rand Hs 21%nat. draw rand Hs 22%nat. draw rand Hs 23%nat.
  draw rand Hs 24%nat.
  cbv -[is_symbol].
  repeat match goal with
         | S : is_symbol _ = true |- _ => rewrite S; clear S
         end.
  reflexivity.
Qed.

(** ** trim and toUpperCase *)

Lemma is_space_upper_char (c : ascii) : is_space (upper_char c) = is_space c.
Proof. destruct c as [[] [] [] [] [] [] [] []]; reflexivity. Qed.

Lemma upper_char_twice (c : ascii) : upper_char (upper_char c) = upper_char c.
Proof. destruct c as [[] [] [] [] [] [] [] []]; reflexivity. Qed.

Lemma toUpperCase_twice (s : string) :
  toUpperCase (toUpperCase s) = toUpperCase s.
Proof.
  induction s as [| c s IH]; simpl; [reflexivity |].
  rewrite upper_char_twice, IH. reflexivity.
Qed.

Lemma trim_start_toUpperCase (s : string) :
  trim_start (toUpperCase s) = toUpperCase (trim_start s).
Proof.
  induction s as [| c s IH]; simpl; [reflexivity |].
  rewrite is_space_upper_char. destruct (is_space c); [exact IH | reflexivity].
Qed.

Lemma trim_end_toUpperCase (s : string) :
  trim_end (toUpperCase s) = toUpperCase (trim_end s).
Proof.
  induction s as [| c s IH]; simpl; [reflexivity |].
  rewrite IH, is_space_upper_char.
  destruct (trim_end s); simpl; [destruct (is_space c) |]; reflexivity.
Qed.

Lemma trim_toUpperCase (s : string) :
  trim (toUpperCase s) = toUpperCase (trim s).
Proof.
  unfold trim. rewrite trim_start_toUpperCase. apply trim_end_toUpperCase.
Qed.

Lemma trim_start_clean (s : string) : starts_clean (trim_start s) = true.
Proof.
  induction s as [| c s IH]; simpl; [reflexivity |].
  destruct (is_space c) eqn:Hc; [exact IH |]. simpl. rewrite Hc. reflexivity.
Qed.

Lemma trim_start_of_clean (s : string) :
  starts_clean s = true -> trim_start s = s.
Proof.
  destruct s as [| c s]; simpl; [reflexivity |].
  destruct (is_space c); [discriminate | reflexivity].
Qed.

Lemma trim_end_clean (s : string) :
  starts_clean s = true -> starts_clean (trim_end s) = true.
Proof.
  destruct s as [| c s]; simpl; [reflexivity |].
  intros H. destruct (trim_end s); simpl; [| exact H].
  destruct (is_space c) eqn:Hc; [discriminate | simpl; rewrite Hc; reflexivity].
Qed.

Lemma trim_end_twice (s : string) : trim_end (trim_end s) = trim_end s.
Proof.
  induction s as [| c s IH]; simpl; [reflexivity |].
  destruct (trim_end s) as [| c' r] eqn:Hr.
  - destruct (is_space c) eqn:Hc; simpl; [reflexivity |]. rewrite Hc. reflexivity.
  - cbn [trim_end] in *. rewrite IH. reflexivity.
Qed.

Lemma trim_twice (s : string) : trim (trim s) = trim s.
Proof.
  unfold trim.
  rewrite (trim_start_of_clean (trim_end (trim_start s))).
  - apply trim_end_twice.
  - apply trim_end_clean, trim_start_clean.
Qed.

Lemma normalize_twice (s : string) : normalize (normalize s) = normalize s.
Proof.
  unfold normalize.
  rewrite trim_toUpperCase, trim_twice. apply toUpperCase_twice.
Qed.

(** ** A well-formed key string is its own normal form *)

Lemma symbol_is_plain (c : ascii) :
  is_symbol c = true -> is_space c = false /\ upper_char c = c.
Proof.
  intros H. cbv [is_symbol Index.chars list_ascii_of_string existsb] in H.
  repeat (apply orb_true_iff in H; destruct H as [H | H]);
    try discriminate; apply Ascii.eqb_eq in H; subst c; split; reflexivity.
Qed.

Lemma grouped_plain (s : string) :
  forall i, grouped_from i s = true ->
    toUpperCase s = s /\ trim_end s = s /\ starts_clean s = true.
Proof.
  induction s as [| c s IH]; intros i H; [repeat split |].
  cbn [grouped_from] in H. apply andb_true_iff in H. destruct H as [Hc Hs].
  destruct (IH _ Hs) as (Hup & Hend & _).
  assert (Hplain : is_space c = false /\ upper_char c = c).
  { destruct (Nat.eqb (Nat.modulo i 6) 5).
    - apply Ascii.eqb_eq in Hc. subst c. split; reflexivity.
    - apply symbol_is_plain. exact Hc. }
  destruct Hplain as [Hsp Hupc].
  cbn [toUpperCase trim_end starts_clean]. rewrite Hup, Hupc, Hend, Hsp.
  repeat split. destruct s; reflexivity.
Qed.

Lemma key_format_normal (s : string) :
  key_format s = true -> normalize s = s.
Proof.
  intros H. destruct (grouped_plain s 0 H) as (Hup & Hend & Hstart).
  unfold normalize, trim. rewrite (trim_start_of_clean s Hstart), Hend.
  exact Hup.
Qed.

Lemma grouped_length (s : string) :
  forall i, grouped_from i s = true -> (i + String.length s = 29)%nat.
Proof.
  induction s as [| c s IH]; intros i H; cbn [grouped_from String.length] in *.
  - apply Nat.eqb_eq in H. lia.
  - apply andb_true_iff in H. destruct H as [_ H]. apply IH in H. lia.
Qed.

Lemma generated_key_parts (rand : nat -> nat) :
  (forall j, (j < 25)%nat -> (rand j < 36)%nat) ->
  String.length (Index.generateKey rand) = 29%nat /\
  key_format (Index.generateKey rand) = true /\
  normalize (Index.generateKey rand) = Index.generateKey rand.
Proof.
  intros H. pose proof (generateKey_grouped rand H) as Hfmt.
  split; [| split].
  - apply (grouped_length _ 0%nat). exact Hfmt.
  - exact Hfmt.
  - apply key_format_normal. exact Hfmt.
Qed.

(** X1.  [generateKey] returns 29 characters: five groups of five symbols
    of its alphabet, with a dash between the groups; such a string has
    neither blanks nor lower-case letters, so [trim] and [toUpperCase] leave
    it as it is.  The draws are below the size of the alphabet, as
    [Math.floor(Math.random() * chars.length)] is. *)
Theorem generated_key_shape (rand : nat -> nat) :
  (forall j, (j < 25)%nat -> (rand j < 36)%nat) ->
  String.length (Index.generateKey rand) = 29%nat /\
  key_format (Index.generateKey rand) = true /\
  normalize (Index.generateKey rand) = Index.generateKey rand.
Proof. apply generated_key_parts. Qed.

Lemma generated_key_shape_witness :
  String.length (Index.generateKey (Example.stuck_rand 0)) = 29%nat /\
  key_format (Index.generateKey (Example.stuck_rand 0)) = true /\
  normalize (Index.generateKey (Example.stuck_rand 0))
  = Index.generateKey (Example.stuck_rand 0).
Proof.
  apply (generated_key_shape (Example.stuck_rand 0)).
  intros j Hj. unfold Example.stuck_rand. lia.
Defined.

(* ================================================================== *)
(** * Keys are matched by their normal form *)
(* ================================================================== *)

Lemma truthy_nonempty (s : string) : s <> "" -> truthy (Some s) = Some s.
Proof. destruct s; [contradiction | reflexivity]. Qed.

Lemma normalize_nonempty (s : string) : normalize s <> "" -> s <> "".
Proof. intros H ->. apply H. reflexivity. Qed.

(** X2.  Activate and Verify read the key only through
    [key.trim().toUpperCase()]: a request that spells the key in lower case
    or with blanks around it runs exactly as the request with the normal
    form, under every fault schedule.  (A key of blanks only passes the
    presence check and is then looked up as the empty string, which a
    request with an empty key is not.) *)
Theorem key_spelling_is_immaterial (req : Req) (key : string)
    (device_id : option string) (now : Z)
    (faults : list (option pg_error)) (db : DB) :
  normalize key <> "" ->
  run (Index.post_activateKey req (Some key) device_id now) faults db
  = run (Index.post_activateKey req (Some (normalize key)) device_id now)
        faults db
  /\
  run (Index.post_verifyKey req (Some key) device_id now) faults db
  = run (Index.post_verifyKey req (Some (normalize key)) device_id now)
        faults db.
Proof.
  intros Hn. pose proof (normalize_nonempty key Hn) as Hk.
  unfold Index.post_activateKey, Index.post_verifyKey.
  rewrite (truthy_nonempty key Hk), (truthy_nonempty (normalize key) Hn).
  fold (normalize key). fold (normalize (normalize key)).
  rewrite normalize_twice. split; reflexivity.
Qed.

Lemma key_spelling_is_immaterial_witness :
  run (Index.post_activateKey Example.req
         (Some "  abcde-fghij-klmno-pqrst-uvwxy ") (Some "device-A") 2000)
      [] Example.issued
  = run (Index.post_activateKey Example.req
           (Some "ABCDE-FGHIJ-KLMNO-PQRST-UVWXY") (Some "device-A") 2000)
        [] Example.issued
  /\
  run (Index.post_verifyKey Example.req
         (Some "  abcde-fghij-klmno-pqrst-uvwxy ") (Some "device-A") 2000)
      [] Example.issued
  = run (Index.post_verifyKey Example.req
           (Some "ABCDE-FGHIJ-KLMNO-PQRST-UVWXY") (Some "device-A") 2000)
        [] Example.issued.
Proof.
  apply (key_spelling_is_immaterial Example.req
           "  abcde-fghij-klmno-pqrst-uvwxy " (Some "device-A") 2000
           [] Example.issued).
  vm_compute. discriminate.
Defined.

(* ================================================================== *)
(** * From issuance to a valid verification *)
(* ================================================================== *)

(** The sequence has handed its next id to no activation row. *)
Lemma fresh_id_has_no_rows (t : Tables) :
  consistent t ->
  filter (act_of_key (keys_id_seq t)) (key_activations t) = [].
Proof.
  intros [_ Hseq Hrefs _]. apply filter_none. intros a Ha.
  destruct (key_exists_id _ _ (Hrefs a Ha)) as (k & Hk & Hid).
  specialize (Hseq k Hk). unfold act_of_key. apply Z.eqb_neq. lia.
Qed.

Lemma fresh_id_no_device (t : Tables) (d : string) :
  consistent t -> activated t (keys_id_seq t) d = false.
Proof.
  intros Hc. pose proof (fresh_id_has_no_rows t Hc) as Hnone.
  unfold activated. destruct (existsb _ _) eqn:He; [| reflexivity].
  apply existsb_exists in He. destruct He as (a & Ha & Hd).
  unfold act_of_device in Hd. apply andb_true_iff in Hd. destruct Hd as [Hi _].
  assert (Hin : In a (filter (act_of_key (keys_id_seq t)) (key_activations t)))
    by (apply filter_In; split; assumption).
  rewrite Hnone in Hin. destruct Hin.
Qed.

(** The row just issued is the one a lookup by its string finds. *)
Lemma lookup_issued (t : Tables) (row : KeyRow) :
  taken t (key_string row) = false ->
  normalize (key_string row) = key_string row ->
  lookup_key (with_issued t row) (key_string row) = Some row.
Proof.
  intros Hfree Hnorm. unfold lookup_key. fold (normalize (key_string row)).
  rewrite Hnorm. cbn [with_issued keys]. rewrite filter_app.
  rewrite (proj2 (filter_nil_existsb _ _) Hfree). cbn [filter app].
  unfold key_has_string at 1. rewrite String.eqb_refl. reflexivity.
Qed.

Lemma strlen_nonempty (s : string) : 0 < strlen s -> s <> "".
Proof. intros H ->. unfold strlen in H. simpl in H. lia. Qed.

(** The first activation of a key that has just been issued. *)
Lemma first_activation_run (t : Tables) (tx : option Tables) (row : KeyRow)
    (req : Req) (d : string) (now : Z) :
  consistent t ->
  id row = keys_id_seq t ->
  taken t (key_string row) = false ->
  normalize (key_string row) = key_string row ->
  key_string row <> "" ->
  status row = "active" -> 0 < max_devices row ->
  now <= expires_at row ->
  5 <= strlen d <= 255 -> strlen (ip req) <= 100 ->
  run (Index.post_activateKey req (Some (key_string row)) (Some d) now) []
      (mkDB (with_issued t row) tx)
  = (mkDB (log_written
             (activation_committed (with_issued t row) now (id row) d (ip req))
             (id row) "activated" req now) None,
     inr (Activated row 1)).
Proof.
  intros Hc Hid Hfree Hnorm Hne Hst Hmax Hnow Hd Hip.
  rewrite activate_run.
  rewrite (truthy_nonempty _ Hne).
  rewrite (truthy_nonempty d) by (apply strlen_nonempty; lia).
  rewrite (device_id_accepted _ Hd). cbn [committed open_tx].
  rewrite (lookup_issued t row Hfree Hnorm). cbv zeta.
  rewrite (gtb_false _ _ Hnow), Hst, String.eqb_refl. cbn [negb].
  assert (Hact : activated (with_issued t row) (id row) d = false).
  { rewrite Hid. apply (fresh_id_no_device t d Hc). }
  rewrite Hact.
  assert (Hcount : count_activations (with_issued t row) (id row) = 0).
  { unfold count_activations. cbn [with_issued key_activations].
    rewrite Hid, (fresh_id_has_no_rows t Hc). reflexivity. }
  rewrite Hcount.
  replace (0 >=? max_devices row) with false
    by (symmetry; rewrite Z.geb_leb; apply Z.leb_gt; lia).
  assert (Hins : sql (insert_activation now (id row) d (ip req)) (with_issued t row)
                 = inr (mkTables (keys t ++ [row])
                                 (key_activations t
                                  ++ [mkActivation (key_activations_id_seq t)
                                                   (id row) d (ip req) now])
                                 (key_logs t) (keys_id_seq t + 1)
                                 (key_activations_id_seq t + 1)
                                 (key_logs_id_seq t), tt)).
  { cbn [sql]. rewrite (fits_varchar_le 255 d), (fits_varchar_le 100 (ip req))
      by lia.
    cbn [andb negb]. fold (activated (with_issued t row) (id row) d).
    rewrite Hact.
    assert (Hex : key_exists (with_issued t row) (id row) = true).
    { apply (In_key_exists (with_issued t row) row). cbn [with_issued keys].
      apply in_or_app. right. left. reflexivity. }
    rewrite Hex. reflexivity. }
  rewrite Hins. reflexivity.
Qed.

(** What the tables hold for the key once its first activation is
    committed. *)
Lemma after_first_activation (t : Tables) (row : KeyRow) (req : Req)
    (d : string) (now : Z) :
  consistent t ->
  id row = keys_id_seq t ->
  taken t (key_string row) = false ->
  normalize (key_string row) = key_string row ->
  let t2 := log_written
              (activation_committed (with_issued t row) now (id row) d (ip req))
              (id row) "activated" req now in
  lookup_key t2 (key_string row) = Some (incr_used_devices row) /\
  activated t2 (id row) d = true /\
  forall i action req' now', 
    count_activations (log_written t2 i action req' now') (id row) = 1.
Proof.
  intros Hc Hid Hfree Hnorm t2.
  destruct (log_written_frame
              (activation_committed (with_issued t row) now (id row) d (ip req))
              (id row) "activated" req now) as (Hk & Ha & _).
  fold t2 in Hk, Ha. split; [| split].
  - pose proof (lookup_issued t row Hfree Hnorm) as Hl.
    unfold lookup_key in *. rewrite Hk. cbn [activation_committed keys].
    rewrite filter_update_where_string by reflexivity.
    destruct (filter _ (keys (with_issued t row))) as [| k rest] eqn:Hf;
      [discriminate |].
    injection Hl as ->.
    unfold update_where. cbn [map hd_error]. unfold key_has_id.
    rewrite Z.eqb_refl. reflexivity.
  - unfold activated. rewrite Ha. cbn [activation_committed key_activations].
    rewrite existsb_app. cbn [existsb]. unfold act_of_device at 2.
    cbn [act_key_id act_device_id]. rewrite Z.eqb_refl, String.eqb_refl.
    apply orb_true_r.
  - intros i action req' now'.
    destruct (log_written_frame t2 i action req' now') as (_ & Ha' & _).
    unfold count_activations. rewrite Ha', Ha.
    cbn [activation_committed with_issued key_activations].
    rewrite filter_app, Hid, (fresh_id_has_no_rows t Hc).
    cbn [filter app]. unfold act_of_key. cbn [act_key_id].
    rewrite Z.eqb_refl. reflexivity.
Qed.


Section RoundTrip.

Variable keygen : nat -> string.
Variable body : Index.GenerateBody.
Variables now now1 now2 : Z.
Variable n : nat.
Variables req1 req2 : Req.
Variable d : string.
Variable t : Tables.
Variable tx : option Tables.

Hypothesis keygen_fits : forall i, fits_varchar 255 (keygen i) = true.
Hypothesis key_normal : normalize (keygen n) = keygen n.
Hypothesis key_nonempty : keygen n <> "".
Hypothesis tables_consistent : consistent t.
Hypothesis fits : body_fits body = true.
Hypothesis active : body_status body = "active".
Hypothesis room : 0 < body_max_devices body.
Hypothesis attempt : (n < 5)%nat.
Hypothesis earlier_taken :
  forall i, (i < n)%nat -> taken t (keygen i) = true.
Hypothesis free : taken t (keygen n) = false.
Hypothesis device_ok : 5 <= strlen d <= 255.
Hypothesis address_ok : strlen (ip req1) <= 100.
Hypothesis in_time1 : now1 <= now + body_duration body * 60 * 60 * 1000.
Hypothesis in_time2 : now2 <= now + body_duration body * 60 * 60 * 1000.

Let row := issued_row t body (keygen n) now.
Let issue := run (Index.post_generateKey body keygen now) [] (mkDB t tx).
Let activation :=
  run (Index.post_activateKey req1 (Some (keygen n)) (Some d) now1) []
      (fst issue).

Lemma round_trip_issue :
  issue = (mkDB (with_issued t row) tx, inr (Issued row)).
Proof.
  unfold issue. rewrite (run_post_generateKey keygen body now fits).
  rewrite (attempts_first_free keygen body now keygen_fits fits n 5 0 (mkDB t tx));
    [reflexivity | lia | intros j Hj; apply earlier_taken; lia | exact free].
Qed.

Lemma round_trip_activation :
  activation
  = (mkDB (log_written
             (activation_committed (with_issued t row) now1 (id row) d (ip req1))
             (id row) "activated" req1 now1) None,
     inr (Activated row 1)).
Proof.
  unfold activation. rewrite round_trip_issue. cbn [fst].
  apply (first_activation_run t tx row req1 d now1);
    try assumption; reflexivity.
Qed.

Lemma round_trip_unactivated :
  says_valid (snd (run (Index.post_verifyKey req2 (Some (keygen n)) (Some d) now1)
                       [] (fst issue))) = false.
Proof.
  rewrite round_trip_issue. cbn [fst].
  rewrite verify_run, (truthy_nonempty _ key_nonempty).
  rewrite (truthy_nonempty d) by (apply strlen_nonempty; lia).
  cbn [committed open_tx].
  pose proof (lookup_issued t row free key_normal) as Hl.
  change (key_string row) with (keygen n) in Hl. rewrite Hl. cbv zeta.
  change (expires_at row) with (now + body_duration body * 60 * 60 * 1000).
  rewrite (gtb_false _ _ in_time1).
  change (id row) with (keys_id_seq t).
  replace (activated (with_issued t row) (keys_id_seq t) d) with false
    by (symmetry; apply (fresh_id_no_device t d tables_consistent)).
  rewrite andb_false_r. reflexivity.
Qed.

Lemma round_trip_verified :
  snd (run (Index.post_verifyKey req2 (Some (keygen n)) (Some d) now2) []
           (fst activation))
  = inr (res_json (Index.verify_body true row "active" 1 "Key is valid")).
Proof.
  rewrite round_trip_activation. cbn [fst].
  destruct (after_first_activation t row req1 d now1 tables_consistent eq_refl
                                   free key_normal)
    as (Hlook & Hdev & Hcount).
  rewrite verify_run, (truthy_nonempty _ key_nonempty).
  rewrite (truthy_nonempty d) by (apply strlen_nonempty; lia).
  cbn [committed open_tx]. change (key_string row) with (keygen n) in Hlook.
  rewrite Hlook. cbv zeta.
  change (expires_at (incr_used_devices row))
    with (now + body_duration body * 60 * 60 * 1000).
  change (id (incr_used_devices row)) with (id row).
  change (status (incr_used_devices row)) with (body_status body).
  rewrite (gtb_false _ _ in_time2), active, String.eqb_refl, Hdev, Hcount.
  reflexivity.
Qed.

End RoundTrip.

(** X3.  The round trip of a key.  A key issued with status active and room
    for a device, under a string the table does not hold yet, is found by
    the string the response carries: a Verify before any activation answers
    valid false; an Activate by a device, not after the expiry, succeeds
    with [devices_used] 1; and a Verify by that device, not after the
    expiry, then answers valid true with [devices_used] 1. *)
Theorem issue_activate_verify (db : DB) (body : Index.GenerateBody)
    (rand : nat -> nat -> nat) (n : nat) (now now1 now2 : Z)
    (req1 req2 : Req) (d : string) :
  consistent (committed db) ->
  body_fits body = true -> body_status body = "active" ->
  0 < body_max_devices body ->
  (forall i j, (j < 25)%nat -> (rand i j < 36)%nat) ->
  (n < 5)%nat ->
  (forall i, (i < n)%nat ->
     taken (committed db) (Index.generateKey (rand i)) = true) ->
  taken (committed db) (Index.generateKey (rand n)) = false ->
  5 <= strlen d <= 255 -> strlen (ip req1) <= 100 ->
  now1 <= now + body_duration body * 60 * 60 * 1000 ->
  now2 <= now + body_duration body * 60 * 60 * 1000 ->
  let keygen := fun i => Index.generateKey (rand i) in
  let key := keygen n in
  let row := issued_row (committed db) body key now in
  let issue := run (Index.post_generateKey body keygen now) [] db in
  let activation :=
    run (Index.post_activateKey req1 (Some key) (Some d) now1) [] (fst issue) in
  snd issue = inr (Issued row) /\
  says_valid (snd (run (Index.post_verifyKey req2 (Some key) (Some d) now1) []
                       (fst issue))) = false /\
  snd activation = inr (Activated row 1) /\
  snd (run (Index.post_verifyKey req2 (Some key) (Some d) now2) []
           (fst activation))
  = inr (res_json (Index.verify_body true row "active" 1 "Key is valid")).
Proof.
  intros Hc Hfits Hst Hmax Hrand Hn Htaken Hfree Hd Hip Hnow1 Hnow2.
  destruct db as [t tx]. cbn [committed] in *.
  assert (Hk : forall i, fits_varchar 255 (Index.generateKey (rand i)) = true)
    by (intros i; apply generateKey_fits).
  destruct (generated_key_parts (rand n) (Hrand n)) as (Hlen & _ & Hnorm).
  assert (Hne : Index.generateKey (rand n) <> "").
  { apply strlen_nonempty. unfold strlen. rewrite Hlen. reflexivity. }
  cbv zeta. split; [| split; [| split]].
  - rewrite (round_trip_issue (fun i => Index.generateKey (rand i)) body now n
               t tx Hk Hfits Hn Htaken Hfree).
    reflexivity.
  - apply (round_trip_unactivated (fun i => Index.generateKey (rand i)) body now
             now1 n req2 d t tx Hk Hnorm Hne Hc Hfits Hn Htaken Hfree Hd Hnow1).
  - rewrite (round_trip_activation (fun i => Index.generateKey (rand i)) body now
               now1 n req1 d t tx Hk Hnorm Hne Hc Hfits Hst Hmax Hn Htaken Hfree
               Hd Hip Hnow1).
    reflexivity.
  - apply (round_trip_verified (fun i => Index.generateKey (rand i)) body now
             now1 now2 n req1 req2 d t tx Hk Hnorm Hne Hc Hfits Hst Hmax Hn
             Htaken Hfree Hd Hip Hnow1 Hnow2).
Qed.

Lemma issue_activate_verify_witness :
  snd (run (Index.post_activateKey Example.req
              (Some (Index.generateKey (Example.stuck_rand 0)))
              (Some "device-A") 2000) []
           (fst (run (Index.post_generateKey
                        (Index.mkGenerateBody (Some 1) (Some 2) None)
                        (fun i => Index.generateKey (Example.stuck_rand i)) 1000)
                     [] fresh_db)))
  = inr (Activated
           (issued_row empty_tables (Index.mkGenerateBody (Some 1) (Some 2) None)
                       (Index.generateKey (Example.stuck_rand 0)) 1000) 1).
Proof.
  refine (proj1 (proj2 (proj2
    (issue_activate_verify fresh_db (Index.mkGenerateBody (Some 1) (Some 2) None)
       Example.stuck_rand 0 1000 2000 3000 Example.req Example.req "device-A"
       _ _ _ _ _ _ _ _ _ _ _ _)))).
  - apply consistent_empty.
  - reflexivity.
  - reflexivity.
  - reflexivity.
  - intros i j Hj. unfold Example.stuck_rand. lia.
  - lia.
  - intros i Hi. lia.
  - reflexivity.
  - vm_compute. split; discriminate.
  - vm_compute. discriminate.
  - vm_compute. discriminate.
  - vm_compute. discriminate.
Defined.

(* ================================================================== *)
(** * POST /verifyKey on a key past its expiry *)
(* ================================================================== *)

(** X4.  Verify of a key that is found and whose [expires_at] is in the past
    answers HTTP 200 with valid false and status "expired", whatever the
    stored status and whether or not the device is activated; it reports
    the number of activation rows of the key, overwrites the stored status
    with expired, leaves the activations alone, and logs [auto_expired]
    (the entry is in the table when the caller's address fits its
    column). *)
Theorem verify_expired_key (db : DB) (req : Req)
    (key device_id : option string) (k d : string) (now : Z)
    (keyData : KeyRow) :
  truthy key = Some k -> truthy device_id = Some d ->
  lookup_key (committed db) k = Some keyData ->
  expires_at keyData < now ->
  let result := run (Index.post_verifyKey req key device_id now) [] db in
  snd result
  = inr (res_json (Index.verify_body false keyData "expired"
                     (count_activations (committed db) (id keyData))
                     "Key has expired")) /\
  lookup_key (committed (fst result)) k
    = Some (set_key_status "expired" keyData) /\
  key_activations (committed (fst result)) = key_activations (committed db) /\
  (strlen (ip req) <= 100 ->
   key_logs (committed (fst result))
   = (key_logs (committed db)
      ++ [log_entry (committed db) (id keyData) "auto_expired" req now])%list).
Proof.
  intros Hk Hd Hlook Hexp result. subst result.
  rewrite verify_run, Hk, Hd, Hlook. cbv zeta.
  rewrite (gtb_true _ _ Hexp). cbn [fst snd committed].
  destruct (log_written_frame (marked_expired (committed db) (id keyData))
              (id keyData) "auto_expired" req now) as (Hkeys & Hacts & _).
  split; [| split; [| split]].
  - unfold count_activations. rewrite Hacts. reflexivity.
  - unfold lookup_key. rewrite Hkeys. unfold marked_expired. cbn [keys with_keys].
    rewrite filter_update_where_string by reflexivity.
    destruct (lookup_key_rows _ _ _ Hlook) as [rest ->].
    cbn. unfold key_has_id. rewrite Z.eqb_refl. reflexivity.
  - rewrite Hacts. reflexivity.
  - intros Hip. rewrite log_written_rows.
    + reflexivity.
    + unfold key_exists, marked_expired. cbn [keys with_keys].
      rewrite existsb_update_where_id by reflexivity.
      apply In_key_exists. apply (lookup_key_In _ _ _ Hlook).
    + cbn. lia.
    + exact Hip.
Qed.

Lemma verify_expired_key_witness :
  let result :=
    run (Index.post_verifyKey Example.req (Some Example.the_key)
                              (Some "device-A") Example.after_expiry)
        [] Example.disabled in
  snd result
  = inr (res_json (Index.verify_body false
                     (mkKey 1 Example.the_key 1 2 1 1000 3601000 "inactive")
                     "expired" 1 "Key has expired")) /\
  map status (keys (committed (fst result))) = ["expired"].
Proof.
  destruct (verify_expired_key
              Example.disabled Example.req (Some Example.the_key)
              (Some "device-A") Example.the_key "device-A"
              Example.after_expiry
              (mkKey 1 Example.the_key 1 2 1 1000 3601000 "inactive"))
    as (H & _);
    lazymatch goal with
    | H : snd _ = _ |- _ => split; [exact H | reflexivity]
    | _ => by_computation
    end.
Defined.

(* ================================================================== *)
(** * The janitor *)
(* ================================================================== *)

Lemma janitor_run (now : Z) (faults : list (option pg_error)) (db : DB) :
  run (Index.cleanupExpiredKeys now) faults db
  = match hd None faults with
    | Some e => (db, inr tt)
    | None =>
        (mkDB (with_keys (committed db)
                 (update_where (active_and_expired now)
                               (set_key_status "expired") (keys (committed db))))
              (open_tx db),
         inr tt)
    end.
Proof.
  unfold Index.cleanupExpiredKeys.
  cbn [try_catch bind await run]. destruct (hd None faults) as [e |]; reflexivity.
Qed.

(** X5.  A sweep of the janitor never throws, whatever the store does, and
    touches nothing but the status column of keys.  When its UPDATE goes
    through, the keys that were active and past their expiry are now
    expired and every other key is as it was, so that no key is left both
    active and past its expiry, and a second sweep at that time changes
    nothing; when the UPDATE fails the store is as before. *)
Theorem janitor_sweep (now : Z) (faults : list (option pg_error)) (db : DB) :
  let result := run (Index.cleanupExpiredKeys now) faults db in
  let t := committed db in
  let t' := committed (fst result) in
  snd result = inr tt /\
  map (set_key_status "") (keys t') = map (set_key_status "") (keys t) /\
  key_activations t' = key_activations t /\
  key_logs t' = key_logs t /\
  (hd None faults = None ->
   keys t' = update_where (active_and_expired now) (set_key_status "expired")
                          (keys t) /\
   (forall k, In k (keys t') -> ~ (status k = "active" /\ expires_at k < now)) /\
   run (Index.cleanupExpiredKeys now) [] (fst result) = (fst result, inr tt)) /\
  (hd None faults <> None -> fst result = db).
Proof.
  cbv zeta. rewrite janitor_run.
  destruct (hd None faults) as [e |]; cbn [fst snd committed with_keys keys
    key_activations key_logs].
  - split; [reflexivity |]. split; [reflexivity |]. split; [reflexivity |].
    split; [reflexivity |]. split; [discriminate | reflexivity].
  - split; [reflexivity |]. split.
    { unfold update_where. rewrite map_map. apply map_ext. intros k.
      destruct (active_and_expired now k); reflexivity. }
    split; [reflexivity |]. split; [reflexivity |]. split; [| congruence].
    intros _. split; [reflexivity |]. split.
    + intros k' Hin [Hst Hexp].
      apply In_update_where in Hin. destruct Hin as (k & Hk & ->).
      unfold active_and_expired, expired_at in *.
      destruct (expires_at k <? now) eqn:He; cbn [andb] in *.
      * destruct (String.eqb_spec (status k) "active") as [E | E];
          [discriminate Hst | contradiction].
      * apply Z.ltb_ge in He. lia.
    + rewrite janitor_run. cbn [hd committed open_tx with_keys keys
        key_activations key_logs keys_id_seq key_activations_id_seq
        key_logs_id_seq].
      rewrite janitor_idempotent. reflexivity.
Qed.

(* ================================================================== *)
(** * POST /admin/cleanup *)
(* ================================================================== *)

(** With distinct ids, a key that remains and a key that is deleted do not
    share an id. *)
Lemma remaining_or_dead (sel : KeyRow -> bool) (ks : list KeyRow) (i : Z) :
  NoDup (map id ks) ->
  existsb (key_has_id i) ks = true ->
  negb (existsb (Z.eqb i) (map id (filter sel ks)))
  = existsb (key_has_id i) (filter (fun k => negb (sel k)) ks).
Proof.
  intros Hnd Hex. apply existsb_exists in Hex. destruct Hex as (k & Hk & Hid).
  unfold key_has_id in Hid. apply Z.eqb_eq in Hid.
  assert (Honly : forall k', In k' ks -> id k' = i -> k' = k).
  { intros k' Hk' Hid'.
    apply (unique_ids_eq (mkTables ks [] [] 0 0 0)); [exact Hnd | | | congruence];
      assumption. }
  destruct (sel k) eqn:Hs.
  - replace (existsb (Z.eqb i) (map id (filter sel ks))) with true
      by (symmetry; apply dead_iff; exists k; auto).
    symmetry. apply not_true_is_false. intros H.
    apply existsb_exists in H. destruct H as (k' & Hk' & Hid').
    apply filter_In in Hk'. destruct Hk' as [Hk' Hs'].
    unfold key_has_id in Hid'. apply Z.eqb_eq in Hid'.
    rewrite (Honly k' Hk' Hid'), Hs in Hs'. discriminate.
  - replace (existsb (key_has_id i) (filter (fun k0 => negb (sel k0)) ks)) with true.
    + apply negb_true_iff, not_true_is_false. intros H. apply dead_iff in H.
      destruct H as (k' & Hk' & Hs' & Hid').
      rewrite (Honly k' Hk' Hid'), Hs in Hs'. discriminate.
    + symmetry. apply existsb_exists. exists k. split.
      * apply filter_In. rewrite Hs. auto.
      * unfold key_has_id. apply Z.eqb_eq. exact Hid.
Qed.

(** DELETE FROM keys with its cascade leaves the rows of the keys that
    remain, and only them. *)
Lemma delete_keys_where_restricts (sel : KeyRow -> bool) (t : Tables) :
  consistent t -> log_references_ok t ->
  delete_keys_where sel t
  = restricted_to t (filter (fun k => negb (sel k)) (keys t)).
Proof.
  intros [Hnd _ Hrefs _] Hlogs. unfold delete_keys_where, restricted_to.
  f_equal.
  - apply filter_ext_in. intros a Ha.
    apply remaining_or_dead; [exact Hnd | apply Hrefs, Ha].
  - apply filter_ext_in. intros l Hl.
    apply remaining_or_dead; [exact Hnd | apply Hlogs, Hl].
Qed.

(** X6.  The admin's cleanup deletes every key whose [expires_at] is in the
    past, whatever its status, and with each its activations and its log
    entries; the keys that have not expired stay as they are, with all
    their rows.  The response counts and lists the deleted keys.  When the
    DELETE fails the answer is HTTP 500 and nothing is deleted. *)
Theorem cleanup_deletes_expired_keys (now : Z)
    (faults : list (option pg_error)) (db : DB) :
  consistent (committed db) -> log_references_ok (committed db) ->
  let result := run (Index.post_admin_cleanup now) faults db in
  let t := committed db in
  match hd None faults with
  | None =>
      snd result = inr (Cleaned (filter (expired_at now) (keys t))) /\
      committed (fst result)
      = restricted_to t (filter (fun k => negb (expired_at now k)) (keys t)) /\
      (forall k, In k (keys (committed (fst result))) <->
                 In k (keys t) /\ now <= expires_at k)
  | Some e => result = (db, inr Unavailable)
  end.
Proof.
  intros Hc Hlogs. cbv zeta. unfold Index.post_admin_cleanup.
  cbn [try_catch bind await run].
  destruct (hd None faults) as [e |]; [reflexivity |].
  cbn [step exec sql fst snd committed bind try_catch run].
  rewrite (delete_keys_where_restricts _ _ Hc Hlogs).
  split; [reflexivity |]. split; [reflexivity |].
  intros k. cbn [fst snd committed restricted_to keys]. rewrite filter_In.
  unfold expired_at. rewrite negb_true_iff, Z.ltb_ge. reflexivity.
Qed.

Lemma cleanup_deletes_expired_keys_witness :
  map id (keys (committed
                  (fst (run (Index.post_admin_cleanup Example.after_expiry) []
                            Example.two_devices)))) = [] /\
  key_activations
    (committed (fst (run (Index.post_admin_cleanup Example.after_expiry) []
                         Example.two_devices))) = [].
Proof.
  destruct (cleanup_deletes_expired_keys Example.after_expiry []
              Example.two_devices) as (_ & H & _).
  - split.
    + repeat constructor; simpl; intuition discriminate.
    + intros k [<- | []]. simpl. lia.
    + intros a [<- | [<- | []]]; reflexivity.
    + intros k [<- | []]. reflexivity.
  - intros l Hl. simpl in Hl.
    repeat (destruct Hl as [<- | Hl]; [reflexivity |]). destruct Hl.
  - rewrite H. split; reflexivity.
Defined.

(* ================================================================== *)
(** * DELETE /admin/keys/:id *)
(* ================================================================== *)

(** The cascade of the last DELETE finds nothing left to remove. *)
Lemma key_deleted_rows (t : Tables) (i : Z) : key_deleted t i = without_key t i.
Proof.
  unfold key_deleted, without_key, delete_keys_where.
  cbn [keys key_activations key_logs keys_id_seq key_activations_id_seq
       key_logs_id_seq].
  assert (Hdead : forall j,
             (j =? i) = false ->
             existsb (Z.eqb j) (map id (filter (key_has_id i) (keys t))) = false).
  { intros j Hj. apply not_true_is_false. intros H. apply dead_iff in H.
    destruct H as (k & _ & Hk & Hid). unfold key_has_id in Hk.
    apply Z.eqb_eq in Hk. apply Z.eqb_neq in Hj. congruence. }
  f_equal.
  - rewrite filter_filter_or. apply filter_ext. intros a.
    unfold act_of_key. destruct (act_key_id a =? i) eqn:Ha; [reflexivity |].
    rewrite (Hdead _ Ha). reflexivity.
  - rewrite filter_filter_or. apply filter_ext. intros l.
    unfold log_of_key. destruct (log_key_id l =? i) eqn:Hl; [reflexivity |].
    rewrite (Hdead _ Hl). reflexivity.
Qed.

(** A statement inside the transaction, with its result. *)
Lemma triple_client_query_result {A} (P : Tables -> Prop) (s : stmt A)
    (W : Tables -> Tables -> Prop) (W' : A -> Tables -> Tables -> Prop) :
  (forall t w w' a, P t -> W t w -> sql s w = inr (w', a) -> W' a t w') ->
  triple (fun db => P (committed db) /\
                    exists w, open_tx db = Some w /\ W (committed db) w)
         (await (client_query s))
         (fun a db => P (committed db) /\
                      exists w, open_tx db = Some w /\ W' a (committed db) w)
         (fun _ db => P (committed db)).
Proof.
  intros H. apply triple_await.
  intros [e |] db (HP & w & Htx & HW); simpl; [exact HP |].
  rewrite Htx. destruct (sql s w) as [e | [w' a]] eqn:Hs; simpl; [exact HP |].
  split; [exact HP |]. exists w'. split; [reflexivity |].
  eapply H; eassumption.
Qed.

(** The route, from the tables [t0], under every fault schedule. *)
Lemma delete_triple (t0 : Tables) (key_id : Z) :
  triple (fun db => committed db = t0) (Index.delete_admin_keys key_id)
         (fun r db =>
            (r = Unavailable /\ committed db = t0) \/
            (r = (if key_exists t0 key_id then Deleted else NotFound) /\
             committed db = key_deleted t0 key_id))
         (fun _ _ => False).
Proof.
  set (P := fun t : Tables => t = t0).
  unfold Index.delete_admin_keys.
  eapply triple_catch with (E' := fun _ db => P (committed db));
    [| intros e; apply triple_ret; intros db H; left; split;
       [reflexivity | exact H]].
  eapply triple_bind; [apply (triple_pool_connect (fun db => P (committed db))) |].
  intros ?.
  apply triple_catch with (E' := fun _ db => P (committed db));
    [| intros e; apply (triple_rollback_throw P)].
  eapply triple_bind; [apply (triple_begin P) |]. intros ?.
  eapply triple_bind.
  { apply triple_client_query
      with (P := P) (W := fun t w => t = w)
           (W' := fun t w =>
              w = mkTables (keys t) (key_activations t)
                           (filter (fun l => negb (log_of_key key_id l)) (key_logs t))
                           (keys_id_seq t) (key_activations_id_seq t)
                           (key_logs_id_seq t)).
    intros t w w' r HL Heq H. subst w. cbn [sql] in H. injection H as <- _.
    reflexivity. }
  intros ?. eapply triple_bind.
  { apply triple_client_query
      with (P := P)
           (W := fun t w =>
              w = mkTables (keys t) (key_activations t)
                           (filter (fun l => negb (log_of_key key_id l)) (key_logs t))
                           (keys_id_seq t) (key_activations_id_seq t)
                           (key_logs_id_seq t))
           (W' := fun t w =>
              w = mkTables (keys t)
                           (filter (fun a => negb (act_of_key key_id a))
                                   (key_activations t))
                           (filter (fun l => negb (log_of_key key_id l)) (key_logs t))
                           (keys_id_seq t) (key_activations_id_seq t)
                           (key_logs_id_seq t)).
    intros t w w' r HL Heq H. subst w. cbn [sql] in H. injection H as <- _.
    reflexivity. }
  intros ?. eapply triple_bind.
  { apply triple_client_query_result
      with (P := P)
           (W := fun t w =>
              w = mkTables (keys t)
                           (filter (fun a => negb (act_of_key key_id a))
                                   (key_activations t))
                           (filter (fun l => negb (log_of_key key_id l)) (key_logs t))
                           (keys_id_seq t) (key_activations_id_seq t)
                           (key_logs_id_seq t))
           (W' := fun rows t w =>
              w = key_deleted t key_id /\
              rows = filter (key_has_id key_id) (keys t)).
    intros t w w' r HL Heq H. subst w. cbn [sql] in H. injection H as <- <-.
    split; reflexivity. }
  intros result.
  eapply triple_bind
    with (Q := fun _ db => committed db = key_deleted t0 key_id /\
                           result = filter (key_has_id key_id) (keys t0)).
  { apply triple_await.
    intros [e |] db (HP & w & Htx & Hw & Hrows); simpl; [exact HP |].
    rewrite Htx. simpl. unfold P in HP. rewrite HP in Hw, Hrows. auto. }
  intros ?. 
  assert (Hres : forall db,
             committed db = key_deleted t0 key_id /\
             result = filter (key_has_id key_id) (keys t0) ->
             (match result with
              | [] => NotFound
              | _ :: _ => Deleted
              end) = (if key_exists t0 key_id then Deleted else NotFound)).
  { intros db [_ ->]. unfold key_exists.
    destruct (filter _ _) eqn:Hf.
    - apply filter_nil_existsb in Hf. rewrite Hf. reflexivity.
    - destruct (existsb _ _) eqn:He; [reflexivity |].
      apply filter_nil_existsb in He. congruence. }
  destruct result as [| row rest]; apply triple_ret; intros db H; right;
    (split; [exact (Hres db H) | exact (proj1 H)]).
Qed.

Lemma delete_run (key_id : Z) (db : DB) :
  run (Index.delete_admin_keys key_id) [] db
  = (mkDB (key_deleted (committed db) key_id) None,
     inr (if key_exists (committed db) key_id then Deleted else NotFound)).
Proof.
  destruct db as [t tx]. unfold Index.delete_admin_keys.
  cbn [try_catch bind await run hd tl step exec committed open_tx sql].
  unfold key_exists.
  cbn [delete_keys_where keys].
  destruct (filter (key_has_id key_id) (keys t)) as [| row rest] eqn:Hf.
  - apply filter_nil_existsb in Hf. rewrite Hf. reflexivity.
  - destruct (existsb (key_has_id key_id) (keys t)) eqn:He.
    + reflexivity.
    + apply filter_nil_existsb in He. congruence.
Qed.

Lemma without_key_forgets (t : Tables) (i : Z) :
  key_exists (without_key t i) i = false /\
  count_activations (without_key t i) i = 0 /\
  filter (log_of_key i) (key_logs (without_key t i)) = [].
Proof.
  unfold key_exists, count_activations. cbn [without_key keys key_activations key_logs].
  split; [| split].
  - apply not_true_is_false. intros H. apply existsb_exists in H.
    destruct H as (k & Hk & Hi). apply filter_In in Hk.
    destruct Hk as [_ Hk]. rewrite Hi in Hk. discriminate.
  - rewrite filter_none; [reflexivity |]. intros a Ha.
    apply filter_In in Ha. destruct Ha as [_ Ha]. apply negb_true_iff. exact Ha.
  - apply filter_none. intros l Hl.
    apply filter_In in Hl. destruct Hl as [_ Hl]. apply negb_true_iff. exact Hl.
Qed.

(** X7.  The admin's delete is all or nothing.  Under every fault schedule
    it either answers HTTP 500 with the committed tables as they were, or
    commits the removal of the key together with every activation and every
    log entry that refers to it, the rows of other keys untouched, and
    answers success when the key existed and 404 "Key not found" when it
    did not.  Without faults it is the second; afterwards no row of any
    table refers to the id. *)
Theorem delete_is_all_or_nothing (key_id : Z)
    (faults : list (option pg_error)) (db : DB) :
  let result := run (Index.delete_admin_keys key_id) faults db in
  let t := committed db in
  let found := if key_exists t key_id then Deleted else NotFound in
  ((snd result = inr Unavailable /\ committed (fst result) = t) \/
   (snd result = inr found /\ committed (fst result) = without_key t key_id)) /\
  (faults = [] ->
   snd result = inr found /\ committed (fst result) = without_key t key_id) /\
  key_exists (without_key t key_id) key_id = false /\
  count_activations (without_key t key_id) key_id = 0 /\
  filter (log_of_key key_id) (key_logs (without_key t key_id)) = [].
Proof.
  cbv zeta. split; [| split; [| apply without_key_forgets]].
  - pose proof (delete_triple (committed db) key_id faults db eq_refl) as H.
    destruct (run (Index.delete_admin_keys key_id) faults db) as [db' [e | r]];
      [destruct H |].
    cbn [fst snd]. rewrite <- key_deleted_rows.
    destruct H as [[-> H] | [-> H]]; auto.
  - intros ->. rewrite delete_run. cbn [fst snd committed].
    rewrite key_deleted_rows. auto.
Qed.

(* ================================================================== *)
(** * PUT /admin/keys/:id: what an update leaves alone *)
(* ================================================================== *)

Lemma update_run (key_id : Z) (body : KeyPatch) (now : Z)
    (faults : list (option pg_error)) (db : DB) :
  run (Index.put_admin_keys key_id body now) faults db
  = if Index.patch_is_empty body then (db, inr NoFields)
    else
      match hd None faults with
      | Some e => (db, inr Unavailable)
      | None =>
          match sql (update_key now body key_id) (committed db) with
          | inl e => (db, inr Unavailable)
          | inr (t', rows) =>
              (mkDB t' (open_tx db),
               inr (match rows with
                    | [] => NotFound
                    | row :: _ => Updated row
                    end))
          end
      end.
Proof.
  unfold Index.put_admin_keys.
  destruct (Index.patch_is_empty body); [reflexivity |].
  cbn [try_catch bind await run]. destruct (hd None faults) as [e |];
    [reflexivity |].
  cbn [step exec].
  destruct (sql (update_key now body key_id) (committed db))
    as [e | [t' [| row rest]]]; reflexivity.
Qed.

Lemma apply_patch_frame (now : Z) (p : KeyPatch) (k : KeyRow) :
  origin (apply_patch now p k) = origin k /\
  used_devices (apply_patch now p k) = used_devices k /\
  (set_duration_hours p = None ->
   lifetime (apply_patch now p k) = lifetime k).
Proof.
  unfold apply_patch, origin, lifetime.
  destruct (set_duration_hours p), (set_status p), (set_max_devices p);
    cbn; repeat split; intros; try reflexivity; discriminate.
Qed.

Lemma map_update_where {B} (g : KeyRow -> B) (sel : KeyRow -> bool)
    (f : KeyRow -> KeyRow) (l : list KeyRow) :
  (forall k, g (f k) = g k) ->
  map g (update_where sel f l) = map g l.
Proof.
  intros Hf. unfold update_where. rewrite map_map. apply map_ext.
  intros k. destruct (sel k); [apply Hf | reflexivity].
Qed.

(** An update by id leaves the rows with another id as they are. *)
Lemma update_where_others (i : Z) (f : KeyRow -> KeyRow) (l : list KeyRow) :
  (forall k, id (f k) = id k) ->
  filter (fun k => negb (key_has_id i k)) (update_where (key_has_id i) f l)
  = filter (fun k => negb (key_has_id i k)) l.
Proof.
  intros Hf. unfold update_where. induction l as [| k l IH]; [reflexivity |].
  cbn [map filter]. destruct (key_has_id i k) eqn:Hk.
  - unfold key_has_id in *. rewrite Hf, Hk. exact IH.
  - rewrite Hk. cbn [negb]. rewrite IH. reflexivity.
Qed.

Lemma update_where_none {A} (sel : A -> bool) (f : A -> A) (l : list A) :
  existsb sel l = false -> update_where sel f l = l.
Proof.
  intros H. unfold update_where. rewrite <- (map_id l) at 2.
  apply map_ext_in. intros x Hx.
  destruct (sel x) eqn:Hs; [| reflexivity].
  assert (existsb sel l = true) by (apply existsb_exists; eauto). congruence.
Qed.

(** X8.  What the admin's update leaves alone, under every fault schedule:
    the activations, the log, and of every key its id, its string, its
    creation time, its counter of devices, its duration and its expiry; and
    the keys with another id altogether.  A request without any of the three
    fields is answered 400 without a query.  A request that carries
    [duration_hours] is answered 500 and changes nothing, whatever else it
    carries: the store refuses its statement.  A request for an id that no
    key has changes nothing; when it carries no [duration_hours], its id is
    an INTEGER, its values fit the columns and the store is reachable, it is
    answered 404. *)
Theorem update_touches_one_key (key_id : Z) (body : KeyPatch) (now : Z)
    (faults : list (option pg_error)) (db : DB) :
  let result := run (Index.put_admin_keys key_id body now) faults db in
  let t := committed db in
  let t' := committed (fst result) in
  (key_activations t' = key_activations t /\
   key_logs t' = key_logs t /\
   map origin (keys t') = map origin (keys t) /\
   map used_devices (keys t') = map used_devices (keys t) /\
   map lifetime (keys t') = map lifetime (keys t) /\
   filter (fun k => negb (key_has_id key_id k)) (keys t')
   = filter (fun k => negb (key_has_id key_id k)) (keys t)) /\
  (Index.patch_is_empty body = true -> result = (db, inr NoFields)) /\
  (set_duration_hours body <> None -> result = (db, inr Unavailable)) /\
  (key_exists t key_id = false ->
   fst result = db /\
   (set_duration_hours body = None -> Index.patch_is_empty body = false ->
    fits_integer key_id = true -> patch_fits body = true ->
    hd None faults = None -> snd result = inr NotFound)).
Proof.
  cbv zeta. rewrite update_run. destruct db as [t tx]. cbn [committed open_tx].
  destruct (Index.patch_is_empty body) eqn:Hempty.
  { assert (Hd : set_duration_hours body = None).
    { unfold Index.patch_is_empty in Hempty.
      destruct (set_duration_hours body); [discriminate | reflexivity]. }
    cbn [fst snd committed].
    repeat split; intros; try reflexivity; try discriminate; congruence. }
  destruct (hd None faults) as [e |].
  { cbn [fst snd committed].
    repeat split; intros; try reflexivity; discriminate. }
  destruct (set_duration_hours body) as [d |] eqn:Hd.
  { rewrite (sql_update_key_duration _ _ d _ _ Hd).
    cbn [fst snd committed].
    repeat split; intros; try reflexivity; discriminate. }
  destruct (sql (update_key now body key_id) t) as [e | [t' rows]] eqn:Hs.
  { cbn [fst snd committed].
    repeat split; intros; try reflexivity; try discriminate; try congruence.
    rewrite (sql_update_key _ _ _ _ Hd) in Hs by assumption. discriminate. }
  pose proof (update_key_inv _ _ _ _ _ _ Hs) as Ht'. subst t'.
  cbn [fst snd committed with_keys keys key_activations key_logs].
  split; [| split; [| split]].
  - split; [reflexivity |]. split; [reflexivity |].
    split; [| split; [| split]].
    + apply map_update_where. intros k. apply apply_patch_frame.
    + apply map_update_where. intros k. apply apply_patch_frame.
    + apply map_update_where. intros k. apply apply_patch_frame. exact Hd.
    + apply update_where_others. intros k. apply apply_patch_keeps.
  - discriminate.
  - intros Hsome. congruence.
  - intros Hex. unfold key_exists in Hex. split.
    + rewrite (update_where_none _ _ _ Hex). destruct t; reflexivity.
    + intros _ _ _ Hfits _. rewrite (sql_update_key _ _ _ _ Hd Hfits) in Hs.
      injection Hs as <-.
      rewrite (proj2 (filter_nil_existsb _ _) Hex). reflexivity.
Qed.

(* ================================================================== *)
(** * Only the two deletes remove rows *)
(* ================================================================== *)

Lemma extends_refl {A} (l : list A) : extends l l.
Proof. exists []. symmetry. apply app_nil_r. Qed.

Lemma extends_trans {A} (l0 l1 l2 : list A) :
  extends l0 l1 -> extends l1 l2 -> extends l0 l2.
Proof.
  intros [m1 ->] [m2 ->]. exists (m1 ++ m2)%list. symmetry. apply app_assoc.
Qed.

Lemma extends_app {A} (l0 l : list A) (more : list A) :
  extends l0 l -> extends l0 (l ++ more).
Proof. intros H. apply (extends_trans _ l); [exact H | exists more; reflexivity]. Qed.

Lemma grown_refl (t : Tables) : grown t t.
Proof. repeat split; apply extends_refl. Qed.

Lemma grown_trans (t0 t1 t2 : Tables) : grown t0 t1 -> grown t1 t2 -> grown t0 t2.
Proof.
  intros (H1 & H2 & H3) (H1' & H2' & H3').
  repeat split; eapply extends_trans; eassumption.
Qed.

Lemma grown_log_written (t0 t : Tables) (i : Z) (action : string) (req : Req)
    (now : Z) :
  grown t0 t -> grown t0 (log_written t i action req now).
Proof.
  intros (Hk & Ha & Hl).
  destruct (log_written_frame t i action req now) as (Hk' & Ha' & _).
  unfold grown. rewrite Hk', Ha'. repeat split; try assumption.
  destruct (log_written_cases t i action req now) as [-> | ->];
    [exact Hl |].
  cbn [key_logs]. apply extends_app. exact Hl.
Qed.

Lemma grown_update (t0 t : Tables) (sel : KeyRow -> bool) (f : KeyRow -> KeyRow) :
  (forall k, id (f k) = id k) ->
  grown t0 t -> grown t0 (with_keys t (update_where sel f (keys t))).
Proof.
  intros Hf (Hk & Ha & Hl). unfold grown. cbn [with_keys keys key_activations key_logs].
  rewrite map_id_update_where by exact Hf. auto.
Qed.

(** The store after an operation that is not one of the two deletes. *)
Lemma grown_after (o : Index.op) (faults : list (option pg_error)) (db : DB) :
  deletes_nothing o = true ->
  grown (committed db) (committed (Index.after o faults db)).
Proof.
  set (L := grown (committed db)).
  assert (L0 : L (committed db)) by apply grown_refl.
  assert (Hlog : forall t i action req now,
             L t -> L (log_written t i action req now))
    by (intros; apply grown_log_written; assumption).
  assert (Hupd : forall t sel f,
             (forall k, id (f k) = id k) ->
             (forall k, used_devices (f k) = used_devices k) ->
             L t -> L (with_keys t (update_where sel f (keys t))))
    by (intros t sel f Hid _ H; apply grown_update; assumption).
  assert (Hmark : forall t i, L t -> L (marked_expired t i))
    by (intros t i H; apply grown_update; [reflexivity | exact H]).
  intros Hop. change (L (committed (Index.after o faults db))).
  destruct o as [body keygen now | req key dev now | req key dev now |
                 | kid body now | kid | kid | now | now | now];
    try discriminate Hop.
  - refine (after_keeps L (Index.post_generateKey body keygen now) faults db _ L0).
    apply (generate_keeps L). intros t row (Hk & Ha & Hl) _ _.
    unfold L, grown. cbn [with_issued keys key_activations key_logs].
    rewrite map_app. repeat split; try assumption. apply extends_app. exact Hk.
  - refine (after_keeps L (Index.post_activateKey req key dev now) faults db _ L0).
    apply (activate_keeps L); [exact Hmark | exact Hlog |].
    intros t keyData now0 d ip (Hk & Ha & Hl) _ _ _. unfold L, grown.
    cbn [activation_committed keys key_activations key_logs].
    rewrite map_id_update_where by reflexivity.
    repeat split; try assumption. apply extends_app. exact Ha.
  - refine (after_keeps L (Index.post_verifyKey req key dev now) faults db _ L0).
    apply (verify_keeps L); [exact Hmark | exact Hlog].
  - refine (after_keeps L Index.get_admin_keys faults db _ L0).
    apply (list_keeps L).
  - refine (after_keeps L (Index.put_admin_keys kid body now) faults db _ L0).
    apply (update_keeps L). exact Hupd.
  - refine (after_keeps L (Index.get_admin_keys_logs kid) faults db _ L0).
    apply (logs_keeps L).
  - refine (after_keeps L (Index.get_health now) faults db _ L0).
    apply (health_keeps L).
  - unfold Index.after. cbn [Index.handler].
    assert (Hk : keeps (fun db0 => L (committed db0))
                   (Index.cleanupExpiredKeys now ;; Ret (@None Response))).
    { eapply triple_bind; [apply (janitor_keeps L); exact Hupd |].
      intros ?. apply keeps_ret. }
    specialize (Hk faults db L0).
    destruct (run _ faults db) as [db' [e | r]]; exact Hk.
Qed.

(** X9.  Rows leave the store only through the admin's delete and the
    admin's cleanup.  After any sequence of the other operations (issue,
    activate, verify, list, update, logs, health, janitor), under every
    fault schedule, each of the three tables is the table it was with rows
    added at its end: no key, no activation and no log entry is removed or
    moved, the log in particular is append-only. *)
Theorem only_deletes_remove_rows (ops : list Index.op) :
  forallb deletes_nothing ops = true ->
  forall (faults : list (list (option pg_error))) (db : DB),
    grown (committed db) (committed (Index.after_all ops faults db)).
Proof.
  induction ops as [| o ops IH]; intros Hops faults db; [apply grown_refl |].
  cbn [forallb] in Hops. apply andb_true_iff in Hops. destruct Hops as [Ho Hops].
  cbn [Index.after_all].
  apply (grown_trans _ (committed (Index.after o (hd [] faults) db))).
  - apply grown_after. exact Ho.
  - apply IH. exact Hops.
Qed.

Lemma only_deletes_remove_rows_witness :
  grown (committed Example.issued)
        (committed
           (Index.after_all
              [Example.activate "device-A" 2000;
               Index.Verify Example.req (Some Example.the_key) (Some "device-A")
                            2500;
               Index.Janitor Example.after_expiry]
              [] Example.issued)).
Proof.
  apply (only_deletes_remove_rows
           [Example.activate "device-A" 2000;
            Index.Verify Example.req (Some Example.the_key) (Some "device-A")
                         2500;
            Index.Janitor Example.after_expiry]).
  reflexivity.
Defined.

(* ================================================================== *)
(** * The two routes open to users change no setting of a key *)
(* ================================================================== *)

(** X10.  Whatever a user sends to Activate or to Verify, and whatever the
    store does meanwhile, the keys are afterwards the same keys with the
    same settings: no key is added or removed, and of every key the id, the
    string, the creation time, the duration, the expiry and the device
    limit are as before.  Such a request can only change the status and the
    counter of devices of a key, add an activation, and add log entries. *)
Theorem user_routes_change_no_setting (req : Req) (key device_id : option string)
    (now : Z) (faults : list (option pg_error)) (db : DB) :
  map settings
      (keys (committed (Index.after (Index.Activate req key device_id now)
                                    faults db)))
  = map settings (keys (committed db)) /\
  map settings
      (keys (committed (Index.after (Index.Verify req key device_id now)
                                    faults db)))
  = map settings (keys (committed db)).
Proof.
  set (L := fun t : Tables => map settings (keys t) = map settings (keys (committed db))).
  assert (L0 : L (committed db)) by reflexivity.
  assert (Hlog : forall t i action req now,
             L t -> L (log_written t i action req now)).
  { intros t i action req0 now0 H.
    destruct (log_written_frame t i action req0 now0) as (Hk & _ & _).
    unfold L. rewrite Hk. exact H. }
  assert (Hmark : forall t i, L t -> L (marked_expired t i)).
  { intros t i H. unfold L, marked_expired. cbn [with_keys keys].
    rewrite map_update_where by reflexivity. exact H. }
  split.
  - refine (after_keeps L (Index.post_activateKey req key device_id now)
                        faults db _ L0).
    apply (activate_keeps L); [exact Hmark | exact Hlog |].
    intros t keyData now0 d ip H _ _ _. unfold L.
    cbn [activation_committed keys].
    rewrite map_update_where by reflexivity. exact H.
  - refine (after_keeps L (Index.post_verifyKey req key device_id now)
                        faults db _ L0).
    apply (verify_keeps L); [exact Hmark | exact Hlog].
Qed.

(* ================================================================== *)
(** * Requests that name no key of the store *)
(* ================================================================== *)

Lemma lookup_none_rows (t : Tables) (k : string) :
  lookup_key t k = None ->
  filter (key_has_string (toUpperCase (trim k))) (keys t) = [].
Proof.
  unfold lookup_key. destruct (filter _ _); [reflexivity | discriminate].
Qed.

(** X11.  Activate and Verify on a request that names no key of the store,
    under every fault schedule.  A request without a key or without a
    device id (absent or the empty string) is answered 400 before any
    query; so is an Activate whose device id is shorter than 5 or longer
    than 255 characters, while Verify puts no bound on the device id.  For
    a key that is not in the table the store is left untouched, log
    included, and when the lookup goes through Activate answers 404 and
    Verify answers 200 with valid false. *)
Theorem requests_for_no_key (req : Req) (key device_id : option string)
    (now : Z) (faults : list (option pg_error)) (db : DB) :
  let activate := run (Index.post_activateKey req key device_id now) faults db in
  let verify := run (Index.post_verifyKey req key device_id now) faults db in
  (truthy key = None \/ truthy device_id = None ->
   activate = (db, inr FieldsRequired) /\ verify = (db, inr FieldsRequired)) /\
  (forall k d, truthy key = Some k -> truthy device_id = Some d ->
     (strlen d < 5 \/ 255 < strlen d -> activate = (db, inr BadDevice)) /\
     (lookup_key (committed db) k = None ->
      fst verify = db /\
      (hd None faults = None -> snd verify = inr NoSuchKey) /\
      (5 <= strlen d <= 255 ->
       fst activate = db /\
       (hd None faults = None -> snd activate = inr KeyNotFound)))).
Proof.
  cbv zeta. unfold Index.post_activateKey, Index.post_verifyKey. split.
  - intros [H | H]; rewrite H; [| destruct (truthy key)]; split; reflexivity.
  - intros k d Hk Hd. rewrite Hk, Hd. split.
    + intros Hlen.
      replace ((strlen d <? 5) || (strlen d >? 255)) with true; [reflexivity |].
      symmetry. apply orb_true_iff. rewrite Z.gtb_ltb, !Z.ltb_lt. exact Hlen.
    + intros Hnone. pose proof (lookup_none_rows _ _ Hnone) as Hrows.
      cbn [try_catch bind await run].
      destruct (hd None faults) as [e |] eqn:Hf.
      * cbn [step fail run fst snd]. split; [reflexivity |].
        split; [discriminate |]. intros Hlen.
        rewrite (device_id_accepted _ Hlen).
        cbn [try_catch bind await run]. rewrite Hf.
        cbn [try_catch bind await run step fail].
        destruct (String.eqb (err_code e) "23505"); cbn [run fst snd];
          (split; [reflexivity | discriminate]).
      * cbn [step exec sql]. rewrite Hrows.
        cbn [flat_map run fst snd]. destruct db as [t tx].
        split; [reflexivity |]. split; [reflexivity |]. intros Hlen.
        rewrite (device_id_accepted _ Hlen).
        cbn [try_catch bind await run]. rewrite Hf.
        cbn [try_catch bind await run step exec sql committed open_tx] in *.
        rewrite Hrows. split; reflexivity.
Qed.

(* ================================================================== *)
(** * The earlier variant: activation *)
(* ================================================================== *)

(** A read of the pool inside a handler whose errors are caught further
    out. *)
Lemma triple_read_to {A} (P : DB -> Prop) (E : pg_error -> DB -> Prop)
    (s : stmt A) (v : Tables -> A) :
  (forall t, sql s t = inr (t, v t)) ->
  (forall db e, P db -> E e db) ->
  triple P (await (pool_query s))
         (fun a db => P db /\ a = v (committed db)) E.
Proof.
  intros Hs HE. eapply triple_weaken; [apply (triple_read P s v Hs) | | |]; auto.
Qed.

Section EarlierActivateKeeps.

(** A property of the tables that the two writes of the route keep. *)
Variable L : Tables -> Prop.
Hypothesis L_log : forall t t' now i action ip ua u,
  L t -> sql (insert_log now i action ip ua) t = inr (t', u) -> L t'.
Hypothesis L_insert : forall t t' keyData now d ip u,
  L t -> In keyData (keys t) ->
  count_activations t (id keyData) < max_devices keyData ->
  sql (insert_activation now (id keyData) d ip) t = inr (t', u) -> L t'.

Let I (db : DB) : Prop := L (committed db).

Lemma earlier_log_keeps (keyId : Z) (action : string) (req : Req) (now : Z) :
  keeps I (Earlier.logKeyActivity keyId action req now).
Proof.
  unfold Earlier.logKeyActivity.
  apply triple_catch with (E' := fun _ => I); [| intros e; apply keeps_ret].
  apply keeps_pool_query. intros t t' a HL H. eapply L_log; eassumption.
Qed.

Lemma earlier_activate_keeps (req : Req) (key device_id : option string)
    (now : Z) :
  keeps I (Earlier.post_activateKey req key device_id now).
Proof.
  unfold Earlier.post_activateKey.
  apply triple_catch with (E' := fun _ => I);
    [| intros e; destruct (String.eqb _ _); apply keeps_ret].
  destruct (truthy key) as [k |]; [| apply keeps_ret].
  destruct (truthy device_id) as [d |]; [| apply keeps_ret].
  destruct (_ || _); [apply keeps_ret |].
  eapply triple_bind.
  { apply (triple_read_to I)
      with (v := fun t => filter (key_has_string (toUpperCase (trim k))) (keys t));
      [reflexivity | auto]. }
  intros [| keyData rest]; [apply triple_ret; intros db [H _]; exact H |].
  destruct (negb _); [apply triple_ret; intros db [H _]; exact H |].
  destruct (now >? expires_at keyData);
    [apply triple_ret; intros db [H _]; exact H |].
  eapply triple_bind.
  { apply triple_read_to
      with (v := fun t => filter (act_of_device (id keyData) d) (key_activations t));
      [reflexivity | intros db e [H _]; exact H]. }
  intros existing. destruct (0 <? _).
  { eapply triple_bind with (Q := fun _ => I).
    - eapply triple_weaken; [apply earlier_log_keeps | | auto | auto].
      intros db [[H _] _]. exact H.
    - intros ?. apply keeps_ret. }
  eapply triple_bind.
  { apply triple_read_to with (v := fun t => count_activations t (id keyData));
      [reflexivity | intros db e [[H _] _]; exact H]. }
  intros currentDevices.
  destruct (currentDevices >=? max_devices keyData) eqn:Hfull.
  { apply triple_ret. intros db [[[H _] _] _]. exact H. }
  eapply triple_bind with (Q := fun _ => I).
  { apply triple_pool_query.
    - intros db e [[[H _] _] _]. exact H.
    - intros db t a [[[HL Hrows] _] Hcount] Hs. unfold I. cbn [committed].
      apply (L_insert (committed db) t keyData now d (ip req) a HL).
      + assert (Hin : In keyData
                        (filter (key_has_string (toUpperCase (trim k)))
                                (keys (committed db))))
          by (rewrite <- Hrows; left; reflexivity).
        apply filter_In in Hin. tauto.
      + rewrite <- Hcount. rewrite Z.geb_leb in Hfull.
        apply Z.leb_gt in Hfull. exact Hfull.
      + exact Hs. }
  intros ?. eapply triple_bind with (Q := fun _ => I);
    [apply earlier_log_keeps | intros ?; apply keeps_ret].
Qed.

Lemma earlier_verify_keeps (req : Req) (key device_id : option string)
    (now : Z) :
  keeps I (Earlier.post_verifyKey req key device_id now).
Proof.
  unfold Earlier.post_verifyKey.
  apply triple_catch with (E' := fun _ => I); [| intros e; apply keeps_ret].
  destruct (truthy key) as [k |]; [| apply keeps_ret].
  destruct (truthy device_id) as [d |]; [| apply keeps_ret].
  eapply triple_bind with (Q := fun _ => I).
  { apply keeps_pool_query. intros t t' x HL H. cbn [sql] in H.
    injection H as <- _. exact HL. }
  intros [| [keyData device_activated] rest]; [apply keeps_ret |].
  cbv zeta.
  eapply triple_bind with (Q := fun _ => I).
  { destruct (_ && _); apply earlier_log_keeps. }
  intros ?. eapply triple_bind with (Q := fun _ => I).
  { apply keeps_pool_query. intros t t' x HL H. cbn [sql] in H.
    injection H as <- _. exact HL. }
  intros ?. apply keeps_ret.
Qed.

End EarlierActivateKeeps.

Lemma insert_log_inv (now i : Z) (action ip : string) (ua : option string)
    (t t' : Tables) (u : unit) :
  sql (insert_log now i action ip ua) t = inr (t', u) ->
  keys t' = keys t /\ key_activations t' = key_activations t.
Proof.
  cbn [sql].
  repeat (match goal with
          | |- context [if ?b then _ else _] => destruct b
          end; try discriminate).
  intros H. injection H as <- _. split; reflexivity.
Qed.

(** X12.  The activation route of the earlier variant never writes to the
    keys table, under any fault schedule: the counter [used_devices] stays as
    issued however many devices activate, and an expiry it notices is not
    recorded.  Its check of the number of activation rows against
    [max_devices] holds the limit for calls that run one after the other:
    if no key has more activation rows than its limit before a call, none
    has after it.  (The statements are run over the columns of index.js;
    the variant declares [device_id] and [ip_address] as TEXT, where
    index.js bounds their length.) *)
Theorem earlier_activation_writes_no_key (req : Req)
    (key device_id : option string) (now : Z)
    (faults : list (option pg_error)) (db : DB) :
  let t := committed db in
  let t' := committed (fst (run (Earlier.post_activateKey req key device_id now)
                                faults db)) in
  keys t' = keys t /\
  (unique_ids t -> rows_within_limit t -> rows_within_limit t').
Proof.
  cbv zeta.
  assert (Hrun : forall L : Tables -> Prop,
             keeps (fun db => L (committed db))
                   (Earlier.post_activateKey req key device_id now) ->
             L (committed db) ->
             L (committed (fst (run (Earlier.post_activateKey req key device_id now)
                                    faults db)))).
  { intros L Hk HL. specialize (Hk faults db HL).
    destruct (run _ faults db) as [db' [e | r]]; exact Hk. }
  split.
  - apply (Hrun (fun t => keys t = keys (committed db))); [| reflexivity].
    apply (earlier_activate_keeps (fun t => keys t = keys (committed db))).
    + intros t t' now0 i action ip ua u H Hs.
      apply insert_log_inv in Hs. destruct Hs as [-> _]. exact H.
    + intros t t' keyData now0 d ip u H _ _ Hs.
      apply insert_activation_inv in Hs. destruct Hs as (-> & _). exact H.
  - intros Hu Hl.
    apply (Hrun (fun t => unique_ids t /\ rows_within_limit t)); [| auto].
    apply (earlier_activate_keeps (fun t => unique_ids t /\ rows_within_limit t)).
    + intros t t' now0 i action ip ua u [Hu' Hl'] Hs.
      apply insert_log_inv in Hs. destruct Hs as [Hk Ha].
      unfold unique_ids, rows_within_limit, count_activations.
      rewrite Hk, Ha. auto.
    + intros t t' keyData now0 d ip u [Hu' Hl'] Hin Hlt Hs.
      apply insert_activation_inv in Hs. destruct Hs as (-> & _).
      split; [exact Hu' |]. intros k Hk. cbn [keys] in Hk.
      unfold count_activations. cbn [key_activations].
      erewrite count_activations_app by reflexivity. cbn [act_key_id].
      destruct (id keyData =? id k) eqn:Heq.
      * apply Z.eqb_eq in Heq.
        rewrite (unique_ids_eq t keyData k Hu' Hin Hk Heq) in Hlt. lia.
      * specialize (Hl' k Hk). lia.
Qed.

(* ================================================================== *)
(** * The earlier variant: verification and issuance *)
(* ================================================================== *)

Lemma run_earlier_logKeyActivity (keyId : Z) (action : string) (req : Req)
    (now : Z) (db : DB) :
  run (Earlier.logKeyActivity keyId action req now) [] db
  = (mkDB (earlier_log_written (committed db) keyId action req now) (open_tx db),
     inr tt).
Proof.
  unfold Earlier.logKeyActivity. rewrite run_try_catch, run_await.
  unfold earlier_log_written. cbn [exec].
  destruct (sql (insert_log now keyId action (ip req) (user_agent req))
                (committed db)) as [e | [t []]];
    [destruct db |]; reflexivity.
Qed.

Lemma earlier_log_written_frame (t : Tables) (keyId : Z) (action : string)
    (req : Req) (now : Z) :
  keys (earlier_log_written t keyId action req now) = keys t /\
  key_activations (earlier_log_written t keyId action req now)
  = key_activations t.
Proof.
  unfold earlier_log_written.
  destruct (sql _ t) as [e | [t' u]] eqn:Hs; [auto |].
  apply insert_log_inv in Hs. exact Hs.
Qed.

Lemma earlier_verify_run (db : DB) (req : Req) (key device_id : option string)
    (now : Z) :
  run (Earlier.post_verifyKey req key device_id now) [] db
  = match truthy key, truthy device_id with
    | Some k, Some d =>
        match lookup_key (committed db) k with
        | None => (db, inr NoSuchKey)
        | Some keyData =>
            let t := committed db in
            let i := id keyData in
            let isValid :=
              String.eqb (status keyData) "active" && activated t i d
              && (now <? expires_at keyData) in
            let t' := earlier_log_written t i (if isValid then "verified"
                                               else "verification_failed")
                                          req now in
            (mkDB t' (open_tx db),
             inr (res_json (Index.verify_body isValid keyData (status keyData)
                              (count_activations t' i)
                              (if isValid then "Key is valid"
                               else "Key is invalid"))))
        end
    | _, _ =>
        (db, inr (res_status_json 400
                    (Earlier.failure "Key and device_id are required")))
    end.
Proof.
  destruct db as [t tx]. cbn [committed open_tx].
  unfold Earlier.post_verifyKey.
  destruct (truthy key) as [k |]; [| reflexivity].
  destruct (truthy device_id) as [d |]; [| reflexivity].
  rewrite run_try_catch, run_bind, run_await. cbn [exec committed open_tx].
  rewrite sql_select_key_with_device. unfold lookup_key.
  pose proof (join_first_row t d
                (filter (key_has_string (toUpperCase (trim k))) (keys t))) as Hj.
  destruct (flat_map _ _) as [| [keyData device_activated] more];
    destruct (filter (key_has_string (toUpperCase (trim k))) (keys t))
      as [| k0 rest]; cbn [hd_error option_map] in Hj; try discriminate;
    [reflexivity |].
  injection Hj as -> ->. cbn [hd_error]. cbv zeta.
  replace (Bool.eqb (activated t (id k0) d) true) with (activated t (id k0) d)
    by (destruct (activated t (id k0) d); reflexivity).
  destruct (String.eqb (status k0) "active" && activated t (id k0) d
            && (now <? expires_at k0));
    rewrite run_bind, run_earlier_logKeyActivity; cbn [committed open_tx];
    rewrite run_bind, run_await; cbn [exec committed open_tx];
    rewrite sql_select_count_activations; reflexivity.
Qed.

(** X13.  Verify of the earlier variant answers valid true exactly when the
    key is found, its status is active, the device has an activation row,
    and the time is strictly before [expires_at]: at the instant of expiry
    it says invalid, where the Verify of index.js still says valid.  It
    writes a log entry and nothing else: under every fault schedule the keys
    and the activations are as they were, so an expiry it notices is never
    recorded in the status. *)
Theorem earlier_verify_validity (db : DB) (req : Req)
    (key device_id : option string) (now : Z) :
  let result := run (Earlier.post_verifyKey req key device_id now) [] db in
  (says_valid (snd result) = true <->
   exists k d keyData,
     truthy key = Some k /\ truthy device_id = Some d /\
     lookup_key (committed db) k = Some keyData /\
     status keyData = "active" /\
     activated (committed db) (id keyData) d = true /\
     now < expires_at keyData)
  /\
  (forall k d keyData,
     truthy key = Some k -> truthy device_id = Some d ->
     lookup_key (committed db) k = Some keyData ->
     status keyData = "active" ->
     activated (committed db) (id keyData) d = true ->
     now = expires_at keyData ->
     says_valid (snd result) = false /\
     says_valid (snd (run (Index.post_verifyKey req key device_id now) [] db))
     = true)
  /\
  (forall faults,
     let t' := committed (fst (run (Earlier.post_verifyKey req key device_id now)
                                   faults db)) in
     keys t' = keys (committed db) /\
     key_activations t' = key_activations (committed db)).
Proof.
  intros result. split; [| split].
  - subst result. rewrite earlier_verify_run.
    destruct (truthy key) as [k |];
      [| split; [intros H; cbn in H; discriminate H
                | intros (? & ? & ? & ? & _); discriminate]].
    destruct (truthy device_id) as [d |];
      [| split; [intros H; cbn in H; discriminate H
                | intros (? & ? & ? & _ & ? & _); discriminate]].
    destruct (lookup_key (committed db) k) as [keyData |] eqn:Hlook;
      [| split; [intros H; cbn in H; discriminate H
                | intros (? & ? & ? & H1 & _ & H3 & _); congruence]].
    cbv zeta. cbn [snd says_valid res_json Index.verify_body field String.eqb
                   Ascii.eqb Bool.eqb].
    split.
    + intros H. apply andb_true_iff in H. destruct H as [H Ht].
      apply andb_true_iff in H. destruct H as [Hs Ha].
      apply String.eqb_eq in Hs. apply Z.ltb_lt in Ht.
      exists k, d, keyData. auto 10.
    + intros (k' & d' & kd' & H1 & H2 & H3 & Hs & Ha & Ht).
      injection H1 as <-. injection H2 as <-.
      rewrite Hlook in H3. injection H3 as <-.
      rewrite Hs, Ha. apply Z.ltb_lt in Ht. rewrite Ht. reflexivity.
  - intros k d keyData Hk Hd Hlook Hs Ha Hnow. subst result.
    rewrite earlier_verify_run, verify_run, Hk, Hd, Hlook. cbv zeta.
    rewrite Hs, Ha, Hnow, Z.ltb_irrefl, (gtb_false _ _ (Z.le_refl _)).
    split; reflexivity.
  - intros faults. cbv zeta.
    pose proof (earlier_verify_keeps
                  (fun t => keys t = keys (committed db) /\
                            key_activations t = key_activations (committed db)))
      as Hkeep.
    assert (Hlog : forall t t' now0 i action ip ua u,
               keys t = keys (committed db) /\
               key_activations t = key_activations (committed db) ->
               sql (insert_log now0 i action ip ua) t = inr (t', u) ->
               keys t' = keys (committed db) /\
               key_activations t' = key_activations (committed db)).
    { intros t t' now0 i action ip ua u [Hk Ha] Hs.
      apply insert_log_inv in Hs. destruct Hs as [-> ->]. auto. }
    specialize (Hkeep Hlog req key device_id now faults db (conj eq_refl eq_refl)).
    destruct (run _ faults db) as [db' [e | r]]; exact Hkeep.
Qed.

Lemma sql_insert_issued (t : Tables) (body : Index.GenerateBody) (s : string)
    (now : Z) :
  body_fits body = true -> fits_varchar 255 s = true ->
  sql (insert_key now s (body_duration body) (body_max_devices body)
                  (now + body_duration body * 60 * 60 * 1000) (body_status body)) t
  = if taken t s then inl unique_violation
    else inr (with_issued t (issued_row t body s now), [issued_row t body s now]).
Proof.
  intros Hfits Hs.
  exact (sql_insert_key (fun _ => s) body now (fun _ => Hs) Hfits t 0).
Qed.

(** X14.  Issuance in the earlier variant makes one draw and one INSERT.  A
    string that is free is issued, with the counter of devices at zero and
    the expiry [duration_hours] after the request; a string that is already
    a key is not replaced by another draw: the request is answered 409 "Key
    already exists, please try again" and the store is left as it was.  Any
    other failure of the store is a 500. *)
Theorem earlier_generate_single_attempt (db : DB) (body : Index.GenerateBody)
    (keyString : string) (now : Z) :
  body_fits body = true -> fits_varchar 255 keyString = true ->
  let t := committed db in
  let row := issued_row t body keyString now in
  run (Earlier.post_generateKey body keyString now) [] db
  = (if taken t keyString then (db, inr KeyStringConflict)
     else (mkDB (with_issued t row) (open_tx db), inr (Issued row)))
  /\
  (forall e faults,
     run (Earlier.post_generateKey body keyString now) (Some e :: faults) db
     = (db, inr (if String.eqb (err_code e) "23505" then KeyStringConflict
                 else res_status_json 500
                        (Earlier.failure "Internal server error")))).
Proof.
  intros Hfits Hs t row.
  assert (Hpos : (body_duration body =? 0) || (body_duration body <=? 0) = false).
  { unfold body_fits in Hfits. apply andb_true_iff in Hfits.
    destruct Hfits as [H _]. apply andb_true_iff in H. destruct H as [H _].
    apply andb_true_iff in H. destruct H as [H _]. apply Z.ltb_lt in H.
    apply orb_false_iff. split; [apply Z.eqb_neq | apply Z.leb_gt]; lia. }
  unfold Earlier.post_generateKey. fold (body_duration body).
  fold (body_max_devices body). fold (body_status body). rewrite Hpos.
  cbn [try_catch bind await run hd tl step]. split.
  - cbn [exec]. fold t. rewrite (sql_insert_issued t body keyString now Hfits Hs).
    fold row. destruct (taken t keyString); [| reflexivity].
    destruct db; reflexivity.
  - intros e faults. cbn [fail run bind try_catch].
    destruct (String.eqb (err_code e) "23505"); reflexivity.
Qed.

Lemma earlier_generate_single_attempt_witness :
  run (Earlier.post_generateKey (Index.mkGenerateBody (Some 1) (Some 2) None)
                                Example.the_key 9000) [] Example.issued
  = (Example.issued, inr KeyStringConflict).
Proof.
  refine (proj1 (earlier_generate_single_attempt Example.issued
                   (Index.mkGenerateBody (Some 1) (Some 2) None)
                   Example.the_key 9000 _ _)); reflexivity.
Defined.

(* ================================================================== *)
(** * The two listings of the admin *)
(* ================================================================== *)

Lemma insert_desc_rows {A} (ts : A -> Z) (x : A) (l : list A) :
  Permutation (x :: l) (insert_desc ts x l).
Proof.
  induction l as [| y l IH]; cbn [insert_desc]; [apply Permutation_refl |].
  destruct (ts y <? ts x); [apply Permutation_refl |].
  eapply Permutation_trans; [apply perm_swap |]. apply perm_skip. exact IH.
Qed.

Lemma insert_desc_order {A} (ts : A -> Z) (x : A) (l : list A) :
  StronglySorted (not_before ts) l ->
  StronglySorted (not_before ts) (insert_desc ts x l).
Proof.
  intros Hl. induction Hl as [| y l Hl IH Hy]; cbn [insert_desc].
  - repeat constructor.
  - destruct (Z.ltb_spec (ts y) (ts x)) as [Hlt | Hge].
    + constructor; [constructor; assumption |].
      constructor; [unfold not_before; lia |].
      eapply Forall_impl; [| exact Hy]. unfold not_before. intros z Hz. lia.
    + constructor; [exact IH |].
      apply (Permutation_Forall (insert_desc_rows ts x l)).
      constructor; [exact Hge | exact Hy].
Qed.

Lemma order_desc_lists {A} (ts : A -> Z) (l : list A) :
  lists_latest_first ts l (order_desc ts l).
Proof.
  unfold order_desc, lists_latest_first.
  assert (H : forall acc,
             StronglySorted (not_before ts) acc ->
             Permutation (acc ++ l)
               (fold_left (fun acc x => insert_desc ts x acc) l acc) /\
             StronglySorted (not_before ts)
               (fold_left (fun acc x => insert_desc ts x acc) l acc)).
  { induction l as [| x l IH]; intros acc Hacc; cbn [fold_left].
    - rewrite app_nil_r. split; [apply Permutation_refl | exact Hacc].
    - destruct (IH (insert_desc ts x acc) (insert_desc_order ts x acc Hacc))
        as [Hp Hs].
      split; [| exact Hs].
      eapply Permutation_trans; [| exact Hp].
      eapply Permutation_trans; [apply Permutation_sym, Permutation_middle |].
      apply (Permutation_app_tail l (insert_desc_rows ts x acc)). }
  apply (H []). constructor.
Qed.

(** X15.  The two listings of the admin.  GET /admin/keys answers with
    every key of the table, each once, the latest created first; GET
    /admin/keys/:id/logs answers with the log entries of that key and no
    other, the latest first.  Neither changes the store, whatever the
    store does, and a failure of the query is a 500. *)
Theorem listings_are_latest_first (key_id : Z)
    (faults : list (option pg_error)) (db : DB) :
  (exists rows,
     lists_latest_first created_at (keys (committed db)) rows /\
     run Index.get_admin_keys faults db
     = (db, inr (match hd None faults with
                 | None => res_json (JArr (map key_json rows))
                 | Some _ => Unavailable
                 end))) /\
  (exists rows,
     lists_latest_first log_created_at
       (filter (log_of_key key_id) (key_logs (committed db))) rows /\
     run (Index.get_admin_keys_logs key_id) faults db
     = (db, inr (match hd None faults with
                 | None => res_json (JArr (map log_json rows))
                 | Some _ => Unavailable
                 end))).
Proof.
  split.
  - exists (order_desc created_at (keys (committed db))).
    split; [apply order_desc_lists |].
    unfold Index.get_admin_keys. cbn [try_catch bind await run].
    destruct (hd None faults) as [e |]; [reflexivity |].
    destruct db; reflexivity.
  - exists (order_desc log_created_at
              (filter (log_of_key key_id) (key_logs (committed db)))).
    split; [apply order_desc_lists |].
    unfold Index.get_admin_keys_logs. cbn [try_catch bind await run].
    destruct (hd None faults) as [e |]; [reflexivity |].
    destruct db; reflexivity.
Qed.

(* ================================================================== *)
(** * Handlers in flight together *)
(* ================================================================== *)

Section Steady.

Context {R : Type}.
Variable L : Tables -> Prop.

Lemma steady_step {A} (q : query A) (k : pg_error + A -> Prog R) :
  (forall db, L (committed db) -> open_tx db = None ->
     L (committed (snd (advance (Await q k) db))) /\
     open_tx (snd (advance (Await q k) db)) = None /\
     steady L (fst (advance (Await q k) db))) ->
  steady L (Await q k).
Proof.
  intros H. constructor; intros db HL Htx; apply (H db HL Htx).
Qed.

(** A statement on the pool yields right after it. *)
Lemma steady_pool {A} (s : stmt A) (k : pg_error + A -> Prog R) :
  (forall t e, L t -> sql s t = inl e -> steady L (k (inl e))) ->
  (forall t t' a, L t -> sql s t = inr (t', a) -> L t' /\ steady L (k (inr a))) ->
  steady L (Await (pool_query s) k).
Proof.
  intros He Ha. apply steady_step. intros [t tx] HL Htx.
  cbn [committed open_tx] in *. subst tx. cbn [advance exec committed open_tx].
  destruct (sql s t) as [e | [t' a]] eqn:Hs; cbn [open_tx fst snd committed].
  - split; [exact HL |]. split; [reflexivity |]. eapply He; eassumption.
  - destruct (Ha t t' a HL Hs) as [HL' Hk]. auto.
Qed.

(** A read of the pool. *)
Lemma steady_read {A} (s : stmt A) (v : Tables -> A) (k : pg_error + A -> Prog R) :
  (forall t, sql s t = inr (t, v t)) ->
  (forall t, L t -> steady L (k (inr (v t)))) ->
  steady L (Await (pool_query s) k).
Proof.
  intros Hs Hk. apply steady_pool.
  - intros t e _ H. rewrite Hs in H. discriminate.
  - intros t t' a HL H. rewrite Hs in H. injection H as <- <-. auto.
Qed.

Lemma steady_connect (k : pg_error + unit -> Prog R) :
  steady L (k (inr tt)) -> steady L (Await pool_connect k).
Proof.
  intros Hk. apply steady_step. intros [t tx] HL Htx.
  cbn [committed open_tx] in *. subst tx. cbn [advance exec open_tx fst snd].
  auto.
Qed.

(** BEGIN does not yield: the handler runs on to the end of its
    transaction. *)
Lemma steady_begin (k : pg_error + unit -> Prog R) :
  (forall t, L t -> closes L (k (inr tt)) t t) ->
  steady L (Await client_begin k).
Proof.
  intros Hk. apply steady_step. intros [t tx] HL Htx.
  cbn [committed open_tx] in *. subst tx.
  cbn [advance exec open_tx committed].
  exact (Hk t HL).
Qed.

Lemma closes_client_query {A} (s : stmt A) (k : pg_error + A -> Prog R)
    (t w : Tables) :
  (forall e, sql s w = inl e -> closes L (k (inl e)) t w) ->
  (forall w' a, sql s w = inr (w', a) -> closes L (k (inr a)) t w') ->
  closes L (Await (client_query s) k) t w.
Proof.
  intros He Ha. unfold closes. cbn [advance exec open_tx committed].
  destruct (sql s w) as [e | [w' a]] eqn:Hs; cbn [open_tx].
  - exact (He e eq_refl).
  - exact (Ha w' a eq_refl).
Qed.

Lemma closes_commit (k : pg_error + unit -> Prog R) (t w : Tables) :
  L w -> steady L (k (inr tt)) -> closes L (Await client_commit k) t w.
Proof.
  intros HL Hk. unfold closes. cbn [advance exec open_tx committed fst snd].
  auto.
Qed.

Lemma closes_rollback (k : pg_error + unit -> Prog R) (t w : Tables) :
  L t -> steady L (k (inr tt)) -> closes L (Await client_rollback k) t w.
Proof.
  intros HL Hk. unfold closes. cbn [advance exec open_tx committed fst snd].
  auto.
Qed.

(** What follows a handler without a query of its own changes nothing to
    its resumptions. *)
Lemma advance_bind_pure {B} (p : Prog R) (g : R -> B) :
  forall db,
    advance (bind p (fun a => Ret (g a))) db
    = (bind (fst (advance p db)) (fun a => Ret (g a)), snd (advance p db)).
Proof.
  induction p as [r | e | A q k IH]; intros db; cbn [bind advance fst snd];
    [reflexivity | reflexivity |].
  destruct (exec q db) as [db' r]. destruct (open_tx db'); [apply IH | reflexivity].
Qed.

(** Handlers that are steady stay so, in whatever order they are resumed. *)
Lemma interleave_steady (schedule : list nat) :
  forall (hs : list (Prog R)) (db : DB),
    Forall (steady L) hs -> L (committed db) -> open_tx db = None ->
    Forall (steady L) (fst (interleave schedule hs db)) /\
    L (committed (snd (interleave schedule hs db))) /\
    open_tx (snd (interleave schedule hs db)) = None.
Proof.
  induction schedule as [| i rest IH]; intros hs db Hhs HL Htx;
    cbn [interleave]; [auto |].
  destruct (nth_error hs i) as [p |] eqn:Hp; [| apply IH; assumption].
  assert (Hsteady : steady L p).
  { apply nth_error_In in Hp. rewrite Forall_forall in Hhs. auto. }
  assert (Hstep : L (committed (snd (advance p db))) /\
                  open_tx (snd (advance p db)) = None /\
                  steady L (fst (advance p db))).
  { destruct Hsteady as [r | e | A q k H1 H2 H3].
    - cbn [advance fst snd]. repeat split; auto; constructor.
    - cbn [advance fst snd]. repeat split; auto; constructor.
    - auto. }
  destruct (advance p db) as [p' db']. cbn [fst snd] in Hstep.
  destruct Hstep as (HL' & Htx' & Hp').
  apply IH; [| exact HL' | exact Htx'].
  clear - Hhs Hp'. revert i. induction Hhs as [| h hs Hh Hhs IHhs]; intros i;
    destruct i; cbn [replace_nth]; constructor; auto.
Qed.

End Steady.

Lemma steady_bind_pure {A B} (L : Tables -> Prop) (p : Prog A) (g : A -> B) :
  steady L p -> steady L (bind p (fun a => Ret (g a))).
Proof.
  intros Hp. induction Hp as [r | e | X q k H1 H2 H3 IH]; cbn [bind];
    [constructor | constructor |].
  change (Await q (fun r => bind (k r) (fun a => Ret (g a))))
    with (bind (Await q k) (fun a => Ret (g a))).
  cbn [bind]. apply steady_step. intros db HL Htx.
  change (Await q (fun r => bind (k r) (fun a => Ret (g a))))
    with (bind (Await q k) (fun a => Ret (g a))).
  rewrite advance_bind_pure. cbn [fst snd]. auto.
Qed.

Lemma insert_key_free (now : Z) (s : string) (dur maxd exp : Z) (st : string)
    (t t' : Tables) (rows : list KeyRow) :
  sql (insert_key now s dur maxd exp st) t = inr (t', rows) ->
  taken t s = false.
Proof.
  cbn [sql]. fold (taken t s).
  destruct (negb (fits_varchar 255 s)); [discriminate |].
  destruct (negb (fits_integer dur && fits_integer maxd)); [discriminate |].
  destruct (negb (fits_varchar 20 st)); [discriminate |].
  destruct (taken t s); [discriminate | reflexivity].
Qed.

Section HandlersSteady.

(** A property of the tables kept by every write the handlers make, whatever
    the tables have become since the handler last looked. *)
Variable L : Tables -> Prop.
Hypothesis L_marked : forall t i, L t -> L (marked_expired t i).
Hypothesis L_log : forall t i action req now,
  L t -> L (log_written t i action req now).
Hypothesis L_activation : forall t now i d ip,
  L t -> key_exists t i = true -> activated t i d = false ->
  L (activation_committed t now i d ip).
Hypothesis L_issued : forall t row,
  L t -> id row = keys_id_seq t -> used_devices row = 0 ->
  taken t (key_string row) = false ->
  L (with_issued t row).
Hypothesis L_update : forall t sel f,
  (forall k, id (f k) = id k) ->
  (forall k, used_devices (f k) = used_devices k) ->
  (forall k, key_string (f k) = key_string k) ->
  L t -> L (with_keys t (update_where sel f (keys t))).
Hypothesis L_deleted : forall t i, L t -> L (key_deleted t i).
Hypothesis L_cleanup : forall t sel, L t -> L (delete_keys_where sel t).

(** A write of the pool that cannot fail on its own. *)
Lemma steady_write {R A} (s : stmt A) (w : Tables -> Tables) (v : Tables -> A)
    (k : pg_error + A -> Prog R) :
  (forall t, sql s t = inr (w t, v t)) ->
  (forall t, L t -> L (w t)) ->
  (forall t, L t -> steady L (k (inr (v t)))) ->
  steady L (Await (pool_query s) k).
Proof.
  intros Hs Hw Hk. apply steady_pool.
  - intros t e _ H. rewrite Hs in H. discriminate.
  - intros t t' a HL H. rewrite Hs in H. injection H as <- <-. auto.
Qed.

(** The INSERT of [logKeyActivity], whatever follows it. *)
Lemma steady_log {R} (keyId : Z) (action : string) (req : Req) (now : Z)
    (k : pg_error + unit -> Prog R) :
  (forall r, steady L (k r)) ->
  steady L (Await (pool_query
                     (insert_log now keyId action (ip req)
                                 (Some (or_else (user_agent req) "unknown")))) k).
Proof.
  intros Hk. apply steady_pool.
  - intros t e _ _. apply Hk.
  - intros t t' a HL Hs. split; [| apply Hk].
    specialize (L_log t keyId action req now HL).
    unfold log_written in L_log. rewrite Hs in L_log. exact L_log.
Qed.

Ltac finished := first [apply steady_ret | apply steady_throw].

Lemma activate_steady (req : Req) (key device_id : option string) (now : Z) :
  steady L (Index.post_activateKey req key device_id now).
Proof.
  unfold Index.post_activateKey.
  destruct (truthy key) as [k |]; [| finished].
  destruct (truthy device_id) as [d |]; [| finished].
  destruct (_ || _); [finished |].
  cbn [try_catch bind await].
  apply steady_read
    with (v := fun t => filter (key_has_string (toUpperCase (trim k))) (keys t));
    [reflexivity |].
  intros t HL. cbn [try_catch bind].
  destruct (filter _ (keys t)) as [| keyData rest]; [finished |].
  destruct (now >? expires_at keyData).
  { cbn [try_catch bind await Index.logKeyActivity].
    apply steady_write
      with (w := fun t => marked_expired t (id keyData)) (v := fun _ => tt);
      [reflexivity | intros; apply L_marked; assumption |].
    intros t1 HL1. cbn [try_catch bind].
    apply steady_log. intros [e | []]; cbn [try_catch bind]; finished. }
  destruct (negb _); [finished |].
  cbn [try_catch bind await].
  apply steady_read
    with (v := fun t => filter (act_of_device (id keyData) d) (key_activations t));
    [reflexivity |].
  intros t1 HL1. cbn [try_catch bind].
  destruct (0 <? _).
  { cbn [try_catch bind await Index.logKeyActivity].
    apply steady_log. intros [e | []]; cbn [try_catch bind]; finished. }
  cbn [try_catch bind await].
  apply steady_read with (v := fun t => count_activations t (id keyData));
    [reflexivity |].
  intros t2 HL2. cbn [try_catch bind].
  destruct (_ >=? _); [finished |].
  cbn [try_catch bind await Index.logKeyActivity].
  apply steady_connect. cbn [try_catch bind].
  apply steady_begin. intros t3 HL3. cbn [try_catch bind].
  apply closes_client_query.
  { intros e _. cbn [try_catch bind].
    apply closes_rollback; [exact HL3 |]. cbn [try_catch bind].
    destruct (String.eqb _ _); finished. }
  intros w [] Hins. cbn [try_catch bind].
  apply closes_client_query.
  { intros e H. rewrite sql_update_used_devices in H. discriminate. }
  intros w' [] Hupd. cbn [try_catch bind].
  rewrite sql_update_used_devices in Hupd. injection Hupd as <-.
  apply closes_commit.
  { change (with_keys w (update_where (key_has_id (id keyData)) incr_used_devices
                                      (keys w)))
      with (counted w (id keyData)).
    rewrite (counted_after_insert _ _ _ _ _ _ _ Hins).
    apply L_activation; [exact HL3 | |];
      apply (insert_activation_inv _ _ _ _ _ _ _ Hins). }
  cbn [try_catch bind].
  apply steady_log. intros [e | []]; cbn [try_catch bind]; finished.
Qed.

Lemma verify_steady (req : Req) (key device_id : option string) (now : Z) :
  steady L (Index.post_verifyKey req key device_id now).
Proof.
  unfold Index.post_verifyKey.
  destruct (truthy key) as [k |]; [| finished].
  destruct (truthy device_id) as [d |]; [| finished].
  cbn [try_catch bind await].
  apply steady_read
    with (v := fun t => flat_map (join_device t d)
                          (filter (key_has_string (toUpperCase (trim k))) (keys t)));
    [reflexivity |].
  intros t HL. cbn [try_catch bind].
  destruct (flat_map _ _) as [| [keyData device_activated] rest]; [finished |].
  destruct (now >? expires_at keyData).
  - cbn [try_catch bind await Index.logKeyActivity].
    apply steady_write
      with (w := fun t => marked_expired t (id keyData)) (v := fun _ => tt);
      [reflexivity | intros; apply L_marked; assumption |].
    intros t1 HL1. cbn [try_catch bind].
    apply steady_log. intros [e | []]; cbn [try_catch bind await];
      (apply steady_read with (v := fun t => count_activations t (id keyData));
       [reflexivity |]);
      intros t2 HL2; cbn [try_catch bind]; finished.
  - cbv zeta. cbn [try_catch bind await Index.logKeyActivity].
    apply steady_log. intros [e | []]; cbn [try_catch bind await];
      (apply steady_read with (v := fun t => count_activations t (id keyData));
       [reflexivity |]);
      intros t2 HL2; cbn [try_catch bind]; finished.
Qed.

Lemma attempts_steady (keygen : nat -> string) (now dur maxd : Z) (st : string)
    (h : pg_error -> Prog Response) (left : nat) :
  (forall e, steady L (h e)) ->
  forall i,
    steady L (try_catch
                (r <- Index.generate_attempts keygen now dur maxd st left i ;;
                 match r with
                 | inr response => Ret response
                 | inl _ =>
                     Ret (res_status_json 500
                            (Index.failure "Failed to generate unique key"))
                 end) h).
Proof.
  intros Hh. induction left as [| left IH]; intros i; [finished |].
  cbn [Index.generate_attempts try_catch bind await].
  apply steady_pool.
  - intros t e _ _. cbn [try_catch bind].
    destruct (String.eqb _ _); cbn [try_catch bind]; [apply IH | apply Hh].
  - intros t t' rows HL Hs. pose proof (insert_key_free _ _ _ _ _ _ _ _ _ Hs).
    apply insert_key_inv in Hs. subst t'.
    split; [apply L_issued; auto |]. cbn [try_catch bind].
    destruct rows as [| row rest]; cbn [try_catch bind]; [| finished].
    cbn [err_code String.eqb]. apply Hh.
Qed.

Lemma generate_steady (body : Index.GenerateBody) (keygen : nat -> string)
    (now : Z) :
  steady L (Index.post_generateKey body keygen now).
Proof.
  unfold Index.post_generateKey. cbv zeta.
  destruct (_ || _); [finished |].
  apply attempts_steady. intros e. finished.
Qed.

Lemma list_steady : steady L Index.get_admin_keys.
Proof.
  unfold Index.get_admin_keys. cbn [try_catch bind await].
  apply steady_read with (v := fun t => order_desc created_at (keys t));
    [reflexivity |].
  intros t HL. finished.
Qed.

Lemma logs_steady (key_id : Z) : steady L (Index.get_admin_keys_logs key_id).
Proof.
  unfold Index.get_admin_keys_logs. cbn [try_catch bind await].
  apply steady_read
    with (v := fun t => order_desc log_created_at
                          (filter (log_of_key key_id) (key_logs t)));
    [reflexivity |].
  intros t HL. finished.
Qed.

Lemma health_steady (now : Z) : steady L (Index.get_health now).
Proof.
  unfold Index.get_health. cbn [try_catch bind await].
  apply steady_read with (v := fun _ => tt); [reflexivity |].
  intros t HL. finished.
Qed.

Lemma janitor_steady (now : Z) : steady L (Index.cleanupExpiredKeys now).
Proof.
  unfold Index.cleanupExpiredKeys. cbn [try_catch bind await].
  apply steady_pool.
  - intros t e _ _. finished.
  - intros t t' a HL H. cbn [sql] in H. injection H as <- _.
    split; [apply L_update; auto | finished].
Qed.

Lemma apply_patch_string (now : Z) (p : KeyPatch) (k : KeyRow) :
  key_string (apply_patch now p k) = key_string k.
Proof.
  unfold apply_patch.
  destruct (set_duration_hours p), (set_status p), (set_max_devices p);
    reflexivity.
Qed.

Lemma update_steady (key_id : Z) (body : KeyPatch) (now : Z) :
  steady L (Index.put_admin_keys key_id body now).
Proof.
  unfold Index.put_admin_keys.
  destruct (Index.patch_is_empty body); [finished |].
  cbn [try_catch bind await].
  apply steady_pool.
  - intros t e _ _. finished.
  - intros t t' rows HL H. apply update_key_inv in H. subst t'. split.
    + apply L_update;
        [intros k; apply apply_patch_keeps .. | apply apply_patch_string
         | exact HL].
    + cbn [try_catch bind]. destruct rows; finished.
Qed.

Lemma cleanup_steady (now : Z) : steady L (Index.post_admin_cleanup now).
Proof.
  unfold Index.post_admin_cleanup. cbn [try_catch bind await].
  apply steady_pool.
  - intros t e _ _. finished.
  - intros t t' a HL H. cbn [sql] in H. injection H as <- _.
    split; [apply L_cleanup; exact HL | finished].
Qed.

Lemma delete_steady (key_id : Z) : steady L (Index.delete_admin_keys key_id).
Proof.
  unfold Index.delete_admin_keys. cbn [try_catch bind await].
  apply steady_connect. cbn [try_catch bind].
  apply steady_begin. intros t HL. cbn [try_catch bind].
  apply closes_client_query; [intros e H; discriminate H |].
  intros w1 [] H1. cbn [sql] in H1. injection H1 as <-. cbn [try_catch bind].
  apply closes_client_query; [intros e H; discriminate H |].
  intros w2 [] H2. cbn [sql] in H2. injection H2 as <-. cbn [try_catch bind].
  apply closes_client_query; [intros e H; discriminate H |].
  intros w3 rows H3. cbn [sql] in H3. injection H3 as <- <-.
  cbn [try_catch bind].
  apply closes_commit; [apply (L_deleted t key_id HL) |].
  cbn [try_catch bind]. destruct (filter _ _); finished.
Qed.

Lemma handler_steady (o : Index.op) : steady L (Index.handler o).
Proof.
  destruct o; cbn [Index.handler]; apply steady_bind_pure.
  - apply generate_steady.
  - apply activate_steady.
  - apply verify_steady.
  - apply list_steady.
  - apply update_steady.
  - apply delete_steady.
  - apply logs_steady.
  - apply cleanup_steady.
  - apply health_steady.
  - apply janitor_steady.
Qed.

End HandlersSteady.

(** X16.  Requests in flight together.  However the handlers of any
    requests and runs of the janitor are resumed in turn at their awaits (a
    transaction, from BEGIN to COMMIT or ROLLBACK, being one turn), every
    turn leaves the tables consistent and no transaction open: the counter
    [used_devices] of every key is the number of its activation rows, every
    activation row refers to a key, and ids are distinct and below the
    sequence.  So the two activations that race past the check of the
    device limit still leave a counter that agrees with the rows. *)
Theorem interleaved_handlers_keep_consistency (ops : list Index.op)
    (schedule : list nat) (db : DB) :
  consistent (committed db) -> open_tx db = None ->
  consistent (committed (snd (interleave schedule (map Index.handler ops) db))) /\
  open_tx (snd (interleave schedule (map Index.handler ops) db)) = None.
Proof.
  intros Hc Htx.
  apply (interleave_steady consistent schedule (map Index.handler ops) db);
    [| exact Hc | exact Htx].
  apply Forall_forall. intros p Hp. apply in_map_iff in Hp.
  destruct Hp as (o & <- & _).
  apply handler_steady.
  - apply consistent_marked_expired.
  - apply consistent_log_written.
  - intros t now i d ip Hct Hex _. apply consistent_activation_committed; assumption.
  - intros t row Hct Hid Hu _. apply consistent_with_issued; assumption.
  - intros t sel f Hid Hu _ Hct. apply consistent_update_where; assumption.
  - intros t i. apply consistent_key_deleted.
  - intros t sel. apply consistent_delete_keys_where.
Qed.

Lemma interleaved_handlers_keep_consistency_witness :
  consistent
    (committed
       (snd (interleave Example.racing
               (map Index.handler
                    [Example.activate "device-B" 5000;
                     Example.activate "device-C" 5000])
               Example.one_device))) /\
  open_tx
    (snd (interleave Example.racing
            (map Index.handler
                 [Example.activate "device-B" 5000;
                  Example.activate "device-C" 5000])
            Example.one_device)) = None.
Proof.
  apply (interleaved_handlers_keep_consistency
           [Example.activate "device-B" 5000; Example.activate "device-C" 5000]
           Example.racing Example.one_device).
  - split.
    + repeat constructor; simpl; intuition discriminate.
    + intros k [<- | []]. simpl. lia.
    + intros a [<- | []]; reflexivity.
    + intros k [<- | []]. reflexivity.
  - reflexivity.
Defined.

(* ================================================================== *)
(** * Every request is answered *)
(* ================================================================== *)

(** A try block whose catch clause returns has caught whatever was thrown. *)
Lemma run_caught {R} (m : Prog R) (h : pg_error -> Prog R) :
  (forall e, exists r, h e = Ret r) ->
  forall faults db, exists r, snd (run (try_catch m h) faults db) = inr r.
Proof.
  intros Hh. induction m as [r | e | A q k IH]; intros faults db;
    cbn [try_catch run].
  - exists r. reflexivity.
  - destruct (Hh e) as [r ->]. exists r. reflexivity.
  - destruct (step (hd None faults) q db) as [db' r]. apply IH.
Qed.

Lemma run_answered {A B} (m : Prog A) (g : A -> B) :
  (forall faults db, exists r, snd (run m faults db) = inr r) ->
  forall faults db,
    exists r, snd (run (bind m (fun a => Ret (g a))) faults db) = inr r.
Proof.
  intros Hm faults db.
  rewrite (run_bind_pure m _ g) by reflexivity.
  destruct (Hm faults db) as [r Hr].
  destruct (run m faults db) as [db' [e | a]]; [discriminate |].
  exists (g a). reflexivity.
Qed.

(** ** No transaction is left open *)

Lemma closed_pool_query {A} (s : stmt A) : keeps closed (await (pool_query s)).
Proof.
  apply triple_await. intros [e |] db H; cbn [step fail exec]; [exact H |].
  destruct (sql s (committed db)) as [e | [t a]]; exact H.
Qed.

Lemma closed_logKeyActivity (keyId : Z) (action : string) (req : Req) (now : Z) :
  keeps closed (Index.logKeyActivity keyId action req now).
Proof.
  unfold Index.logKeyActivity.
  apply triple_catch with (E' := fun _ => closed);
    [apply closed_pool_query | intros e; apply keeps_ret].
Qed.

(** try { r = await pool.query(s); ... } catch (err) { ... }, with handlers
    that make no query. *)
Lemma closed_pool_handler {A R} (s : stmt A) (f : A -> Prog R)
    (h : pg_error -> Prog R) :
  (forall a, keeps closed (f a)) -> (forall e, keeps closed (h e)) ->
  keeps closed (try_catch (bind (await (pool_query s)) f) h).
Proof.
  intros Hf Hh. eapply triple_catch; [| exact Hh].
  eapply triple_bind; [apply closed_pool_query | exact Hf].
Qed.

Lemma anything_await {A} (q : query A) :
  triple (fun _ => True) (await q) (fun _ _ => True) (fun _ _ => True).
Proof.
  apply triple_await. intros f db _. destruct (step f q db) as [db' [e | a]]; exact I.
Qed.

Lemma commit_closes :
  triple (fun _ => True) (await client_commit) (fun _ => closed) (fun _ _ => True).
Proof.
  apply triple_await. intros [e |] db _; cbn [step fail exec]; [exact I |].
  destruct (open_tx db) eqn:Htx; [reflexivity | exact Htx].
Qed.

(** catch (err) { await client.query('ROLLBACK'); throw err; } *)
Lemma rollback_closes {R} (m : Prog R) :
  triple (fun _ => True) m (fun _ => closed) (fun _ _ => True) ->
  keeps closed (try m catch txErr => (await client_rollback ;; Throw txErr)).
Proof.
  intros Hm. apply triple_catch with (E' := fun _ _ => True).
  - apply (triple_weaken closed (fun _ => True) m (fun _ => closed)
             (fun _ => closed) (fun _ _ => True) (fun _ _ => True) Hm);
      intros; auto.
  - intros e. eapply triple_bind with (Q := fun _ => closed).
    + apply triple_await. intros [e' |] db _; reflexivity.
    + intros ?. apply triple_throw. auto.
Qed.

Lemma activate_closed (req : Req) (key device_id : option string) (now : Z) :
  keeps closed (Index.post_activateKey req key device_id now).
Proof.
  unfold Index.post_activateKey.
  apply triple_catch with (E' := fun _ => closed);
    [| intros e; destruct (String.eqb _ _); apply keeps_ret].
  destruct (truthy key) as [k |]; [| apply keeps_ret].
  destruct (truthy device_id) as [d |]; [| apply keeps_ret].
  destruct (_ || _); [apply keeps_ret |].
  eapply triple_bind; [apply closed_pool_query |].
  intros [| keyData rest]; [apply keeps_ret |].
  destruct (now >? expires_at keyData).
  { eapply triple_bind; [apply closed_pool_query |]. intros ?.
    eapply triple_bind; [apply closed_logKeyActivity |]. intros ?.
    apply keeps_ret. }
  destruct (negb _); [apply keeps_ret |].
  eapply triple_bind; [apply closed_pool_query |]. intros existing.
  destruct (0 <? _).
  { eapply triple_bind; [apply closed_logKeyActivity |]. intros ?.
    apply keeps_ret. }
  eapply triple_bind; [apply closed_pool_query |]. intros currentDevices.
  destruct (_ >=? _); [apply keeps_ret |].
  eapply triple_bind; [apply (triple_pool_connect closed) |]. intros ?.
  eapply triple_bind with (Q := fun _ => closed).
  { apply rollback_closes.
    eapply triple_bind; [apply anything_await |]. intros ?.
    eapply triple_bind; [apply anything_await |]. intros ?.
    eapply triple_bind; [apply anything_await |]. intros ?.
    apply commit_closes. }
  intros ?. eapply triple_bind; [apply closed_logKeyActivity |]. intros ?.
  apply keeps_ret.
Qed.

Lemma verify_closed (req : Req) (key device_id : option string) (now : Z) :
  keeps closed (Index.post_verifyKey req key device_id now).
Proof.
  unfold Index.post_verifyKey.
  apply triple_catch with (E' := fun _ => closed); [| intros e; apply keeps_ret].
  destruct (truthy key) as [k |]; [| apply keeps_ret].
  destruct (truthy device_id) as [d |]; [| apply keeps_ret].
  eapply triple_bind; [apply closed_pool_query |].
  intros [| [keyData device_activated] rest]; [apply keeps_ret |].
  destruct (now >? expires_at keyData).
  - eapply triple_bind; [apply closed_pool_query |]. intros ?.
    eapply triple_bind; [apply closed_logKeyActivity |]. intros ?.
    eapply triple_bind; [apply closed_pool_query |]. intros ?.
    apply keeps_ret.
  - cbv zeta.
    eapply triple_bind; [apply closed_logKeyActivity |]. intros ?.
    eapply triple_bind; [apply closed_pool_query |]. intros ?.
    apply keeps_ret.
Qed.

Lemma attempts_closed (keygen : nat -> string) (now dur maxd : Z) (st : string)
    (left : nat) :
  forall i, keeps closed (Index.generate_attempts keygen now dur maxd st left i).
Proof.
  induction left as [| left IH]; intros i; [apply keeps_ret |].
  cbn [Index.generate_attempts].
  eapply triple_bind with (Q := fun _ => closed).
  - apply closed_pool_handler.
    + intros [| row rest]; [apply triple_throw; auto | apply keeps_ret].
    + intros e. destruct (String.eqb _ _); [apply keeps_ret |].
      apply triple_throw. auto.
  - intros [response |]; [apply keeps_ret | apply IH].
Qed.

Lemma delete_closed (key_id : Z) : keeps closed (Index.delete_admin_keys key_id).
Proof.
  unfold Index.delete_admin_keys.
  apply triple_catch with (E' := fun _ => closed); [| intros e; apply keeps_ret].
  eapply triple_bind; [apply (triple_pool_connect closed) |]. intros ?.
  apply rollback_closes.
  eapply triple_bind; [apply anything_await |]. intros ?.
  eapply triple_bind; [apply anything_await |]. intros ?.
  eapply triple_bind; [apply anything_await |]. intros ?.
  eapply triple_bind; [apply anything_await |]. intros result.
  eapply triple_bind; [apply commit_closes |]. intros ?.
  destruct result; apply triple_ret; auto.
Qed.

Lemma handler_closed (o : Index.op) : keeps closed (Index.handler o).
Proof.
  destruct o as [body keygen now | req key dev now | req key dev now |
                 | kid body now | kid | kid | now | now | now];
    cbn [Index.handler];
    (eapply triple_bind; [| intros ?; apply keeps_ret]).
  - unfold Index.post_generateKey.
    apply triple_catch with (E' := fun _ => closed); [| intros e; apply keeps_ret].
    destruct (_ || _); [apply keeps_ret |].
    eapply triple_bind; [apply attempts_closed |].
    intros [u | response]; apply keeps_ret.
  - apply activate_closed.
  - apply verify_closed.
  - apply closed_pool_handler; intros ?; apply keeps_ret.
  - unfold Index.put_admin_keys.
    apply triple_catch with (E' := fun _ => closed); [| intros e; apply keeps_ret].
    destruct (Index.patch_is_empty body); [apply keeps_ret |].
    eapply triple_bind; [apply closed_pool_query |].
    intros [| row rest]; apply keeps_ret.
  - apply delete_closed.
  - apply closed_pool_handler; intros ?; apply keeps_ret.
  - apply closed_pool_handler; intros ?; apply keeps_ret.
  - apply closed_pool_handler; intros ?; apply keeps_ret.
  - apply closed_pool_handler; intros ?; apply keeps_ret.
Qed.

(** X17.  No request goes unanswered, and none leaves a transaction open.
    Under every fault schedule, whatever the tables hold, the handler of
    each route ends by returning a response and the janitor by returning:
    an error of the store, at any query, is caught inside the handler and
    never escapes it as a rejected promise.  And a transaction the handler
    has begun is committed or rolled back before it returns, also when
    BEGIN, a statement, COMMIT or ROLLBACK itself fails. *)
Theorem every_request_is_answered (o : Index.op)
    (faults : list (option pg_error)) (db : DB) :
  (exists r, snd (run (Index.handler o) faults db) = inr r) /\
  (open_tx db = None -> open_tx (fst (run (Index.handler o) faults db)) = None).
Proof.
  split.
  2: { intros Htx. pose proof (handler_closed o faults db Htx) as H.
       destruct (run (Index.handler o) faults db) as [db' [e | r]]; exact H. }
  destruct o as [body keygen now | req key dev now | req key dev now |
                 | kid body now | kid | kid | now | now | now];
    cbn [Index.handler]; apply run_answered; intros faults0 db0.
  - apply run_caught. intros e. eexists. reflexivity.
  - apply run_caught. intros e.
    destruct (String.eqb (err_code e) "23505"); eexists; reflexivity.
  - apply run_caught. intros e. eexists. reflexivity.
  - apply run_caught. intros e. eexists. reflexivity.
  - apply run_caught. intros e. eexists. reflexivity.
  - apply run_caught. intros e. eexists. reflexivity.
  - apply run_caught. intros e. eexists. reflexivity.
  - apply run_caught. intros e. eexists. reflexivity.
  - apply run_caught. intros e. eexists. reflexivity.
  - apply run_caught. intros e. eexists. reflexivity.
Qed.

(* ================================================================== *)
(** * The UNIQUE constraints, with handlers in flight *)
(* ================================================================== *)

Lemma distinct_with_new {A} (l : list A) (x : A) :
  NoDup l -> ~ In x l -> NoDup (l ++ [x]).
Proof.
  intros Hl Hx. induction Hl as [| y l Hy Hl IH]; cbn [app].
  - constructor; [intros [] | constructor].
  - constructor.
    + rewrite in_app_iff. intros [H | [H | []]]; [exact (Hy H) |].
      apply Hx. left. symmetry. exact H.
    + apply IH. intros H. apply Hx. right. exact H.
Qed.

(** The rows that a DELETE leaves are distinct in every column in which the
    rows of the table were. *)
Lemma distinct_after_delete {A B} (col : A -> B) (keep : A -> bool)
    (rows : list A) :
  NoDup (map col rows) -> NoDup (map col (filter keep rows)).
Proof.
  induction rows as [| r rows IH]; cbn [map filter]; intros H; [exact H |].
  inversion H as [| c cs Hc Hcs]; subst.
  destruct (keep r); cbn [map]; [| exact (IH Hcs)].
  constructor; [| exact (IH Hcs)].
  intros Hin. apply Hc. rewrite in_map_iff in *.
  destruct Hin as (r' & Hr' & Hin). exists r'. split; [exact Hr' |].
  apply (proj1 (filter_In keep r' rows) Hin).
Qed.

Lemma free_string_is_new (t : Tables) (s : string) :
  taken t s = false -> ~ In s (map key_string (keys t)).
Proof.
  intros Hfree Hin. apply in_map_iff in Hin. destruct Hin as (k & Hs & Hk).
  assert (taken t s = true).
  { apply existsb_exists. exists k. split; [exact Hk |].
    unfold key_has_string. rewrite Hs. apply String.eqb_refl. }
  congruence.
Qed.

Lemma free_device_is_new (t : Tables) (i : Z) (d : string) :
  activated t i d = false -> ~ In (i, d) (map binding (key_activations t)).
Proof.
  intros Hfree Hin. apply in_map_iff in Hin. destruct Hin as (a & Ha & Hin).
  unfold binding in Ha. injection Ha as Hi Hd.
  assert (activated t i d = true).
  { apply existsb_exists. exists a. split; [exact Hin |].
    unfold act_of_device. rewrite Hi, Hd, Z.eqb_refl, String.eqb_refl.
    reflexivity. }
  congruence.
Qed.

(** X18.  The two UNIQUE constraints hold with handlers in flight.  However
    the handlers of any requests and runs of the janitor are resumed in turn
    at their awaits, no two keys ever share a key string and no device is
    ever bound twice to the same key: issuance inserts only a string that is
    free at the moment of its INSERT, the activation transaction inserts
    only a binding that is absent at the moment of its INSERT (the request
    that loses such a race gets the 409), and no route rewrites a key
    string or a binding. *)
Theorem interleaved_handlers_keep_rows_unique (ops : list Index.op)
    (schedule : list nat) (db : DB) :
  unique_rows (committed db) -> open_tx db = None ->
  unique_rows (committed (snd (interleave schedule (map Index.handler ops) db))).
Proof.
  intros Hu Htx.
  apply (interleave_steady unique_rows schedule (map Index.handler ops) db);
    [| exact Hu | exact Htx].
  apply Forall_forall. intros p Hp. apply in_map_iff in Hp.
  destruct Hp as (o & <- & _).
  apply handler_steady.
  - intros t i [Hk Ha]. split; [| exact Ha].
    unfold marked_expired. cbn [with_keys keys].
    rewrite map_update_where by reflexivity. exact Hk.
  - intros t i action req now [Hk Ha].
    destruct (log_written_frame t i action req now) as (Hk' & Ha' & _).
    unfold unique_rows. rewrite Hk', Ha'. auto.
  - intros t now i d ip [Hk Ha] _ Hfree. split.
    + cbn [activation_committed keys].
      rewrite map_update_where by reflexivity. exact Hk.
    + cbn [activation_committed key_activations]. rewrite map_app.
      apply distinct_with_new; [exact Ha |].
      apply free_device_is_new. exact Hfree.
  - intros t row [Hk Ha] _ _ Hfree. split; [| exact Ha].
    cbn [with_issued keys]. rewrite map_app.
    apply distinct_with_new; [exact Hk |].
    apply free_string_is_new. exact Hfree.
  - intros t sel f _ _ Hs [Hk Ha]. split; [| exact Ha].
    cbn [with_keys keys]. rewrite map_update_where by exact Hs. exact Hk.
  - intros t i [Hk Ha]. rewrite key_deleted_rows. split.
    + apply distinct_after_delete. exact Hk.
    + apply distinct_after_delete. exact Ha.
  - intros t sel [Hk Ha]. split.
    + apply distinct_after_delete. exact Hk.
    + apply distinct_after_delete. exact Ha.
Qed.

Lemma interleaved_handlers_keep_rows_unique_witness :
  unique_rows
    (committed
       (snd (interleave Example.racing
               (map Index.handler
                    [Example.activate "device-B" 5000;
                     Example.activate "device-B" 5000])
               Example.one_device))).
Proof.
  apply (interleaved_handlers_keep_rows_unique
           [Example.activate "device-B" 5000; Example.activate "device-B" 5000]
           Example.racing Example.one_device).
  - split; repeat constructor; simpl; intuition discriminate.
  - reflexivity.
Defined.

(* ================================================================== *)
(** * Two activations in a row, and two at once *)
(* ================================================================== *)

Lemma activate_twice_witness :
  snd (run (Index.post_activateKey Example.req (Some Example.the_key)
                                   (Some "device-A") 2500)
           [] Example.one_device)
  = inr (AlreadyActivated (mkKey 1 Example.the_key 1 2 1 1000 3601000 "active"))
  /\
  key_activations
    (committed (fst (run (Index.post_activateKey Example.req
                            (Some Example.the_key) (Some "device-A") 2500)
                         [] Example.one_device)))
  = key_activations (committed Example.one_device).
Proof.
  destruct (activate_twice Example.issued Example.req Example.req
              (Some Example.the_key) (Some "device-A") 2000 2500
              (Activated (mkKey 1 Example.the_key 1 2 0 1000 3601000 "active") 1)
              eq_refl eq_refl)
    as (k & keyData & Hk & Hlook & H).
  injection Hk as <-. vm_compute in Hlook. injection Hlook as <-.
  destruct H as (H1 & H2 & _); [vm_compute; discriminate |].
  split; [exact H1 | exact H2].
Defined.

(** X20.  The device limit is not held for requests in flight together.
    The count of activation rows is read by one query and the row is
    inserted by a later one, in a transaction that does not look at the
    count again: there are tables within their limits, two Activate requests
    and an order of their awaits after which both requests have succeeded
    and a key has more activation rows than [max_devices], its counter
    [used_devices] having followed the rows. *)
Theorem overlapping_activations_exceed_the_limit :
  exists (db : DB) (o1 o2 : Index.op) (schedule : list nat),
    limit_respected (committed db) /\ open_tx db = None /\
    let after := interleave schedule [Index.handler o1; Index.handler o2] db in
    map (fun p => option_map (option_map http_status) (response_of p)) (fst after)
    = [Some (Some 200); Some (Some 200)] /\
    exists k, In k (keys (committed (snd after))) /\
              max_devices k < count_activations (committed (snd after)) (id k) /\
              used_devices k = count_activations (committed (snd after)) (id k).
Proof.
  exists Example.one_device, (Example.activate "device-B" 5000),
         (Example.activate "device-C" 5000), Example.racing.
  split; [| split; [reflexivity |]].
  - split.
    + repeat constructor; simpl; intuition discriminate.
    + intros k [<- | []]. vm_compute. split; discriminate.
  - cbv zeta. split; [vm_compute; reflexivity |].
    exists (mkKey 1 Example.the_key 1 2 3 1000 3601000 "active").
    vm_compute. split; [left; reflexivity | split; reflexivity].
Qed.

(* ================================================================== *)
(** * The first server.js: one device per key *)
(* ================================================================== *)

(** await pool.query(...), then the rest. *)
Lemma direct_bind_query {S A B} (statement : S -> pg_error + S * A)
    (k : A -> Direct.M S B) (faults : list (option pg_error)) (s : S) :
  Direct.bind (Direct.query statement) k faults s
  = match hd None faults with
    | Some e => (tl faults, s, inl e)
    | None =>
        match statement s with
        | inl e => (tl faults, s, inl e)
        | inr (s', a) => k a (tl faults) s'
        end
    end.
Proof.
  unfold Direct.bind, Direct.query.
  destruct (hd None faults) as [e |]; [reflexivity |].
  destruct (statement s) as [e | [s' a]]; reflexivity.
Qed.

Lemma direct_bind_assoc {S A B C} (m : Direct.M S A) (f : A -> Direct.M S B)
    (g : B -> Direct.M S C) (faults : list (option pg_error)) (s : S) :
  Direct.bind (Direct.bind m f) g faults s
  = Direct.bind m (fun a => Direct.bind (f a) g) faults s.
Proof.
  unfold Direct.bind. destruct (m faults s) as [[faults' s'] [e | a]]; reflexivity.
Qed.

Lemma legacy_log_frame (keyId : Z) (action : string) (req : Req) (now : Z)
    (faults : list (option pg_error)) (t : Legacy.Tables) :
  exists faults' t',
    Legacy.logKeyActivity keyId action req now faults t = (faults', t', inr tt) /\
    Legacy.keys t' = Legacy.keys t.
Proof.
  unfold Legacy.logKeyActivity, Direct.try_catch, Direct.query, Direct.ret.
  destruct (hd None faults) as [e |]; [eauto |].
  unfold Legacy.insert_log.
  destruct (negb (fits_varchar 50 action)); [eauto |].
  destruct (negb (existsb _ _)); eauto.
Qed.

(** The run of the handler without faults. *)
Lemma legacy_activate_run (req : Req) (key device_id : option string) (now : Z)
    (t : Legacy.Tables) :
  exists t',
    Direct.run (Legacy.post_activateKey req key device_id now) [] t
    = (t', inr
         match truthy key, truthy device_id with
         | Some k, Some d =>
             match filter (Legacy.key_has_string k) (Legacy.keys t) with
             | [] => res_status_json 404 (Legacy.failure "Key not found")
             | keyData :: _ =>
                 if negb (String.eqb (Legacy.status keyData) "active") then
                   res_status_json 400 (Legacy.failure "Key is not active")
                 else if now >? Legacy.expires_at keyData then
                   res_status_json 400 (Legacy.failure "Key has expired")
                 else if Legacy.used keyData
                         && negb (Legacy.owned_by keyData d) then
                   res_status_json 400
                     (Legacy.failure "Key already used by another device")
                 else Legacy.Granted keyData
             end
         | _, _ =>
             res_status_json 400 (Legacy.failure "Key and device_id are required")
         end) /\
    Legacy.keys t'
    = match truthy key, truthy device_id with
      | Some k, Some d =>
          match filter (Legacy.key_has_string k) (Legacy.keys t) with
          | keyData :: _ =>
              if String.eqb (Legacy.status keyData) "active"
                 && negb (now >? Legacy.expires_at keyData)
                 && negb (Legacy.used keyData)
              then update_where (Legacy.key_has_id (Legacy.id keyData))
                                (Legacy.own d (ip req)) (Legacy.keys t)
              else Legacy.keys t
          | [] => Legacy.keys t
          end
      | _, _ => Legacy.keys t
      end.
Proof.
  unfold Direct.run, Legacy.post_activateKey, Legacy.activate_found,
    Direct.try_catch.
  destruct (truthy key) as [k |]; [| exists t; split; reflexivity].
  destruct (truthy device_id) as [d |]; [| exists t; split; reflexivity].
  rewrite direct_bind_query. unfold Legacy.select_key. cbn [hd tl].
  destruct (filter (Legacy.key_has_string k) (Legacy.keys t)) as [| keyData rest];
    [exists t; split; reflexivity |].
  destruct (String.eqb (Legacy.status keyData) "active"); cbn [negb andb];
    [| exists t; split; reflexivity].
  destruct (now >? Legacy.expires_at keyData); cbn [negb andb];
    [exists t; split; reflexivity |].
  destruct (Legacy.used keyData); cbn [negb andb].
  - destruct (Legacy.owned_by keyData d); cbn [negb];
      [| exists t; split; reflexivity].
    unfold Direct.bind.
    destruct (legacy_log_frame (Legacy.id keyData) "verified_activation" req now
                               [] t) as (f' & t' & -> & Hk).
    exists t'. split; [reflexivity | exact Hk].
  - unfold Direct.bind at 1. rewrite direct_bind_query.
    unfold Legacy.update_owner. cbn [hd tl].
    destruct (legacy_log_frame (Legacy.id keyData) "activated" req now []
                (Legacy.with_keys t
                   (update_where (Legacy.key_has_id (Legacy.id keyData))
                                 (Legacy.own d (ip req)) (Legacy.keys t))))
      as (f' & t' & -> & Hk).
    exists t'. split; [reflexivity | exact Hk].
Qed.

(** What the handler leaves in the keys table, under every fault schedule:
    the keys as they were, or with an unused key given to the device. *)
Lemma legacy_activate_keys (req : Req) (key device_id : option string) (now : Z)
    (faults : list (option pg_error)) (t : Legacy.Tables) :
  let t' := fst (Direct.run (Legacy.post_activateKey req key device_id now)
                            faults t) in
  Legacy.keys t' = Legacy.keys t \/
  exists keyData d,
    In keyData (Legacy.keys t) /\ Legacy.used keyData = false /\
    Legacy.keys t'
    = update_where (Legacy.key_has_id (Legacy.id keyData))
                   (Legacy.own d (ip req)) (Legacy.keys t).
Proof.
  cbv zeta. unfold Direct.run, Legacy.post_activateKey, Legacy.activate_found,
    Direct.try_catch.
  destruct (truthy key) as [k |]; [| left; reflexivity].
  destruct (truthy device_id) as [d |]; [| left; reflexivity].
  rewrite direct_bind_query. unfold Legacy.select_key.
  destruct (hd None faults) as [e |]; [left; reflexivity |].
  destruct (filter (Legacy.key_has_string k) (Legacy.keys t))
    as [| keyData rest] eqn:Hrows; [left; reflexivity |].
  assert (Hin : In keyData (Legacy.keys t)).
  { assert (H : In keyData (filter (Legacy.key_has_string k) (Legacy.keys t)))
      by (rewrite Hrows; left; reflexivity).
    apply filter_In in H. tauto. }
  destruct (negb (String.eqb (Legacy.status keyData) "active"));
    [left; reflexivity |].
  destruct (now >? Legacy.expires_at keyData); [left; reflexivity |].
  destruct (Legacy.used keyData) eqn:Hused; cbn [negb andb].
  - destruct (negb (Legacy.owned_by keyData d)); [left; reflexivity |].
    unfold Direct.bind.
    destruct (legacy_log_frame (Legacy.id keyData) "verified_activation" req now
                               (tl faults) t) as (f' & t' & -> & Hk).
    left. exact Hk.
  - rewrite direct_bind_assoc, direct_bind_query. unfold Legacy.update_owner.
    destruct (hd None (tl faults)) as [e |]; [left; reflexivity |].
    unfold Direct.bind.
    destruct (legacy_log_frame (Legacy.id keyData) "activated" req now
                (tl (tl faults))
                (Legacy.with_keys t
                   (update_where (Legacy.key_has_id (Legacy.id keyData))
                                 (Legacy.own d (ip req)) (Legacy.keys t))))
      as (f' & t' & -> & Hk).
    right. exists keyData, d. split; [exact Hin |]. split; [exact Hused |].
    exact Hk.
Qed.

(** With distinct ids, the rows of an id are the one row that has it. *)
Lemma legacy_same_id (ks : list Legacy.KeyRow) (k1 k2 : Legacy.KeyRow) :
  NoDup (map Legacy.id ks) -> In k1 ks -> In k2 ks ->
  Legacy.id k1 = Legacy.id k2 -> k1 = k2.
Proof.
  induction ks as [| x ks IH]; cbn [map]; intros Hnd H1 H2 Hid; [destruct H1 |].
  apply NoDup_cons_iff in Hnd. destruct Hnd as [Hx Hnd].
  destruct H1 as [-> | H1], H2 as [-> | H2]; auto.
  - exfalso. apply Hx. rewrite Hid. apply in_map. exact H2.
  - exfalso. apply Hx. rewrite <- Hid. apply in_map. exact H1.
Qed.

(** A handler that has made its lookup is the handler resumed with the rows
    of that lookup. *)
Lemma legacy_activate_resumes (req : Req) (k d : string) (now : Z)
    (faults : list (option pg_error)) (t : Legacy.Tables) :
  k <> "" -> d <> "" ->
  Legacy.post_activateKey req (Some k) (Some d) now (None :: faults) t
  = Legacy.resumed req d now
      (filter (Legacy.key_has_string k) (Legacy.keys t)) faults t.
Proof.
  intros Hk Hd. unfold Legacy.post_activateKey, Legacy.resumed.
  rewrite (truthy_nonempty _ Hk), (truthy_nonempty _ Hd).
  unfold Direct.try_catch. rewrite direct_bind_query. reflexivity.
Qed.

(** The keys a sequence of calls leaves: the ids as they were, and every key
    that was used as it was. *)
Lemma legacy_activations_keep (calls : list Call)
    (faults : list (list (option pg_error))) (t : Legacy.Tables) :
  NoDup (map Legacy.id (Legacy.keys t)) ->
  let t' := Legacy.activations calls faults t in
  map Legacy.id (Legacy.keys t') = map Legacy.id (Legacy.keys t) /\
  forall k, In k (Legacy.keys t) -> Legacy.used k = true ->
            In k (Legacy.keys t').
Proof.
  cbv zeta. revert faults t.
  induction calls as [| c calls IH]; intros faults t Hnd; cbn [Legacy.activations].
  { split; [reflexivity | auto]. }
  set (t1 := fst (Direct.run (Legacy.post_activateKey (call_req c) (call_key c)
                                (call_device_id c) (call_now c))
                             (hd [] faults) t)).
  assert (H1 : map Legacy.id (Legacy.keys t1) = map Legacy.id (Legacy.keys t) /\
               forall k, In k (Legacy.keys t) -> Legacy.used k = true ->
                         In k (Legacy.keys t1)).
  { unfold t1.
    destruct (legacy_activate_keys (call_req c) (call_key c) (call_device_id c)
                (call_now c) (hd [] faults) t)
      as [-> | (keyData & d & Hin & Hunused & ->)]; [auto |].
    split.
    - unfold update_where. rewrite map_map. apply map_ext. intros k.
      destruct (Legacy.key_has_id _ k); reflexivity.
    - intros k Hk Hused. apply In_update_where. exists k. split; [exact Hk |].
      destruct (Legacy.key_has_id (Legacy.id keyData) k) eqn:Hid; [| reflexivity].
      unfold Legacy.key_has_id in Hid. apply Z.eqb_eq in Hid.
      rewrite (legacy_same_id _ k keyData Hnd Hk Hin Hid) in Hused. congruence. }
  destruct H1 as [Hids Hused].
  destruct (IH (tl faults) t1) as [Hids' Hused'].
  { rewrite Hids. exact Hnd. }
  split; [congruence |]. intros k Hk Hu. apply Hused'; [apply Hused |]; assumption.
Qed.

(** The run of a handler resumed with a row it read as unused, active and
    not past its expiry: it writes its device as the owner of that key,
    whatever the row has become, and grants the key. *)
Lemma legacy_resumed_run (req : Req) (d : string) (now : Z)
    (keyData : Legacy.KeyRow) (rest : list Legacy.KeyRow) (t : Legacy.Tables) :
  Legacy.status keyData = "active" -> now <= Legacy.expires_at keyData ->
  Legacy.used keyData = false ->
  exists t',
    Direct.run (Legacy.resumed req d now (keyData :: rest)) [] t
    = (t', inr (Legacy.Granted keyData)) /\
    Legacy.keys t'
    = update_where (Legacy.key_has_id (Legacy.id keyData))
                   (Legacy.own d (ip req)) (Legacy.keys t).
Proof.
  intros Hst Hnow Hunused.
  unfold Direct.run, Legacy.resumed, Legacy.activate_found, Direct.try_catch.
  rewrite Hst, String.eqb_refl, (gtb_false _ _ Hnow), Hunused. cbn [negb andb].
  unfold Direct.bind at 1. rewrite direct_bind_query.
  unfold Legacy.update_owner. cbn [hd tl].
  destruct (legacy_log_frame (Legacy.id keyData) "activated" req now []
              (Legacy.with_keys t
                 (update_where (Legacy.key_has_id (Legacy.id keyData))
                               (Legacy.own d (ip req)) (Legacy.keys t))))
    as (f' & t' & -> & Hk).
  exists t'. split; [reflexivity | exact Hk].
Qed.

(** X21.  The first server.js binds a key to one device as long as its
    Activate calls run one after the other.  Whatever is sent in any number
    of such calls, and whatever faults the store suffers meanwhile, a key
    that is used stays exactly as it is, owner included, and no key is
    added or removed.  Without faults, for a key that is found, active and
    not past its expiry: if it is unused the caller's device becomes its
    owner and the call succeeds; if it is used by this device the call
    succeeds and changes no key; if it is used by another device the call
    is answered 400 "Key already used by another device" and changes no
    key.  With two calls in flight the binding does not hold: the owner is
    written without a test of [used], so a second request that has read the
    key while it was unused, and is resumed after the first one has taken
    it, is granted the key as well and replaces the owner. *)
Theorem legacy_key_binds_one_device (req : Req) (key device_id : option string)
    (now : Z) (t : Legacy.Tables) :
  NoDup (map Legacy.id (Legacy.keys t)) ->
  (forall calls faults,
     let t' := Legacy.activations calls faults t in
     map Legacy.id (Legacy.keys t') = map Legacy.id (Legacy.keys t) /\
     forall k, In k (Legacy.keys t) -> Legacy.used k = true ->
               In k (Legacy.keys t')) /\
  (forall k d keyData rest,
     truthy key = Some k -> truthy device_id = Some d ->
     filter (Legacy.key_has_string k) (Legacy.keys t) = keyData :: rest ->
     Legacy.status keyData = "active" -> now <= Legacy.expires_at keyData ->
     let result := Direct.run (Legacy.post_activateKey req key device_id now)
                              [] t in
     if Legacy.used keyData then
       Legacy.keys (fst result) = Legacy.keys t /\
       snd result
       = inr (if Legacy.owned_by keyData d then Legacy.Granted keyData
              else res_status_json 400
                     (Legacy.failure "Key already used by another device"))
     else
       snd result = inr (Legacy.Granted keyData) /\
       In (Legacy.own d (ip req) keyData) (Legacy.keys (fst result))) /\
  (forall k d keyData rest req2 d2 now2,
     truthy key = Some k -> truthy device_id = Some d -> d2 <> "" ->
     filter (Legacy.key_has_string k) (Legacy.keys t) = keyData :: rest ->
     Legacy.status keyData = "active" ->
     now <= Legacy.expires_at keyData -> now2 <= Legacy.expires_at keyData ->
     Legacy.used keyData = false ->
     let first := Direct.run (Legacy.post_activateKey req key device_id now)
                             [] t in
     let second := Direct.run (Legacy.resumed req2 d2 now2 (keyData :: rest))
                              [] (fst first) in
     (forall faults,
        Legacy.post_activateKey req2 key (Some d2) now2 (None :: faults) t
        = Legacy.resumed req2 d2 now2 (keyData :: rest) faults t) /\
     snd first = inr (Legacy.Granted keyData) /\
     In (Legacy.own d (ip req) keyData) (Legacy.keys (fst first)) /\
     snd second = inr (Legacy.Granted keyData) /\
     In (Legacy.own d2 (ip req2) keyData) (Legacy.keys (fst second)) /\
     (d2 <> d ->
      ~ In (Legacy.own d (ip req) keyData) (Legacy.keys (fst second)))).
Proof.
  intros Hnd. split; [| split].
  - intros calls faults. apply legacy_activations_keep. exact Hnd.
  - intros k d keyData rest Hk Hd Hrows Hst Hnow result. subst result.
    destruct (legacy_activate_run req key device_id now t) as (t' & -> & Hkeys).
    rewrite Hk, Hd, Hrows in *. cbn [fst snd].
    rewrite Hst, String.eqb_refl, (gtb_false _ _ Hnow) in *. cbn [negb andb] in *.
    destruct (Legacy.used keyData); cbn [negb andb] in *.
    + split; [exact Hkeys |].
      destruct (Legacy.owned_by keyData d); reflexivity.
    + split; [reflexivity |]. rewrite Hkeys. apply In_update_where.
      exists keyData. split.
      * assert (H : In keyData (filter (Legacy.key_has_string k) (Legacy.keys t)))
          by (rewrite Hrows; left; reflexivity).
        apply filter_In in H. tauto.
      * unfold Legacy.key_has_id. rewrite Z.eqb_refl. reflexivity.
  - intros k d keyData rest req2 d2 now2 Hk Hd Hd2 Hrows Hst Hnow Hnow2 Hunused
           first second.
    assert (Hin : In keyData (Legacy.keys t)).
    { assert (H : In keyData (filter (Legacy.key_has_string k) (Legacy.keys t)))
        by (rewrite Hrows; left; reflexivity).
      apply filter_In in H. tauto. }
    assert (Hkey : key = Some k /\ k <> "").
    { destruct key as [[| c s] |]; cbn in Hk; try discriminate.
      injection Hk as <-. split; [reflexivity | discriminate]. }
    destruct Hkey as [-> Hne].
    destruct (legacy_activate_run req (Some k) device_id now t)
      as (t1 & Hfirst & Hkeys1).
    rewrite Hk, Hd, Hrows in Hfirst, Hkeys1.
    rewrite Hst, String.eqb_refl, (gtb_false _ _ Hnow), Hunused in Hfirst, Hkeys1.
    cbn [negb andb] in Hfirst, Hkeys1.
    destruct (legacy_resumed_run req2 d2 now2 keyData rest t1 Hst Hnow2 Hunused)
      as (t2 & Hsecond & Hkeys2).
    subst first second. rewrite Hfirst. cbn [fst snd]. rewrite Hsecond.
    cbn [fst snd]. rewrite Hkeys2, Hkeys1.
    assert (Hown : In (Legacy.own d (ip req) keyData)
                      (update_where (Legacy.key_has_id (Legacy.id keyData))
                                    (Legacy.own d (ip req)) (Legacy.keys t))).
    { apply In_update_where. exists keyData. split; [exact Hin |].
      unfold Legacy.key_has_id. rewrite Z.eqb_refl. reflexivity. }
    split; [| split; [reflexivity | split; [exact Hown | split; [reflexivity |]]]].
    + intros faults. rewrite (legacy_activate_resumes _ _ _ _ _ _ Hne Hd2), Hrows.
      reflexivity.
    + split.
      * apply In_update_where. exists (Legacy.own d (ip req) keyData).
        split; [exact Hown |]. unfold Legacy.key_has_id. cbn [Legacy.id Legacy.own].
        rewrite Z.eqb_refl. reflexivity.
      * intros Hne2 Hx. apply In_update_where in Hx.
        destruct Hx as (y & Hy & Hxy). apply In_update_where in Hy.
        destruct Hy as (z & Hz & ->).
        unfold Legacy.key_has_id in Hxy.
        destruct (Z.eqb_spec (Legacy.id z) (Legacy.id keyData)) as [Hid | Hid].
        -- cbn [Legacy.id Legacy.own] in Hxy. rewrite (proj2 (Z.eqb_eq _ _) Hid) in Hxy.
           apply (f_equal Legacy.owner_device_id) in Hxy.
           cbn [Legacy.owner_device_id Legacy.own] in Hxy. congruence.
        -- rewrite (proj2 (Z.eqb_neq _ _) Hid) in Hxy.
           apply (f_equal Legacy.id) in Hxy. cbn [Legacy.id Legacy.own] in Hxy.
           congruence.
Qed.

(** Device-B is refused the key that device-A owns.  But when both ask for
    the key as issued and device-B has made its lookup before device-A is
    served, device-B is granted the key too and is its owner in the end. *)
Lemma legacy_key_binds_one_device_witness :
  snd (Direct.run (Legacy.post_activateKey Example.req (Some "KEY1")
                                           (Some "device-B") 2000)
                  [] LegacyExample.owned)
  = inr (res_status_json 400
           (Legacy.failure "Key already used by another device"))
  /\
  let first :=
    Direct.run (Legacy.post_activateKey Example.req (Some "KEY1")
                                        (Some "device-A") 2000)
               [] LegacyExample.issued in
  let second :=
    Direct.run (Legacy.resumed Example.req "device-B" 2000
                               [LegacyExample.issued_key])
               [] (fst first) in
  snd first = inr (Legacy.Granted LegacyExample.issued_key) /\
  snd second = inr (Legacy.Granted LegacyExample.issued_key) /\
  In (Legacy.own "device-B" (ip Example.req) LegacyExample.issued_key)
     (Legacy.keys (fst second)) /\
  ~ In (Legacy.own "device-A" (ip Example.req) LegacyExample.issued_key)
       (Legacy.keys (fst second)).
Proof.
  split.
  - destruct (legacy_key_binds_one_device Example.req (Some "KEY1")
                (Some "device-B") 2000 LegacyExample.owned) as (_ & H & _).
    + repeat constructor. simpl. intuition.
    + exact (proj2 (H "KEY1" "device-B" LegacyExample.owned_key [] eq_refl
                      eq_refl eq_refl eq_refl ltac:(vm_compute; discriminate))).
  - destruct (legacy_key_binds_one_device Example.req (Some "KEY1")
                (Some "device-A") 2000 LegacyExample.issued) as (_ & _ & H).
    + repeat constructor. simpl. intuition.
    + destruct (H "KEY1" "device-A" LegacyExample.issued_key [] Example.req
                  "device-B" 2000 eq_refl eq_refl ltac:(discriminate) eq_refl
                  eq_refl ltac:(vm_compute; discriminate)
                  ltac:(vm_compute; discriminate) eq_refl)
        as (_ & H1 & _ & H2 & H3 & H4).
      cbv zeta. split; [exact H1 |]. split; [exact H2 |]. split; [exact H3 |].
      apply H4. discriminate.
Defined.

(* ================================================================== *)
(** * The first server.js: verification *)
(* ================================================================== *)

(** X22.  Verify of the first server.js answers valid true exactly when the
    key is found under the string as sent (it is neither trimmed nor put in
    upper case), its status is active, it is used, its owner is the
    caller's device, and the time is strictly before [expires_at].  Every
    Verify of a key that is found stamps [last_verified], valid or not,
    and changes no other column of any key. *)
Theorem legacy_verify_validity (req : Req) (key device_id : option string)
    (now : Z) (t : Legacy.Tables) :
  let result := Direct.run (Legacy.post_verifyKey req key device_id now) [] t in
  (says_valid (snd result) = true <->
   exists k d keyData rest,
     truthy key = Some k /\ truthy device_id = Some d /\
     filter (Legacy.key_has_string k) (Legacy.keys t) = keyData :: rest /\
     Legacy.status keyData = "active" /\
     Legacy.used keyData = true /\
     Legacy.owner_device_id keyData = Some d /\
     now < Legacy.expires_at keyData) /\
  (forall k d keyData rest,
     truthy key = Some k -> truthy device_id = Some d ->
     filter (Legacy.key_has_string k) (Legacy.keys t) = keyData :: rest ->
     Legacy.keys (fst result)
     = update_where (Legacy.key_has_id (Legacy.id keyData)) (Legacy.seen now)
                    (Legacy.keys t)).
Proof.
  cbv zeta. unfold Direct.run, Legacy.post_verifyKey, Direct.try_catch.
  destruct (truthy key) as [k |];
    [| split; [split; [intros H; cbn in H; discriminate H
                      | intros (? & ? & ? & ? & H & _); discriminate H]
              | intros ? ? ? ? H; discriminate H]].
  destruct (truthy device_id) as [d |];
    [| split; [split; [intros H; cbn in H; discriminate H
                      | intros (? & ? & ? & ? & _ & H & _); discriminate H]
              | intros ? ? ? ? _ H; discriminate H]].
  rewrite direct_bind_query. unfold Legacy.select_key. cbn [hd tl].
  destruct (filter (Legacy.key_has_string k) (Legacy.keys t))
    as [| keyData rest] eqn:Hrows.
  { split; [split; [intros H; cbn in H; discriminate H |]
           | intros k' d' kd rest' H1 _ H3; injection H1 as <-;
             rewrite Hrows in H3; discriminate H3].
    intros (k' & d' & kd & rest' & H1 & _ & H3 & _).
    injection H1 as <-. rewrite Hrows in H3. discriminate. }
  rewrite direct_bind_query. unfold Legacy.update_last_verified. cbn [hd tl].
  set (isValid := String.eqb (Legacy.status keyData) "active"
                  && Bool.eqb (Legacy.used keyData) true
                  && Legacy.owned_by keyData d
                  && (now <? Legacy.expires_at keyData)).
  set (t1 := Legacy.with_keys t _).
  assert (Hlog : exists f' t',
             (if isValid
              then Legacy.logKeyActivity (Legacy.id keyData) "verified" req now
              else Legacy.logKeyActivity (Legacy.id keyData)
                                         "verification_failed" req now) [] t1
             = (f', t', inr tt) /\ Legacy.keys t' = Legacy.keys t1).
  { destruct isValid; apply legacy_log_frame. }
  destruct Hlog as (f' & t' & Hlog & Hk).
  unfold Direct.bind. rewrite Hlog. unfold Direct.ret. cbn [fst snd].
  split.
  - cbn [says_valid Legacy.Verdict res_json field String.eqb Ascii.eqb Bool.eqb].
    subst isValid. split.
    + intros H. apply andb_true_iff in H. destruct H as [H Ht].
      apply andb_true_iff in H. destruct H as [H Ho].
      apply andb_true_iff in H. destruct H as [Hs Hu].
      apply String.eqb_eq in Hs. apply Z.ltb_lt in Ht.
      unfold Legacy.owned_by in Ho.
      destruct (Legacy.owner_device_id keyData) as [o |] eqn:Hown;
        [| discriminate].
      apply String.eqb_eq in Ho. subst o.
      destruct (Legacy.used keyData) eqn:Hused; [| discriminate].
      exists k, d, keyData, rest. auto 10.
    + intros (k' & d' & kd & rest' & H1 & H2 & H3 & Hs & Hu & Ho & Ht).
      injection H1 as <-. injection H2 as <-.
      rewrite Hrows in H3. injection H3 as <- <-.
      unfold Legacy.owned_by. rewrite Hs, Hu, Ho, !String.eqb_refl.
      apply Z.ltb_lt in Ht. rewrite Ht. reflexivity.
  - intros k' d' kd rest' H1 H2 H3. injection H1 as <-.
    rewrite Hrows in H3. injection H3 as <- <-. exact Hk.
Qed.

(* ================================================================== *)
(** * The first server.js: deleting keys *)
(* ================================================================== *)

Lemma legacy_unlogged_after_delete_logs (t : Legacy.Tables) (i : Z) :
  existsb (Legacy.logged
             (Legacy.mkTables (Legacy.keys t)
                (filter (fun l => negb (Legacy.log_key_id l =? i))
                        (Legacy.key_logs t))
                (Legacy.keys_id_seq t) (Legacy.key_logs_id_seq t)))
          (filter (Legacy.key_has_id i) (Legacy.keys t)) = false.
Proof.
  apply not_true_is_false. intros H. apply existsb_exists in H.
  destruct H as (k & Hk & Hlogged). apply filter_In in Hk. destruct Hk as [_ Hid].
  unfold Legacy.key_has_id in Hid. apply Z.eqb_eq in Hid.
  unfold Legacy.logged in Hlogged. cbn [Legacy.key_logs] in Hlogged.
  apply existsb_exists in Hlogged. destruct Hlogged as (l & Hl & Href).
  apply filter_In in Hl. destruct Hl as [_ Hl].
  rewrite Hid in Href. rewrite Href in Hl. discriminate.
Qed.

Lemma legacy_cleanup_run (now : Z) (t : Legacy.Tables) :
  Direct.run (Legacy.post_admin_cleanup now) [] t
  = (if existsb (Legacy.logged t) (filter (Legacy.expired_at now) (Legacy.keys t))
     then (t, inr (res_status_json 500 (Legacy.failure "Internal server error")))
     else (Legacy.with_keys t
             (filter (fun k => negb (Legacy.expired_at now k)) (Legacy.keys t)),
           inr (res_json
                  (JObj [("success", JBool true);
                         ("deleted_count",
                          JNum (Z.of_nat
                                  (List.length
                                     (filter (Legacy.expired_at now)
                                             (Legacy.keys t)))));
                         ("deleted_keys",
                          JArr (map Legacy.key_json
                                    (filter (Legacy.expired_at now)
                                            (Legacy.keys t))))])))).
Proof.
  unfold Direct.run, Legacy.post_admin_cleanup, Direct.try_catch.
  rewrite direct_bind_query. unfold Legacy.delete_keys_where. cbn [hd tl].
  destruct (existsb (Legacy.logged t) _); reflexivity.
Qed.

(** X23.  Deleting keys in the first server.js.  Its log refers to the keys
    without a cascade.  So the cleanup, a single DELETE of the keys past
    their expiry, deletes nothing and answers 500 as soon as one of them
    has a log entry: a key that was ever activated or verified stays for
    good.  And the delete of one key, which first deletes the log entries
    of the key and then the key in two statements of their own, removes
    both when the store is reachable, but when the second statement fails
    the log entries are gone and the key is still there. *)
Theorem legacy_deletes (now key_id : Z) (t : Legacy.Tables)
    (k : Legacy.KeyRow) (l : Legacy.LogRow) :
  In k (Legacy.keys t) -> Legacy.expires_at k < now ->
  In l (Legacy.key_logs t) -> Legacy.log_key_id l = Legacy.id k ->
  Direct.run (Legacy.post_admin_cleanup now) [] t
  = (t, inr (res_status_json 500 (Legacy.failure "Internal server error")))
  /\
  Direct.run (Legacy.post_admin_deleteKey key_id) [] t
  = (Legacy.mkTables
       (filter (fun k => negb (Legacy.key_has_id key_id k)) (Legacy.keys t))
       (filter (fun l => negb (Legacy.log_key_id l =? key_id)) (Legacy.key_logs t))
       (Legacy.keys_id_seq t) (Legacy.key_logs_id_seq t),
     inr (if existsb (Legacy.key_has_id key_id) (Legacy.keys t)
          then res_json (JObj [("success", JBool true)])
          else res_status_json 404 (Legacy.failure "Key not found")))
  /\
  (forall e faults,
     Direct.run (Legacy.post_admin_deleteKey key_id) (None :: Some e :: faults) t
     = (Legacy.mkTables
          (Legacy.keys t)
          (filter (fun l => negb (Legacy.log_key_id l =? key_id))
                  (Legacy.key_logs t))
          (Legacy.keys_id_seq t) (Legacy.key_logs_id_seq t),
        inr (res_status_json 500 (Legacy.failure "Internal server error")))).
Proof.
  intros Hk Hexp Hl Href. split; [| split].
  - rewrite legacy_cleanup_run.
    replace (existsb (Legacy.logged t) _) with true; [reflexivity |].
    symmetry. apply existsb_exists. exists k. split.
    + apply filter_In. split; [exact Hk |].
      unfold Legacy.expired_at. apply Z.ltb_lt. exact Hexp.
    + unfold Legacy.logged. apply existsb_exists. exists l.
      split; [exact Hl | apply Z.eqb_eq; exact Href].
  - unfold Direct.run, Legacy.post_admin_deleteKey, Direct.try_catch.
    rewrite direct_bind_query. unfold Legacy.delete_logs at 1. cbn [hd tl].
    rewrite direct_bind_query. unfold Legacy.delete_keys_where. cbn [hd tl].
    cbn [Legacy.keys]. rewrite legacy_unlogged_after_delete_logs.
    unfold Legacy.with_keys. cbn [Legacy.keys Legacy.key_logs Legacy.keys_id_seq
                                  Legacy.key_logs_id_seq].
    destruct (filter (Legacy.key_has_id key_id) (Legacy.keys t)) eqn:Hf.
    + apply filter_nil_existsb in Hf. rewrite Hf. reflexivity.
    + destruct (existsb (Legacy.key_has_id key_id) (Legacy.keys t)) eqn:He;
        [reflexivity |].
      apply filter_nil_existsb in He. congruence.
  - intros e faults.
    unfold Direct.run, Legacy.post_admin_deleteKey, Direct.try_catch.
    rewrite direct_bind_query. unfold Legacy.delete_logs at 1. cbn [hd tl].
    rewrite direct_bind_query. cbn [hd tl]. reflexivity.
Qed.

Lemma legacy_deletes_witness :
  Direct.run (Legacy.post_admin_cleanup 3601001) [] LegacyExample.owned
  = (LegacyExample.owned,
     inr (res_status_json 500 (Legacy.failure "Internal server error"))).
Proof.
  refine (proj1 (legacy_deletes 3601001 1 LegacyExample.owned
                   LegacyExample.owned_key
                   (Legacy.mkLog 1 1 "activated" "10.0.0.7" (Some "curl/8.4") 2000)
                   _ _ _ _)).
  - left. reflexivity.
  - vm_compute. reflexivity.
  - left. reflexivity.
  - reflexivity.
Defined.

(* ================================================================== *)
(** * The earlier variant: cleanup *)
(* ================================================================== *)

Lemma earlier_cleanup_run (now : Z) (t : Tables) :
  Direct.run (EarlierCleanup.post_admin_cleanup now) [] t
  = (if existsb (EarlierCleanup.referenced t) (filter (expired_at now) (keys t))
     then (t, inr (res_status_json 500
                     (Earlier.failure "Internal server error")))
     else (with_keys t (filter (fun k => negb (expired_at now k)) (keys t)),
           inr (Cleaned (filter (expired_at now) (keys t))))).
Proof.
  unfold Direct.run, EarlierCleanup.post_admin_cleanup, Direct.try_catch.
  rewrite direct_bind_query. unfold EarlierCleanup.delete_expired_keys.
  cbn [hd tl]. destruct (existsb (EarlierCleanup.referenced t) _); reflexivity.
Qed.

(** X24.  The cleanup of the earlier variant.  Its activations and its log
    refer to the keys without a cascade, so its DELETE of the keys past
    their expiry deletes nothing and is answered 500 as soon as one of them
    has an activation: a key that a device has activated is never cleaned
    up.  The cleanup of index.js, on the same tables, deletes that key. *)
Theorem earlier_cleanup_refuses_activated_keys (now : Z) (t : Tables)
    (k : KeyRow) (a : ActivationRow) :
  In k (keys t) -> expires_at k < now ->
  In a (key_activations t) -> act_key_id a = id k ->
  Direct.run (EarlierCleanup.post_admin_cleanup now) [] t
  = (t, inr (res_status_json 500 (Earlier.failure "Internal server error")))
  /\
  ~ In k (keys (committed (fst (run (Index.post_admin_cleanup now) []
                                    (mkDB t None))))).
Proof.
  intros Hk Hexp Ha Href. split.
  - rewrite earlier_cleanup_run.
    replace (existsb (EarlierCleanup.referenced t) _) with true; [reflexivity |].
    symmetry. apply existsb_exists. exists k. split.
    + apply filter_In. split; [exact Hk |].
      unfold expired_at. apply Z.ltb_lt. exact Hexp.
    + unfold EarlierCleanup.referenced. apply orb_true_iff. left.
      apply existsb_exists. exists a. split; [exact Ha |].
      unfold act_of_key. apply Z.eqb_eq. exact Href.
  - cbn [Index.post_admin_cleanup try_catch bind await run hd step exec sql
         committed fst delete_keys_where keys].
    intros Hin. apply filter_In in Hin. destruct Hin as [_ Hin].
    unfold expired_at in Hin. apply Z.ltb_lt in Hexp. rewrite Hexp in Hin.
    discriminate.
Qed.

Lemma earlier_cleanup_refuses_activated_keys_witness :
  Direct.run (EarlierCleanup.post_admin_cleanup Example.after_expiry) []
             (committed Example.one_device)
  = (committed Example.one_device,
     inr (res_status_json 500 (Earlier.failure "Internal server error"))).
Proof.
  refine (proj1 (earlier_cleanup_refuses_activated_keys Example.after_expiry
                   (committed Example.one_device)
                   (mkKey 1 Example.the_key 1 2 1 1000 3601000 "active")
                   (mkActivation 1 1 "device-A" "10.0.0.7" 2000) _ _ _ _)).
  - left. reflexivity.
  - vm_compute. reflexivity.
  - left. reflexivity.
  - reflexivity.
Defined.

(* ================================================================== *)
(** * The first server.js: issuance *)
(* ================================================================== *)

(** X25.  Issuance in the first server.js does not look at the duration.  A
    request with a duration of zero or less, which index.js answers 400
    before any query, is there answered with a new key whose expiry is not
    after its creation: every later Activate of that key is answered "Key
    has expired". *)
Theorem legacy_issues_expired_keys (t : Legacy.Tables) (d : Z)
    (keyString device_id : string) (req : Req) (now later : Z)
    (keygen : nat -> string) :
  d <= 0 -> fits_integer d = true ->
  keyString <> "" -> fits_varchar 255 keyString = true ->
  existsb (Legacy.key_has_string keyString) (Legacy.keys t) = false ->
  device_id <> "" -> now < later ->
  let row := Legacy.mkKey (Legacy.keys_id_seq t) keyString d now
                          (now + d * 60 * 60 * 1000) "active" false None None
                          None in
  let issue := Direct.run (Legacy.post_generateKey (Some d) None keyString now)
                          [] t in
  snd issue
  = inr (res_json (JObj [("success", JBool true); ("key", JStr keyString);
                         ("expires_at", JDate (now + d * 60 * 60 * 1000));
                         ("duration_hours", JNum d)])) /\
  Legacy.keys (fst issue) = (Legacy.keys t ++ [row])%list /\
  snd (Direct.run (Legacy.post_activateKey req (Some keyString) (Some device_id)
                                           later) [] (fst issue))
  = inr (res_status_json 400 (Legacy.failure "Key has expired")) /\
  (forall faults db,
     run (Index.post_generateKey (Index.mkGenerateBody (Some d) None None)
                                 keygen now) faults db
     = (db, inr (res_status_json 400
                   (Index.failure "Valid duration_hours is required")))).
Proof.
  intros Hd Hfd Hne Hfs Hfree Hdev Hlater row issue.
  assert (Hissue : issue
                   = (Legacy.mkTables (Legacy.keys t ++ [row]) (Legacy.key_logs t)
                                      (Legacy.keys_id_seq t + 1)
                                      (Legacy.key_logs_id_seq t),
                      inr (res_json
                             (JObj [("success", JBool true);
                                    ("key", JStr keyString);
                                    ("expires_at",
                                     JDate (now + d * 60 * 60 * 1000));
                                    ("duration_hours", JNum d)])))).
  { unfold issue, Direct.run, Legacy.post_generateKey, Direct.try_catch.
    cbv zeta. rewrite direct_bind_query. unfold Legacy.insert_key, Index.default.
    cbn [hd tl]. rewrite Hfs, Hfd, Hfree. reflexivity. }
  rewrite Hissue. cbn [fst snd Legacy.keys].
  split; [reflexivity |]. split; [reflexivity |]. split.
  - destruct (legacy_activate_run req (Some keyString) (Some device_id) later
                (Legacy.mkTables (Legacy.keys t ++ [row]) (Legacy.key_logs t)
                                 (Legacy.keys_id_seq t + 1)
                                 (Legacy.key_logs_id_seq t)))
      as (t' & -> & _).
    rewrite (truthy_nonempty _ Hne), (truthy_nonempty _ Hdev).
    cbn [snd Legacy.keys]. rewrite filter_app.
    rewrite (proj2 (filter_nil_existsb _ _) Hfree). cbn [app filter].
    unfold Legacy.key_has_string at 1. cbn [Legacy.key_string row].
    rewrite String.eqb_refl.
    change (Legacy.status row) with "active".
    change (Legacy.expires_at row) with (now + d * 60 * 60 * 1000).
    rewrite (gtb_true later (now + d * 60 * 60 * 1000)) by lia. reflexivity.
  - intros faults db. unfold Index.post_generateKey, Index.default.
    cbn [Index.g_duration_hours].
    replace ((d =? 0) || (d <=? 0)) with true; [reflexivity |].
    symmetry. apply orb_true_iff. right. apply Z.leb_le. exact Hd.
Qed.

Lemma legacy_issues_expired_keys_witness :
  snd (Direct.run (Legacy.post_activateKey Example.req (Some "KEY2")
                                           (Some "device-B") 5001) []
         (fst (Direct.run (Legacy.post_generateKey (Some 0) None "KEY2" 5000)
                          [] LegacyExample.owned)))
  = inr (res_status_json 400 (Legacy.failure "Key has expired")).
Proof.
  refine (proj1 (proj2 (proj2
    (legacy_issues_expired_keys LegacyExample.owned 0 "KEY2" "device-B"
       Example.req 5000 5001 Example.stuck_keygen _ _ _ _ _ _ _)))).
  - lia.
  - reflexivity.
  - discriminate.
  - reflexivity.
  - reflexivity.
  - discriminate.
  - lia.
Defined.

(* ================================================================== *)
(** * Refusals that leave no trace *)
(* ================================================================== *)

(** A handler whose first await is a read that fails or finds the tables as
    they are. *)
Lemma run_read_first {A R} (s : stmt A) (v : Tables -> A)
    (k : pg_error + A -> Prog R) (faults : list (option pg_error)) (db : DB) :
  (forall t, sql s t = inr (t, v t)) ->
  run (Await (pool_query s) k) faults db
  = match hd None faults with
    | Some e => run (k (inl e)) (tl faults) db
    | None => run (k (inr (v (committed db)))) (tl faults) db
    end.
Proof.
  intros Hs. cbn [run]. destruct (hd None faults) as [e |]; cbn [step fail exec];
    [reflexivity |].
  rewrite Hs. destruct db; reflexivity.
Qed.

(** X26.  The refusals of Activate that leave no trace.  For a key that is
    found and not past its expiry, a status other than active is answered
    "Key is not active", and a device without activation that finds the
    activation rows of the key at the limit is answered "Key has reached
    maximum device limit"; in both cases, under every fault schedule, the
    store is exactly as it was: no status is written and, unlike the
    refusal of an expired key, nothing is logged. *)
Theorem refusals_leave_no_trace (db : DB) (req : Req)
    (key device_id : option string) (k d : string) (now : Z)
    (keyData : KeyRow) :
  truthy key = Some k -> truthy device_id = Some d ->
  5 <= strlen d <= 255 ->
  lookup_key (committed db) k = Some keyData ->
  now <= expires_at keyData ->
  status keyData <> "active" \/
  (activated (committed db) (id keyData) d = false /\
   max_devices keyData <= count_activations (committed db) (id keyData)) ->
  (forall faults,
     fst (run (Index.post_activateKey req key device_id now) faults db) = db) /\
  snd (run (Index.post_activateKey req key device_id now) [] db)
  = inr (if String.eqb (status keyData) "active"
         then DeviceLimitReached else KeyNotActive).
Proof.
  intros Hk Hd Hlen Hlook Hnow Hwhy.
  destruct (lookup_key_rows _ _ _ Hlook) as [rest Hrows].
  assert (Hrun : forall faults,
             run (Index.post_activateKey req key device_id now) faults db
             = (db, snd (run (Index.post_activateKey req key device_id now)
                             faults db))
             /\
             (faults = [] ->
              snd (run (Index.post_activateKey req key device_id now) faults db)
              = inr (if String.eqb (status keyData) "active"
                     then DeviceLimitReached else KeyNotActive))).
  { intros faults. unfold Index.post_activateKey.
    rewrite Hk, Hd, (device_id_accepted _ Hlen).
    cbn [try_catch bind await].
    rewrite (run_read_first _ (fun t => filter (key_has_string (toUpperCase (trim k)))
                                               (keys t))) by reflexivity.
    destruct (hd None faults) as [e |] eqn:Hf1.
    { cbn [try_catch bind]. destruct (String.eqb (err_code e) "23505");
        cbn [run fst snd]; (split; [reflexivity | intros ->; discriminate Hf1]). }
    rewrite Hrows. cbn [try_catch bind]. rewrite (gtb_false _ _ Hnow).
    destruct (String.eqb_spec (status keyData) "active") as [Hst | Hst];
      [| cbn [negb try_catch bind run fst snd]; split; reflexivity].
    destruct Hwhy as [Hne | [Hact Hfull]]; [contradiction |].
    cbn [negb try_catch bind await].
    rewrite (run_read_first _ (fun t => filter (act_of_device (id keyData) d)
                                               (key_activations t)))
      by reflexivity.
    destruct (hd None (tl faults)) as [e |] eqn:Hf2.
    { cbn [try_catch bind]. destruct (String.eqb (err_code e) "23505");
        cbn [run fst snd];
        (split; [reflexivity | intros ->; discriminate Hf2]). }
    cbn [try_catch bind]. rewrite filter_length_pos.
    fold (activated (committed db) (id keyData) d).
    rewrite Hact. cbn [try_catch bind await].
    rewrite (run_read_first _ (fun t => count_activations t (id keyData)))
      by reflexivity.
    destruct (hd None (tl (tl faults))) as [e |] eqn:Hf3.
    { cbn [try_catch bind]. destruct (String.eqb (err_code e) "23505");
        cbn [run fst snd];
        (split; [reflexivity | intros ->; discriminate Hf3]). }
    cbn [try_catch bind].
    replace (count_activations (committed db) (id keyData) >=? max_devices keyData)
      with true by (symmetry; rewrite Z.geb_leb; apply Z.leb_le; exact Hfull).
    cbn [try_catch bind run fst snd]. split; reflexivity. }
  split.
  - intros faults. rewrite (proj1 (Hrun faults)). reflexivity.
  - apply (proj2 (Hrun [])). reflexivity.
Qed.

Lemma refusals_leave_no_trace_witness :
  fst (run (Index.post_activateKey Example.req (Some Example.the_key)
                                   (Some "device-C") 3500)
           [None; None; Some connection_failure] Example.two_devices)
  = Example.two_devices
  /\
  snd (run (Index.post_activateKey Example.req (Some Example.the_key)
                                   (Some "device-C") 3500)
           [] Example.two_devices)
  = inr DeviceLimitReached.
Proof.
  destruct (refusals_leave_no_trace Example.two_devices Example.req
              (Some Example.the_key) (Some "device-C") Example.the_key
              "device-C" 3500
              (mkKey 1 Example.the_key 1 2 2 1000 3601000 "active"))
    as [H1 H2].
  - reflexivity.
  - reflexivity.
  - vm_compute. split; discriminate.
  - reflexivity.
  - vm_compute. discriminate.
  - right. split; [reflexivity | vm_compute; discriminate].
  - split; [apply H1 | exact H2].
Defined.

(* ================================================================== *)
(** * The earlier variant: the order of the two checks *)
(* ================================================================== *)

(** X27.  In the activation route of the earlier variant the status check
    comes before the expiry check, and neither refusal writes anything.  A
    key that is found with a status other than active is answered "Key is
    not active" even when it is past its expiry (index.js answers "Key has
    expired" and marks it); an active key past its expiry is answered "Key
    has expired".  In both cases, under every fault schedule, the store is
    exactly as it was: the status stays as stored and nothing is logged. *)
Theorem earlier_status_check_wins (db : DB) (req : Req)
    (key device_id : option string) (k d : string) (now : Z)
    (keyData : KeyRow) :
  truthy key = Some k -> truthy device_id = Some d ->
  5 <= strlen d <= 255 ->
  lookup_key (committed db) k = Some keyData ->
  status keyData <> "active" \/ expires_at keyData < now ->
  (forall faults,
     fst (run (Earlier.post_activateKey req key device_id now) faults db) = db) /\
  snd (run (Earlier.post_activateKey req key device_id now) [] db)
  = inr (res_status_json 400
           (Earlier.failure (if String.eqb (status keyData) "active"
                             then "Key has expired" else "Key is not active"))) /\
  (expires_at keyData < now ->
   snd (run (Index.post_activateKey req key device_id now) [] db)
   = inr KeyExpired).
Proof.
  intros Hk Hd Hlen Hlook Hwhy.
  destruct (lookup_key_rows _ _ _ Hlook) as [rest Hrows].
  assert (Hrun : forall faults,
             fst (run (Earlier.post_activateKey req key device_id now) faults db)
             = db /\
             (faults = [] ->
              snd (run (Earlier.post_activateKey req key device_id now) faults db)
              = inr (res_status_json 400
                       (Earlier.failure
                          (if String.eqb (status keyData) "active"
                           then "Key has expired" else "Key is not active"))))).
  { intros faults. unfold Earlier.post_activateKey.
    rewrite Hk, Hd, (device_id_accepted _ Hlen).
    cbn [try_catch bind await].
    rewrite (run_read_first _ (fun t => filter (key_has_string (toUpperCase (trim k)))
                                               (keys t))) by reflexivity.
    destruct (hd None faults) as [e |] eqn:Hf1.
    { cbn [try_catch bind]. destruct (String.eqb (err_code e) "23505");
        cbn [run fst snd]; (split; [reflexivity | intros ->; discriminate Hf1]). }
    rewrite Hrows. cbn [try_catch bind].
    destruct (String.eqb_spec (status keyData) "active") as [Hst | Hst];
      [| cbn [negb try_catch bind run fst snd]; split; reflexivity].
    destruct Hwhy as [Hne | Hexp]; [contradiction |].
    rewrite (gtb_true _ _ Hexp).
    cbn [negb try_catch bind run fst snd]. split; reflexivity. }
  split; [| split].
  - intros faults. apply (Hrun faults).
  - apply (proj2 (Hrun [])). reflexivity.
  - intros Hexp.
    rewrite (activate_expired_run db req key device_id k d now keyData)
      by assumption.
    reflexivity.
Qed.

Lemma earlier_status_check_wins_witness :
  snd (run (Earlier.post_activateKey Example.req (Some Example.the_key)
                                     (Some "device-B") Example.after_expiry)
           [] Example.disabled)
  = inr (res_status_json 400 (Earlier.failure "Key is not active"))
  /\
  snd (run (Index.post_activateKey Example.req (Some Example.the_key)
                                   (Some "device-B") Example.after_expiry)
           [] Example.disabled)
  = inr KeyExpired.
Proof.
  destruct (earlier_status_check_wins Example.disabled Example.req
              (Some Example.the_key) (Some "device-B") Example.the_key
              "device-B" Example.after_expiry
              (mkKey 1 Example.the_key 1 2 1 1000 3601000 "inactive"))
    as (_ & H2 & H3).
  - reflexivity.
  - reflexivity.
  - vm_compute. split; discriminate.
  - reflexivity.
  - left. discriminate.
  - split; [exact H2 | apply H3; vm_compute; reflexivity].
Defined.

(* ================================================================== *)
(** * What the admin decides takes effect *)
(* ================================================================== *)

Lemma lookup_after_update (t : Tables) (k : string) (keyData : KeyRow)
    (now : Z) (p : KeyPatch) :
  lookup_key t k = Some keyData ->
  lookup_key (with_keys t (update_where (key_has_id (id keyData))
                                        (apply_patch now p) (keys t))) k
  = Some (apply_patch now p keyData).
Proof.
  intros Hlook. destruct (lookup_key_rows _ _ _ Hlook) as [rest Hrows].
  unfold lookup_key. cbn [with_keys keys].
  rewrite filter_update_where_string by (intros; apply apply_patch_string).
  rewrite Hrows. unfold update_where. cbn [map hd_error].
  unfold key_has_id. rewrite Z.eqb_refl. reflexivity.
Qed.

(** X28.  Revoking a key.  Once the admin has set the status of a key to
    anything but active, the key is refused to everyone until the status is
    set back: Verify answers valid false also to a device that is
    activated, and Activate answers "Key is not active" (or "Key has
    expired" once the expiry has passed).  The update itself leaves the
    activations, the counter and the expiry of the key as they were. *)
Theorem revoked_key_is_refused (db : DB) (req : Req) (k d : string)
    (keyData : KeyRow) (s : string) (now0 now : Z) :
  k <> "" -> 5 <= strlen d <= 255 ->
  lookup_key (committed db) k = Some keyData ->
  s <> "active" -> strlen s <= 20 ->
  let revoked :=
    fst (run (Index.put_admin_keys (id keyData) (mkPatch None (Some s) None) now0)
             [] db) in
  key_activations (committed revoked) = key_activations (committed db) /\
  lookup_key (committed revoked) k = Some (set_key_status s keyData) /\
  says_valid (snd (run (Index.post_verifyKey req (Some k) (Some d) now) []
                       revoked)) = false /\
  snd (run (Index.post_activateKey req (Some k) (Some d) now) [] revoked)
  = inr (if now >? expires_at keyData then KeyExpired else KeyNotActive).
Proof.
  intros Hk Hd Hlook Hs Hlen revoked.
  assert (Hfits : patch_fits (mkPatch None (Some s) None) = true).
  { unfold patch_fits. cbn [set_duration_hours set_status set_max_devices andb].
    rewrite (fits_varchar_le 20 s Hlen). reflexivity. }
  assert (Hrevoked :
            committed revoked
            = with_keys (committed db)
                (update_where (key_has_id (id keyData))
                   (apply_patch now0 (mkPatch None (Some s) None))
                   (keys (committed db)))).
  { unfold revoked. rewrite update_run. cbn [Index.patch_is_empty
      set_duration_hours set_status set_max_devices hd].
    rewrite (sql_update_key now0 (mkPatch None (Some s) None) (id keyData)
               (committed db) eq_refl Hfits).
    reflexivity. }
  assert (Hlook' : lookup_key (committed revoked) k
                   = Some (set_key_status s keyData)).
  { rewrite Hrevoked.
    apply (lookup_after_update (committed db) k keyData now0
             (mkPatch None (Some s) None) Hlook). }
  assert (Hne : String.eqb s "active" = false)
    by (apply String.eqb_neq; exact Hs).
  assert (Hd' : d <> "") by (apply strlen_nonempty; lia).
  split; [rewrite Hrevoked; reflexivity |]. split; [exact Hlook' |]. split.
  - rewrite verify_run, (truthy_nonempty _ Hk), (truthy_nonempty _ Hd'), Hlook'.
    cbv zeta. cbn [status expires_at set_key_status].
    destruct (now >? expires_at keyData); [reflexivity |].
    rewrite Hne. reflexivity.
  - rewrite activate_run, (truthy_nonempty _ Hk), (truthy_nonempty _ Hd'),
      (device_id_accepted _ Hd), Hlook'.
    cbv zeta. cbn [status expires_at set_key_status].
    destruct (now >? expires_at keyData); [reflexivity |].
    rewrite Hne. reflexivity.
Qed.

Lemma revoked_key_is_refused_witness :
  says_valid
    (snd (run (Index.post_verifyKey Example.req (Some Example.the_key)
                                    (Some "device-A") 4500) []
              (fst (run (Index.put_admin_keys 1 (mkPatch None (Some "inactive") None)
                                              4000)
                        [] Example.one_device)))) = false.
Proof.
  refine (proj1 (proj2 (proj2
    (revoked_key_is_refused Example.one_device Example.req Example.the_key
       "device-A" (mkKey 1 Example.the_key 1 2 1 1000 3601000 "active")
       "inactive" 4000 4500 _ _ _ _ _)))).
  - discriminate.
  - vm_compute. split; discriminate.
  - reflexivity.
  - discriminate.
  - vm_compute. discriminate.
Defined.

(** X29.  Deleting a key.  Once the admin's delete of a key has gone
    through, the string of the key opens nothing any more: Verify answers
    valid false with "Key not found" and Activate answers 404, for every
    device, also one that was activated; and neither leaves a trace in the
    store.  (No two keys share a string, as the schema has it.) *)
Theorem deleted_key_is_not_found (db : DB) (req : Req) (k d : string)
    (keyData : KeyRow) (now : Z) :
  NoDup (map key_string (keys (committed db))) ->
  k <> "" -> 5 <= strlen d <= 255 ->
  lookup_key (committed db) k = Some keyData ->
  let deleted := fst (run (Index.delete_admin_keys (id keyData)) [] db) in
  snd (run (Index.delete_admin_keys (id keyData)) [] db) = inr Deleted /\
  lookup_key (committed deleted) k = None /\
  run (Index.post_verifyKey req (Some k) (Some d) now) [] deleted
  = (deleted, inr NoSuchKey) /\
  run (Index.post_activateKey req (Some k) (Some d) now) [] deleted
  = (deleted, inr KeyNotFound).
Proof.
  intros Hnd Hk Hd Hlook deleted.
  destruct (lookup_key_In _ _ _ Hlook) as [Hin Hstr].
  assert (Hgone : lookup_key (committed deleted) k = None).
  { unfold deleted. rewrite delete_run. cbn [fst committed].
    rewrite key_deleted_rows. unfold lookup_key. cbn [without_key keys].
    rewrite filter_none; [reflexivity |].
    intros k' Hk'. apply filter_In in Hk'. destruct Hk' as [Hk' Hid].
    apply not_true_is_false. intros Hs. unfold key_has_string in Hs.
    apply String.eqb_eq in Hs.
    assert (k' = keyData).
    { clear - Hnd Hk' Hin Hs Hstr. rewrite <- Hstr in Hs.
      induction (keys (committed db)) as [| x l IH]; [destruct Hin |].
      cbn [map] in Hnd. apply NoDup_cons_iff in Hnd. destruct Hnd as [Hx Hnd].
      destruct Hk' as [-> | Hk'], Hin as [-> | Hin]; auto.
      - exfalso. apply Hx. rewrite Hs. apply in_map. exact Hin.
      - exfalso. apply Hx. rewrite <- Hs. apply in_map. exact Hk'. }
    subst k'. unfold key_has_id in Hid. rewrite Z.eqb_refl in Hid. discriminate. }
  assert (Hd' : d <> "") by (apply strlen_nonempty; lia).
  split; [| split; [exact Hgone | split]].
  - rewrite delete_run. cbn [snd]. rewrite (In_key_exists _ _ Hin). reflexivity.
  - rewrite verify_run, (truthy_nonempty _ Hk), (truthy_nonempty _ Hd'), Hgone.
    reflexivity.
  - rewrite activate_run, (truthy_nonempty _ Hk), (truthy_nonempty _ Hd'),
      (device_id_accepted _ Hd), Hgone.
    reflexivity.
Qed.

Lemma deleted_key_is_not_found_witness :
  run (Index.post_verifyKey Example.req (Some Example.the_key) (Some "device-A")
                            2500) []
      (fst (run (Index.delete_admin_keys 1) [] Example.one_device))
  = (fst (run (Index.delete_admin_keys 1) [] Example.one_device), inr NoSuchKey).
Proof.
  refine (proj1 (proj2 (proj2
    (deleted_key_is_not_found Example.one_device Example.req Example.the_key
       "device-A" (mkKey 1 Example.the_key 1 2 1 1000 3601000 "active") 2500
       _ _ _ _)))).
  - repeat constructor. simpl. intuition.
  - discriminate.
  - vm_compute. split; discriminate.
  - reflexivity.
Defined.
